(* ===== verification/_CoqProject ===== *)
-Q . S2P
Prelude.v
GoStrings.v
NetAddr.v
Values.v
Names.v
Rbac.v
LocalDb.v
Settings.v
Jobs.v
Proxy.v
Prog.v
Mux.v
K8sTypes.v
KubeApi.v
Operator.v
K8s.v
DbDiscovery.v
DbManager.v
DbHandlers.v
DbSystem.v
Registry.v
Router.v
RouterCluster.v
RouterSafety.v
Published.v
Store.v
Metrics.v
Permission.v
HostApp.v
HostMount.v
Orch.v
Secrets.v
Connector.v
Config.v
Sdk.v
SdkHost.v
SdkRows.v
Workflows.v
Heap.v
DeepCopy.v
PortForward.v
Serve.v
Changefeed.v
Opening.v
Middleware.v
Forward.v
Upstream.v
