(* ===== verification/Prelude.v ===== *)
(** * GuildNet: a verification library for the Go host application

    GuildNet's host application serves an HTTP API and a reverse proxy in
    front of Kubernetes clusters: users start workspaces, reach them through
    the proxy, and keep tables in per-organisation databases.  This library
    models the Go code that decides something (under src/internal, src/api,
    src/pkg, src/cmd and the client of src/metaguildnet/sdk/go) and proves what
    makes it correct.

    ** Parts and how they interact

    The host (cmd/hostapp) reads its configuration (pkg/config), takes a lock,
    joins a tailnet and serves one handler: the middlewares of internal/httpx
    around its own endpoints, the router of internal/api and the reverse proxy
    (internal/proxy).  The router passes requests to the settings
    (internal/settings), the jobs (internal/jobs, whose handlers are in
    internal/orch), the cluster registry (internal/cluster) and the Kubernetes
    client (internal/k8s).  The registry keeps one instance per cluster: a
    local store (internal/localdb), a Kubernetes client, a tailnet connector
    (internal/ts) and a database connection.  The database API
    (internal/httpx) authorises a request with the role store and passes it to
    the database manager (internal/db), which stores databases, tables and
    rows in RethinkDB under names derived from tenant and database ids.  The
    operator (internal/operator) turns Workspace resources (api/v1alpha1) into
    deployments and services.  The SDK is a client of the HTTP API;
    cmd/tsnet-forward forwards local ports into the tailnet.

    ** Files

    - [Prelude]: the result type, tactics, the hint database [gn], generic list
      and map lemmas, and runs of executable step functions.
    - [GoStrings]: Go strings as bytes with UTF-8 decoding, and the functions
      of the packages strings, strconv and unicode that the code calls.
    - [NetAddr]: addresses of package net and internal/proxy/allowlist.go.
    - [Values]: values of type [any], documents, and internal/model.
    - [Names]: dbName (internal/db/db.go), dns1123Name (internal/k8s/k8s.go),
      sanitizeID (internal/cluster/registry.go).
    - [Rbac]: internal/httpx/rbac.go; the store refines a finite map.
    - [LocalDb]: internal/localdb over the class [Sql] of SQL statements.
    - [Settings]: internal/settings/settings.go over [LocalDb].
    - [Jobs]: internal/jobs; the runner's goroutines are a step relation, its
      durable store the class [Persist], implemented by [LocalDb].
    - [Proxy]: internal/proxy/reverse_proxy.go.
    - [Prog]: programs that make requests, as trees with one subtree per
      answer, their runs and their execution against a server.
    - [Mux]: pattern matching of http.ServeMux.
    - [K8sTypes], [KubeApi]: Kubernetes objects, the Workspace resource, the
      requests to the API server, and the class [KubeLib] of client-go and
      controller-runtime procedures.
    - [Operator]: internal/operator/workspace_controller.go.
    - [K8s]: internal/k8s/k8s.go.
    - [DbDiscovery]: the address discovery of internal/db/db.go and cluster.go.
    - [DbManager]: the rest of internal/db, over the class [Rethink].
    - [DbHandlers]: internal/httpx/db_handlers.go, as programs over the
      interface of db_iface.go; [DbSystem]: these programs run against the
      manager that implements the interface.
    - [Registry]: internal/cluster/registry.go.
    - [Router], [RouterCluster]: the handlers of internal/api (router.go,
      cluster_status.go) as programs over the services they call;
      [RouterSafety]: what the routes let a caller do; [Published]: the
      published services and their restoration.
    - [Store]: internal/store; [Metrics]: internal/metrics;
      [Permission]: internal/permission.
    - [HostApp]: the endpoints of cmd/hostapp/main.go; [HostMount]: how they and
      the router are mounted together.
    - [Orch]: internal/orch, internal/headscale and internal/audit, composed
      with the job runner; [Secrets]: internal/secrets;
      [Connector]: internal/ts/connector; [Config]: pkg/config.
    - [Sdk]: the client of metaguildnet/sdk/go; [SdkHost], [SdkRows]: that
      client run against the host, and its row operations down to the handlers
      of the database API; [Workflows]: the example programs of
      metaguildnet (sdk/go/examples, orchestrator/examples) over the operations
      of the client, and the interpretation of these operations as requests.
    - [Heap], [DeepCopy]: a heap with pointers and slices, and the deep copies
      of api/v1alpha1/types.go on it.
    - [PortForward]: internal/k8s/portforward.go, as interleaved callers.
    - [Serve]: the start-up of cmd/hostapp/main.go, its lock and its end.
    - [Changefeed]: the goroutine of SubscribeTable with its handler.
    - [Opening]: opening stores (internal/localdb), building and probing
      clients (internal/k8s/k8s.go, internal/api/router.go).
    - [Middleware]: internal/httpx/middleware.go around an arbitrary handler.
    - [Forward]: cmd/tsnet-forward, internal/ts/tsnet.go and the host's own
      record.
    - [Upstream]: the outgoing requests of the reverse proxy, composed with
      the options of the host.

    ** What the theorems show

    Stores: Grant and Revoke refine a map from (scope, principal) to binding,
    and masking redacts exactly the masked columns; the local store obeys the
    laws of a map and its logs only grow by whole lines; settings, job records,
    databases and secrets round-trip.

    Authorisation: over every path, method and body, the database API asks the
    manager for a write, a schema change or a row query only if the caller's
    role allows it, and the theorem names the requests that are not checked;
    run against the manager, the API of an organisation changes no database of
    another one and a viewer changes no table of a user; the router changes state only for callers with the token, with the
    exceptions the theorem names.

    State machines: in every reachable state of the job runner, queues and
    buffers are within capacity and no event is sent on a closed channel;
    registry operations keep ids normalised; concurrent EnsureRDB callers make
    at most five attempts each, and two of them can leak a connection; port
    forwards, change feeds, the connector, the lock file and the forwarder have
    theorems of the same form, each with the interleaving that goes wrong.

    Request programs: a completed reconciliation wrote the deployment spec, the
    service and the status derived from the Workspace, in this order; the
    workload client wrote objects that select and point at each other; a
    bootstrap stores everything or nothing; the host binds no socket before its
    lock, and its SDK fails against it on the requests the theorem names.
    These hold for all answers of the other side.

    Paging: a page is the next run of rows in key order, and an export run
    against the manager ends and returns exactly the first rows of the stored
    table, masked.

    Client programs: what the examples create, delete and leave behind on every
    run, that the goroutines of the multi-cluster example all end, and where
    these programs stop when the host answers them.

    Proxying: what is forwarded has a valid scheme, path and port, reaches the
    address that was chosen and loses exactly the control parameters; rewritten
    Location, Content-Security-Policy and Set-Cookie headers have the shape
    the doc comments describe, or the difference is stated.

    Types and memory: deep copies of well-typed objects on a well-typed heap
    end in a well-typed heap, and share exactly the cells the theorem names.

    ** What the theorems assume

    External code enters through classes, each with an executable instance for
    the witnesses: [UnicodeCase] (case tables of package unicode), [Sql],
    [Persist], [TimeFmt] and [TimeParse], [KubeLib], [Labels] (selectors),
    [Rethink] with [RethinkLaws] and [RethinkFrame] (documented behaviour of
    the queries, and that a command touches what it names only; every method
    may fail at any time), [Codec] and [SdkCodec], [Bodies], [SpecDec] (JSON and CSV
    bodies), [ClusterEnv], [RouterEnv], [HostEnv] and [SdkEnv] (environment
    variables, decoding, client construction), [Aead] (AES-GCM with its laws),
    and [MetaLib] with [MetaRefs] and [MetaCopies] (the metadata types of
    apimachinery and their deep copies).  Programs over requests assume nothing
    about the answers.

    ** Bounds and fuel

    Integers converted to int32 by the source are wrapped by [int32_of], the
    counters of [Metrics] wrap at 64 bits; ports and counters that stay in
    range are plain [Z].  The operator's loops have the source's own bounds (5
    verification attempts, 20 polls), as have the ten tries for a free name,
    the five attempts to open a store and the 256 places of a change feed.
    The export loop has fuel [limit + 1]: every iteration but the last adds a
    row, and the loop stops at [limit] rows, so the fuel never runs out, which
    [DbHandlers.export_complete] proves.  The whitespace and dash collapsing
    loops of [Names] have the length of the string as fuel; each iteration
    shortens it.  Polling loops (ts.Info, the SDK's Wait) are bounded by the
    answers they get or by fuel, and running out of it is a result of its own:
    [None], still waiting.

    ** Not modelled

    Bytes on the wire: TLS sockets, the tsnet server, HTTP transports, the
    websocket copies of the router, log lines, the output and the pauses of the
    example programs.  cmd/tsnet-subnet-router only
    starts tsnet and logs.  Loading and saving the configuration file, the
    options of the SDK's transport and the scheme registration of the custom
    resources are calls of libraries.  The test helpers of the SDK and the
    scripts under metaguildnet and MetaGuildNet are clients of the code
    above. *)

From Corelib Require Export ssreflect.
From Stdlib Require Export ZArith Ascii String.
From stdpp Require Export base tactics gmap strings list pretty.

#[export] Set Warnings "-rewrite-rw,-clear-no-such-hyp".

Global Open Scope general_if_scope.
#[export] Set SsrOldRewriteGoalsOrder.
#[global] Arguments String.append : simpl nomatch.

(** ** Scopes and the result type *)

Declare Scope go_scope.
Delimit Scope go_scope with go.

(** A Go call that returns [(T, error)]: a non-nil error is its text, as
    returned by [err.Error()]; the code under verification only ever
    inspects errors through their text. *)
Inductive result (A : Type) : Type :=
  | Ok (a : A)
  | Err (e : string).
Arguments Ok {A} _.
Arguments Err {A} _.

Definition result_bind {A B} (m : result A) (k : A → result B) : result B :=
  match m with Ok a => k a | Err e => Err e end.

Notation "'let*' x := m 'in' k" := (result_bind m (fun x => k))
  (at level 10, x name, m at level 100, k at level 200) : go_scope.

Definition is_ok {A} (m : result A) : bool :=
  match m with Ok _ => true | Err _ => false end.

#[export] Instance result_eq_dec {A} `{EqDecision A} : EqDecision (result A).
Proof. solve_decision. Defined.

(** ** Automation *)

Create HintDb gn.

(** Case analysis on every [match]/[if] of the goal and the context, closing
    the contradictory branches. *)
Ltac gn_split :=
  repeat (case_match; simplify_eq/=); try done.

(** Decide boolean tests on strings. *)
Ltac str_cases :=
  repeat match goal with
  | H : (?a =? ?b)%string = true |- _ => apply String.eqb_eq in H
  | H : (?a =? ?b)%string = false |- _ => apply String.eqb_neq in H
  end; simplify_eq/=.

(** Turn boolean comparisons of the context into propositions. *)
Ltac bool_props :=
  repeat match goal with
  | H : _ && _ = true |- _ => apply andb_true_iff in H as [? ?]
  | H : _ && _ = false |- _ => apply andb_false_iff in H
  | H : _ || _ = false |- _ => apply orb_false_iff in H as [? ?]
  | H : _ || _ = true |- _ => apply orb_true_iff in H
  | H : negb _ = true |- _ => apply negb_true_iff in H
  | H : negb _ = false |- _ => apply negb_false_iff in H
  | H : (_ <=? _)%Z = true |- _ => apply Z.leb_le in H
  | H : (_ <=? _)%Z = false |- _ => apply Z.leb_gt in H
  | H : (_ <? _)%Z = true |- _ => apply Z.ltb_lt in H
  | H : (_ <? _)%Z = false |- _ => apply Z.ltb_ge in H
  | H : (_ =? _)%Z = true |- _ => apply Z.eqb_eq in H
  | H : (_ =? _)%Z = false |- _ => apply Z.eqb_neq in H
  | H : (_ <=? _)%nat = true |- _ => apply Nat.leb_le in H
  | H : (_ <=? _)%nat = false |- _ => apply Nat.leb_gt in H
  | H : (_ <? _)%nat = true |- _ => apply Nat.ltb_lt in H
  | H : (_ <? _)%nat = false |- _ => apply Nat.ltb_ge in H
  | H : (_ =? _)%nat = true |- _ => apply Nat.eqb_eq in H
  | H : (_ =? _)%nat = false |- _ => apply Nat.eqb_neq in H
  end.

(** ** Generic list functions and lemmas *)

(** Drop the longest prefix whose elements satisfy [p]. *)
Fixpoint drop_while {A} (p : A → bool) (l : list A) : list A :=
  match l with
  | [] => []
  | x :: l' => if p x then drop_while p l' else l
  end.

(** Drop matching elements at both ends. *)
Definition trim_by {A} (p : A → bool) (l : list A) : list A :=
  reverse (drop_while p (reverse (drop_while p l))).

(** The first element satisfying a boolean test (a [for] loop with [break]). *)
Fixpoint find_first {A} (p : A → bool) (l : list A) : option A :=
  match l with
  | [] => None
  | x :: l' => if p x then Some x else find_first p l'
  end.

Lemma drop_while_suffix {A} (p : A → bool) l :
  ∃ pre, l = pre ++ drop_while p l ∧ Forall (λ x, p x = true) pre.
Proof.
  induction l as [|x l IH]; simpl; [by exists []|].
  destruct (p x) eqn:E; [|by exists []].
  destruct IH as (pre & Heq & HF). exists (x :: pre).
  rewrite {1}Heq. auto.
Qed.

Lemma drop_while_head {A} (p : A → bool) l :
  match drop_while p l with [] => True | x :: _ => p x = false end.
Proof. induction l as [|x l IH]; simpl; [done|]. by destruct (p x) eqn:E. Qed.

Lemma drop_while_id {A} (p : A → bool) l :
  match l with [] => True | x :: _ => p x = false end → drop_while p l = l.
Proof. destruct l as [|x l]; simpl; [done|]. by intros ->. Qed.

Lemma trim_by_infix {A} (p : A → bool) l :
  ∃ a b, l = a ++ trim_by p l ++ b.
Proof.
  destruct (drop_while_suffix p l) as (a & Ha & _).
  destruct (drop_while_suffix p (reverse (drop_while p l))) as (b & Hb & _).
  exists a, (reverse b). rewrite {1}Ha. f_equal. unfold trim_by.
  rewrite -reverse_app -Hb. by rewrite reverse_involutive.
Qed.

Lemma trim_by_last {A} (p : A → bool) l :
  drop_while p (reverse (trim_by p l)) = reverse (trim_by p l).
Proof.
  unfold trim_by. rewrite reverse_involutive.
  apply drop_while_id, drop_while_head.
Qed.

Lemma trim_by_first {A} (p : A → bool) l :
  drop_while p (trim_by p l) = trim_by p l.
Proof.
  apply drop_while_id. unfold trim_by.
  set (m := drop_while p l).
  destruct (drop_while_suffix p (reverse m)) as (b & Hb & _).
  apply (f_equal reverse) in Hb. rewrite reverse_involutive reverse_app in Hb.
  pose proof (drop_while_head p l) as Hh. fold m in Hh. rewrite Hb in Hh.
  by destruct (reverse (drop_while p (reverse m))).
Qed.

Lemma trim_by_idemp {A} (p : A → bool) l : trim_by p (trim_by p l) = trim_by p l.
Proof.
  unfold trim_by at 1. rewrite trim_by_first trim_by_last.
  apply reverse_involutive.
Qed.

Lemma snd_pair {A B} (p : A * B) b : p.2 = b → p = (p.1, b).
Proof. intros <-. by destruct p. Qed.

Lemma find_first_Some {A} (p : A → bool) l x :
  find_first p l = Some x → x ∈ l ∧ p x = true.
Proof.
  induction l as [|y l IH]; simpl; [done|].
  destruct (p y) eqn:E; intros H; simplify_eq; set_solver.
Qed.

Lemma find_first_None {A} (p : A → bool) l :
  find_first p l = None ↔ Forall (λ x, p x = false) l.
Proof.
  induction l as [|y l IH]; simpl; [by split|].
  rewrite Forall_cons. destruct (p y) eqn:E; naive_solver.
Qed.

Lemma NoDup_fmap_filter {A B} (f : A → B) (p : A → bool) l :
  NoDup (f <$> l) → NoDup (f <$> List.filter p l).
Proof.
  induction l as [|x l IH]; simpl; [done|]. rewrite NoDup_cons. intros [Hx HN].
  destruct (p x); simpl; [|auto]. apply NoDup_cons. split; [|auto].
  intros H. apply Hx. apply list_elem_of_fmap in H as (y & -> & Hy).
  apply list_elem_of_In, List.filter_In in Hy as [Hy _].
  apply list_elem_of_fmap. exists y. by rewrite list_elem_of_In.
Qed.

Lemma Forall_List_filter {A} (P : A → Prop) (p : A → bool) l :
  Forall P l → Forall P (List.filter p l).
Proof. induction 1; simpl; [constructor|]. destruct (p _); auto. Qed.

(** ** Executable transition systems *)

(** A sequence of events, none of which may be refused. *)
Definition run_events {E S} (f : E → S → option S) (es : list E) (s : S) : option S :=
  foldl (λ o e, o ≫= f e) (Some s) es.

Lemma run_events_rtc {E S} (f : E → S → option S) (R : S → S → Prop) es s s' :
  (∀ e x y, f e x = Some y → R x y) → run_events f es s = Some s' → rtc R s s'.
Proof.
  intros HR. unfold run_events. revert s; induction es as [|e es IH]; intros s E1; [by simplify_eq/=|].
  cbn [foldl mbind option_bind] in E1. destruct (f e s) as [s1|] eqn:Es.
  - eapply rtc_l; [by eapply HR|by apply IH].
  - exfalso. clear -E1. by induction es.
Qed.

#[export] Hint Resolve drop_while_head trim_by_idemp : gn.
