(* ===== verification/GoStrings.v ===== *)
(** * Go strings

    The part of Go's [string] type and of the packages [strings],
    [unicode/utf8], [unicode] and [strconv] that the host application uses.
    A Go string is a sequence of bytes; ranging over it decodes UTF-8, and
    every malformed byte yields the replacement rune.  Case mapping outside
    ASCII follows the Unicode tables of the [unicode] package, which enter
    through the class [UnicodeCase]; white space is given in full. *)

From S2P Require Import Prelude.

Local Open Scope Z_scope.

(** ** Bytes and strings *)

Abbreviation bytes := (list ascii).

Definition s2b (s : string) : bytes := list_ascii_of_string s.
Definition b2s (b : bytes) : string := string_of_list_ascii b.

(** A byte as an integer between 0 and 255, and back. *)
Definition bz (c : ascii) : Z := Z.of_N (N_of_ascii c).
Definition zb (z : Z) : ascii := ascii_of_N (Z.to_N z).

Definition slen (s : string) : Z := Z.of_nat (String.length s).

(** ** UTF-8 ([utf8.DecodeRuneInString], [utf8.AppendRune]) *)

Definition RuneError : Z := 0xFFFD.

Definition in_range (lo hi x : Z) : bool := (lo <=? x) && (x <=? hi).

(** Number of bytes announced by a first byte; 0 when it cannot start a rune. *)
Definition rune_size (b0 : Z) : nat :=
  (if (in_range 0xC2 0xDF b0)%Z then 2
   else if (in_range 0xE0 0xEF b0)%Z then 3
   else if (in_range 0xF0 0xF4 b0)%Z then 4
   else 0)%nat.

(** The second byte's accepted range depends on the first (no overlong
    encodings, no surrogates, nothing above 0x10FFFF). *)
Definition second_ok (b0 b1 : Z) : bool :=
  if b0 =? 0xE0 then in_range 0xA0 0xBF b1
  else if b0 =? 0xED then in_range 0x80 0x9F b1
  else if b0 =? 0xF0 then in_range 0x90 0xBF b1
  else if b0 =? 0xF4 then in_range 0x80 0x8F b1
  else in_range 0x80 0xBF b1.

Definition cont_ok (b : Z) : bool := in_range 0x80 0xBF b.

Definition low6 (b : Z) : Z := Z.land b 0x3F.

Definition decode_rune (s : bytes) : Z * nat :=
  match s with
  | [] => (RuneError, 0%nat)
  | c0 :: s1 =>
      let b0 := bz c0 in
      if b0 <? 0x80 then (b0, 1%nat)
      else
        match rune_size b0, s1 with
        | 2%nat, c1 :: _ =>
            if second_ok b0 (bz c1)
            then (Z.lor (Z.shiftl (Z.land b0 0x1F) 6) (low6 (bz c1)), 2%nat)
            else (RuneError, 1%nat)
        | 3%nat, c1 :: c2 :: _ =>
            if second_ok b0 (bz c1) && cont_ok (bz c2)
            then (Z.lor (Z.shiftl (Z.land b0 0x0F) 12)
                    (Z.lor (Z.shiftl (low6 (bz c1)) 6) (low6 (bz c2))), 3%nat)
            else (RuneError, 1%nat)
        | 4%nat, c1 :: c2 :: c3 :: _ =>
            if second_ok b0 (bz c1) && cont_ok (bz c2) && cont_ok (bz c3)
            then (Z.lor (Z.shiftl (Z.land b0 0x07) 18)
                    (Z.lor (Z.shiftl (low6 (bz c1)) 12)
                       (Z.lor (Z.shiftl (low6 (bz c2)) 6) (low6 (bz c3)))), 4%nat)
            else (RuneError, 1%nat)
        | _, _ => (RuneError, 1%nat)
        end
  end.

(** The runes of a string with the bytes each one was decoded from. *)
Fixpoint segs_from (skip : nat) (s : bytes) : list (Z * bytes) :=
  match s with
  | [] => []
  | _ :: s' =>
      match skip with
      | S k => segs_from k s'
      | O => let '(r, w) := decode_rune s in
             (r, take w s) :: segs_from (w - 1) s'
      end
  end.

Definition segs (s : bytes) : list (Z * bytes) := segs_from 0 s.

(** [for _, r := range s]. *)
Definition runes (s : string) : list Z := (segs (s2b s)).*1.

Definition encode_rune (r : Z) : bytes :=
  let r := if in_range 0 0x10FFFF r && negb (in_range 0xD800 0xDFFF r)
           then r else RuneError in
  if r <? 0x80 then [zb r]
  else if r <? 0x800 then
    [zb (Z.lor 0xC0 (Z.shiftr r 6)); zb (Z.lor 0x80 (low6 r))]
  else if r <? 0x10000 then
    [zb (Z.lor 0xE0 (Z.shiftr r 12)); zb (Z.lor 0x80 (low6 (Z.shiftr r 6)));
     zb (Z.lor 0x80 (low6 r))]
  else
    [zb (Z.lor 0xF0 (Z.shiftr r 18)); zb (Z.lor 0x80 (low6 (Z.shiftr r 12)));
     zb (Z.lor 0x80 (low6 (Z.shiftr r 6))); zb (Z.lor 0x80 (low6 r))].

(** [string(rs)] for a slice of runes. *)
Definition string_of_runes (rs : list Z) : string := b2s (mjoin (encode_rune <$> rs)).

(** ** Case and white space ([unicode]) *)

(** The Unicode case tables, for runes outside ASCII: the lower-case image of
    a rune and membership of two runes in one simple-folding orbit. *)
Class UnicodeCase := {
  lower_wide : Z → Z;
  fold_wide : Z → Z → bool
}.

(** Tables without any entry outside ASCII. *)
Definition ascii_case : UnicodeCase :=
  {| lower_wide := id; fold_wide := λ _ _, false |}.

Definition IsSpace (r : Z) : bool :=
  in_range 0x09 0x0D r || (r =? 0x20) || (r =? 0x85) || (r =? 0xA0)
  || (r =? 0x1680) || in_range 0x2000 0x200A r || (r =? 0x2028)
  || (r =? 0x2029) || (r =? 0x202F) || (r =? 0x205F) || (r =? 0x3000).

Definition lower_rune `{UnicodeCase} (r : Z) : Z :=
  if r <? 0x80 then (if in_range 65 90 r then r + 32 else r) else lower_wide r.

Definition fold_eq `{UnicodeCase} (a b : Z) : bool :=
  (a =? b) ||
  if (a <? 0x80) && (b <? 0x80) then lower_rune a =? lower_rune b
  else fold_wide a b.

(** ** Package [strings] *)

Definition ToLower `{UnicodeCase} (s : string) : string :=
  string_of_runes (lower_rune <$> runes s).

Fixpoint forall2b {A B} (p : A → B → bool) (l : list A) (k : list B) : bool :=
  match l, k with
  | [], [] => true
  | x :: l', y :: k' => p x y && forall2b p l' k'
  | _, _ => false
  end.

Definition EqualFold `{UnicodeCase} (s t : string) : bool :=
  forall2b fold_eq (runes s) (runes t).

Definition TrimSpace (s : string) : string :=
  b2s (mjoin (trim_by (λ rb, IsSpace rb.1) (segs (s2b s))).*2).

Fixpoint HasPrefix (s pre : string) {struct pre} : bool :=
  match pre, s with
  | EmptyString, _ => true
  | String c p', String d s' => Ascii.eqb c d && HasPrefix s' p'
  | String _ _, EmptyString => false
  end.

Fixpoint drop_str (n : nat) (s : string) : string :=
  match n, s with
  | O, _ => s
  | S n', String _ s' => drop_str n' s'
  | S _, EmptyString => EmptyString
  end.

Fixpoint take_str (n : nat) (s : string) : string :=
  match n, s with
  | S n', String c s' => String c (take_str n' s')
  | _, _ => EmptyString
  end.

Definition TrimPrefix (s pre : string) : string :=
  if HasPrefix s pre then drop_str (String.length pre) s else s.

Definition HasSuffix (s suf : string) : bool :=
  ((String.length suf <=? String.length s)%nat) &&
  String.eqb (drop_str (String.length s - String.length suf) s) suf.

(** Byte index of the first occurrence. *)
Fixpoint Index (s sub : string) : option nat :=
  if HasPrefix s sub then Some 0%nat
  else match s with
       | EmptyString => None
       | String _ s' => S <$> Index s' sub
       end.

Definition Contains (s sub : string) : bool :=
  match Index s sub with Some _ => true | None => false end.

(** [strings.Cut(s, sep)] for a one-byte separator: text before, text after. *)
Fixpoint Cut (sep : ascii) (s : string) : option (string * string) :=
  match s with
  | EmptyString => None
  | String c s' =>
      if Ascii.eqb c sep then Some (EmptyString, s')
      else (λ p, (String c p.1, p.2)) <$> Cut sep s'
  end.

(** [strings.Split(s, sep)] for a one-byte separator. *)
Fixpoint Split (sep : ascii) (s : string) : list string :=
  match s with
  | EmptyString => [EmptyString]
  | String c s' =>
      if Ascii.eqb c sep then EmptyString :: Split sep s'
      else match Split sep s' with
           | [] => [String c EmptyString]
           | x :: r => String c x :: r
           end
  end.

Fixpoint Join (sep : string) (l : list string) : string :=
  match l with
  | [] => EmptyString
  | [x] => x
  | x :: r => x +:+ sep +:+ Join sep r
  end.

(** [strings.TrimRight(s, c)] and [strings.Trim(s, c)] for one ASCII character. *)
Definition TrimRightByte (c : ascii) (s : string) : string :=
  b2s (reverse (drop_while (Ascii.eqb c) (reverse (s2b s)))).
Definition TrimByte (c : ascii) (s : string) : string :=
  b2s (trim_by (Ascii.eqb c) (s2b s)).

(** ** Package [strconv] and formatting *)

Definition digit_val (c : ascii) : option Z :=
  if in_range 48 57 (bz c) then Some (bz c - 48) else None.

(** A hexadecimal digit of either case. *)
Definition hex_val (c : ascii) : option Z :=
  if in_range 48 57 (bz c) then Some (bz c - 48)
  else if in_range 97 102 (bz c) then Some (bz c - 87)
  else if in_range 65 70 (bz c) then Some (bz c - 55)
  else None.

Fixpoint digits_val (acc : Z) (s : string) : option Z :=
  match s with
  | EmptyString => Some acc
  | String c s' => d ← digit_val c; digits_val (10 * acc + d) s'
  end.

Definition int64_min : Z := - 2 ^ 63.
Definition int64_max : Z := 2 ^ 63 - 1.

(** [strconv.Atoi]: optional sign, at least one decimal digit, [int] range. *)
Definition Atoi (s : string) : option Z :=
  let '(neg, ds) :=
    match s with
    | String c s' =>
        if Ascii.eqb c "-"%char then (true, s')
        else if Ascii.eqb c "+"%char then (false, s') else (false, s)
    | EmptyString => (false, s)
    end in
  match ds with
  | EmptyString => None
  | _ => v ← digits_val 0 ds;
         let v := if (neg : bool) then - v else v in
         if in_range int64_min int64_max v then Some v else None
  end.

(** [%d]. *)
Definition fmt_d (z : Z) : string := pretty z.

(** ** Lemmas: strings as byte lists *)

Lemma s2b_b2s b : s2b (b2s b) = b.
Proof. apply list_ascii_of_string_of_list_ascii. Qed.

Lemma b2s_s2b s : b2s (s2b s) = s.
Proof. apply string_of_list_ascii_of_string. Qed.

Lemma s2b_app s t : s2b (s +:+ t) = s2b s ++ s2b t.
Proof. induction s as [|c s IH]; [done|]. simpl. unfold s2b in *. simpl. by f_equal. Qed.

Lemma s2b_inj s t : s2b s = s2b t → s = t.
Proof. intros H. by rewrite -(b2s_s2b s) -(b2s_s2b t) H. Qed.

Lemma b2s_app a b : b2s (a ++ b) = b2s a +:+ b2s b.
Proof. apply s2b_inj. by rewrite s2b_app !s2b_b2s. Qed.

Lemma str_app_assoc (a b c : string) : (a +:+ b) +:+ c = a +:+ b +:+ c.
Proof. apply s2b_inj. by rewrite !s2b_app -app_assoc. Qed.

Lemma str_app_nil_r (a : string) : a +:+ "" = a.
Proof. apply s2b_inj. by rewrite s2b_app app_nil_r. Qed.

Lemma length_s2b s : length (s2b s) = String.length s.
Proof. induction s as [|c s IH]; [done|]. simpl. by f_equal. Qed.

Lemma str_app_inv_l (p a b : string) : p +:+ a = p +:+ b → a = b.
Proof. induction p as [|c p IH]; simpl; [done|]. intros [= H]. auto. Qed.

(** ** Lemmas: prefixes and substrings *)

Lemma HasPrefix_spec s p : HasPrefix s p = true ↔ ∃ t, s = p +:+ t.
Proof.
  revert s; induction p as [|c p IH]; intros s; simpl; [split; [by exists s|done]|].
  destruct s as [|d s]; [split; [done|by intros [? ?]]|].
  rewrite andb_true_iff IH Ascii.eqb_eq. split.
  - intros [-> [t ->]]. by exists t.
  - intros [t Ht]. cbn in Ht. injection Ht as -> ->. split; [done|by exists t].
Qed.

Lemma HasPrefix_app p t : HasPrefix (p +:+ t) p = true.
Proof. apply HasPrefix_spec. by exists t. Qed.

Lemma drop_str_app p t : drop_str (String.length p) (p +:+ t) = t.
Proof. induction p; simpl; [|done]. by destruct t. Qed.

Lemma TrimPrefix_app p t : TrimPrefix (p +:+ t) p = t.
Proof. unfold TrimPrefix. by rewrite HasPrefix_app drop_str_app. Qed.

Lemma take_drop_str n s : take_str n s +:+ drop_str n s = s.
Proof.
  revert s; induction n as [|n IH]; intros s; [by destruct s|].
  destruct s as [|c s]; simpl; [done|]. by rewrite IH.
Qed.

Lemma Index_Some s sub i :
  Index s sub = Some i → HasPrefix (drop_str i s) sub = true ∧ (i ≤ String.length s)%nat.
Proof.
  revert i; induction s as [|c s IH]; intros i; simpl.
  - destruct (HasPrefix "" sub) eqn:E; intros [= <-]. simpl. auto with lia.
  - destruct (HasPrefix (String c s) sub) eqn:E.
    + intros [= <-]. simpl. auto with lia.
    + intros H. apply fmap_Some in H as (j & Hj & ->).
      apply IH in Hj as [? ?]. simpl. auto with lia.
Qed.

Lemma Index_split s sub i :
  Index s sub = Some i → ∃ t, s = take_str i s +:+ sub +:+ t.
Proof.
  intros [Hp _]%Index_Some. apply HasPrefix_spec in Hp as [t Ht].
  exists t. rewrite -Ht. by rewrite take_drop_str.
Qed.

Lemma Contains_app a sub b : Contains (a +:+ sub +:+ b) sub = true.
Proof.
  unfold Contains. induction a as [|c a IH]; simpl.
  - destruct (sub +:+ b) eqn:E; simpl; rewrite -E HasPrefix_app //.
  - destruct (HasPrefix _ sub); [done|]. by destruct (Index (a +:+ _) sub).
Qed.

Lemma Contains_spec s sub : Contains s sub = true ↔ ∃ a b, s = a +:+ sub +:+ b.
Proof.
  split.
  - unfold Contains. destruct (Index s sub) as [i|] eqn:E; [|done].
    intros _. destruct (Index_split _ _ _ E) as [t Ht]. eauto.
  - intros (a & b & ->). apply Contains_app.
Qed.

Lemma Cut_Some sep s a b :
  Cut sep s = Some (a, b) → s = a +:+ String sep b ∧ sep ∉ s2b a.
Proof.
  revert a b; induction s as [|c s IH]; intros a b; simpl; [done|].
  destruct (Ascii.eqb_spec c sep) as [->|Hne].
  - intros [= <- <-]. split; [done|]. set_solver.
  - intros H. apply fmap_Some in H as ([a' b'] & Hc & H). simplify_eq/=.
    apply IH in Hc as [-> Hn]. split; [done|]. unfold s2b in *. simpl. set_solver.
Qed.

Lemma Cut_None sep s : Cut sep s = None ↔ sep ∉ s2b s.
Proof.
  induction s as [|c s IH]; simpl; [split; [set_solver|done]|].
  destruct (Ascii.eqb_spec c sep) as [->|Hne]; unfold s2b in *; simpl.
  - split; [done|]. set_solver.
  - destruct (Cut sep s); simpl; set_solver.
Qed.

(** ** Lemmas: splitting and joining *)

Lemma Split_not_nil sep s : Split sep s ≠ [].
Proof.
  destruct s as [|c s]; simpl; [done|].
  destruct (Ascii.eqb c sep); [done|]. by destruct (Split sep s).
Qed.

Lemma Join_cons sep x r : r ≠ [] → Join sep (x :: r) = x +:+ sep +:+ Join sep r.
Proof. by destruct r. Qed.

Lemma Join_Split sep s : Join (String sep "") (Split sep s) = s.
Proof.
  induction s as [|c s IH]; [done|]. simpl.
  pose proof (Split_not_nil sep s) as Hn.
  destruct (Ascii.eqb_spec c sep) as [->|Hne].
  - rewrite Join_cons //. by rewrite IH.
  - destruct (Split sep s) as [|x r]; [done|].
    rewrite -{}IH. by destruct r.
Qed.

Lemma Split_no_sep sep s : Forall (λ p, sep ∉ s2b p) (Split sep s).
Proof.
  induction s as [|c s IH]; simpl; [constructor; [set_solver|constructor]|].
  destruct (Ascii.eqb_spec c sep) as [->|Hne].
  - constructor; [set_solver|done].
  - destruct (Split sep s) as [|x r]; constructor; unfold s2b in *; simpl.
    + set_solver.
    + constructor.
    + apply Forall_cons in IH as [? ?]. set_solver.
    + by apply Forall_cons in IH as [? ?].
Qed.

Lemma Split_app_sep sep x s :
  sep ∉ s2b x → Split sep (x +:+ String sep s) = x :: Split sep s.
Proof.
  induction x as [|c x IH]; simpl; [by rewrite Ascii.eqb_refl|].
  unfold s2b in *; simpl. intros [Hc Hx]%not_elem_of_cons.
  destruct (Ascii.eqb_spec c sep); [done|]. by rewrite IH.
Qed.

Lemma Split_single sep x : sep ∉ s2b x → Split sep x = [x].
Proof.
  induction x as [|c x IH]; simpl; [done|].
  unfold s2b in *; simpl. intros [Hc Hx]%not_elem_of_cons.
  destruct (Ascii.eqb_spec c sep); [done|]. by rewrite IH.
Qed.

Lemma Split_Join sep l :
  l ≠ [] → Forall (λ p, sep ∉ s2b p) l → Split sep (Join (String sep "") l) = l.
Proof.
  induction l as [|x r IH]; intros Hn HF; [done|].
  apply Forall_cons in HF as [Hx HF].
  destruct r as [|y r]; [by apply Split_single|].
  rewrite Join_cons //. simpl (String sep "" +:+ _).
  rewrite Split_app_sep //. by rewrite IH.
Qed.

(** ** Lemmas: decoding *)

Lemma bz_range c : 0 ≤ bz c < 256.
Proof.
  unfold bz. pose proof (N_ascii_bounded c). lia.
Qed.

Lemma zb_bz c : zb (bz c) = c.
Proof. unfold zb, bz. rewrite N2Z.id. apply ascii_N_embedding. Qed.

Lemma bz_zb z : 0 ≤ z < 256 → bz (zb z) = z.
Proof. intros H. unfold zb, bz. rewrite N_ascii_embedding; lia. Qed.

Lemma decode_width s :
  s ≠ [] → (1 ≤ (decode_rune s).2 ≤ length s)%nat.
Proof.
  intros Hs. destruct s as [|c0 s1]; [done|].
  unfold decode_rune. repeat case_match; simpl in *; lia.
Qed.

(** What [decode_rune] returns depends only on the bytes it consumes: cutting
    the input anywhere after them changes nothing. *)
Lemma decode_prefix s t :
  s ≠ [] → ((decode_rune (s ++ t)).2 ≤ length s)%nat →
  decode_rune (s ++ t) = decode_rune s.
Proof.
  intros Hs. destruct s as [|c0 s1]; [done|]. clear Hs.
  unfold decode_rune; cbn [app].
  destruct (bz c0 <? 128); [done|].
  destruct (rune_size (bz c0)) as [|[|[|[|[|n]]]]]; try done;
  destruct s1 as [|c1 [|c2 [|c3 s1]]]; simpl; try done;
  destruct t as [|d1 [|d2 [|d3 t]]]; simpl; try done;
  repeat case_match; simpl; intros; try done; lia.
Qed.

Lemma segs_from_drop k s : segs_from k s = segs (drop k s).
Proof.
  revert k; induction s as [|c s IH]; intros [|k]; try done.
  simpl. by rewrite IH.
Qed.

Lemma segs_unfold s :
  s ≠ [] →
  segs s = ((decode_rune s).1, take (decode_rune s).2 s)
             :: segs (drop (decode_rune s).2 s).
Proof.
  intros Hs. pose proof (decode_width s Hs) as Hw.
  destruct s as [|c s]; [done|]. unfold segs at 1. cbn [segs_from].
  destruct (decode_rune (c :: s)) as [r w]; cbn [fst snd] in *.
  f_equal. rewrite segs_from_drop. destruct w as [|w]; [lia|].
  by replace (S w - 1)%nat with w by lia.
Qed.

Lemma segs_ind (P : bytes → Prop) :
  P [] → (∀ s, s ≠ [] → P (drop (decode_rune s).2 s) → P s) → ∀ s, P s.
Proof.
  intros H0 HS s. induction s as [s IH] using (induction_ltof1 _ (@length ascii)).
  destruct (decide (s = [])) as [->|Hs]; [done|].
  apply HS; [done|]. pose proof (decode_width s Hs).
  apply IH. unfold ltof. rewrite length_drop. lia.
Qed.

Lemma segs_join s : mjoin (segs s).*2 = s.
Proof.
  induction s as [|s Hs IH] using segs_ind; [done|].
  rewrite segs_unfold //. simpl. rewrite IH. apply take_drop.
Qed.

Lemma segs_seg_nonempty s : Forall (λ rb, rb.2 ≠ []) (segs s).
Proof.
  induction s as [|s Hs IH] using segs_ind; [constructor|].
  rewrite segs_unfold //. constructor; [|done]. simpl.
  pose proof (decode_width s Hs). destruct s; [done|].
  by destruct (decode_rune _) as [r [|w]]; simpl in *; [lia|].
Qed.

Lemma segs_suffix s a b : segs s = a ++ b → segs (mjoin b.*2) = b.
Proof.
  revert a b; induction s as [|s Hs IH] using segs_ind; intros a b Hab.
  { by destruct a; [destruct b|]. }
  destruct a as [|x a].
  - simpl in Hab. subst b. by rewrite segs_join.
  - rewrite segs_unfold // in Hab. simplify_eq/=. eauto.
Qed.

Lemma segs_prefix s a b : segs s = a ++ b → segs (mjoin a.*2) = a.
Proof.
  revert a b; induction s as [|s Hs IH] using segs_ind; intros a b Hab.
  { by destruct a. }
  destruct a as [|x a]; [done|].
  pose proof (segs_join (drop (decode_rune s).2 s)) as Hj.
  rewrite segs_unfold // in Hab. simpl in Hab. injection Hab as <- Hab.
  pose proof (IH _ _ Hab) as Ha. rewrite Hab in Hj.
  rewrite fmap_app join_app in Hj.
  pose proof (decode_width s Hs) as Hw.
  set (w := (decode_rune s).2) in *. set (p := take w s ++ mjoin a.*2).
  assert (Hsp : s = p ++ mjoin b.*2).
  { unfold p. rewrite -app_assoc Hj. by rewrite take_drop. }
  assert (Hlen : (w ≤ length p)%nat).
  { unfold p. rewrite length_app length_take. lia. }
  assert (Hp : p ≠ []) by (intros E; rewrite E /= in Hlen; lia).
  assert (Hd : decode_rune p = decode_rune s).
  { rewrite {1}Hsp. symmetry. apply decode_prefix; [done|].
    rewrite -Hsp. exact Hlen. }
  simpl. fold p. rewrite segs_unfold // Hd. fold w. f_equal.
  - f_equal. unfold p. rewrite take_app_length' //. rewrite length_take. lia.
  - unfold p. rewrite drop_app_length'; [exact Ha|rewrite length_take; lia].
Qed.

Lemma segs_infix s a m b : segs s = a ++ m ++ b → segs (mjoin m.*2) = m.
Proof.
  intros H. pose proof (segs_suffix _ _ _ H) as H1.
  by apply segs_prefix in H1.
Qed.

(** Trimming is idempotent, whatever bytes the string holds. *)
Lemma TrimSpace_idemp s : TrimSpace (TrimSpace s) = TrimSpace s.
Proof.
  unfold TrimSpace at 1. unfold TrimSpace at 1. rewrite s2b_b2s.
  destruct (trim_by_infix (λ rb, IsSpace rb.1) (segs (s2b s))) as (a & b & Hab).
  rewrite (segs_infix _ _ _ _ Hab). by rewrite trim_by_idemp.
Qed.

Create Rewrite HintDb gn_rw.
#[export] Hint Rewrite TrimSpace_idemp : gn_rw.

(** ** Valid UTF-8 *)

(** A string is valid when every decoded rune is encoded by the bytes it was
    read from; encoding/json replaces every other byte by [RuneError]. *)
Definition seg_valid (rb : Z * bytes) : bool := bool_decide (rb.2 = encode_rune rb.1).
Definition valid_utf8 (s : string) : bool := forallb seg_valid (segs (s2b s)).

(** The text encoding/json writes for a string: malformed bytes replaced. *)
Definition json_text (s : string) : string := string_of_runes (runes s).

Lemma segs_valid_join l :
  forallb seg_valid l = true → mjoin (encode_rune <$> l.*1) = mjoin l.*2.
Proof.
  induction l as [|[r b] l IH]; simpl; [done|].
  intros [Hb Hl]%andb_true_iff. apply bool_decide_eq_true in Hb. simpl in Hb.
  by rewrite IH // Hb.
Qed.

Lemma json_text_valid s : valid_utf8 s = true → json_text s = s.
Proof.
  intros H. unfold json_text, string_of_runes, runes.
  rewrite segs_valid_join // segs_join. apply b2s_s2b.
Qed.

Lemma segs_TrimSpace s :
  segs (s2b (TrimSpace s)) = trim_by (λ rb, IsSpace rb.1) (segs (s2b s)).
Proof.
  unfold TrimSpace. rewrite s2b_b2s.
  destruct (trim_by_infix (λ rb, IsSpace rb.1) (segs (s2b s))) as (a & b & Hab).
  by rewrite (segs_infix _ _ _ _ Hab).
Qed.

Lemma valid_TrimSpace s : valid_utf8 s = true → valid_utf8 (TrimSpace s) = true.
Proof.
  unfold valid_utf8. rewrite segs_TrimSpace.
  destruct (trim_by_infix (λ rb, IsSpace rb.1) (segs (s2b s))) as (a & b & Hab).
  rewrite {1}Hab !forallb_app. intros H. by bool_props.
Qed.

(** What a trimmed valid string reads back as after storage and trimming. *)
Lemma stored_trim s :
  valid_utf8 s = true → TrimSpace (json_text (TrimSpace s)) = TrimSpace s.
Proof. intros H%valid_TrimSpace. by rewrite json_text_valid // TrimSpace_idemp. Qed.

#[export] Hint Rewrite stored_trim using done : gn_rw.

(** ** ASCII strings *)

Definition is_ascii (s : string) : bool := forallb (λ c, bz c <? 0x80) (s2b s).

Lemma segs_ascii b :
  forallb (λ c, bz c <? 0x80) b = true → segs b = (λ c, (bz c, [c])) <$> b.
Proof.
  induction b as [|c b IH]; [done|]. simpl. intros [Hc Hb]%andb_true_iff.
  assert (Hd : decode_rune (c :: b) = (bz c, 1%nat)) by (unfold decode_rune; by rewrite Hc).
  rewrite segs_unfold // Hd. cbn [fst snd]. simpl. by rewrite IH.
Qed.

Lemma runes_ascii s : is_ascii s = true → runes s = bz <$> s2b s.
Proof.
  intros H. unfold runes. rewrite segs_ascii //. by rewrite -list_fmap_compose.
Qed.

Lemma encode_ascii r : 0 ≤ r < 0x80 → encode_rune r = [zb r].
Proof.
  intros H. unfold encode_rune, in_range.
  replace (0 <=? r) with true by lia. replace (r <=? 0x10FFFF) with true by lia.
  replace (0xD800 <=? r) with false by lia. simpl.
  by replace (r <? 128) with true by lia.
Qed.

Lemma valid_ascii s : is_ascii s = true → valid_utf8 s = true.
Proof.
  intros H. unfold valid_utf8. rewrite segs_ascii //.
  unfold is_ascii in H. induction (s2b s) as [|c b IH]; [done|].
  simpl in *. apply andb_true_iff in H as [Hc Hb]. rewrite IH // andb_true_r.
  unfold seg_valid. simpl. apply bool_decide_eq_true.
  pose proof (bz_range c). apply Z.ltb_lt in Hc.
  rewrite encode_ascii; [by rewrite zb_bz|lia].
Qed.

Lemma is_ascii_app s t : is_ascii (s +:+ t) = is_ascii s && is_ascii t.
Proof. unfold is_ascii. by rewrite s2b_app forallb_app. Qed.

(** ** Lemmas: header-style joins *)

Lemma TrimSpace_space p : TrimSpace (String " " p) = TrimSpace p.
Proof.
  assert (E : segs (s2b (String " " p)) = (32, [" "%char]) :: segs (s2b p)).
  { rewrite segs_unfold; [|done]. reflexivity. }
  unfold TrimSpace. rewrite E. unfold trim_by. simpl. done.
Qed.

Lemma Split_Join_space sep x r :
  sep ≠ " "%char → Forall (λ p, sep ∉ s2b p) (x :: r) →
  Split sep (Join (String sep " ") (x :: r)) = x :: (String " " <$> r).
Proof.
  intros Hsp. revert x; induction r as [|y r IH]; intros x [Hx HF]%Forall_cons.
  - by apply Split_single.
  - rewrite Join_cons //.
    change (String sep " " +:+ ?t) with (String sep (String " " t)).
    rewrite Split_app_sep //. f_equal.
    assert (E : ∀ l, l ≠ [] →
       Split sep (String " " (Join (String sep " ") l))
       = match Split sep (Join (String sep " ") l) with
         | [] => [String " " ""] | a :: b => String " " a :: b end).
    { intros l _. cbn [Split]. destruct (Ascii.eqb_spec " "%char sep); [by subst|done]. }
    rewrite E // IH //.
Qed.

(** What a reader of a joined header sees. *)
Lemma Join_space_fields sep x r :
  sep ≠ " "%char → Forall (λ p, sep ∉ s2b p) (x :: r) →
  TrimSpace <$> Split sep (Join (String sep " ") (x :: r)) = TrimSpace <$> (x :: r).
Proof.
  intros Hsp HF. rewrite Split_Join_space // !fmap_cons. f_equal. clear HF.
  induction r as [|y r IH]; [done|]. by rewrite !fmap_cons TrimSpace_space IH.
Qed.

Lemma TrimSpace_not_in c s : c ∉ s2b s → c ∉ s2b (TrimSpace s).
Proof.
  intros Hc. unfold TrimSpace. rewrite s2b_b2s.
  destruct (trim_by_infix (λ rb, IsSpace rb.1) (segs (s2b s))) as (a & b & Hab).
  pose proof (segs_join (s2b s)) as Hj. rewrite Hab in Hj.
  rewrite !fmap_app !join_app in Hj. rewrite -Hj in Hc. set_solver.
Qed.
