(* ===== verification/NetAddr.v ===== *)
(** * Addresses and the allowlist (internal/proxy/allowlist.go)

    The part of package [net] that the code uses to recognise addresses
    ([ParseIP], [ParseCIDR], [IPNet.Contains], [IP.IsLoopback]), and the
    allowlist of host:port pairs and networks.  An address is its bytes. *)

From S2P Require Import Prelude GoStrings.

Local Open Scope Z_scope.

(** ** Addresses *)

(** [net.IP]: 16 bytes, or 4 for a shortened IPv4 address. *)
Abbreviation ip := (list Z).

Definition v4InV6Prefix : list Z := [0; 0; 0; 0; 0; 0; 0; 0; 0; 0; 255; 255].

(** One octet of a dotted address: decimal, no leading zero. *)
Definition octet (s : string) : option Z :=
  match s with
  | EmptyString => None
  | String c (String _ _) => if Ascii.eqb c "0" then None
                             else v ← digits_val 0 s; if v <=? 255 then Some v else None
  | _ => digits_val 0 s
  end.

(** [parseIPv4Fields]. *)
Definition parseIPv4 (s : string) : option (list Z) :=
  match Split "." s with
  | [a; b; c; d] => a ← octet a; b ← octet b; c ← octet c; d ← octet d; Some [a; b; c; d]
  | _ => None
  end.

(** The leading hexadecimal digits: value, number of digits, rest. *)
Fixpoint hex_group (acc : Z) (n : nat) (s : string) : Z * nat * string :=
  match s with
  | String c s' =>
      match hex_val c with
      | Some d => hex_group (16 * acc + d) (S n) s'
      | None => (acc, n, s)
      end
  | EmptyString => (acc, n, s)
  end.

(** Groups of an IPv6 address from position [length out]: the bytes so far,
    the position of the ellipsis, and the text.  [k] bounds the groups; the
    address is complete after 16 bytes. *)
Fixpoint v6_groups (k : nat) (out : list Z) (ell : option nat) (s : string)
    : option (list Z * option nat) :=
  match k with
  | O => if String.eqb s "" then Some (out, ell) else None
  | S k' =>
      let '(acc, n, rest) := hex_group 0 0 s in
      if (n =? 0)%nat || (4 <? n)%nat then None
      else if HasPrefix rest "." then
        if (bool_decide (ell = None) && negb (length out =? 12)%nat)
           || (16 <? length out + 4)%nat then None
        else v4 ← parseIPv4 s; Some (out ++ v4, ell)
      else
        let out := out ++ [acc / 256; acc mod 256] in
        match rest with
        | EmptyString => Some (out, ell)
        | String c rest =>
            if negb (Ascii.eqb c ":") || String.eqb rest "" then None
            else if HasPrefix rest ":" then
              if bool_decide (is_Some ell) then None
              else
                let rest := drop_str 1 rest in
                if String.eqb rest "" then Some (out, Some (length out))
                else v6_groups k' out (Some (length out)) rest
            else v6_groups k' out ell rest
        end
  end.

(** Fill the ellipsis with zeros. *)
Definition v6_expand (out : list Z) (ell : option nat) : option ip :=
  if (length out <? 16)%nat then
    e ← ell; Some (take e out ++ replicate (16 - length out) 0 ++ drop e out)
  else match ell with None => Some out | Some _ => None end.

Definition parseIPv6 (s : string) : option ip :=
  let '(ell, s) := if HasPrefix s "::" then (Some 0%nat, drop_str 2 s) else (None, s) in
  if bool_decide (is_Some ell) && String.eqb s "" then Some (replicate 16 0)
  else p ← v6_groups 8 [] ell s; v6_expand p.1 p.2.

(** [netip.ParseAddr] without zones: the kind is decided by the first dot or
    colon, and an address with a zone is refused by both callers. *)
Inductive addr : Type := V4 (b : list Z) | V6 (b : ip).

Fixpoint first_sep (s : string) : option ascii :=
  match s with
  | EmptyString => None
  | String c s' => if Ascii.eqb c "." || Ascii.eqb c ":" || Ascii.eqb c "%" then Some c
                   else first_sep s'
  end.

Definition ParseAddr (s : string) : option addr :=
  match first_sep s with
  | Some c => if Ascii.eqb c "." then V4 <$> parseIPv4 s
              else if Ascii.eqb c ":" then V6 <$> parseIPv6 s
              else None
  | None => None
  end.

Definition As16 (a : addr) : ip :=
  match a with V4 b => v4InV6Prefix ++ b | V6 b => b end.

Definition ParseIP (s : string) : option ip := As16 <$> ParseAddr s.

Definition To4 (i : ip) : option ip :=
  if bool_decide (length i = 4%nat) then Some i
  else if bool_decide (length i = 16%nat) && bool_decide (take 12 i = v4InV6Prefix)
       then Some (drop 12 i) else None.

Definition IsLoopback (i : ip) : bool :=
  match To4 i with
  | Some (b :: _) => b =? 127
  | Some [] => false
  | None => bool_decide (i = replicate 15 0 ++ [1])
  end.

(** ** Networks *)

Record IPNet : Type := { net_IP : ip; net_Mask : list Z }.

(** [CIDRMask(ones, 8 * k)]. *)
Fixpoint CIDRMask (ones : Z) (k : nat) : list Z :=
  match k with
  | O => []
  | S k' => (if 8 <=? ones then 255 else 255 - Z.shiftr 255 (Z.max 0 ones))
            :: CIDRMask (ones - 8) k'
  end.

Definition mask_bytes (i m : list Z) : list Z := zip_with Z.land i m.

(** [IP.Mask] for a mask of 4 or 16 bytes; [None] is the nil result. *)
Definition Mask (i : ip) (m : list Z) : option ip :=
  let m := if (length m =? 16)%nat && (length i =? 4)%nat
              && bool_decide (take 12 m = replicate 12 255) then drop 12 m else m in
  let i := if (length m =? 4)%nat && (length i =? 16)%nat
              && bool_decide (take 12 i = v4InV6Prefix) then drop 12 i else i in
  if (length i =? length m)%nat then Some (mask_bytes i m) else None.

(** The prefix length: decimal digits only, below 0xFFFFFF. *)
Definition dtoi (s : string) : option Z :=
  match s with
  | EmptyString => None
  | _ => v ← digits_val 0 s; if v <? 0xFFFFFF then Some v else None
  end.

Definition ParseCIDR (s : string) : option IPNet :=
  match Cut "/" s with
  | None => None
  | Some (a, mask) =>
      a ← ParseAddr a;
      n ← dtoi mask;
      let len := match a with V4 _ => 4%nat | V6 _ => 16%nat end in
      if 8 * Z.of_nat len <? n then None
      else let m := CIDRMask n len in
           Some {| net_IP := default [] (Mask (As16 a) m); net_Mask := m |}
  end.

(** [networkNumberAndMask]. *)
Definition networkNumberAndMask (n : IPNet) : option (ip * list Z) :=
  let i := default (net_IP n) (To4 (net_IP n)) in
  if negb ((length i =? 4)%nat || (length i =? 16)%nat) then None
  else if (length (net_Mask n) =? 4)%nat then
    if (length i =? 4)%nat then Some (i, net_Mask n) else None
  else if (length (net_Mask n) =? 16)%nat then
    Some (i, if (length i =? 4)%nat then drop 12 (net_Mask n) else net_Mask n)
  else None.

Definition NetContains (n : IPNet) (i : ip) : bool :=
  match networkNumberAndMask n with
  | None => false
  | Some (nn, m) =>
      let x := default i (To4 i) in
      bool_decide (length x = length nn) && bool_decide (mask_bytes nn m = mask_bytes x m)
  end.

(** ** The allowlist *)

Inductive entry : Type :=
  | cidrEntry (n : IPNet)
  | hostPortEntry (host : string) (port : Z).

Section allowlist.
Context `{UnicodeCase}.

(** One item of the configuration: skipped, refused or an entry. *)
Definition allow_item (it : string) : result (option entry) :=
  let it := TrimSpace it in
  if String.eqb it "" then Ok None
  else if Contains it "/" then
    match ParseCIDR it with
    | None => Err ("invalid CIDR " +:+ it)
    | Some n => Ok (Some (cidrEntry n))
    end
  else
    match Cut ":" it with
    | None => Err ("invalid allowlist item " +:+ it +:+ " (want host:port or CIDR)")
    | Some (h, p) =>
        match Atoi p with
        | Some port =>
            if (port <=? 0) || (65535 <? port) then Err ("invalid port in " +:+ it)
            else Ok (Some (hostPortEntry h port))
        | None => Err ("invalid port in " +:+ it)
        end
    end.

Fixpoint NewAllowlist (items : list string) : result (list entry) :=
  match items with
  | [] => Ok []
  | it :: rest =>
      match allow_item it with
      | Err e => Err e
      | Ok o =>
          match NewAllowlist rest with
          | Err e => Err e
          | Ok l => Ok (option_list o ++ l)
          end
      end
  end.

Definition IsEmpty (l : list entry) : bool := (length l =? 0)%nat.

(** The method [Allowed] of the two kinds of entry. *)
Definition entry_Allowed (e : entry) (host : string) (port : Z) : bool :=
  match e with
  | cidrEntry n => match ParseIP host with Some i => NetContains n i | None => false end
  | hostPortEntry h p => EqualFold host h && (port =? p)
  end.

(** The loop of [Allowlist.Allowed]; networks are tested twice, as in the
    source. *)
Fixpoint Allowed (l : list entry) (host : string) (port : Z) : bool :=
  match l with
  | [] => false
  | e :: rest =>
      match e with
      | cidrEntry n => match ParseIP host with Some i => NetContains n i | None => false end
      | _ => false
      end
      || entry_Allowed e host port
      || Allowed rest host port
  end.

Definition AllowedAddr (l : list entry) (a : string) : bool :=
  match Cut ":" a with
  | None => false
  | Some (h, p) => match Atoi p with Some port => Allowed l h port | None => false end
  end.

End allowlist.

(** ** Bits of addresses *)

Definition is_byte (z : Z) : Prop := 0 ≤ z < 256.

(** Bit [k] of an address, the most significant first. *)
Definition ip_bit (x : list Z) (k : nat) : bool :=
  Z.testbit (default 0 (x !! (k / 8)%nat)) (7 - Z.of_nat (k mod 8)).

(** The first [n] bits of two addresses are equal. *)
Definition same_prefix (n : Z) (x y : list Z) : Prop :=
  ∀ k, Z.of_nat k < n → ip_bit x k = ip_bit y k.

Definition mask_byte (o : Z) : Z :=
  if 8 <=? o then 255 else 255 - Z.shiftr 255 (Z.max 0 o).

Lemma mask_byte_bit o j : 0 ≤ j < 8 → Z.testbit (mask_byte o) j = (7 - j <? o).
Proof.
  intros Hj. unfold mask_byte.
  destruct (Z.leb_spec 8 o) as [Ho|Ho].
  - assert (j = 0 ∨ j = 1 ∨ j = 2 ∨ j = 3 ∨ j = 4 ∨ j = 5 ∨ j = 6 ∨ j = 7) as Hc by lia.
    assert ((7 - j <? o) = true) as -> by (apply Z.ltb_lt; lia).
    by destruct Hc as [-> | [-> | [-> | [-> | [-> | [-> | [-> | ->]]]]]]].
  - assert (∃ p, Z.max 0 o = p ∧ (7 - j <? o) = (7 - j <? p) ∧ 0 ≤ p < 8) as (p & -> & -> & Hp).
    { exists (Z.max 0 o). split; [done|]. split; [|lia].
      destruct (Z.ltb_spec (7 - j) o), (Z.ltb_spec (7 - j) (Z.max 0 o)); lia || done. }
    assert (p = 0 ∨ p = 1 ∨ p = 2 ∨ p = 3 ∨ p = 4 ∨ p = 5 ∨ p = 6 ∨ p = 7) as Hc by lia.
    assert (j = 0 ∨ j = 1 ∨ j = 2 ∨ j = 3 ∨ j = 4 ∨ j = 5 ∨ j = 6 ∨ j = 7) as Hd by lia.
    destruct Hc as [-> | [-> | [-> | [-> | [-> | [-> | [-> | ->]]]]]]];
      by destruct Hd as [-> | [-> | [-> | [-> | [-> | [-> | [-> | ->]]]]]]].
Qed.

Lemma CIDRMask_cons o k : CIDRMask o (S k) = mask_byte o :: CIDRMask (o - 8) k.
Proof. done. Qed.

Lemma CIDRMask_length o k : length (CIDRMask o k) = k.
Proof. revert o; induction k as [|k IH]; intros o; simpl; [done|]. by rewrite IH. Qed.

(** Masked bytes are equal when the selected bits are. *)
Lemma land_mask_eq a b o :
  is_byte a → is_byte b →
  (Z.land a (mask_byte o) = Z.land b (mask_byte o)
   ↔ ∀ j, 0 ≤ j < 8 → 7 - j < o → Z.testbit a j = Z.testbit b j).
Proof.
  intros Ha Hb. split.
  - intros E j Hj Ho. apply (f_equal (λ z, Z.testbit z j)) in E.
    rewrite !Z.land_spec (mask_byte_bit _ _ Hj) in E.
    assert ((7 - j <? o) = true) as Ht by (by apply Z.ltb_lt).
    by rewrite Ht !andb_true_r in E.
  - intros Hbits. apply Z.bits_inj'. intros j Hj. rewrite !Z.land_spec.
    destruct (decide (j < 8)) as [Hlt|Hge].
    + rewrite mask_byte_bit; [|lia]. destruct (Z.ltb_spec (7 - j) o) as [Ho|Ho].
      * rewrite (Hbits j); [done|lia|done].
      * by rewrite !andb_false_r.
    + assert (∀ c, is_byte c → Z.testbit c j = false) as Hz.
      { intros c [Hc0 Hc]. destruct (decide (c = 0)) as [->|]; [apply Z.testbit_0_l|].
        apply Z.bits_above_log2; [lia|].
        apply Z.log2_lt_pow2; [lia|]. apply Z.lt_le_trans with (2 ^ 8); [done|].
        apply Z.pow_le_mono_r; lia. }
      by rewrite (Hz a Ha) (Hz b Hb).
Qed.

Lemma ip_bit_cons c x k :
  ip_bit (c :: x) k =
  if decide (k < 8)%nat then Z.testbit c (7 - Z.of_nat k) else ip_bit x (k - 8).
Proof.
  unfold ip_bit. case_decide as Hk.
  - by rewrite Nat.div_small // Nat.mod_small.
  - assert (k / 8 = S ((k - 8) / 8))%nat as ->.
    { replace k with (k - 8 + 1 * 8)%nat at 1 by lia. rewrite Nat.div_add //. lia. }
    assert (k mod 8 = (k - 8) mod 8)%nat as ->; [|done].
    replace k with (k - 8 + 1 * 8)%nat at 1 by lia. apply Nat.Div0.mod_add.
Qed.

Lemma same_prefix_cons n a b x y :
  same_prefix n (a :: x) (b :: y)
  ↔ (∀ j, 0 ≤ j < 8 → 7 - j < n → Z.testbit a j = Z.testbit b j)
    ∧ same_prefix (n - 8) x y.
Proof.
  unfold same_prefix. split.
  - intros Hs. split.
    + intros j Hj Hn. specialize (Hs (Z.to_nat (7 - j))). rewrite !ip_bit_cons in Hs.
      case_decide; [|lia]. rewrite Z2Nat.id in Hs; [|lia].
      replace (7 - (7 - j)) with j in Hs by lia. apply Hs. lia.
    + intros k Hk. specialize (Hs (k + 8)%nat). rewrite !ip_bit_cons in Hs.
      case_decide; [lia|]. replace (k + 8 - 8)%nat with k in Hs by lia. apply Hs. lia.
  - intros [Hj Hs] k Hk. rewrite !ip_bit_cons. case_decide.
    + apply Hj; lia.
    + apply Hs. lia.
Qed.

(** Networks compare exactly the bits of the prefix. *)
Lemma mask_bytes_prefix n x y :
  Forall is_byte x → Forall is_byte y → length x = length y →
  (mask_bytes x (CIDRMask n (length x)) = mask_bytes y (CIDRMask n (length x))
   ↔ same_prefix (Z.min n (8 * Z.of_nat (length x))) x y).
Proof.
  intros Hx. revert y n. induction Hx as [|a x Ha Hx IH]; intros y n Hy Hl.
  - destruct y; [|done]. split; [|done]. intros _ k Hk. simpl in Hk. lia.
  - destruct y as [|b y]; [done|]. apply Forall_cons in Hy as [Hb Hy].
    simpl in Hl. apply Nat.succ_inj in Hl. simpl length. rewrite CIDRMask_cons.
    unfold mask_bytes. simpl zip_with. rewrite same_prefix_cons.
    replace (Z.min n (8 * Z.of_nat (S (length x))) - 8)
      with (Z.min (n - 8) (8 * Z.of_nat (length x))) by lia.
    rewrite -(IH y (n - 8) Hy Hl). unfold mask_bytes. split.
    + intros [= Eh Et]. split; [|done]. intros j Hj Hn.
      apply (proj1 (land_mask_eq a b n Ha Hb) Eh); lia.
    + intros [Hj Et]. f_equal; [|done]. apply land_mask_eq; [done..|].
      intros j Hj' Hn. apply Hj; lia.
Qed.

(** ** Parsed addresses are well formed *)

Lemma digits_val_nonneg acc s v : 0 ≤ acc → digits_val acc s = Some v → 0 ≤ v.
Proof.
  revert acc; induction s as [|c s IH]; intros acc Ha; simpl; [by intros [= <-]|].
  unfold digit_val, in_range. destruct (_ && _) eqn:E; simpl; [|done].
  bool_props. apply IH. lia.
Qed.

Lemma octet_byte s v : octet s = Some v → is_byte v.
Proof.
  unfold octet. destruct s as [|c [|d s]]; [done| |].
  - simpl. unfold digit_val, in_range. destruct (_ && _) eqn:E; simpl; [|done].
    bool_props. intros [= <-]. unfold is_byte. lia.
  - destruct (Ascii.eqb c "0"); [done|]. intros (w & Hw & Hv)%bind_Some.
    destruct (w <=? 255) eqn:E; simplify_eq. bool_props.
    apply digits_val_nonneg in Hw; unfold is_byte; lia.
Qed.

Definition bytes_n (n : nat) (b : list Z) : Prop := length b = n ∧ Forall is_byte b.

Lemma parseIPv4_bytes s b : parseIPv4 s = Some b → bytes_n 4 b.
Proof.
  unfold parseIPv4. destruct (Split "." s) as [|a [|b' [|c [|d [|]]]]]; try done.
  intros (va & Ha & (vb & Hb & (vc & Hc & (vd & Hd & [= <-])%bind_Some)%bind_Some)%bind_Some)%bind_Some.
  split; [done|]. repeat constructor; eapply octet_byte; eassumption.
Qed.

Lemma hex_group_bound s acc n acc' n' rest :
  0 ≤ acc < 16 ^ Z.of_nat n → hex_group acc n s = (acc', n', rest) →
  0 ≤ acc' < 16 ^ Z.of_nat n'.
Proof.
  revert acc n; induction s as [|c s IH]; intros acc n Hb; simpl; [by intros [= <- <- <-]|].
  destruct (hex_val c) as [d|] eqn:E; [|by intros [= <- <- <-]].
  apply IH. rewrite Nat2Z.inj_succ Z.pow_succ_r; [|lia].
  revert E. unfold hex_val, in_range. repeat case_match; intros; simplify_eq; bool_props; lia.
Qed.

Lemma group_bytes acc : 0 ≤ acc < 65536 → bytes_n 2 [acc / 256; acc mod 256].
Proof.
  intros Ha. split; [done|]. repeat constructor; unfold is_byte.
  - apply Z.div_pos; lia.
  - apply Z.div_lt_upper_bound; lia.
  - apply Z.mod_pos_bound; lia.
  - apply Z.mod_pos_bound; lia.
Qed.

Lemma v6_groups_bytes k out ell s r e :
  (length out + 2 * k = 16)%nat → Forall is_byte out →
  v6_groups k out ell s = Some (r, e) → (length r ≤ 16)%nat ∧ Forall is_byte r.
Proof.
  revert out ell s; induction k as [|k IH]; intros out ell s Hl Hb.
  { simpl. destruct (String.eqb s ""); [|done]. intros [= <- <-]. split; [lia|done]. }
  cbn [v6_groups]. destruct (hex_group 0 0 s) as [[acc n] rest] eqn:Eg.
  destruct ((n =? 0)%nat || (4 <? n)%nat) eqn:En; [done|]. bool_props.
  assert (bytes_n 2 [acc / 256; acc mod 256]) as [_ Hg].
  { apply group_bytes. apply hex_group_bound in Eg; [|done]. split; [lia|].
    apply Z.lt_le_trans with (16 ^ Z.of_nat n); [lia|].
    change 65536 with (16 ^ 4). apply Z.pow_le_mono_r; lia. }
  set (out' := out ++ [acc / 256; acc mod 256]) in *.
  assert (Forall is_byte out') as Hb' by (by apply Forall_app).
  assert (length out' + 2 * k = 16)%nat as Hl' by (unfold out'; rewrite length_app /=; lia).
  destruct (HasPrefix rest ".").
  - destruct (_ || _) eqn:E4; [done|]. bool_props.
    intros (v4 & [Hv4 Hbv]%parseIPv4_bytes & [= <- <-])%bind_Some.
    rewrite length_app. split; [lia|]. by apply Forall_app.
  - destruct rest as [|c rest]; [intros [= <- <-]; split; [lia|done]|].
    destruct (negb (Ascii.eqb c ":") || String.eqb rest ""); [done|].
    destruct (HasPrefix rest ":"); [|by apply IH].
    destruct (bool_decide (is_Some ell)); [done|].
    destruct (String.eqb (drop_str 1 rest) ""); [|by apply IH].
    intros [= <- <-]. split; [lia|done].
Qed.

Lemma v6_expand_bytes out ell r :
  (length out ≤ 16)%nat → Forall is_byte out → v6_expand out ell = Some r → bytes_n 16 r.
Proof.
  intros Hl Hb. unfold v6_expand. destruct (length out <? 16)%nat eqn:E; bool_props.
  - intros (e & _ & [= <-])%bind_Some. split.
    + rewrite !length_app length_replicate length_take length_drop. lia.
    + apply Forall_app. split; [by apply Forall_take|]. apply Forall_app.
      split; [|by apply Forall_drop]. apply Forall_replicate. by unfold is_byte.
  - destruct ell; [done|]. intros [= <-]. split; [lia|done].
Qed.

Lemma parseIPv6_bytes s b : parseIPv6 s = Some b → bytes_n 16 b.
Proof.
  unfold parseIPv6. destruct (if HasPrefix s "::" then _ else _) as [ell s'].
  destruct (_ && _).
  - intros [= <-]. split; [done|]. by repeat constructor.
  - intros ([out e] & Hg & Hr)%bind_Some.
    apply v6_groups_bytes in Hg as [Hl Hb]; [|done|constructor]. by eapply v6_expand_bytes.
Qed.

Lemma ParseAddr_bytes s a :
  ParseAddr s = Some a →
  match a with V4 b => bytes_n 4 b | V6 b => bytes_n 16 b end.
Proof.
  unfold ParseAddr. destruct (first_sep s) as [c|]; [|done].
  destruct (Ascii.eqb c "."); [|destruct (Ascii.eqb c ":"); [|done]].
  - intros (b & Hb & ->)%fmap_Some. by eapply parseIPv4_bytes.
  - intros (b & Hb & ->)%fmap_Some. by eapply parseIPv6_bytes.
Qed.

Lemma As16_bytes s a : ParseAddr s = Some a → bytes_n 16 (As16 a).
Proof.
  intros Ha%ParseAddr_bytes. destruct a as [b|b]; [|done]. destruct Ha as [Hl Hb].
  split; [by rewrite length_app Hl|]. apply Forall_app. split; [|done].
  by repeat constructor.
Qed.

Lemma ParseIP_bytes s x : ParseIP s = Some x → bytes_n 16 x.
Proof. intros (a & Ha & ->)%fmap_Some. by eapply As16_bytes. Qed.

(** ** Networks contain the addresses with their prefix *)

#[local] Arguments CIDRMask : simpl never.
#[local] Arguments mask_bytes : simpl never.

Lemma mask_bytes_idemp x m : mask_bytes (mask_bytes x m) m = mask_bytes x m.
Proof.
  unfold mask_bytes. revert m; induction x as [|a x IH]; intros [|b m]; simpl; try done.
  by rewrite IH -Z.land_assoc Z.land_diag.
Qed.

Lemma CIDRMask_add o j k :
  CIDRMask o (j + k) = CIDRMask o j ++ CIDRMask (o - 8 * Z.of_nat j) k.
Proof.
  revert o; induction j as [|j IH]; intros o.
  - simpl. change (CIDRMask o 0) with (@nil Z). simpl. f_equal. lia.
  - rewrite Nat.add_succ_l !CIDRMask_cons IH. simpl. do 3 f_equal. lia.
Qed.

Lemma mask_bytes_app x1 x2 m1 m2 :
  length x1 = length m1 → mask_bytes (x1 ++ x2) (m1 ++ m2) = mask_bytes x1 m1 ++ mask_bytes x2 m2.
Proof. intros Hl. by apply zip_with_app. Qed.

Lemma byte_bits_eq a b :
  is_byte a → is_byte b → (∀ j, 0 ≤ j < 8 → Z.testbit a j = Z.testbit b j) → a = b.
Proof.
  intros Ha Hb Hj. pose proof (proj2 (land_mask_eq a b 8 Ha Hb)) as Hl.
  change (mask_byte 8) with (Z.ones 8) in Hl. rewrite !Z.land_ones // in Hl.
  rewrite !Z.mod_small // in Hl. apply Hl. intros j ? ?. by apply Hj.
Qed.

Lemma same_prefix_app n x1 x2 y1 y2 :
  0 ≤ n → Forall is_byte x1 → Forall is_byte y1 → length x1 = length y1 →
  (same_prefix (8 * Z.of_nat (length x1) + n) (x1 ++ x2) (y1 ++ y2)
   ↔ x1 = y1 ∧ same_prefix n x2 y2).
Proof.
  intros Hn Hx. revert y1. induction Hx as [|a x1 Ha Hx IH]; intros [|b y1] Hy Hl; try done.
  { simpl. naive_solver. }
  apply Forall_cons in Hy as [Hb Hy]. simpl in Hl. apply Nat.succ_inj in Hl.
  rewrite -!app_comm_cons same_prefix_cons. simpl length.
  replace (8 * Z.of_nat (S (length x1)) + n - 8)
    with (8 * Z.of_nat (length x1) + n) by lia.
  rewrite (IH y1 Hy Hl). split.
  - intros (Hj & -> & Hs). split; [|done]. f_equal. apply byte_bits_eq; [done..|].
    intros j Hj'. apply Hj; lia.
  - intros ([= -> ->] & Hs). done.
Qed.

Lemma To4_16 x :
  length x = 16%nat →
  To4 x = if decide (take 12 x = v4InV6Prefix) then Some (drop 12 x) else None.
Proof. intros Hl. unfold To4. rewrite Hl. simpl. by repeat case_decide. Qed.

Lemma mask_bytes_length x m : length x = length m → length (mask_bytes x m) = length m.
Proof. intros Hl. unfold mask_bytes. rewrite length_zip_with. lia. Qed.

(** What it means for a network to contain a 16-byte address: the prefixes
    agree, and IPv4 addresses only belong to networks of IPv4 addresses. *)
Definition net_allows (a : addr) (n : Z) (x : ip) : Prop :=
  let bits := match a with V4 _ => 96 + n | V6 _ => n end in
  same_prefix bits (As16 a) x ∧ (bits < 96 → To4 x = None).

Definition parsed_net (a : addr) (n : Z) : IPNet :=
  let m := CIDRMask n (match a with V4 _ => 4%nat | V6 _ => 16%nat end) in
  {| net_IP := default [] (Mask (As16 a) m); net_Mask := m |}.

(** The host address is as long as the network number, or excluded. *)
Lemma NetContains_cases nn m n x :
  networkNumberAndMask n = Some (nn, m) →
  NetContains n x = true
  ↔ length (default x (To4 x)) = length nn
    ∧ mask_bytes nn m = mask_bytes (default x (To4 x)) m.
Proof. unfold NetContains. intros ->. by rewrite andb_true_iff !bool_decide_eq_true. Qed.

Lemma same_prefix_split b x n :
  bytes_n 16 b → bytes_n 16 x → 0 ≤ n →
  same_prefix (96 + n) b x ↔ take 12 b = take 12 x ∧ same_prefix n (drop 12 b) (drop 12 x).
Proof.
  intros [Hlb Hb] [Hlx Hx] Hn. rewrite -{1}(take_drop 12 b) -{1}(take_drop 12 x).
  assert (length (take 12 b) = 12%nat) as Ht by (rewrite length_take; lia).
  rewrite -(same_prefix_app n (take 12 b)); [|done|by apply Forall_take..|].
  - by rewrite Ht.
  - rewrite !length_take. lia.
Qed.

Lemma V4_contains b n x :
  bytes_n 4 b → bytes_n 16 x → 0 ≤ n ≤ 32 →
  NetContains (parsed_net (V4 b) n) x = true ↔ net_allows (V4 b) n x.
Proof.
  intros [Hlb Hb] Hx Hn.
  assert (bytes_n 16 (v4InV6Prefix ++ b)) as Hb16.
  { split; [by rewrite length_app Hlb|]. apply Forall_app. split; [by repeat constructor|done]. }
  assert (length (mask_bytes b (CIDRMask n 4)) = 4%nat) as Hlm
    by (rewrite mask_bytes_length; rewrite CIDRMask_length; done).
  assert (net_IP (parsed_net (V4 b) n) = mask_bytes b (CIDRMask n 4)) as Hip.
  { unfold parsed_net, Mask. cbn [net_IP As16]. rewrite !CIDRMask_length !length_app !Hlb.
    cbn -[CIDRMask mask_bytes]. rewrite ?CIDRMask_length ?Hlb. done. }
  rewrite (NetContains_cases (mask_bytes b (CIDRMask n 4)) (CIDRMask n 4)); last first.
  { unfold networkNumberAndMask. rewrite Hip /To4 Hlm. simpl. by rewrite Hlm. }
  unfold net_allows. simpl As16. rewrite same_prefix_split; [|done..|lia].
  rewrite (To4_16 x (proj1 Hx)) Hlm mask_bytes_idemp.
  change (take 12 (v4InV6Prefix ++ b)) with v4InV6Prefix.
  change (drop 12 (v4InV6Prefix ++ b)) with b.
  destruct Hx as [Hlx Hx]. case_decide as Ht; simpl.
  - pose proof (mask_bytes_prefix n b (drop 12 x) Hb (Forall_drop _ _ _ Hx)) as Hp.
    rewrite length_drop Hlx Hlb in Hp. specialize (Hp eq_refl).
    replace (Z.min n (8 * Z.of_nat 4)) with n in Hp by lia. rewrite Hp length_drop Hlx.
    split; [intros [_ H]|intros [[_ H] _]]; (split; [done|]); done || (intros; lia).
  - split; [intros [H _]; lia|intros [[H _] _]; by destruct Ht].
Qed.

(** The mask keeps the first twelve bytes, or clears the last bit of them. *)
Lemma masked_prefix b n :
  bytes_n 16 b → 0 ≤ n ≤ 128 →
  (96 ≤ n → take 12 (mask_bytes b (CIDRMask n 16)) = take 12 b
            ∧ drop 12 (mask_bytes b (CIDRMask n 16))
              = mask_bytes (drop 12 b) (CIDRMask (n - 96) 4))
  ∧ (n < 96 → take 12 (mask_bytes b (CIDRMask n 16)) ≠ v4InV6Prefix).
Proof.
  intros [Hl Hb] Hn.
  assert (mask_bytes b (CIDRMask n 16)
          = mask_bytes (take 12 b) (CIDRMask n 12) ++ mask_bytes (drop 12 b) (CIDRMask (n - 96) 4))
    as Hm.
  { rewrite -{1}(take_drop 12 b) (CIDRMask_add n 12 4). apply mask_bytes_app.
    rewrite CIDRMask_length length_take. lia. }
  assert (length (mask_bytes (take 12 b) (CIDRMask n 12)) = 12%nat) as Hl12.
  { rewrite mask_bytes_length CIDRMask_length // length_take. lia. }
  rewrite Hm. split; intros H96.
  - rewrite take_app_length' // drop_app_length' //. split; [|done].
    assert (CIDRMask n 12 = replicate 12 255) as ->.
    { do 12 (rewrite CIDRMask_cons; unfold mask_byte at 1;
             rewrite (proj2 (Z.leb_le 8 _)); [|lia]). done. }
    assert (Forall is_byte (take 12 b)) as Hbt by (by apply Forall_take).
    assert (length (take 12 b) = 12%nat) as Hlt by (rewrite length_take; lia).
    revert Hbt Hlt. generalize 12%nat (take 12 b). intros k l Hl'. revert k.
    induction Hl' as [|c l Hc Hl' IH]; intros [|k]; try done.
    intros [= Hk]. unfold mask_bytes in *. simpl. rewrite IH //. f_equal.
    change 255 with (Z.ones 8). rewrite Z.land_ones // Z.mod_small //.
  - rewrite take_app_length' //. intros Heq.
    apply (f_equal (λ l, l !! 11%nat)) in Heq. unfold mask_bytes in Heq.
    rewrite lookup_zip_with in Heq.
    destruct (take 12 b !! 11%nat) as [c|] eqn:Ec; [|done].
    assert (CIDRMask n 12 = CIDRMask n 11 ++ CIDRMask (n - 88) 1) as Hsp
      by apply (CIDRMask_add n 11 1).
    rewrite Hsp lookup_app_r in Heq; [|by rewrite CIDRMask_length].
    rewrite CIDRMask_length Nat.sub_diag CIDRMask_cons in Heq.
    simpl in Heq. injection Heq as Heq.
    apply (f_equal (λ z, Z.testbit z 0)) in Heq.
    rewrite Z.land_spec mask_byte_bit // in Heq.
    rewrite (proj2 (Z.ltb_ge _ _)) in Heq; [|lia]. by rewrite andb_false_r in Heq.
Qed.

Lemma V6_contains b n x :
  bytes_n 16 b → bytes_n 16 x → 0 ≤ n ≤ 128 →
  NetContains (parsed_net (V6 b) n) x = true ↔ net_allows (V6 b) n x.
Proof.
  intros Hb Hx Hn. pose proof Hb as [Hlb Hbb]. pose proof Hx as [Hlx Hxb].
  set (m := CIDRMask n 16). set (nn := mask_bytes b m).
  assert (length m = 16%nat) as Hlm by apply CIDRMask_length.
  assert (length nn = 16%nat) as Hln by (unfold nn; rewrite mask_bytes_length; lia).
  assert (parsed_net (V6 b) n = {| net_IP := nn; net_Mask := m |}) as ->.
  { unfold parsed_net, Mask. cbn [As16]. fold m. rewrite Hlm Hlb. simpl. by rewrite ?Hlm ?Hlb. }
  destruct (masked_prefix b n Hb Hn) as [Hge Hlt]. fold m nn in Hge, Hlt.
  unfold net_allows. simpl As16.
  destruct (decide (take 12 nn = v4InV6Prefix)) as [Et|Et].
  - assert (96 ≤ n) as H96 by (destruct (Z.le_gt_cases 96 n); [done|by destruct Hlt]).
    destruct (Hge H96) as [Htk Hdr]. clear Hge Hlt.
    rewrite (NetContains_cases (drop 12 nn) (drop 12 m)); last first.
    { unfold networkNumberAndMask. cbn [net_IP net_Mask]. rewrite (To4_16 nn Hln).
      rewrite decide_True //. simpl. by rewrite ?length_drop ?Hln ?Hlm. }
    assert (drop 12 m = CIDRMask (n - 96) 4) as Hdm.
    { unfold m. rewrite (CIDRMask_add n 12 4) drop_app_length' // CIDRMask_length //. }
    replace n with (96 + (n - 96)) at 1 by lia.
    rewrite same_prefix_split // -?Htk; [|lia].
    rewrite Hdm Hdr mask_bytes_idemp (To4_16 x Hlx) mask_bytes_length; last first.
    { by rewrite CIDRMask_length length_drop Hlb. }
    rewrite CIDRMask_length Et. case_decide as Ex; simpl.
    + pose proof (mask_bytes_prefix (n - 96) (drop 12 b) (drop 12 x)
                    (Forall_drop _ _ _ Hbb) (Forall_drop _ _ _ Hxb)) as Hp.
      rewrite !length_drop Hlx Hlb in Hp. specialize (Hp eq_refl).
      replace (Z.min (n - 96) (8 * Z.of_nat (16 - 12))) with (n - 96) in Hp by lia.
      rewrite Hp length_drop Hlx. naive_solver lia.
    + rewrite Hlx. naive_solver.
  - rewrite (NetContains_cases nn m); last first.
    { unfold networkNumberAndMask. cbn [net_IP net_Mask]. rewrite (To4_16 nn Hln).
      rewrite decide_False //. simpl. by rewrite ?Hln ?Hlm. }
    unfold nn at 2. rewrite mask_bytes_idemp (To4_16 x Hlx) Hln.
    case_decide as Ex; simpl.
    + rewrite length_drop Hlx. split; [intros [H _]; lia|]. intros [Hs Hv].
      destruct (Z.le_gt_cases 96 n) as [H96|H96]; [|by discriminate Hv].
      exfalso. destruct (Hge H96) as [Htk _].
      replace n with (96 + (n - 96)) in Hs by lia.
      apply same_prefix_split in Hs as [Hs _]; [|done..|lia]. apply Et. by rewrite Htk Hs.
    + pose proof (mask_bytes_prefix n b x Hbb Hxb) as Hp.
      rewrite Hlx Hlb in Hp. specialize (Hp eq_refl).
      replace (Z.min n (8 * Z.of_nat 16)) with n in Hp by lia.
      rewrite Hp. naive_solver.
Qed.

(** ** What an allowlist allows *)

Section allowlist_spec.
Context `{UnicodeCase}.

(** The meaning of a configuration item: a host and a port, or a network. *)
Definition item_allows (it host : string) (port : Z) : Prop :=
  (∃ h p, Contains it "/" = false ∧ Cut ":" it = Some (h, p) ∧ Atoi p = Some port
          ∧ EqualFold host h = true)
  ∨ (∃ pre len a n x, Cut "/" it = Some (pre, len) ∧ ParseAddr pre = Some a
                      ∧ dtoi len = Some n ∧ ParseIP host = Some x ∧ net_allows a n x).

Lemma dtoi_nonneg s n : dtoi s = Some n → 0 ≤ n.
Proof.
  unfold dtoi. destruct s; [done|]. intros (v & Hv & Hn)%bind_Some.
  destruct (v <? 0xFFFFFF); simplify_eq. by eapply digits_val_nonneg in Hv.
Qed.

Lemma ParseCIDR_spec it n :
  ParseCIDR it = Some n →
  ∃ pre len a bits, Cut "/" it = Some (pre, len) ∧ ParseAddr pre = Some a
    ∧ dtoi len = Some bits ∧ n = parsed_net a bits
    ∧ ∀ x, bytes_n 16 x → NetContains n x = true ↔ net_allows a bits x.
Proof.
  unfold ParseCIDR. destruct (Cut "/" it) as [[pre len]|] eqn:Ec; [|done].
  intros (a & Ha & (bits & Hd & Hn)%bind_Some)%bind_Some.
  exists pre, len, a, bits. destruct (_ <? bits) eqn:El; [done|]. bool_props.
  injection Hn as <-. do 4 (split; [done|]). intros x Hx.
  apply dtoi_nonneg in Hd. apply ParseAddr_bytes in Ha.
  destruct a as [b|b]; [apply V4_contains|apply V6_contains]; done || lia.
Qed.

Lemma Cut_slash_Contains it p : Cut "/" it = Some p → Contains it "/" = true.
Proof. destruct p as [a b]. intros [-> _]%Cut_Some. apply Contains_spec. by exists a, b. Qed.

(** One accepted item means what it says. *)
Lemma allow_item_spec it o host port :
  allow_item it = Ok o →
  from_option (λ e, entry_Allowed e host port) false o = true
  ↔ item_allows (TrimSpace it) host port.
Proof.
  unfold allow_item, item_allows. set (t := TrimSpace it).
  destruct (String.eqb_spec t "") as [->|_].
  { intros [= <-]. simpl. split; [done|]. intros [(h & p & _ & H' & _)|(? & ? & ? & ? & ? & H' & _)];
      discriminate H'. }
  destruct (Contains t "/") eqn:Ec.
  - destruct (ParseCIDR t) as [n|] eqn:En; [|done]. intros [= <-]. simpl.
    apply ParseCIDR_spec in En as (pre & len & a & bits & Hc & Ha & Hd & _ & Hn).
    destruct (ParseIP host) as [x|] eqn:Ex.
    + rewrite Hn; [|by eapply ParseIP_bytes]. split.
      * intros Hx. right. by exists pre, len, a, bits, x.
      * intros [(? & ? & ? & _)|(? & ? & ? & ? & ? & ? & ? & ? & ? & ?)]; by simplify_eq.
    + split; [done|]. intros [(? & ? & ? & _)|(? & ? & ? & ? & ? & ? & ? & ? & ? & ?)];
        by simplify_eq.
  - destruct (Cut ":" t) as [[h p]|] eqn:Eh; [|done].
    destruct (Atoi p) as [q|] eqn:Eq; [|done]. destruct (_ || _); [done|].
    intros [= <-]. simpl. rewrite andb_true_iff Z.eqb_eq. split.
    + intros [Hf ->]. left. by exists h, p.
    + intros [(? & ? & _ & ? & ? & ?)|(? & ? & ? & ? & ? & Hc & _)]; [by simplify_eq|].
      apply Cut_slash_Contains in Hc. congruence.
Qed.

Lemma Allowed_exists l host port :
  Allowed l host port = true ↔ ∃ e, e ∈ l ∧ entry_Allowed e host port = true.
Proof.
  induction l as [|e l IH]; simpl; [split; [done|set_solver]|].
  rewrite !orb_true_iff IH. split.
  - intros [[He|He]|(e' & Hin & He)]; [|set_solver..]. exists e. split; [left|].
    destruct e; [done|discriminate He].
  - intros (e' & [->|Hin]%elem_of_cons & He); eauto.
Qed.

(** C40: an accepted allowlist means what its items say.  A host and port are
    allowed exactly when some item, trimmed, is [host:port] with that port and
    the host up to case, or a network a/n whose first n bits are those of the
    host's address; a network of IPv6 addresses never contains an IPv4
    host unless its prefix is at least 96 bits long. *)
Theorem Allowed_spec items l host port :
  NewAllowlist items = Ok l →
  Allowed l host port = true
  ↔ ∃ it, it ∈ items ∧ item_allows (TrimSpace it) host port.
Proof.
  rewrite Allowed_exists. revert l; induction items as [|it items IH]; intros l; simpl.
  { intros [= <-]. set_solver. }
  destruct (allow_item it) as [o|] eqn:Eo; [|done].
  destruct (NewAllowlist items) as [l'|]; [|done]. intros [= <-].
  apply (allow_item_spec it o host port) in Eo. specialize (IH l' eq_refl).
  setoid_rewrite elem_of_cons. setoid_rewrite elem_of_app. split.
  - intros (e & [He|He] & Hal).
    + exists it. split; [by left|]. apply Eo. destruct o; simpl in He; set_solver.
    + destruct (proj1 IH) as (it' & ? & ?); [by exists e|]. exists it'. auto.
  - intros (it' & [->|Hin] & Hal).
    + apply Eo in Hal. destruct o as [e|]; [|done]. exists e. split; [left; left|done].
    + destruct (proj2 IH) as (e & ? & ?); [by exists it'|]. exists e. auto.
Qed.

End allowlist_spec.

Lemma Allowed_spec_witness :
  let items := ["10.0.0.0/8"; " db.local:5432 "; ""] in
  ∃ l, @NewAllowlist items = Ok l ∧ length l = 2%nat
       ∧ @Allowed ascii_case l "10.1.2.3" 80 = true
       ∧ @Allowed ascii_case l "DB.local" 5432 = true
       ∧ @Allowed ascii_case l "11.0.0.1" 80 = false
       ∧ ∃ it, it ∈ items ∧ @item_allows ascii_case (TrimSpace it) "10.1.2.3" 80.
Proof.
  intros items. eexists. split; [vm_compute; reflexivity|].
  do 4 (split; [vm_compute; reflexivity|]).
  eapply (@Allowed_spec ascii_case items _ "10.1.2.3" 80); [reflexivity|vm_compute; reflexivity].
Defined.
