(* ===== verification/Values.v ===== *)
(** * Dynamic values and the data model

    [map[string]any] documents as the code handles them (request bodies
    decoded by encoding/json, rows of RethinkDB tables, records of the local
    store) and the data types of internal/model. *)

From S2P Require Import Prelude GoStrings.
From Stdlib Require Import SpecFloat.

#[local] Set Warnings "-register-all".

(** ** Values of type [any] *)

(** The dynamic types a decoded JSON document can hold.  A [float64] is kept
    as its IEEE representation; nothing in the code computes with it. *)
Inductive any : Type :=
  | ANil
  | ABool (b : bool)
  | ANum (f : spec_float)
  | AStr (s : string)
  | AArr (l : list any)
  | AObj (kvs : list (string * any)).

Definition float_zero : spec_float := S754_zero false.
Definition float_one : spec_float := S754_finite false 4503599627370496 (-52).

(** [map[string]any]. *)
Abbreviation doc := (gmap string any).

(** [v.(string)] and [v.(map[string]any)] with the comma-ok form. *)
Definition as_str (v : any) : option string :=
  match v with AStr s => Some s | _ => None end.
Definition as_obj (v : any) : option doc :=
  match v with AObj kvs => Some (list_to_map kvs) | _ => None end.

(** [m[k].(string)] where a missing key and a value of another type both give
    the zero string. *)
Definition str_field (m : doc) (k : string) : string :=
  match m !! k with Some (AStr s) => s | _ => "" end.

(** ** internal/model/db.go *)

(** [ColumnType], [AuditScope] and [Role] are string types with named
    constants; a decoded request body can hold any other text. *)
Abbreviation ColumnType := string (only parsing).
Definition ColString : ColumnType := "string".
Definition ColNumber : ColumnType := "number".
Definition ColBoolean : ColumnType := "boolean".
Definition ColTimestamp : ColumnType := "timestamp".
Definition ColJSON : ColumnType := "json".

Record ColumnDef : Type := {
  col_Name : string;
  col_Type : ColumnType;
  col_Required : bool;
  col_Unique : bool;
  col_Indexed : bool;
  col_Default : any;
  col_Enum : list string;
  col_Regex : string;
  col_Mask : bool
}.

Record Table : Type := {
  tbl_ID : string;
  tbl_DatabaseID : string;
  tbl_Name : string;
  tbl_PrimaryKey : string;
  tbl_TTL : Z;
  tbl_Schema : list ColumnDef;
  tbl_CreatedAt : string
}.

Record DatabaseInstance : Type := {
  di_ID : string;
  di_OrgID : string;
  di_Name : string;
  di_Description : string;
  di_Replication : Z;
  di_Shards : Z;
  di_PrimaryRegion : string;
  di_CreatedAt : string
}.

Abbreviation AuditScope := string (only parsing).
Definition ScopeDB : AuditScope := "db".
Definition ScopeTable : AuditScope := "table".
Definition ScopeRow : AuditScope := "row".

Record AuditEvent : Type := {
  ae_ID : string;
  ae_Scope : AuditScope;
  ae_ScopeID : string;
  ae_Actor : string;
  ae_Action : string;
  ae_Diff : any;
  ae_TS : string
}.

Abbreviation Role := string (only parsing).
Definition RoleAdmin : Role := "admin".
Definition RoleMaintainer : Role := "maintainer".
Definition RoleEditor : Role := "editor".
Definition RoleViewer : Role := "viewer".

Record PermissionBinding : Type := {
  pb_Principal : string;
  pb_Scope : string;
  pb_Role : Role;
  pb_CreatedAt : string
}.

Record ChangefeedEvent : Type := {
  cf_Type : string;
  cf_TableID : string;
  cf_RowID : string;
  cf_Before : option doc;
  cf_After : option doc;
  cf_Cursor : string;
  cf_TS : string;
  cf_Pending : Z;
  cf_Snapshot : bool;
  cf_Error : string
}.

Record ImportPreviewRow : Type := {
  ip_Raw : doc;
  ip_Mapped : doc;
  ip_Errors : list string
}.

Record ImportPreviewResponse : Type := {
  ipr_Rows : list ImportPreviewRow;
  ipr_ColumnMap : gmap string string;
  ipr_Total : Z;
  ipr_Errors : list string
}.

(** ** internal/model/types.go *)

Record Port : Type := { port_Port : Z; port_Name : string }.

Record Resources : Type := { res_CPU : string; res_Memory : string }.

Record Event : Type := {
  ev_T : string; ev_Type : string; ev_Message : string; ev_Status : string
}.

Record Server : Type := {
  srv_ID : string;
  srv_Name : string;
  srv_Image : string;
  srv_Status : string;
  srv_Node : string;
  srv_CreatedAt : string;
  srv_UpdatedAt : string;
  srv_Ports : list Port;
  srv_Resources : option Resources;
  srv_Args : list string;
  srv_Env : gmap string string;
  srv_Events : list Event;
  srv_URL : string
}.

Record LogLine : Type := { ll_T : string; ll_LVL : string; ll_MSG : string }.

Record JobSpec : Type := {
  js_Name : string;
  js_Image : string;
  js_Args : list string;
  js_Env : gmap string string;
  js_Resources : option Resources;
  js_Labels : gmap string string;
  js_Expose : list Port
}.

Record AgentRecord : Type := {
  ag_ID : string;
  ag_Org : string;
  ag_Hostname : string;
  ag_IP : string;
  ag_Ports : gmap string Z;
  ag_Capabilities : list string;
  ag_Version : string;
  ag_LastSeen : string
}.

(** ** JSON documents

    Blobs written by [json.Marshal] are represented by the document they
    denote.  Marshalling fails on the floats JSON cannot express and replaces
    malformed UTF-8. *)

Definition float_finite (f : spec_float) : bool :=
  match f with S754_infinity _ | S754_nan => false | _ => true end.

Fixpoint marshal (v : any) : result any :=
  match v with
  | ANil => Ok ANil
  | ABool b => Ok (ABool b)
  | ANum f => if float_finite f then Ok (ANum f)
              else Err "json: unsupported value"
  | AStr s => Ok (AStr (json_text s))
  | AArr l =>
      (fix go (l : list any) : result any :=
         match l with
         | [] => Ok (AArr [])
         | x :: r =>
             match marshal x, go r with
             | Ok x', Ok (AArr r') => Ok (AArr (x' :: r'))
             | Err e, _ | _, Err e => Err e
             | _, _ => Err "json: unsupported value"
             end
         end) l
  | AObj kvs =>
      (fix go (l : list (string * any)) : result any :=
         match l with
         | [] => Ok (AObj [])
         | (k, x) :: r =>
             match marshal x, go r with
             | Ok x', Ok (AObj r') => Ok (AObj ((json_text k, x') :: r'))
             | Err e, _ | _, Err e => Err e
             | _, _ => Err "json: unsupported value"
             end
         end) kvs
  end.

(** [json.Unmarshal] of a document into a [map[string]any]: an object fills the
    map, [null] leaves it nil, anything else is a type error. *)
Definition unmarshal_map (v : any) : result doc :=
  match v with
  | AObj kvs => Ok (list_to_map kvs)
  | ANil => Ok ∅
  | _ => Err "json: cannot unmarshal into Go value of type map[string]interface {}"
  end.

(** [json.Unmarshal] into a [[]map[string]any]. *)
Fixpoint unmarshal_maps (l : list any) : result (list doc) :=
  match l with
  | [] => Ok []
  | v :: r =>
      match unmarshal_map v, unmarshal_maps r with
      | Ok m, Ok ms => Ok (m :: ms)
      | Err e, _ | _, Err e => Err e
      end
  end.

(** A [map[string]any] as a value; key order does not matter to any reader. *)
Definition obj_of (m : doc) : any := AObj (map_to_list m).

(** ** Lemmas on flat records *)

(** The value a key of a map literal has: the map is built left to right from
    distinct keys, so the first occurrence decides. *)
Fixpoint assoc (k : string) (kvs : list (string * any)) : option any :=
  match kvs with
  | [] => None
  | (k', v) :: r => if String.eqb k' k then Some v else assoc k r
  end.

Lemma lookup_list_to_map_assoc kvs k : (list_to_map kvs : doc) !! k = assoc k kvs.
Proof.
  induction kvs as [|[k' v] kvs IH]; simpl; [apply lookup_empty|].
  rewrite lookup_insert IH. destruct (String.eqb_spec k' k); by case_decide.
Qed.

(** A record of strings, booleans and finite numbers, and its image under
    marshalling. *)
Definition flat_value (v : any) : bool :=
  match v with AStr _ | ABool _ => true | ANum f => float_finite f | _ => false end.

Definition stored_value (v : any) : any :=
  match v with AStr s => AStr (json_text s) | _ => v end.

Definition flat_record (kvs : list (string * any)) : bool :=
  forallb (λ kv, valid_utf8 kv.1 && flat_value kv.2) kvs.

Lemma marshal_flat kvs :
  flat_record kvs = true →
  marshal (AObj kvs) = Ok (AObj ((λ kv, (kv.1, stored_value kv.2)) <$> kvs)).
Proof.
  induction kvs as [|[k v] kvs IH]; [done|].
  cbn [flat_record forallb fst snd]. intros [[Hk Hv]%andb_true_iff Hr]%andb_true_iff.
  specialize (IH Hr). cbn [marshal] in IH |- *. rewrite IH json_text_valid //.
  destruct v; simpl in *; try done. by rewrite Hv.
Qed.

Lemma assoc_stored k kvs :
  assoc k ((λ kv, (kv.1, stored_value kv.2)) <$> kvs) = stored_value <$> assoc k kvs.
Proof.
  induction kvs as [|[k' v] kvs IH]; simpl; [done|]. by destruct (String.eqb k' k).
Qed.
