(* ===== verification/Names.v ===== *)
(** * Derived identifiers

    The three sanitisers of the code: physical database names (dbName in
    internal/db/db.go), Kubernetes object names (dns1123Name in
    internal/k8s/k8s.go) and cluster ids (sanitizeID in
    internal/cluster/registry.go). *)

From S2P Require Import Prelude GoStrings.

Local Open Scope Z_scope.

(** ** Character classes, on runes *)

Definition is_lower (r : Z) : bool := in_range 97 122 r.
Definition is_upper (r : Z) : bool := in_range 65 90 r.
Definition is_digit (r : Z) : bool := in_range 48 57 r.
Definition is_alnum (r : Z) : bool := is_lower r || is_digit r.
Definition is_dash (r : Z) : bool := r =? 45.
Definition is_underscore (r : Z) : bool := r =? 95.

(** Every rune of [s] is one of the class's ASCII characters. *)
Definition all_bytes (p : Z → bool) (s : string) : bool := forallb (λ c, p (bz c)) (s2b s).

(** ** dbName *)

Definition db_char (r : Z) : bool := is_alnum r || is_underscore r || is_dash r.

Definition sanitize (s : string) : string :=
  string_of_runes ((λ ch, if db_char ch then ch else 95) <$> runes s).

Section db_name.
Context `{UnicodeCase}.

Definition or_default (s : string) : string := if String.eqb s "" then "default" else s.

Definition dbName (orgID dbID : string) : string :=
  let org := or_default (ToLower (TrimSpace orgID)) in
  let db := or_default (ToLower (TrimSpace dbID)) in
  "org_" +:+ sanitize org +:+ "__" +:+ sanitize db.

End db_name.

(** ** dns1123Name *)

(** One iteration of the loop: the builder's bytes and [prevDash]. *)
Definition dns_step (st : bytes * bool) (r : Z) : bytes * bool :=
  let '(b, prevDash) := st in
  if is_lower r || is_digit r then (b ++ [zb r], false)
  else if is_dash r || is_underscore r || (r =? 32) then
    if negb prevDash && negb (bool_decide (b = [])) then (b ++ ["-"%char], true)
    else st
  else st.

(** [strings.ReplaceAll(s, "--", "-")]. *)
Fixpoint replace_dashes (s : bytes) : bytes :=
  match s with
  | c :: ((d :: s') as r) =>
      if Ascii.eqb c "-" && Ascii.eqb d "-" then "-"%char :: replace_dashes s'
      else c :: replace_dashes r
  | _ => s
  end.

Fixpoint has_double_dash (s : bytes) : bool :=
  match s with
  | c :: ((d :: _) as r) => (Ascii.eqb c "-" && Ascii.eqb d "-") || has_double_dash r
  | _ => false
  end.

(** The loop around it; each round shortens the text, so its length is enough
    fuel. *)
Fixpoint collapse (fuel : nat) (s : bytes) : bytes :=
  match fuel with
  | O => s
  | S n => if has_double_dash s then collapse n (replace_dashes s) else s
  end.

Definition dns1123Name `{UnicodeCase} (s : string) : string :=
  let s := ToLower (TrimSpace s) in
  let b := (foldl dns_step ([], false) (runes s)).1 in
  let res := s2b (TrimByte "-" (b2s b)) in
  let res := b2s (collapse (length res) res) in
  if String.eqb res "" then "workload" else res.

(** ** sanitizeID *)

Definition id_rune (r : Z) : list Z :=
  if is_lower r then [r]
  else if is_upper r then [r + (97 - 65)]
  else if is_digit r then [r]
  else if is_dash r || is_underscore r || (r =? 46) then [45]
  else [].

Definition sanitizeID (s : string) : string :=
  let res := string_of_runes (mjoin (id_rune <$> runes s)) in
  if String.eqb res "" then "default" else res.

Definition NormalID (id : string) : string := sanitizeID id.

(** ** Lemmas *)

Section ascii_text.
Context (p : Z → bool) (Hascii : ∀ r, p r = true → 0 ≤ r < 0x80).

Lemma all_bytes_ascii s : all_bytes p s = true → is_ascii s = true.
Proof.
  unfold all_bytes, is_ascii. intros Hs. apply forallb_forall. intros c Hc.
  rewrite forallb_forall in Hs. apply Hs in Hc. apply Hascii in Hc. lia.
Qed.

Lemma encode_runes rs :
  forallb p rs = true → s2b (string_of_runes rs) = zb <$> rs.
Proof.
  unfold string_of_runes. rewrite s2b_b2s.
  induction rs as [|r rs IH]; [done|]. simpl. intros [Hr Hrs]%andb_true_iff.
  rewrite encode_ascii; [|by apply Hascii]. by rewrite IH.
Qed.

Lemma bz_zb_runes rs : forallb p rs = true → bz <$> (zb <$> rs) = rs.
Proof.
  induction rs as [|r rs IH]; [done|]. intros [Hr Hrs]%andb_true_iff.
  rewrite !fmap_cons IH // bz_zb //. apply Hascii in Hr. lia.
Qed.

Lemma all_bytes_runes s : all_bytes p s = forallb p (bz <$> s2b s).
Proof.
  unfold all_bytes. induction (s2b s) as [|c b IH]; [done|].
  rewrite fmap_cons. simpl. by rewrite IH.
Qed.

Lemma all_bytes_encode rs :
  forallb p rs = true → all_bytes p (string_of_runes rs) = true.
Proof. intros Hrs. by rewrite all_bytes_runes encode_runes // bz_zb_runes. Qed.

Lemma runes_encode rs : forallb p rs = true → runes (string_of_runes rs) = rs.
Proof.
  intros Hrs. rewrite runes_ascii; [|by apply all_bytes_ascii, all_bytes_encode].
  by rewrite encode_runes // bz_zb_runes.
Qed.

Lemma encode_map_id (f : Z → Z) s :
  (∀ r, p r = true → f r = r) → all_bytes p s = true →
  string_of_runes (f <$> runes s) = s.
Proof.
  intros Hf Hs. rewrite runes_ascii; [|by apply all_bytes_ascii].
  assert (E : f <$> (bz <$> s2b s) = bz <$> s2b s).
  { rewrite all_bytes_runes in Hs. induction (bz <$> s2b s) as [|r rs IH]; [done|].
    simpl in Hs. apply andb_true_iff in Hs as [Hr Hrs]. by rewrite fmap_cons Hf // IH. }
  rewrite E. apply s2b_inj. rewrite encode_runes; [|by rewrite -all_bytes_runes].
  rewrite -list_fmap_compose -{2}(list_fmap_id (s2b s)). apply list_fmap_ext.
  intros i c _. apply zb_bz.
Qed.

Lemma ToLower_id `{UnicodeCase} s :
  (∀ r, p r = true → is_upper r = false) → all_bytes p s = true → ToLower s = s.
Proof.
  intros Hu. apply encode_map_id. intros r Hr. unfold lower_rune.
  pose proof (Hascii r Hr). replace (r <? 128) with true by lia.
  specialize (Hu r Hr). unfold is_upper in Hu. by rewrite Hu.
Qed.

Lemma TrimSpace_id s :
  (∀ r, p r = true → IsSpace r = false) → all_bytes p s = true → TrimSpace s = s.
Proof.
  intros Hsp Hs. unfold TrimSpace.
  rewrite -{2}(b2s_s2b s) -{2}(segs_join (s2b s)). f_equal. do 2 f_equal.
  assert (HF : Forall (λ rb, IsSpace rb.1 = false) (segs (s2b s))).
  { rewrite segs_ascii; [|by apply all_bytes_ascii]. apply Forall_fmap, Forall_forall.
    intros c Hc. simpl. apply Hsp. unfold all_bytes in Hs. rewrite forallb_forall in Hs.
    by apply Hs, list_elem_of_In. }
  assert (Hdw : ∀ l, Forall (λ rb : Z * bytes, IsSpace rb.1 = false) l →
                     drop_while (λ rb, IsSpace rb.1) l = l).
  { intros l Hl. apply drop_while_id. by destruct Hl. }
  unfold trim_by. rewrite (Hdw _ HF) (Hdw (reverse _)); [apply reverse_involutive|].
  by apply Forall_reverse.
Qed.

End ascii_text.

Lemma in_range_spec lo hi x : in_range lo hi x = true ↔ lo ≤ x ≤ hi.
Proof. unfold in_range. rewrite andb_true_iff. lia. Qed.

Ltac char_class :=
  unfold db_char, is_alnum, is_lower, is_upper, is_digit, is_dash, is_underscore,
    IsSpace, in_range in *; intros; lia.

Lemma db_char_ascii r : db_char r = true → 0 ≤ r < 0x80.
Proof. char_class. Qed.
Lemma db_char_lower r : db_char r = true → is_upper r = false.
Proof. char_class. Qed.
Lemma db_char_space r : db_char r = true → IsSpace r = false.
Proof. char_class. Qed.

#[export] Hint Resolve db_char_ascii db_char_lower db_char_space : gn.

Lemma sanitize_safe s : all_bytes db_char (sanitize s) = true.
Proof.
  apply all_bytes_encode; [auto with gn|]. induction (runes s) as [|r rs IH]; [done|].
  simpl. rewrite IH andb_true_r. by destruct (db_char r) eqn:E.
Qed.

Lemma sanitize_id s : all_bytes db_char s = true → sanitize s = s.
Proof.
  apply encode_map_id; [auto with gn|]. by intros r ->.
Qed.

Lemma all_bytes_app p s t : all_bytes p (s +:+ t) = all_bytes p s && all_bytes p t.
Proof. unfold all_bytes. by rewrite s2b_app forallb_app. Qed.

Lemma normal_id `{UnicodeCase} s :
  all_bytes db_char s = true → s ≠ "" →
  sanitize (or_default (ToLower (TrimSpace s))) = s.
Proof.
  intros Hs Hne. rewrite (TrimSpace_id db_char); [|auto with gn..].
  rewrite (ToLower_id db_char); [|auto with gn..].
  unfold or_default. destruct (String.eqb_spec s ""); [done|]. by apply sanitize_id.
Qed.

(** The name of normalised ids. *)
Lemma dbName_normal `{UnicodeCase} o d :
  all_bytes db_char o = true → o ≠ "" → all_bytes db_char d = true → d ≠ "" →
  dbName o d = "org_" +:+ o +:+ "__" +:+ d.
Proof. intros. unfold dbName. by rewrite !normal_id. Qed.

Definition id_char (r : Z) : bool := is_alnum r || is_dash r.

Lemma id_char_ascii r : id_char r = true → 0 ≤ r < 0x80.
Proof. unfold id_char. char_class. Qed.
Lemma id_char_lower r : id_char r = true → is_upper r = false.
Proof. unfold id_char. char_class. Qed.
Lemma id_char_space r : id_char r = true → IsSpace r = false.
Proof. unfold id_char. char_class. Qed.

#[export] Hint Resolve id_char_ascii id_char_lower id_char_space : gn.

Lemma bz_inj c d : bz c = bz d → c = d.
Proof. intros E. by rewrite -(zb_bz c) E zb_bz. Qed.

Lemma dash_bz c : Ascii.eqb c "-" = is_dash (bz c).
Proof.
  unfold is_dash. destruct (Ascii.eqb_spec c "-"%char) as [->|Hc]; [done|].
  symmetry. apply Z.eqb_neq. intros E. apply Hc, bz_inj. by rewrite E.
Qed.

Lemma all_bytes_not_in p c s : p (bz c) = false → all_bytes p s = true → c ∉ s2b s.
Proof.
  intros Hp Hs Hc. unfold all_bytes in Hs. rewrite forallb_forall in Hs.
  apply list_elem_of_In, Hs in Hc. congruence.
Qed.

(** *** Dashes *)

Definition last_dash (b : bytes) : bool :=
  match last b with Some c => Ascii.eqb c "-" | None => false end.
Definition head_dash (b : bytes) : bool :=
  match head b with Some c => Ascii.eqb c "-" | None => false end.

Lemma double_dash_snoc b c :
  has_double_dash (b ++ [c]) = has_double_dash b || (last_dash b && Ascii.eqb c "-").
Proof.
  induction b as [|x b IH]; [done|]. destruct b as [|y b].
  - simpl. by rewrite orb_false_r.
  - change (has_double_dash ((x :: y :: b) ++ [c]))
      with ((Ascii.eqb x "-" && Ascii.eqb y "-") || has_double_dash ((y :: b) ++ [c])).
    rewrite IH. unfold last_dash. rewrite (last_cons_cons x y b).
    change (has_double_dash (x :: y :: b))
      with ((Ascii.eqb x "-" && Ascii.eqb y "-") || has_double_dash (y :: b)).
    by rewrite orb_assoc.
Qed.

Lemma double_dash_mid a b : has_double_dash (a ++ "-"%char :: "-"%char :: b) = true.
Proof.
  induction a as [|x a IH]; [done|]. simpl. rewrite IH.
  destruct (a ++ _) eqn:E; [by destruct a|]. by rewrite orb_true_r.
Qed.

Lemma double_dash_infix a m b :
  has_double_dash (a ++ m ++ b) = false → has_double_dash m = false.
Proof.
  intros Hf. destruct (has_double_dash m) eqn:E; [|done]. exfalso.
  assert (Hm : ∃ u v, m = u ++ "-"%char :: "-"%char :: v).
  { clear Hf. induction m as [|x [|y m] IH]; [done..|]. simpl in E.
    apply orb_true_iff in E as [E|E].
    - apply andb_true_iff in E as [->%Ascii.eqb_eq ->%Ascii.eqb_eq]. by exists [], m.
    - destruct (IH E) as (u & v & ->). by exists (x :: u), v. }
  destruct Hm as (u & v & ->). rewrite -app_assoc app_assoc in Hf.
  change (("-"%char :: "-"%char :: v) ++ b) with ("-"%char :: "-"%char :: v ++ b) in Hf.
  by rewrite double_dash_mid in Hf.
Qed.

Lemma no_double_dash_Contains s :
  has_double_dash (s2b s) = false → Contains s "--" = false.
Proof.
  intros Hs. destruct (Contains s "--") eqn:E; [|done].
  apply Contains_spec in E as (a & b & ->). by rewrite !s2b_app double_dash_mid in Hs.
Qed.

Lemma collapse_id n s : has_double_dash s = false → collapse n s = s.
Proof. intros Hs. destruct n; [done|]. simpl. by rewrite Hs. Qed.

(** The builder's invariant. *)
Definition dns_inv (st : bytes * bool) : Prop :=
  forallb (λ c, id_char (bz c)) st.1 = true ∧ has_double_dash st.1 = false
  ∧ head_dash st.1 = false ∧ (last_dash st.1 = true → st.2 = true).

Lemma head_dash_snoc b c : b ≠ [] → head_dash (b ++ [c]) = head_dash b.
Proof. by destruct b. Qed.

Lemma last_dash_snoc b c : last_dash (b ++ [c]) = Ascii.eqb c "-".
Proof. unfold last_dash. by rewrite last_snoc. Qed.

Lemma dns_step_inv st r : dns_inv st → dns_inv (dns_step st r).
Proof.
  destruct st as [b prev]. intros (Hc & Hd & Hh & Hl). unfold dns_step. simpl in *.
  destruct (is_lower r || is_digit r) eqn:Er.
  - assert (Hz : bz (zb r) = r) by (apply bz_zb; revert Er; char_class).
    assert (Hnd : Ascii.eqb (zb r) "-" = false).
    { rewrite dash_bz Hz. revert Er. char_class. }
    unfold dns_inv. simpl. rewrite double_dash_snoc last_dash_snoc Hnd Hd.
    rewrite forallb_app Hc. simpl. rewrite Hz. unfold id_char, is_alnum. rewrite Er.
    rewrite andb_false_r. split; [done|]. split; [done|]. split; [|done].
    destruct b; [|done]. unfold head_dash. simpl. done.
  - destruct (_ || _ || _); [|by split_and!].
    destruct (negb prev && _) eqn:E; [|by split_and!].
    apply andb_true_iff in E as [->%negb_true_iff Hb%negb_true_iff].
    apply bool_decide_eq_false in Hb.
    unfold dns_inv. simpl. rewrite double_dash_snoc last_dash_snoc Hd forallb_app Hc.
    destruct (last_dash b) eqn:El; [by specialize (Hl eq_refl)|]. split; [done|].
    split; [done|]. split; [|done]. by rewrite head_dash_snoc.
Qed.

Lemma dns_fold_inv rs st : dns_inv st → dns_inv (foldl dns_step st rs).
Proof. revert st; induction rs as [|r rs IH]; [done|]. intros st Hi. by apply IH, dns_step_inv. Qed.

(** Names in normal form: non-empty text of letters, digits and single inner
    dashes. *)
Definition dns_normal (s : string) : bool :=
  negb (String.eqb s "") && all_bytes id_char s && negb (has_double_dash (s2b s))
  && negb (head_dash (s2b s)) && negb (last_dash (s2b s)).

Lemma dns_fold_normal b :
  forallb (λ c, id_char (bz c)) b = true → has_double_dash b = false →
  head_dash b = false → foldl dns_step ([], false) (bz <$> b) = (b, last_dash b).
Proof.
  induction b as [|c b IH] using rev_ind; [done|].
  rewrite forallb_app double_dash_snoc. intros [Hb Hc]%andb_true_iff [Hd Hdc]%orb_false_iff Hh.
  assert (Hhb : head_dash b = false).
  { destruct b; [done|]. by rewrite head_dash_snoc in Hh. }
  rewrite fmap_app foldl_app IH // last_dash_snoc. simpl.
  simpl in Hc. rewrite andb_true_r in Hc. rewrite dash_bz in Hdc |- *.
  destruct (is_lower (bz c) || is_digit (bz c)) eqn:E.
  - rewrite zb_bz. f_equal. revert E. char_class.
  - assert (Hdash : is_dash (bz c) = true).
    { unfold id_char, is_alnum in Hc. by rewrite E in Hc. }
    rewrite Hdash in Hdc |- *. rewrite andb_true_r in Hdc. rewrite Hdc. simpl.
    assert (b ≠ []).
    { intros ->. unfold head_dash in Hh. simpl in Hh. rewrite dash_bz in Hh. congruence. }
    rewrite bool_decide_eq_false_2 //. simpl. do 3 f_equal.
    symmetry. apply Ascii.eqb_eq. by rewrite dash_bz.
Qed.

Lemma trim_dash_id b : head_dash b = false → last_dash b = false →
  trim_by (Ascii.eqb "-") b = b.
Proof.
  intros Hh Hl. unfold trim_by.
  rewrite (drop_while_id _ b).
  - rewrite (drop_while_id _ (reverse b)); [apply reverse_involutive|].
    unfold last_dash in Hl. destruct b as [|x b _] using rev_ind; [done|].
    rewrite reverse_snoc. rewrite last_snoc in Hl. by rewrite Ascii.eqb_sym.
  - unfold head_dash in Hh. destruct b; [done|]. simpl in Hh. by rewrite Ascii.eqb_sym.
Qed.

Lemma dns_normal_fixed `{UnicodeCase} s : dns_normal s = true → dns1123Name s = s.
Proof.
  unfold dns_normal. intros Hn. bool_props.
  destruct (String.eqb s "") eqn:Es; [done|].
  unfold dns1123Name.
  rewrite (TrimSpace_id id_char); [|auto with gn..].
  rewrite (ToLower_id id_char); [|auto with gn..].
  rewrite runes_ascii; [|by eapply (all_bytes_ascii id_char); auto with gn].
  rewrite dns_fold_normal //. cbn [fst]. unfold TrimByte.
  rewrite !s2b_b2s trim_dash_id // collapse_id // b2s_s2b. by rewrite Es.
Qed.

Lemma trim_dash_ends b :
  head_dash (trim_by (Ascii.eqb "-") b) = false ∧ last_dash (trim_by (Ascii.eqb "-") b) = false.
Proof.
  pose proof (trim_by_first (Ascii.eqb "-") b) as H1.
  pose proof (trim_by_last (Ascii.eqb "-") b) as H2.
  set (t := trim_by (Ascii.eqb "-") b) in *. split.
  - unfold head_dash. destruct t as [|c t']; [done|].
    pose proof (drop_while_head (Ascii.eqb "-") (c :: t')) as Hh.
    rewrite H1 in Hh. simpl in *. by rewrite Ascii.eqb_sym.
  - unfold last_dash. rewrite -head_reverse.
    pose proof (drop_while_head (Ascii.eqb "-") (reverse t)) as Hh.
    rewrite H2 in Hh. destruct (reverse t) as [|c t']; [done|]. simpl.
    by rewrite Ascii.eqb_sym.
Qed.

Lemma dns1123Name_normal `{UnicodeCase} s : dns_normal (dns1123Name s) = true.
Proof.
  unfold dns1123Name. set (st := foldl _ _ _).
  assert (Hi : dns_inv st) by (by apply dns_fold_inv). destruct Hi as (Hc & Hd & _ & _).
  unfold TrimByte. rewrite !s2b_b2s.
  destruct (trim_by_infix (Ascii.eqb "-") st.1) as (a & b & Hab).
  destruct (trim_dash_ends st.1) as [Hh Hl].
  set (t := trim_by (Ascii.eqb "-") st.1) in *.
  assert (Hdt : has_double_dash t = false).
  { apply (double_dash_infix a t b). by rewrite -Hab. }
  rewrite collapse_id //. destruct (String.eqb_spec (b2s t) "") as [E|E]; [done|].
  unfold dns_normal. rewrite s2b_b2s Hdt Hh Hl. unfold all_bytes. rewrite s2b_b2s.
  rewrite Hab !forallb_app in Hc. apply andb_true_iff in Hc as [_ Hc].
  apply andb_true_iff in Hc as [Hc _]. rewrite Hc.
  by destruct (String.eqb_spec (b2s t) "").
Qed.

(** *** sanitizeID *)

Lemma id_rune_char r : forallb id_char (id_rune r) = true.
Proof.
  unfold id_rune. destruct (is_lower r) eqn:E1; [|destruct (is_upper r) eqn:E2];
    [| |destruct (is_digit r) eqn:E3; [|by destruct (_ || _)]];
    simpl; rewrite andb_true_r; unfold id_char; revert E1; try revert E2; try revert E3;
    char_class.
Qed.

Lemma id_runes_char rs : forallb id_char (mjoin (id_rune <$> rs)) = true.
Proof.
  induction rs as [|r rs IH]; [done|]. rewrite fmap_cons. cbn [mjoin list_join].
  rewrite forallb_app id_rune_char. apply IH.
Qed.

Lemma id_rune_id r : id_char r = true → id_rune r = [r].
Proof.
  intros Hr. unfold id_rune. destruct (is_lower r) eqn:E1; [done|].
  rewrite (id_char_lower r Hr). destruct (is_digit r) eqn:E3; [done|].
  unfold id_char, is_alnum in Hr. rewrite E1 E3 in Hr. simpl in Hr. rewrite Hr. simpl.
  unfold is_dash in Hr. apply Z.eqb_eq in Hr. by rewrite Hr.
Qed.

Lemma sanitizeID_char s : all_bytes id_char (sanitizeID s) = true.
Proof.
  unfold sanitizeID. destruct (String.eqb _ ""); [done|].
  apply all_bytes_encode; [auto with gn|]. apply id_runes_char.
Qed.

Lemma sanitizeID_nonempty s : sanitizeID s ≠ "".
Proof. unfold sanitizeID. set (r := string_of_runes _). by destruct (String.eqb_spec r ""). Qed.

Lemma sanitizeID_fixed s : all_bytes id_char s = true → s ≠ "" → sanitizeID s = s.
Proof.
  intros Hs Hne. unfold sanitizeID.
  assert (E : mjoin (id_rune <$> runes s) = id <$> runes s).
  { rewrite runes_ascii; [|by eapply (all_bytes_ascii id_char); auto with gn].
    rewrite all_bytes_runes in Hs. induction (bz <$> s2b s) as [|r rs IH]; [done|].
    simpl in Hs. apply andb_true_iff in Hs as [Hr Hrs].
    rewrite !fmap_cons. cbn [mjoin list_join]. by rewrite id_rune_id // IH. }
  rewrite E (encode_map_id id_char); [|auto with gn|done|done].
  by destruct (String.eqb_spec s "").
Qed.

(** ** Properties *)

(** Physical database names.  Every name is made of the characters the
    database accepts and starts with the tenant prefix; ids that are already
    normalised, with organisations free of underscores, get different names
    when they differ; but an organisation id may contain the separator, and
    then the databases of two organisations coincide. *)
Theorem dbName_tenants `{UnicodeCase} :
  (∀ org db, all_bytes db_char (dbName org db) = true
             ∧ HasPrefix (dbName org db) "org_" = true)
  ∧ (∀ o d o' d',
       all_bytes db_char o = true → all_bytes db_char o' = true →
       all_bytes db_char d = true → all_bytes db_char d' = true →
       o ≠ "" → o' ≠ "" → d ≠ "" → d' ≠ "" →
       "_"%char ∉ s2b o → "_"%char ∉ s2b o' →
       dbName o d = dbName o' d' → o = o' ∧ d = d')
  ∧ (∀ a b c,
       all_bytes db_char a = true → all_bytes db_char b = true →
       all_bytes db_char c = true → a ≠ "" → b ≠ "" → c ≠ "" →
       dbName (a +:+ "__" +:+ b) c = dbName a (b +:+ "__" +:+ c)).
Proof.
  split; [|split].
  - intros org db. unfold dbName. split; [|apply HasPrefix_app].
    rewrite !all_bytes_app !sanitize_safe. done.
  - intros o d o' d' Ho Ho' Hd Hd' ? ? ? ? Hu Hu'. rewrite !dbName_normal //.
    intros E%str_app_inv_l.
    assert (Hcut : ∀ x y, "_"%char ∉ s2b x →
      Cut "_" (x +:+ String "_" y) = Some (x, y)).
    { intros x y. induction x as [|c x IH]; [done|]. intros [Hc Hx]%not_elem_of_cons.
      change (String c x +:+ String "_" y) with (String c (x +:+ String "_" y)).
      cbn [Cut]. destruct (Ascii.eqb_spec c "_"%char); [by subst|]. by rewrite IH. }
    apply (f_equal (Cut "_")) in E. cbn [String.append] in E.
    rewrite !Hcut // in E. by simplify_eq.
  - intros a b c Ha Hb Hc Hna Hnb Hnc. rewrite !dbName_normal //.
    + by rewrite !str_app_assoc.
    + by rewrite !all_bytes_app Hb Hc.
    + by destruct b.
    + by rewrite !all_bytes_app Ha Hb.
    + by destruct a.
Qed.

Lemma dbName_tenants_witness :
  @dbName ascii_case "acme__eu" "sales" = "org_acme__eu__sales"
  ∧ @dbName ascii_case "acme__eu" "sales" = @dbName ascii_case "acme" "eu__sales".
Proof.
  split; [vm_compute; reflexivity|].
  apply (proj2 (proj2 (@dbName_tenants ascii_case)) "acme" "eu" "sales");
    first [discriminate | vm_compute; reflexivity].
Defined.

(** Kubernetes object names.  Whatever the input, the derived name is a
    non-empty text of lower-case letters, digits and single dashes that neither
    starts nor ends with a dash; names of that form are unchanged, so the
    function is idempotent. *)
Theorem dns1123Name_spec `{UnicodeCase} (s : string) :
  let n := dns1123Name s in
  n ≠ "" ∧ all_bytes (λ r, is_alnum r || is_dash r) n = true
  ∧ Contains n "--" = false ∧ head_dash (s2b n) = false ∧ last_dash (s2b n) = false
  ∧ dns1123Name n = n.
Proof.
  intros n. pose proof (dns1123Name_normal s) as Hn. fold n in Hn.
  split_and!; [..|by apply dns_normal_fixed]; unfold dns_normal in Hn; bool_props; try done.
  - by intros ->.
  - by apply no_double_dash_Contains.
Qed.

(** Cluster ids.  The id under which a cluster is registered, and which
    names its state directory, is a non-empty text of lower-case letters,
    digits and dashes: it has no path separator and no dot, so the directory
    stays inside the state directory; and normalising is idempotent. *)
Theorem NormalID_spec (s : string) :
  NormalID s ≠ "" ∧ all_bytes (λ r, is_alnum r || is_dash r) (NormalID s) = true
  ∧ ("/"%char ∉ s2b (NormalID s)) ∧ ("."%char ∉ s2b (NormalID s))
  ∧ NormalID (NormalID s) = NormalID s.
Proof.
  unfold NormalID. pose proof (sanitizeID_char s) as Hc.
  pose proof (sanitizeID_nonempty s) as Hn.
  assert (Hno : ∀ c, id_char (bz c) = false → c ∉ s2b (sanitizeID s)).
  { intros c Hp. by eapply all_bytes_not_in. }
  split_and!; [done|done|by apply Hno|by apply Hno|by apply sanitizeID_fixed].
Qed.
