(* ===== verification/Rbac.v ===== *)
(** * Role bindings and row masking (internal/httpx/rbac.go)

    The in-memory binding store, the role lookup, the role/action matrix and
    the redaction of masked columns.  The store is specified by a finite map
    from (scope, principal) to binding. *)

From S2P Require Import Prelude GoStrings Values.

(** ** The store *)

(** [RBACStore.bindings]: scope -> bindings, in the order they were granted. *)
Record RBACStore : Type := { bindings : gmap string (list PermissionBinding) }.

Definition NewRBACStore : RBACStore := {| bindings := ∅ |}.

(** [s.bindings[scope]]: a missing key reads as the nil slice. *)
Definition scope_bindings (s : RBACStore) (scope : string) : list PermissionBinding :=
  default [] (bindings s !! scope).

(** The replace loop of [Grant]: overwrite the first binding of the same
    principal and stop; [None] when no binding was replaced. *)
Fixpoint replace_binding (b : PermissionBinding) (arr : list PermissionBinding)
    : option (list PermissionBinding) :=
  match arr with
  | [] => None
  | existing :: rest =>
      if String.eqb (pb_Principal existing) (pb_Principal b)
      then Some (b :: rest)
      else cons existing <$> replace_binding b rest
  end.

Definition Grant (s : RBACStore) (b : PermissionBinding) : RBACStore :=
  let arr := scope_bindings s (pb_Scope b) in
  let arr' := match replace_binding b arr with
              | Some l => l
              | None => arr ++ [b]
              end in
  {| bindings := <[pb_Scope b := arr']> (bindings s) |}.

Definition Revoke (s : RBACStore) (scope principal : string) : RBACStore :=
  let out := List.filter (λ b, negb (String.eqb (pb_Principal b) principal))
               (scope_bindings s scope) in
  match out with
  | [] => {| bindings := delete scope (bindings s) |}
  | _ => {| bindings := <[scope := out]> (bindings s) |}
  end.

(** The inner loop of [RoleFor]: the first binding of the principal. *)
Definition role_in (s : RBACStore) (scope principal : string) : option Role :=
  pb_Role <$> find_first (λ b, String.eqb (pb_Principal b) principal)
                (scope_bindings s scope).

(** Table scope first, then database scope, then the empty role. *)
Definition RoleFor (s : RBACStore) (principal tableID dbID : string) : Role :=
  let table_hit := if String.eqb tableID "" then None
                   else role_in s ("table:" +:+ tableID) principal in
  match table_hit with
  | Some r => r
  | None =>
      let db_hit := if String.eqb dbID "" then None
                    else role_in s ("db:" +:+ dbID) principal in
      default "" db_hit
  end.

(** ** Actions *)

Definition is_maintainer_or_admin (role : Role) : bool :=
  String.eqb role RoleMaintainer || String.eqb role RoleAdmin.

Definition Allow (role : Role) (action : string) : bool :=
  if String.eqb role RoleAdmin then true
  else if String.eqb action "db.create" || String.eqb action "db.delete" then
    is_maintainer_or_admin role
  else if String.eqb action "table.create" || String.eqb action "table.schema"
          || String.eqb action "table.delete" then
    is_maintainer_or_admin role
  else if String.eqb action "row.read" then
    String.eqb role RoleViewer || String.eqb role RoleEditor
    || is_maintainer_or_admin role
  else if String.eqb action "row.write" then
    String.eqb role RoleEditor || is_maintainer_or_admin role
  else false.

(** ** Masking *)

(** One step of the schema loop: redact a masked column that is present. *)
Definition mask_column (role : Role) (out : doc) (c : ColumnDef) : doc :=
  if col_Mask c && (String.eqb role RoleViewer || String.eqb role RoleEditor)
  then match out !! col_Name c with
       | Some _ => <[col_Name c := AStr "***"]> out
       | None => out
       end
  else out.

(** The source returns the caller's map for admins and maintainers and a fresh
    copy otherwise; callers only read the result. *)
Definition MaskRow (role : Role) (schema : list ColumnDef) (row : doc) : doc :=
  if String.eqb role RoleAdmin || String.eqb role RoleMaintainer then row
  else foldl (mask_column role) row schema.

Definition PrincipalFromRequest (rh : string) : string :=
  if String.eqb (TrimSpace rh) "" then "" else rh.

(** ** Abstract specification *)

(** What the store promises: one binding per (scope, principal). *)
Definition spec_state : Type := gmap (string * string) PermissionBinding.

Definition spec_grant (m : spec_state) (b : PermissionBinding) : spec_state :=
  <[(pb_Scope b, pb_Principal b) := b]> m.

Definition spec_revoke (m : spec_state) (scope principal : string) : spec_state :=
  delete (scope, principal) m.

Definition binding_in (s : RBACStore) (scope principal : string)
    : option PermissionBinding :=
  find_first (λ b, String.eqb (pb_Principal b) principal) (scope_bindings s scope).

Definition refines (s : RBACStore) (m : spec_state) : Prop :=
  ∀ scope principal, binding_in s scope principal = m !! (scope, principal).

(** Representation invariant: under every scope, at least one binding, each of
    that scope, no principal twice. *)
Definition scope_wf (scope : string) (arr : list PermissionBinding) : Prop :=
  arr ≠ [] ∧ Forall (λ b, pb_Scope b = scope) arr ∧ NoDup (pb_Principal <$> arr).

Definition store_wf (s : RBACStore) : Prop := map_Forall scope_wf (bindings s).

(** Operations on the store, and the states they reach from the empty one. *)
Inductive rbac_op : Type :=
  | OpGrant (b : PermissionBinding)
  | OpRevoke (scope principal : string).

Definition run_op (s : RBACStore) (o : rbac_op) : RBACStore :=
  match o with
  | OpGrant b => Grant s b
  | OpRevoke scope p => Revoke s scope p
  end.

Definition spec_op (m : spec_state) (o : rbac_op) : spec_state :=
  match o with
  | OpGrant b => spec_grant m b
  | OpRevoke scope p => spec_revoke m scope p
  end.

Definition run_ops (ops : list rbac_op) : RBACStore := foldl run_op NewRBACStore ops.
Definition spec_ops (ops : list rbac_op) : spec_state := foldl spec_op ∅ ops.

(** The order of privileges. *)
Definition rank (role : Role) : nat :=
  if String.eqb role RoleAdmin then 4
  else if String.eqb role RoleMaintainer then 3
  else if String.eqb role RoleEditor then 2
  else if String.eqb role RoleViewer then 1
  else 0.

(** ** Lemmas *)

Section lookup_lemmas.

Abbreviation by_principal p := (λ b, String.eqb (pb_Principal b) p).

Lemma scope_bindings_insert s scope scope' (arr : list PermissionBinding) :
  scope_bindings {| bindings := <[scope := arr]> (bindings s) |} scope'
  = if decide (scope = scope') then arr else scope_bindings s scope'.
Proof. unfold scope_bindings; simpl. rewrite lookup_insert. by case_decide. Qed.

Lemma scope_bindings_delete s scope scope' :
  scope_bindings {| bindings := delete scope (bindings s) |} scope'
  = if decide (scope = scope') then [] else scope_bindings s scope'.
Proof. unfold scope_bindings; simpl. rewrite lookup_delete. by case_decide. Qed.

Lemma scope_bindings_Revoke s scope principal scope' :
  scope_bindings (Revoke s scope principal) scope'
  = if decide (scope = scope')
    then List.filter (λ b, negb (by_principal principal b)) (scope_bindings s scope)
    else scope_bindings s scope'.
Proof.
  unfold Revoke.
  destruct (List.filter _ (scope_bindings s scope)) as [|x out] eqn:E.
  - apply scope_bindings_delete.
  - rewrite scope_bindings_insert. by case_decide.
Qed.

Lemma replace_binding_Some b arr l p :
  replace_binding b arr = Some l →
  find_first (by_principal p) l
  = if decide (pb_Principal b = p) then Some b else find_first (by_principal p) arr.
Proof.
  revert l; induction arr as [|x arr IH]; intros l; simpl; [done|].
  destruct (String.eqb_spec (pb_Principal x) (pb_Principal b)) as [E|E].
  - intros [= <-]. simpl. rewrite E.
    destruct (String.eqb_spec (pb_Principal b) p); by case_decide.
  - intros H. apply fmap_Some in H as (l' & H & ->). simpl.
    destruct (String.eqb_spec (pb_Principal x) p); [case_decide; congruence|].
    by apply IH.
Qed.

Lemma replace_binding_None b arr :
  replace_binding b arr = None → Forall (λ x, pb_Principal x ≠ pb_Principal b) arr.
Proof.
  induction arr as [|x arr IH]; simpl; [constructor|].
  destruct (String.eqb_spec (pb_Principal x) (pb_Principal b)); [done|].
  intros H%fmap_None. auto.
Qed.

Lemma replace_binding_perm b arr l :
  replace_binding b arr = Some l → pb_Principal <$> l = pb_Principal <$> arr.
Proof.
  revert l; induction arr as [|x arr IH]; intros l; simpl; [done|].
  destruct (String.eqb_spec (pb_Principal x) (pb_Principal b)) as [E|E].
  - intros [= <-]. simpl. by rewrite E.
  - intros H. apply fmap_Some in H as (l' & H & ->). simpl. f_equal. auto.
Qed.

Lemma replace_binding_Forall (P : PermissionBinding → Prop) b arr l :
  replace_binding b arr = Some l → P b → Forall P arr → Forall P l.
Proof.
  revert l; induction arr as [|x arr IH]; intros l; simpl; [done|].
  destruct (String.eqb _ _).
  - intros [= <-] ? [? ?]%Forall_cons. auto.
  - intros H ? [? ?]%Forall_cons. apply fmap_Some in H as (l' & H & ->). eauto.
Qed.

Lemma find_first_snoc b arr p :
  Forall (λ x, pb_Principal x ≠ pb_Principal b) arr →
  find_first (by_principal p) (arr ++ [b])
  = if decide (pb_Principal b = p) then Some b else find_first (by_principal p) arr.
Proof.
  induction arr as [|x arr IH]; simpl.
  - intros _. destruct (String.eqb_spec (pb_Principal b) p); by case_decide.
  - intros [Hx HF]%Forall_cons.
    destruct (String.eqb_spec (pb_Principal x) p); [case_decide; [congruence|done]|].
    by apply IH.
Qed.

Lemma find_first_filter arr p q :
  find_first (by_principal p) (List.filter (λ b, negb (by_principal q b)) arr)
  = if decide (q = p) then None else find_first (by_principal p) arr.
Proof.
  induction arr as [|x arr IH]; simpl; [by case_decide|].
  destruct (String.eqb_spec (pb_Principal x) q) as [->|Hq]; simpl.
  - rewrite IH. case_decide; [done|].
    destruct (String.eqb_spec q p); by simplify_eq.
  - destruct (String.eqb_spec (pb_Principal x) p); [case_decide; congruence|].
    by rewrite IH.
Qed.

(** Reading back after [Grant]: exactly the granted pair changes. *)
Lemma binding_in_Grant s b scope p :
  binding_in (Grant s b) scope p
  = if decide ((pb_Scope b, pb_Principal b) = (scope, p)) then Some b
    else binding_in s scope p.
Proof.
  unfold binding_in, Grant. rewrite scope_bindings_insert.
  destruct (decide (pb_Scope b = scope)) as [<-|Hs]; [|case_decide; congruence].
  destruct (replace_binding b _) as [l|] eqn:E.
  - rewrite (replace_binding_Some _ _ _ p E). repeat case_decide; congruence.
  - apply replace_binding_None in E. rewrite (find_first_snoc _ _ p E).
    repeat case_decide; congruence.
Qed.

(** Reading back after [Revoke]: exactly the revoked pair disappears. *)
Lemma binding_in_Revoke s sc q scope p :
  binding_in (Revoke s sc q) scope p
  = if decide ((sc, q) = (scope, p)) then None else binding_in s scope p.
Proof.
  unfold binding_in. rewrite scope_bindings_Revoke.
  destruct (decide (sc = scope)) as [<-|Hs]; [|case_decide; congruence].
  rewrite find_first_filter. repeat case_decide; congruence.
Qed.

End lookup_lemmas.

Lemma refines_Grant s m b : refines s m → refines (Grant s b) (spec_grant m b).
Proof.
  intros H scope p. rewrite binding_in_Grant /spec_grant lookup_insert.
  by case_decide.
Qed.

Lemma refines_Revoke s m sc q : refines s m → refines (Revoke s sc q) (spec_revoke m sc q).
Proof.
  intros H scope p. rewrite binding_in_Revoke /spec_revoke lookup_delete.
  by case_decide.
Qed.

Lemma scope_wf_lookup s scope : store_wf s → scope_bindings s scope ≠ [] →
  scope_wf scope (scope_bindings s scope).
Proof.
  unfold scope_bindings. intros Hwf. destruct (bindings s !! scope) eqn:E; simpl; [|done].
  intros _. by apply Hwf.
Qed.

Lemma store_wf_Grant s b : store_wf s → store_wf (Grant s b).
Proof.
  intros Hwf. unfold Grant, store_wf. simpl.
  apply map_Forall_insert_2; [|done].
  assert (Hs : Forall (λ x, pb_Scope x = pb_Scope b) (scope_bindings s (pb_Scope b))
               ∧ NoDup (pb_Principal <$> scope_bindings s (pb_Scope b))).
  { destruct (decide (scope_bindings s (pb_Scope b) = [])) as [->|Hn].
    - split; constructor.
    - by destruct (scope_wf_lookup _ _ Hwf Hn) as (? & ? & ?). }
  destruct Hs as [HF HN]. destruct (replace_binding b _) as [l|] eqn:E.
  - pose proof (replace_binding_perm _ _ _ E) as Hp. repeat split.
    + intros ->. destruct (scope_bindings _ _); simplify_eq/=.
    + by eapply replace_binding_Forall.
    + by rewrite Hp.
  - apply replace_binding_None in E. repeat split.
    + by destruct (scope_bindings _ _).
    + apply Forall_app. auto.
    + rewrite fmap_app. apply NoDup_app. simpl. repeat split; [done| |].
      * intros x Hx ->%list_elem_of_singleton.
        apply list_elem_of_fmap in Hx as (y & Hy & Hyin).
        rewrite Forall_forall in E. by apply (E y).
      * apply NoDup_singleton.
Qed.

Lemma store_wf_Revoke s sc q : store_wf s → store_wf (Revoke s sc q).
Proof.
  intros Hwf. unfold Revoke, store_wf.
  destruct (List.filter _ _) as [|x out] eqn:E; simpl; [by apply map_Forall_delete|].
  apply map_Forall_insert_2; [|done].
  assert (Hn : scope_bindings s sc ≠ []) by (intros Hn; by rewrite Hn in E).
  destruct (scope_wf_lookup _ _ Hwf Hn) as (_ & HF & HN).
  split; [done|]. rewrite -E.
  auto using Forall_List_filter, NoDup_fmap_filter.
Qed.

#[export] Hint Resolve refines_Grant refines_Revoke store_wf_Grant store_wf_Revoke : gn.

Lemma run_op_sound s m o :
  refines s m ∧ store_wf s → refines (run_op s o) (spec_op m o) ∧ store_wf (run_op s o).
Proof. intros [? ?]. destruct o; simpl; auto with gn. Qed.

Lemma run_ops_sound ops s m :
  refines s m ∧ store_wf s →
  refines (foldl run_op s ops) (foldl spec_op m ops) ∧ store_wf (foldl run_op s ops).
Proof.
  revert s m; induction ops as [|o ops IH]; intros s m H; [done|].
  simpl. by apply IH, run_op_sound.
Qed.

Lemma refines_empty : refines NewRBACStore ∅ ∧ store_wf NewRBACStore.
Proof. split; [intros ??; by rewrite lookup_empty|apply map_Forall_empty]. Qed.

(** The role read by [RoleFor] in terms of the abstract map. *)
Lemma role_in_refines s m scope p :
  refines s m → role_in s scope p = pb_Role <$> m !! (scope, p).
Proof. intros H. unfold role_in. by rewrite -(H scope p). Qed.

(** ** Masking lemmas *)

Lemma mask_column_dom role out c : dom (mask_column role out c) = dom out.
Proof.
  unfold mask_column. destruct (_ && _); [|done].
  destruct (out !! col_Name c) eqn:E; [|done].
  rewrite dom_insert_L. apply elem_of_dom_2 in E. set_solver.
Qed.

Lemma mask_column_other role out c k :
  k ≠ col_Name c → mask_column role out c !! k = out !! k.
Proof.
  intros Hk. unfold mask_column. destruct (_ && _); [|done].
  destruct (out !! col_Name c); [|done]. by rewrite lookup_insert_ne.
Qed.

Lemma mask_column_cases role out c k :
  mask_column role out c !! k = out !! k
  ∨ mask_column role out c !! k = Some (AStr "***").
Proof.
  destruct (decide (k = col_Name c)) as [->|Hne]; [|left; by apply mask_column_other].
  unfold mask_column. destruct (_ && _); [|by left].
  destruct (out !! col_Name c) eqn:E; [right; apply lookup_insert_eq|by left].
Qed.

Lemma mask_fold_star role schema out k :
  out !! k = Some (AStr "***") →
  foldl (mask_column role) out schema !! k = Some (AStr "***").
Proof.
  revert out; induction schema as [|c schema IH]; intros out H; [done|].
  simpl. apply IH. destruct (mask_column_cases role out c k) as [->| ->]; done.
Qed.

Lemma mask_fold_dom role schema out :
  dom (foldl (mask_column role) out schema) = dom out.
Proof.
  revert out; induction schema as [|c schema IH]; intros out; [done|].
  simpl. by rewrite IH mask_column_dom.
Qed.

Lemma mask_fold_unmasked role schema out k :
  Forall (λ c, col_Name c = k → col_Mask c = false) schema →
  foldl (mask_column role) out schema !! k = out !! k.
Proof.
  revert out; induction schema as [|c schema IH]; intros out; [done|].
  intros [Hc HF]%Forall_cons. simpl. rewrite IH //.
  destruct (decide (k = col_Name c)) as [->|Hne]; [|by apply mask_column_other].
  unfold mask_column. by rewrite Hc.
Qed.

Lemma mask_fold_masked role schema out c v :
  role = RoleViewer ∨ role = RoleEditor →
  c ∈ schema → col_Mask c = true → out !! col_Name c = Some v →
  foldl (mask_column role) out schema !! col_Name c = Some (AStr "***").
Proof.
  intros Hrole Hin Hm. revert out v.
  induction schema as [|d schema IH]; intros out v Hout; [set_solver|].
  simpl. apply elem_of_cons in Hin as [<-|Hin].
  - apply mask_fold_star. unfold mask_column. rewrite Hm Hout.
    destruct Hrole as [-> | ->]; simpl; apply lookup_insert_eq.
  - destruct (mask_column_cases role out d (col_Name c)) as [E|E].
    + eapply IH; [done|]. by rewrite E.
    + by eapply IH.
Qed.

(** ** Properties *)

(** C1: the binding store implements a map from (scope, principal) to
    binding.  After any sequence of [Grant] and [Revoke] calls from the empty
    store, looking a principal up under a scope gives exactly what the map
    gives after the corresponding insertions and deletions, and the stored
    slices stay well formed: non-empty, every binding under its own scope, no
    principal twice. *)
Theorem rbac_refinement (ops : list rbac_op) :
  refines (run_ops ops) (spec_ops ops) ∧ store_wf (run_ops ops).
Proof. apply run_ops_sound, refines_empty. Qed.

(** [RoleFor] resolves a role from the most specific scope.  For the store
    reached by any operations, a binding of the table scope wins; without one
    (or with an empty table id) the database scope is used; without both the
    role is empty. *)
Theorem RoleFor_most_specific (ops : list rbac_op) (principal tableID dbID : string) :
  RoleFor (run_ops ops) principal tableID dbID
  = match (if String.eqb tableID "" then None
           else spec_ops ops !! ("table:" +:+ tableID, principal)),
          (if String.eqb dbID "" then None
           else spec_ops ops !! ("db:" +:+ dbID, principal)) with
    | Some b, _ => pb_Role b
    | None, Some b => pb_Role b
    | None, None => ""
    end.
Proof.
  assert (Hr : refines (run_ops ops) (spec_ops ops))
    by apply run_ops_sound, refines_empty.
  unfold RoleFor.
  destruct (String.eqb tableID ""), (String.eqb dbID "");
    rewrite ?(role_in_refines _ _ _ _ Hr);
    repeat destruct (spec_ops ops !! _); done.
Qed.

(** Privileges are ordered.  Whatever a role may do, every role of at least
    the same rank (viewer, editor, maintainer, admin) may do, and an action
    the code does not name is refused to everyone but admins. *)
Theorem Allow_monotone (r1 r2 : Role) (action : string) :
  rank r1 ≤ rank r2 → Allow r1 action = true → Allow r2 action = true.
Proof.
  unfold rank, Allow, is_maintainer_or_admin.
  destruct (String.eqb_spec r2 RoleAdmin) as [|N2]; [done|].
  destruct (String.eqb_spec r1 RoleAdmin) as [->|N1].
  { by repeat destruct (String.eqb r2 _); simpl; intros; lia. }
  destruct (String.eqb r2 RoleMaintainer), (String.eqb r2 RoleEditor),
    (String.eqb r2 RoleViewer), (String.eqb r1 RoleMaintainer),
    (String.eqb r1 RoleEditor), (String.eqb r1 RoleViewer); simpl;
    intros Hle; try lia; by repeat case_match.
Qed.

Lemma Allow_monotone_witness :
  rank RoleEditor ≤ rank RoleMaintainer
  ∧ Allow RoleEditor "row.write" = true ∧ Allow RoleMaintainer "row.write" = true.
Proof.
  split; [vm_compute; lia|]. split; [reflexivity|].
  apply (Allow_monotone RoleEditor RoleMaintainer "row.write").
  - vm_compute. lia.
  - reflexivity.
Defined.

(** C26: masking.  For a viewer or an editor the masked row has the keys of the
    original; a masked column of the schema that the row holds reads as the
    placeholder, and every column that no schema entry masks keeps its
    value. *)
Theorem MaskRow_redacts (role : Role) (schema : list ColumnDef) (row : doc) :
  role = RoleViewer ∨ role = RoleEditor →
  dom (MaskRow role schema row) = dom row
  ∧ (∀ c v, c ∈ schema → col_Mask c = true → row !! col_Name c = Some v →
       MaskRow role schema row !! col_Name c = Some (AStr "***"))
  ∧ (∀ k, Forall (λ c, col_Name c = k → col_Mask c = false) schema →
       MaskRow role schema row !! k = row !! k).
Proof.
  intros Hrole.
  assert (E : MaskRow role schema row = foldl (mask_column role) row schema).
  { by destruct Hrole as [-> | ->]. }
  rewrite E. repeat split; [apply mask_fold_dom| |apply mask_fold_unmasked].
  intros c v Hin Hm Hv. by eapply mask_fold_masked.
Qed.

Definition example_column (name : string) (mask : bool) : ColumnDef :=
  {| col_Name := name; col_Type := ColString; col_Required := false;
     col_Unique := false; col_Indexed := false; col_Default := ANil;
     col_Enum := []; col_Regex := ""; col_Mask := mask |}.

Lemma MaskRow_redacts_witness :
  MaskRow RoleViewer [example_column "ssn" true; example_column "name" false]
    (<["ssn" := AStr "1"]> {["name" := AStr "ada"]}) !! "ssn" = Some (AStr "***").
Proof.
  destruct (MaskRow_redacts RoleViewer
    [example_column "ssn" true; example_column "name" false]
    (<["ssn" := AStr "1"]> {["name" := AStr "ada"]}) (or_introl eq_refl))
    as (_ & H & _).
  apply (H (example_column "ssn" true) (AStr "1")).
  - apply list_elem_of_here.
  - reflexivity.
  - reflexivity.
Defined.
