(* ===== verification/LocalDb.v ===== *)
(** * The local key/value store (internal/localdb)

    JSON documents under (collection, key) and append-only logs, on top of a
    SQL database.  The database itself is reached through the class [Sql],
    one method per statement the package executes; its laws are the documented
    behaviour of those statements.  Everything above is proved against the
    class, and [mem_sql] is an instance. *)

From S2P Require Import Prelude GoStrings Values.

(** ** The SQL statements of the package *)

(** Results: an error text, or the outcome.  A failed statement leaves the
    database as it was.  [kv_select] returns [None] for [sql.ErrNoRows]. *)
Class Sql (σ : Type) := {
  kv_select : σ → string → string → result (option any);
  kv_upsert : σ → string → string → any → result σ;
  kv_remove : σ → string → string → result σ;
  kv_select_all : σ → string → result (list any);
  log_select : σ → string → string → result (option bytes);
  log_upsert : σ → string → string → bytes → result σ
}.

(** INSERT .. ON CONFLICT DO UPDATE writes one row, DELETE removes one row,
    SELECT by primary key reads one row and SELECT by collection reads exactly
    the rows of the collection; the two tables do not interfere. *)
Class SqlLaws (σ : Type) `{Sql σ} := {
  select_upsert s c k v s' c' k' :
    kv_upsert s c k v = Ok s' →
    kv_select s' c' k' = if decide ((c, k) = (c', k')) then Ok (Some v)
                         else kv_select s c' k';
  select_remove s c k s' c' k' :
    kv_remove s c k = Ok s' →
    kv_select s' c' k' = if decide ((c, k) = (c', k')) then Ok None
                         else kv_select s c' k';
  select_all_elem s c l v :
    kv_select_all s c = Ok l →
    (v ∈ l ↔ ∃ k, kv_select s c k = Ok (Some v));
  log_select_upsert s c k b s' c' k' :
    log_upsert s c k b = Ok s' →
    log_select s' c' k' = if decide ((c, k) = (c', k')) then Ok (Some b)
                          else log_select s c' k';
  kv_log_frame s c k b s' c' k' :
    log_upsert s c k b = Ok s' → kv_select s' c' k' = kv_select s c' k'
}.

(** ** Operations of [localdb.DB] *)

Section localdb.
Context {σ : Type} `{Sql σ}.

Definition EnsureBuckets (d : σ) (names : list string) : result σ := Ok d.

Definition Put (d : σ) (collection k : string) (v : any) : result σ :=
  match marshal v with
  | Err e => Err e
  | Ok b => kv_upsert d collection k b
  end.

(** [Get] into a [map[string]any]. *)
Definition Get (d : σ) (collection k : string) : result doc :=
  match kv_select d collection k with
  | Err e => Err e
  | Ok None => Err "not found"
  | Ok (Some b) => unmarshal_map b
  end.

Definition Delete (d : σ) (collection k : string) : result σ :=
  kv_remove d collection k.

(** [List] into a [[]map[string]any]. *)
Definition List_ (d : σ) (collection : string) : result (list doc) :=
  match kv_select_all d collection with
  | Err e => Err e
  | Ok rows => unmarshal_maps rows
  end.

Definition newline : ascii := "010"%char.

(** Append, then terminate with a newline unless the text already ends in one. *)
Definition append_line (cur line : bytes) : bytes :=
  let combined := cur ++ line in
  match last combined with
  | Some c => if Ascii.eqb c newline then combined else combined ++ [newline]
  | None => [newline]
  end.

Definition AppendLog (d : σ) (collection k : string) (line : bytes) : result σ :=
  match log_select d collection k with
  | Err e => Err e
  | Ok cur => log_upsert d collection k (append_line (default [] cur) line)
  end.

(** A missing log reads as nil. *)
Definition ReadLog (d : σ) (collection k : string) : result bytes :=
  match log_select d collection k with
  | Err e => Err e
  | Ok None => Ok []
  | Ok (Some b) => Ok b
  end.

(** ** Published services (published.go) *)

Record PublishedService : Type := {
  ps_ClusterID : string;
  ps_Service : string;
  ps_Addr : string;
  ps_AddedAt : string
}.

Definition publishedCollection : string := "published_services".

Definition published_doc (ps : PublishedService) : any :=
  AObj [("cluster_id", AStr (ps_ClusterID ps)); ("service", AStr (ps_Service ps));
        ("addr", AStr (ps_Addr ps)); ("added_at", AStr (ps_AddedAt ps))].

Definition SavePublished (d : σ) (key : string) (ps : PublishedService) : result σ :=
  Put d publishedCollection key (published_doc ps).

Definition DeletePublished (d : σ) (key : string) : result σ :=
  Delete d publishedCollection key.

(** ** Lemmas *)

Context `{!SqlLaws σ}.

Lemma Get_Put d c k v d' c' k' :
  Put d c k v = Ok d' →
  Get d' c' k' = if decide ((c, k) = (c', k'))
                 then (match marshal v with Ok b => unmarshal_map b | Err e => Err e end)
                 else Get d c' k'.
Proof.
  unfold Put, Get. destruct (marshal v) as [b|]; [|done].
  intros Hu. rewrite (select_upsert _ _ _ _ _ _ _ Hu). by case_decide.
Qed.

Lemma Get_Put_same d c k v d' b :
  Put d c k v = Ok d' → marshal v = Ok b → Get d' c k = unmarshal_map b.
Proof. intros HP Hm. rewrite (Get_Put _ _ _ _ _ _ _ HP) Hm. by case_decide. Qed.

Lemma Get_Put_other d c k v d' c' k' :
  Put d c k v = Ok d' → (c, k) ≠ (c', k') → Get d' c' k' = Get d c' k'.
Proof. intros HP Hne. rewrite (Get_Put _ _ _ _ _ _ _ HP). by case_decide. Qed.

Lemma Get_Delete d c k d' c' k' :
  Delete d c k = Ok d' →
  Get d' c' k' = if decide ((c, k) = (c', k')) then Err "not found" else Get d c' k'.
Proof.
  unfold Delete, Get. intros Hr. rewrite (select_remove _ _ _ _ _ _ Hr).
  by case_decide.
Qed.

Lemma Get_AppendLog d c k line d' c' k' :
  AppendLog d c k line = Ok d' → Get d' c' k' = Get d c' k'.
Proof.
  unfold AppendLog, Get. destruct (log_select d c k); [|done].
  intros Hu. by rewrite (kv_log_frame _ _ _ _ _ _ _ Hu).
Qed.

(** A flat record read back after a write. *)
Lemma Get_Put_flat d c k kvs d' :
  flat_record kvs = true → Put d c k (AObj kvs) = Ok d' →
  ∃ m, Get d' c k = Ok m ∧ ∀ x, m !! x = stored_value <$> assoc x kvs.
Proof.
  intros Hf HP. rewrite (Get_Put_same _ _ _ _ _ _ HP (marshal_flat _ Hf)).
  eexists. split; [done|]. intros x.
  by rewrite lookup_list_to_map_assoc assoc_stored.
Qed.

Lemma append_line_last cur line : last (append_line cur line) = Some newline.
Proof.
  unfold append_line. destruct (last (cur ++ line)) as [c|] eqn:E; [|done].
  destruct (Ascii.eqb_spec c newline) as [->|_]; [done|]. by rewrite last_snoc.
Qed.

Lemma append_line_prefix cur line :
  ∃ t, append_line cur line = cur ++ line ++ t ∧ (t = [] ∨ t = [newline]).
Proof.
  unfold append_line. destruct (last (cur ++ line)) as [c|] eqn:E.
  - destruct (Ascii.eqb c newline); [exists []|exists [newline]];
      rewrite ?app_nil_r -?app_assoc; auto.
  - apply last_None in E. apply app_eq_nil in E as [-> ->].
    exists [newline]. auto.
Qed.

End localdb.

(** ** An in-memory instance *)

Record mem_db : Type := {
  mem_kv : gmap (string * string) any;
  mem_logs : gmap (string * string) bytes
}.

Definition mem_empty : mem_db := {| mem_kv := ∅; mem_logs := ∅ |}.

#[export] Instance mem_sql : Sql mem_db := {
  kv_select s c k := Ok (mem_kv s !! (c, k));
  kv_upsert s c k v :=
    Ok {| mem_kv := <[(c, k) := v]> (mem_kv s); mem_logs := mem_logs s |};
  kv_remove s c k :=
    Ok {| mem_kv := delete (c, k) (mem_kv s); mem_logs := mem_logs s |};
  kv_select_all s c :=
    Ok (omap (λ kv, if String.eqb kv.1.1 c then Some kv.2 else None)
          (map_to_list (mem_kv s)));
  log_select s c k := Ok (mem_logs s !! (c, k));
  log_upsert s c k b :=
    Ok {| mem_kv := mem_kv s; mem_logs := <[(c, k) := b]> (mem_logs s) |}
}.

#[export] Instance mem_sql_laws : SqlLaws mem_db.
Proof.
  split; simpl.
  - intros s c k v s' c' k' [= <-]. simpl. rewrite lookup_insert. by case_decide.
  - intros s c k s' c' k' [= <-]. simpl. rewrite lookup_delete. by case_decide.
  - intros s c l v [= <-]. rewrite list_elem_of_omap. split.
    + intros ([[c' k] v'] & Hin & Hv). simpl in Hv.
      destruct (String.eqb_spec c' c) as [->|]; simplify_eq.
      exists k. f_equal. by apply elem_of_map_to_list.
    + intros [k [= Hk]]. exists ((c, k), v). simpl.
      rewrite String.eqb_refl. split; [|done]. by apply elem_of_map_to_list.
  - intros s c k b s' c' k' [= <-]. simpl. rewrite lookup_insert. by case_decide.
  - intros s c k b s' c' k' [= <-]. done.
Qed.

(** ** Properties *)

(** The store is a map from (collection, key) to documents.  After a
    successful [Put] the written key reads back the marshalled value and every
    other key is unchanged; after a successful [Delete] the key is gone and
    every other key is unchanged; appending to a log changes no document. *)
Theorem localdb_map_laws {σ} `{SqlLaws σ} (d : σ) c k :
  (∀ v b d', Put d c k v = Ok d' → marshal v = Ok b →
     Get d' c k = unmarshal_map b
     ∧ ∀ c' k', (c, k) ≠ (c', k') → Get d' c' k' = Get d c' k')
  ∧ (∀ d', Delete d c k = Ok d' →
     Get d' c k = Err "not found"
     ∧ ∀ c' k', (c, k) ≠ (c', k') → Get d' c' k' = Get d c' k')
  ∧ (∀ line d', AppendLog d c k line = Ok d' → ∀ c' k', Get d' c' k' = Get d c' k').
Proof.
  split; [|split].
  - intros v b d' HP Hm. split; [by eapply Get_Put_same|].
    intros c' k'. by apply Get_Put_other with v.
  - intros d' HD. split; [|intros c' k' Hne]; rewrite (Get_Delete _ _ _ _ _ _ HD);
      by case_decide.
  - intros line d' HA c' k'. by eapply Get_AppendLog.
Qed.

Lemma localdb_map_laws_witness :
  ∃ d', Put mem_empty "jobs" "j1" (AObj [("id", AStr "j1")]) = Ok d'
        ∧ Get d' "jobs" "j1" = Ok {["id" := AStr "j1"]}.
Proof.
  eexists. split; [reflexivity|].
  destruct (localdb_map_laws mem_empty "jobs" "j1") as [HP _].
  destruct (HP (AObj [("id", AStr "j1")]) (AObj [("id", AStr "j1")]) _
              eq_refl ltac:(vm_compute; reflexivity)) as [-> _].
  reflexivity.
Defined.

(** Logs only grow and stay line-oriented.  After a successful
    [AppendLog], the log is the old text followed by the appended bytes and at
    most one newline, it ends in a newline, and all other logs are
    unchanged. *)
Theorem AppendLog_lines {σ} `{SqlLaws σ} (d d' : σ) c k line old :
  ReadLog d c k = Ok old → AppendLog d c k line = Ok d' →
  (∃ t, ReadLog d' c k = Ok (old ++ line ++ t) ∧ (t = [] ∨ t = [newline])
        ∧ last (old ++ line ++ t) = Some newline)
  ∧ ∀ c' k', (c, k) ≠ (c', k') → ReadLog d' c' k' = ReadLog d c' k'.
Proof.
  unfold ReadLog, AppendLog. intros HR.
  destruct (log_select d c k) as [cur|] eqn:E; [|done].
  intros Hu. split.
  - rewrite (log_select_upsert _ _ _ _ _ _ _ Hu). case_decide; [|done].
    assert (default [] cur = old) as -> by (destruct cur; by simplify_eq/=).
    destruct (append_line_prefix old line) as (t & Ht & Hcase).
    exists t. pose proof (append_line_last old line). by rewrite -Ht.
  - intros c' k' Hne. rewrite (log_select_upsert _ _ _ _ _ _ _ Hu). by case_decide.
Qed.

Lemma AppendLog_lines_witness :
  ∃ d', AppendLog mem_empty "joblogs" "j1" (s2b "hello") = Ok d'
        ∧ ∃ t, ReadLog d' "joblogs" "j1" = Ok ([] ++ s2b "hello" ++ t)
               ∧ (t = [] ∨ t = [newline])
               ∧ last ([] ++ s2b "hello" ++ t) = Some newline.
Proof.
  eexists. split; [reflexivity|].
  exact (proj1 (AppendLog_lines mem_empty _ "joblogs" "j1" (s2b "hello") []
                  eq_refl eq_refl)).
Defined.
