(* ===== verification/Settings.v ===== *)
(** * Runtime settings (internal/settings/settings.go)

    Typed settings stored as JSON records in the local store: tailscale,
    database, global, and one record per cluster.  The per-cluster client
    authentication key is kept in the credentials bucket only. *)

From S2P Require Import Prelude GoStrings Values LocalDb.

(** ** Records *)

Record Tailscale : Set := {
  ts_LoginServer : string; ts_PreauthKey : string; ts_Hostname : string
}.

Record Database : Type := { db_Addr : string; db_User : string; db_Pass : string }.

Record Global : Set := {
  g_OrgID : string;
  g_FrontendOrigin : string;
  g_EmbedOperator : bool;
  g_DefaultNamespace : string;
  g_ListenLocal : string
}.

Record Cluster : Type := {
  cl_Name : string;
  cl_Namespace : string;
  cl_APIProxyURL : string;
  cl_APIProxyForceHTTP : bool;
  cl_DisableAPIProxy : bool;
  cl_PreferPodProxy : bool;
  cl_UsePortForward : bool;
  cl_IngressDomain : string;
  cl_IngressClassName : string;
  cl_WorkspaceTLSSecret : string;
  cl_CertManagerIssuer : string;
  cl_IngressAuthURL : string;
  cl_IngressAuthSignin : string;
  cl_ImagePullSecret : string;
  cl_WorkspaceLBEnabled : bool;
  cl_OrgID : string;
  cl_TSLoginServer : string;
  cl_TSClientAuthKey : string;
  cl_TSRoutes : string;
  cl_TSStatePath : string;
  cl_HeadscaleNS : string
}.

Definition empty_Tailscale : Tailscale :=
  {| ts_LoginServer := ""; ts_PreauthKey := ""; ts_Hostname := "" |}.
Definition empty_Database : Database := {| db_Addr := ""; db_User := ""; db_Pass := "" |}.
Definition empty_Global : Global :=
  {| g_OrgID := ""; g_FrontendOrigin := ""; g_EmbedOperator := false;
     g_DefaultNamespace := ""; g_ListenLocal := "" |}.
Definition empty_Cluster : Cluster :=
  {| cl_Name := ""; cl_Namespace := ""; cl_APIProxyURL := "";
     cl_APIProxyForceHTTP := false; cl_DisableAPIProxy := false;
     cl_PreferPodProxy := false; cl_UsePortForward := false;
     cl_IngressDomain := ""; cl_IngressClassName := "";
     cl_WorkspaceTLSSecret := ""; cl_CertManagerIssuer := "";
     cl_IngressAuthURL := ""; cl_IngressAuthSignin := "";
     cl_ImagePullSecret := ""; cl_WorkspaceLBEnabled := false; cl_OrgID := "";
     cl_TSLoginServer := ""; cl_TSClientAuthKey := ""; cl_TSRoutes := "";
     cl_TSStatePath := ""; cl_HeadscaleNS := "" |}.

Definition bucket : string := "settings".
Definition bucketClusters : string := "cluster-settings".
Definition keyTS : string := "tailscale".
Definition keyDB : string := "database".
Definition keyGlobal : string := "global".
Definition credentials : string := "credentials".

(** ** Reading dynamic values *)

(** A missing key reads as nil. *)
Definition asString (v : option any) : string :=
  match v with Some (AStr t) => t | _ => "" end.

Definition asBool `{UnicodeCase} (v : option any) : bool :=
  match v with
  | Some (ABool t) => t
  | Some (AStr t) => EqualFold (TrimSpace t) "true" || String.eqb (TrimSpace t) "1"
  | Some (ANum f) => match f with SpecFloat.S754_zero _ => false | _ => true end
  | _ => false
  end.

Definition trimmed (m : doc) (k : string) : string := TrimSpace (asString (m !! k)).

(** ** Manager *)

Section settings.
Context {σ : Type} `{Sql σ} `{UnicodeCase}.

(** The getters report no error: an unreadable record gives the zero value. *)
Definition GetTailscale (d : σ) : Tailscale :=
  match Get d bucket keyTS with
  | Err _ => empty_Tailscale
  | Ok tmp =>
      {| ts_LoginServer := trimmed tmp "login_server";
         ts_PreauthKey := trimmed tmp "preauth_key";
         ts_Hostname := trimmed tmp "hostname" |}
  end.

Definition tailscale_rec (ts : Tailscale) : list (string * any) :=
  [("login_server", AStr (TrimSpace (ts_LoginServer ts)));
   ("preauth_key", AStr (TrimSpace (ts_PreauthKey ts)));
   ("hostname", AStr (TrimSpace (ts_Hostname ts)))].

Definition PutTailscale (d : σ) (ts : Tailscale) : result σ :=
  Put d bucket keyTS (AObj (tailscale_rec ts)).

Definition GetDatabase (d : σ) : Database :=
  match Get d bucket keyDB with
  | Err _ => empty_Database
  | Ok tmp =>
      {| db_Addr := trimmed tmp "addr"; db_User := trimmed tmp "user";
         db_Pass := trimmed tmp "pass" |}
  end.

Definition database_rec (db : Database) : list (string * any) :=
  [("addr", AStr (TrimSpace (db_Addr db))); ("user", AStr (TrimSpace (db_User db)));
   ("pass", AStr (TrimSpace (db_Pass db)))].

Definition PutDatabase (d : σ) (db : Database) : result σ :=
  Put d bucket keyDB (AObj (database_rec db)).

Definition default_listen : string := "127.0.0.1:8090".

(** The listen address defaults only when the record was read. *)
Definition GetGlobal (d : σ) : Global :=
  match Get d bucket keyGlobal with
  | Err _ => empty_Global
  | Ok tmp =>
      {| g_OrgID := trimmed tmp "org_id";
         g_FrontendOrigin := trimmed tmp "frontend_origin";
         g_EmbedOperator := asBool (tmp !! "embed_operator");
         g_DefaultNamespace := trimmed tmp "default_namespace";
         g_ListenLocal :=
           let l := trimmed tmp "listen_local" in
           if String.eqb l "" then default_listen else l |}
  end.

Definition global_rec (g : Global) : list (string * any) :=
  [("org_id", AStr (TrimSpace (g_OrgID g)));
   ("frontend_origin", AStr (TrimSpace (g_FrontendOrigin g)));
   ("embed_operator", ABool (g_EmbedOperator g));
   ("default_namespace", AStr (TrimSpace (g_DefaultNamespace g)));
   ("listen_local", AStr (TrimSpace (g_ListenLocal g)))].

Definition PutGlobal (d : σ) (g : Global) : result σ :=
  Put d bucket keyGlobal (AObj (global_rec g)).

Definition GetCluster (d : σ) (clusterID : string) : result Cluster :=
  if String.eqb (TrimSpace clusterID) "" then Err "cluster id required"
  else
    match Get d bucketClusters clusterID with
    | Err _ => Ok empty_Cluster
    | Ok tmp =>
        Ok {| cl_Name := trimmed tmp "name";
              cl_Namespace := trimmed tmp "namespace";
              cl_APIProxyURL := trimmed tmp "api_proxy_url";
              cl_APIProxyForceHTTP := asBool (tmp !! "api_proxy_force_http");
              cl_DisableAPIProxy := asBool (tmp !! "disable_api_proxy");
              cl_PreferPodProxy := asBool (tmp !! "prefer_pod_proxy");
              cl_UsePortForward := asBool (tmp !! "use_port_forward");
              cl_IngressDomain := trimmed tmp "ingress_domain";
              cl_IngressClassName := trimmed tmp "ingress_class_name";
              cl_WorkspaceTLSSecret := trimmed tmp "workspace_tls_secret";
              cl_CertManagerIssuer := trimmed tmp "cert_manager_issuer";
              cl_IngressAuthURL := trimmed tmp "ingress_auth_url";
              cl_IngressAuthSignin := trimmed tmp "ingress_auth_signin";
              cl_ImagePullSecret := trimmed tmp "image_pull_secret";
              cl_WorkspaceLBEnabled := asBool (tmp !! "workspace_lb_enabled");
              cl_OrgID := trimmed tmp "org_id";
              cl_TSLoginServer := trimmed tmp "ts_login_server";
              cl_TSClientAuthKey := "";
              cl_TSRoutes := trimmed tmp "ts_routes";
              cl_TSStatePath := trimmed tmp "ts_state_path";
              cl_HeadscaleNS := trimmed tmp "headscale_namespace" |}
    end.

Definition cluster_rec (cs : Cluster) : list (string * any) :=
  [("name", AStr (TrimSpace (cl_Name cs)));
   ("namespace", AStr (TrimSpace (cl_Namespace cs)));
   ("api_proxy_url", AStr (TrimSpace (cl_APIProxyURL cs)));
   ("api_proxy_force_http", ABool (cl_APIProxyForceHTTP cs));
   ("disable_api_proxy", ABool (cl_DisableAPIProxy cs));
   ("prefer_pod_proxy", ABool (cl_PreferPodProxy cs));
   ("use_port_forward", ABool (cl_UsePortForward cs));
   ("ingress_domain", AStr (TrimSpace (cl_IngressDomain cs)));
   ("ingress_class_name", AStr (TrimSpace (cl_IngressClassName cs)));
   ("workspace_tls_secret", AStr (TrimSpace (cl_WorkspaceTLSSecret cs)));
   ("cert_manager_issuer", AStr (TrimSpace (cl_CertManagerIssuer cs)));
   ("ingress_auth_url", AStr (TrimSpace (cl_IngressAuthURL cs)));
   ("ingress_auth_signin", AStr (TrimSpace (cl_IngressAuthSignin cs)));
   ("image_pull_secret", AStr (TrimSpace (cl_ImagePullSecret cs)));
   ("workspace_lb_enabled", ABool (cl_WorkspaceLBEnabled cs));
   ("org_id", AStr (TrimSpace (cl_OrgID cs)));
   ("ts_login_server", AStr (TrimSpace (cl_TSLoginServer cs)));
   ("ts_routes", AStr (TrimSpace (cl_TSRoutes cs)));
   ("ts_state_path", AStr (TrimSpace (cl_TSStatePath cs)));
   ("headscale_namespace", AStr (TrimSpace (cl_HeadscaleNS cs)))].

Definition cred_key (clusterID : string) : string :=
  "cl:" +:+ clusterID +:+ ":ts_client_auth".

Definition cred_rec (key : string) : list (string * any) :=
  [("value", AStr key); ("encrypted", ABool false)].

(** A non-blank key goes to the credentials bucket, untrimmed; a failed
    credential write is ignored. *)
Definition PutCluster (d : σ) (clusterID : string) (cs : Cluster) : result σ :=
  if String.eqb (TrimSpace clusterID) "" then Err "cluster id required"
  else
    let d1 :=
      if String.eqb (TrimSpace (cl_TSClientAuthKey cs)) "" then d
      else match Put d credentials (cred_key clusterID)
                   (AObj (cred_rec (cl_TSClientAuthKey cs))) with
           | Ok d' => d'
           | Err _ => d
           end in
    Put d1 bucketClusters clusterID (AObj (cluster_rec cs)).

End settings.

(** ** What a stored record means *)

Definition trim_Tailscale (ts : Tailscale) : Tailscale :=
  {| ts_LoginServer := TrimSpace (ts_LoginServer ts);
     ts_PreauthKey := TrimSpace (ts_PreauthKey ts);
     ts_Hostname := TrimSpace (ts_Hostname ts) |}.

Definition trim_Database (db : Database) : Database :=
  {| db_Addr := TrimSpace (db_Addr db); db_User := TrimSpace (db_User db);
     db_Pass := TrimSpace (db_Pass db) |}.

Definition trim_Global (g : Global) : Global :=
  {| g_OrgID := TrimSpace (g_OrgID g);
     g_FrontendOrigin := TrimSpace (g_FrontendOrigin g);
     g_EmbedOperator := g_EmbedOperator g;
     g_DefaultNamespace := TrimSpace (g_DefaultNamespace g);
     g_ListenLocal := if String.eqb (TrimSpace (g_ListenLocal g)) ""
                      then default_listen else TrimSpace (g_ListenLocal g) |}.

(** The cluster settings as any reader sees them: trimmed, without the key. *)
Definition public_Cluster (cs : Cluster) : Cluster :=
  {| cl_Name := TrimSpace (cl_Name cs);
     cl_Namespace := TrimSpace (cl_Namespace cs);
     cl_APIProxyURL := TrimSpace (cl_APIProxyURL cs);
     cl_APIProxyForceHTTP := cl_APIProxyForceHTTP cs;
     cl_DisableAPIProxy := cl_DisableAPIProxy cs;
     cl_PreferPodProxy := cl_PreferPodProxy cs;
     cl_UsePortForward := cl_UsePortForward cs;
     cl_IngressDomain := TrimSpace (cl_IngressDomain cs);
     cl_IngressClassName := TrimSpace (cl_IngressClassName cs);
     cl_WorkspaceTLSSecret := TrimSpace (cl_WorkspaceTLSSecret cs);
     cl_CertManagerIssuer := TrimSpace (cl_CertManagerIssuer cs);
     cl_IngressAuthURL := TrimSpace (cl_IngressAuthURL cs);
     cl_IngressAuthSignin := TrimSpace (cl_IngressAuthSignin cs);
     cl_ImagePullSecret := TrimSpace (cl_ImagePullSecret cs);
     cl_WorkspaceLBEnabled := cl_WorkspaceLBEnabled cs;
     cl_OrgID := TrimSpace (cl_OrgID cs);
     cl_TSLoginServer := TrimSpace (cl_TSLoginServer cs);
     cl_TSClientAuthKey := "";
     cl_TSRoutes := TrimSpace (cl_TSRoutes cs);
     cl_TSStatePath := TrimSpace (cl_TSStatePath cs);
     cl_HeadscaleNS := TrimSpace (cl_HeadscaleNS cs) |}.

(** Every string of a record of strings and booleans is valid UTF-8. *)
Definition rec_valid (kvs : list (string * any)) : bool :=
  forallb (λ kv, match kv.2 with AStr s => valid_utf8 s | _ => true end) kvs.

(** ** Lemmas *)

Section lemmas.
Context {σ : Type} `{SqlLaws σ} `{UnicodeCase}.

(** A trimmed string field of a stored record reads back unchanged. *)
Lemma trimmed_stored (m : doc) kvs k s :
  (∀ x, m !! x = stored_value <$> assoc x kvs) →
  assoc k kvs = Some (AStr (TrimSpace s)) → rec_valid kvs = true →
  trimmed m k = TrimSpace s.
Proof.
  intros Hm Ha Hv. unfold trimmed. rewrite Hm Ha. simpl.
  assert (valid_utf8 (TrimSpace s) = true) as Hs.
  { clear Hm. induction kvs as [|[k' v] kvs IH]; [done|]. simpl in Ha, Hv.
    apply andb_true_iff in Hv as [Hv Hr].
    destruct (String.eqb k' k); simplify_eq/=; auto. }
  by rewrite json_text_valid // TrimSpace_idemp.
Qed.

Lemma asBool_stored (m : doc) kvs k b :
  (∀ x, m !! x = stored_value <$> assoc x kvs) →
  assoc k kvs = Some (ABool b) → asBool (m !! k) = b.
Proof. intros Hm Ha. by rewrite Hm Ha. Qed.

End lemmas.

Lemma tailscale_flat ts : flat_record (tailscale_rec ts) = true.
Proof. vm_compute. reflexivity. Qed.
Lemma database_flat db : flat_record (database_rec db) = true.
Proof. vm_compute. reflexivity. Qed.
Lemma global_flat g : flat_record (global_rec g) = true.
Proof. vm_compute. reflexivity. Qed.
Lemma cluster_flat cs : flat_record (cluster_rec cs) = true.
Proof. vm_compute. reflexivity. Qed.

Lemma cred_flat key : flat_record (cred_rec key) = true.
Proof. vm_compute. reflexivity. Qed.

(** Solve one field of a read-back record. *)
Ltac read_field Hm Hv :=
  first [ reflexivity
        | eapply trimmed_stored; [exact Hm|reflexivity|exact Hv]
        | eapply asBool_stored; [exact Hm|reflexivity] ].

(** ** Properties *)

(** Settings round trip.  Whatever was stored before, a successful write
    of tailscale, database or global settings whose strings are valid UTF-8
    reads back as the same settings with surrounding white space removed, the
    listen address defaulted when blank. *)
Theorem settings_roundtrip {σ} `{SqlLaws σ} `{UnicodeCase} (d d' : σ) :
  (∀ ts, rec_valid (tailscale_rec ts) = true → PutTailscale d ts = Ok d' →
     GetTailscale d' = trim_Tailscale ts)
  ∧ (∀ db, rec_valid (database_rec db) = true → PutDatabase d db = Ok d' →
     GetDatabase d' = trim_Database db)
  ∧ (∀ g, rec_valid (global_rec g) = true → PutGlobal d g = Ok d' →
     GetGlobal d' = trim_Global g).
Proof.
  split; [|split].
  - intros ts Hv HP. unfold GetTailscale.
    destruct (Get_Put_flat _ _ _ (tailscale_rec ts) _ (tailscale_flat ts) HP) as (m & -> & Hm).
    unfold trim_Tailscale. f_equal; read_field Hm Hv.
  - intros db Hv HP. unfold GetDatabase.
    destruct (Get_Put_flat _ _ _ (database_rec db) _ (database_flat db) HP) as (m & -> & Hm).
    unfold trim_Database. f_equal; read_field Hm Hv.
  - intros g Hv HP. unfold GetGlobal.
    destruct (Get_Put_flat _ _ _ (global_rec g) _ (global_flat g) HP) as (m & -> & Hm).
    assert (Hl : trimmed m "listen_local" = TrimSpace (g_ListenLocal g))
      by read_field Hm Hv.
    unfold trim_Global. rewrite Hl. f_equal; read_field Hm Hv.
Qed.

Definition example_ts : Tailscale :=
  {| ts_LoginServer := " https://hs "; ts_PreauthKey := "k"; ts_Hostname := "h " |}.

Lemma settings_roundtrip_witness :
  ∃ d', PutTailscale mem_empty example_ts = Ok d'
        ∧ @GetTailscale mem_db _ d' = trim_Tailscale example_ts
        ∧ ts_LoginServer (trim_Tailscale example_ts) = "https://hs".
Proof.
  eexists. split; [reflexivity|]. split; [|vm_compute; reflexivity].
  apply (proj1 (@settings_roundtrip mem_db _ _ ascii_case mem_empty _)).
  - vm_compute. reflexivity.
  - reflexivity.
Defined.

(** Per-cluster settings round trip and secrecy.  A successful
    [PutCluster] with valid strings is read back by [GetCluster] as the
    trimmed settings with an empty client key.  A non-blank key whose
    credential write succeeds is stored as given in the credentials bucket; a
    blank key leaves the stored credential as it was. *)
Theorem PutCluster_roundtrip {σ} `{SqlLaws σ} `{UnicodeCase} (d d' : σ) id cs :
  rec_valid (cluster_rec cs) = true → PutCluster d id cs = Ok d' →
  GetCluster d' id = Ok (public_Cluster cs)
  ∧ (TrimSpace (cl_TSClientAuthKey cs) = "" →
     Get d' credentials (cred_key id) = Get d credentials (cred_key id))
  ∧ (∀ d1, TrimSpace (cl_TSClientAuthKey cs) ≠ "" →
     valid_utf8 (cl_TSClientAuthKey cs) = true →
     Put d credentials (cred_key id) (AObj (cred_rec (cl_TSClientAuthKey cs))) = Ok d1 →
     ∃ m, Get d' credentials (cred_key id) = Ok m
          ∧ m !! "value" = Some (AStr (cl_TSClientAuthKey cs))).
Proof.
  intros Hv. unfold PutCluster, GetCluster.
  destruct (String.eqb (TrimSpace id) ""); [done|].
  set (d1 := if String.eqb _ "" then d else _). intros HP. split; [|split].
  - destruct (Get_Put_flat _ _ _ (cluster_rec cs) _ (cluster_flat cs) HP)
      as (m & -> & Hm).
    unfold public_Cluster. do 2 f_equal; read_field Hm Hv.
  - intros Hb. rewrite (Get_Put_other _ _ _ _ _ _ _ HP); [|done].
    unfold d1. by rewrite Hb.
  - intros d2 Hnb Hkv HC. rewrite (Get_Put_other _ _ _ _ _ _ _ HP); [|done].
    assert (d1 = d2) as ->.
    { unfold d1. destruct (String.eqb_spec (TrimSpace (cl_TSClientAuthKey cs)) "");
        [done|]. by rewrite HC. }
    destruct (Get_Put_flat _ _ _ (cred_rec (cl_TSClientAuthKey cs)) _ (cred_flat _) HC)
      as (m & -> & Hm).
    exists m. split; [done|]. rewrite Hm. simpl. by rewrite json_text_valid.
Qed.

Definition example_cluster : Cluster :=
  {| cl_Name := "prod "; cl_Namespace := "default"; cl_APIProxyURL := "";
     cl_APIProxyForceHTTP := false; cl_DisableAPIProxy := false;
     cl_PreferPodProxy := true; cl_UsePortForward := false;
     cl_IngressDomain := "ex.org"; cl_IngressClassName := "";
     cl_WorkspaceTLSSecret := ""; cl_CertManagerIssuer := "";
     cl_IngressAuthURL := ""; cl_IngressAuthSignin := "";
     cl_ImagePullSecret := ""; cl_WorkspaceLBEnabled := true; cl_OrgID := "o";
     cl_TSLoginServer := ""; cl_TSClientAuthKey := "tskey"; cl_TSRoutes := "";
     cl_TSStatePath := ""; cl_HeadscaleNS := "" |}.

Lemma PutCluster_roundtrip_witness :
  ∃ d', PutCluster mem_empty "c1" example_cluster = Ok d'
        ∧ @GetCluster mem_db _ ascii_case d' "c1" = Ok (public_Cluster example_cluster).
Proof.
  eexists. split; [reflexivity|].
  apply (@PutCluster_roundtrip mem_db _ _ ascii_case mem_empty _ "c1" example_cluster).
  - vm_compute. reflexivity.
  - reflexivity.
Defined.
