(* ===== verification/Jobs.v ===== *)
(** * The job runner (internal/jobs)

    An in-memory runner with per-kind queues, log fan-out and a durable store
    behind the interface [Persist]; [LocalPersist] implements the interface on
    the local key/value store.  Handlers are sequences of the effects a job
    handler can have on its record and on the runner.  The goroutines of the
    runner are the steps of a transition system. *)

From S2P Require Import Prelude GoStrings Values LocalDb.
From Stdlib Require Import SpecFloat.

(** ** Data *)

(** [Status] is a string type. *)
Definition Queued : string := "queued".
Definition Running : string := "running".
Definition Succeeded : string := "succeeded".
Definition Failed : string := "failed".
Definition Canceled : string := "canceled".

(** Instants, as nanoseconds; [time_zero] is the zero [time.Time]. *)
Abbreviation time := Z (only parsing).
Definition time_zero : time := (-62135596800000000000)%Z.

Record JobRecord : Type := {
  r_ID : string;
  r_Kind : string;
  r_SpecJSON : string;
  r_Status : string;
  r_Progress : spec_float;
  r_Created : time;
  r_Updated : time;
  r_Result : string;
  r_Error : string
}.

Record LogEvent : Type := {
  le_TS : time;
  le_Job : string;
  le_Step : string;
  le_Msg : string;
  le_KV : doc;
  le_Err : string
}.

(** Field updates of a record. *)
Definition set_status (rec : JobRecord) (st : string) (now : time) : JobRecord :=
  {| r_ID := r_ID rec; r_Kind := r_Kind rec; r_SpecJSON := r_SpecJSON rec;
     r_Status := st; r_Progress := r_Progress rec; r_Created := r_Created rec;
     r_Updated := now; r_Result := r_Result rec; r_Error := r_Error rec |}.

Definition set_progress (rec : JobRecord) (p : spec_float) (now : time) : JobRecord :=
  {| r_ID := r_ID rec; r_Kind := r_Kind rec; r_SpecJSON := r_SpecJSON rec;
     r_Status := r_Status rec; r_Progress := p; r_Created := r_Created rec;
     r_Updated := now; r_Result := r_Result rec; r_Error := r_Error rec |}.

Definition set_error (rec : JobRecord) (e : string) : JobRecord :=
  {| r_ID := r_ID rec; r_Kind := r_Kind rec; r_SpecJSON := r_SpecJSON rec;
     r_Status := r_Status rec; r_Progress := r_Progress rec;
     r_Created := r_Created rec; r_Updated := r_Updated rec;
     r_Result := r_Result rec; r_Error := e |}.

(** ** Durable storage *)

(** [Persist]: a nil record with a nil error is [Ok None]. *)
Class Persist (π : Type) := {
  SaveJob : π → JobRecord → result π;
  PersistLog : π → string → LogEvent → result π;
  ListJobs : π → result (list JobRecord);
  GetJob : π → string → result (option JobRecord)
}.

(** ** The runner *)

Section runner.
Context {π : Type} `{Persist π}.

(** Channels are named by numbers: [chans] holds the buffered events of every
    channel made so far, [closed] the closed ones. *)
Record Runner : Type := {
  jobs : gmap string JobRecord;
  queues : gmap string (list string);
  logSubs : gmap string (list nat);
  chans : gmap nat (list LogEvent);
  closed : gset nat;
  canceled : gset string;
  store : option π
}.

Definition New (st : option π) : Runner :=
  {| jobs := ∅; queues := ∅; logSubs := ∅; chans := ∅; closed := ∅;
     canceled := ∅; store := st |}.

Definition with_jobs (r : Runner) (j : gmap string JobRecord) : Runner :=
  {| jobs := j; queues := queues r; logSubs := logSubs r; chans := chans r;
     closed := closed r; canceled := canceled r; store := store r |}.
Definition with_queues (r : Runner) (q : gmap string (list string)) : Runner :=
  {| jobs := jobs r; queues := q; logSubs := logSubs r; chans := chans r;
     closed := closed r; canceled := canceled r; store := store r |}.
Definition with_subs (r : Runner) (s : gmap string (list nat))
    (c : gmap nat (list LogEvent)) (cl : gset nat) : Runner :=
  {| jobs := jobs r; queues := queues r; logSubs := s; chans := c;
     closed := cl; canceled := canceled r; store := store r |}.
Definition with_store (r : Runner) (st : option π) : Runner :=
  {| jobs := jobs r; queues := queues r; logSubs := logSubs r; chans := chans r;
     closed := closed r; canceled := canceled r; store := st |}.
Definition with_canceled (r : Runner) (c : gset string) : Runner :=
  {| jobs := jobs r; queues := queues r; logSubs := logSubs r; chans := chans r;
     closed := closed r; canceled := c; store := store r |}.

(** [persist] and [append]: errors of the store are ignored. *)
Definition persist (r : Runner) (rec : JobRecord) : Runner :=
  match store r with
  | None => r
  | Some p => match SaveJob p rec with
              | Ok p' => with_store r (Some p')
              | Err _ => r
              end
  end.

Definition append_log (r : Runner) (e : LogEvent) : Runner :=
  match store r with
  | None => r
  | Some p => match PersistLog p (le_Job e) e with
              | Ok p' => with_store r (Some p')
              | Err _ => r
              end
  end.

Definition put (r : Runner) (rec : JobRecord) : Runner :=
  with_jobs r (<[r_ID rec := rec]> (jobs r)).

Definition queue_cap : nat := 64.
Definition log_cap : nat := 128.

(** The queue of a kind; [ensureQueue] makes it when absent. *)
Definition queue_of (r : Runner) (kind : string) : list string :=
  default [] (queues r !! kind).

Definition ensureQueue (r : Runner) (kind : string) : Runner :=
  match queues r !! kind with
  | Some _ => r
  | None => with_queues r (<[kind := []]> (queues r))
  end.

Definition new_record (id kind spec : string) (now : time) : JobRecord :=
  {| r_ID := id; r_Kind := kind; r_SpecJSON := spec; r_Status := Queued;
     r_Progress := float_zero; r_Created := now; r_Updated := now;
     r_Result := ""; r_Error := "" |}.

(** [Submit] with the generated id: record, queue, persist, then the send on
    the queue, which blocks ([None]) while the buffer is full.  The worker it
    starts is a step of the system below. *)
Definition Submit (r : Runner) (id kind spec : string) (now : time) : option Runner :=
  let rec := new_record id kind spec now in
  let r1 := ensureQueue (with_jobs r (<[id := rec]> (jobs r))) kind in
  let r2 := persist r1 rec in
  let q := queue_of r2 kind in
  if (length q <? queue_cap)%nat
  then Some (with_queues r2 (<[kind := q ++ [id]]> (queues r2)))
  else None.

(** [Get] returns a copy: from memory, else from the store. *)
Definition GetRec (r : Runner) (id : string) : option JobRecord :=
  match jobs r !! id with
  | Some rec => Some rec
  | None =>
      match store r with
      | None => None
      | Some p => match GetJob p id with Ok o => o | Err _ => None end
      end
  end.

(** [List]: memory first, then the stored records whose id is not in memory. *)
Definition List_ (r : Runner) : list JobRecord :=
  let out := (map_to_list (jobs r)).*2 in
  match store r with
  | None => out
  | Some p =>
      match ListJobs p with
      | Err _ => out
      | Ok persisted =>
          out ++ List.filter
                   (λ q, negb (existsb (λ m, String.eqb (r_ID m) (r_ID q)) out))
                   persisted
      end
  end.

(** ** Logs *)

(** A non-blocking send: a full buffer drops the event. *)
Definition send_nb (cs : gmap nat (list LogEvent)) (ch : nat) (e : LogEvent)
    : gmap nat (list LogEvent) :=
  let buf := default [] (cs !! ch) in
  if (length buf <? log_cap)%nat then <[ch := buf ++ [e]]> cs else cs.

Definition publish (r : Runner) (jobID : string) (e : LogEvent) : Runner :=
  with_subs r (logSubs r)
    (foldl (λ cs ch, send_nb cs ch e) (chans r) (default [] (logSubs r !! jobID)))
    (closed r).

Definition SubscribeLogs (r : Runner) (jobID : string) : Runner * nat :=
  let ch := fresh (dom (chans r)) in
  (with_subs r (<[jobID := default [] (logSubs r !! jobID) ++ [ch]]> (logSubs r))
     (<[ch := []]> (chans r)) (closed r), ch).

(** Remove the first occurrence of a channel. *)
Fixpoint remove_first (ch : nat) (l : list nat) : list nat :=
  match l with
  | [] => []
  | x :: r => if (x =? ch)%nat then r else x :: remove_first ch r
  end.

(** The cancel function of a subscription; closing twice panics ([None]). *)
Definition UnsubscribeLogs (r : Runner) (jobID : string) (ch : nat) : option Runner :=
  if decide (ch ∈ closed r) then None
  else Some (with_subs r
               (<[jobID := remove_first ch (default [] (logSubs r !! jobID))]> (logSubs r))
               (chans r) ({[ch]} ∪ closed r)).

(** A consumer receives the oldest buffered event. *)
Definition Receive (r : Runner) (ch : nat) : Runner :=
  with_subs r (logSubs r) (alter (@tail LogEvent) ch (chans r)) (closed r).

(** ** Updates from handlers *)

Definition emit (r : Runner) (e : LogEvent) : Runner :=
  append_log (publish r (le_Job e) e) e.

Definition job_event (rec : JobRecord) (step msg : string) (kv : doc) (now : time)
    : LogEvent :=
  {| le_TS := now; le_Job := r_ID rec; le_Step := step; le_Msg := msg;
     le_KV := kv; le_Err := "" |}.

Definition WithStep (r : Runner) (rec : JobRecord) (p : spec_float)
    (step msg : string) (kv : doc) (now : time) : Runner * JobRecord :=
  let rec' := set_progress rec p now in
  (emit (persist (put r rec') rec') (job_event rec' step msg kv now), rec').

Definition Fail_ (r : Runner) (rec : JobRecord) (err : string) (now : time)
    : Runner * JobRecord :=
  let rec' := set_status (set_error rec err) Failed now in
  (publish (persist (put r rec') rec') (r_ID rec')
     {| le_TS := now; le_Job := r_ID rec'; le_Step := ""; le_Msg := "failed";
        le_KV := ∅; le_Err := err |}, rec').

Definition Cancel (r : Runner) (id : string) (now : time) : Runner :=
  let r1 := with_canceled r ({[id]} ∪ canceled r) in
  match jobs r1 !! id with
  | None => r1
  | Some rec =>
      let rec' := set_status rec Canceled now in
      persist (with_jobs r1 (<[id := rec']> (jobs r1))) rec'
  end.

Definition IsCanceled (r : Runner) (id : string) : bool :=
  bool_decide (id ∈ canceled r).

(** ** Running one job *)

(** What a handler can do to its record and the runner. *)
Inductive haction : Type :=
  | HProgress (p : spec_float)
  | HLog (step msg : string) (kv : doc)
  | HStep (p : spec_float) (step msg : string) (kv : doc)
  | HFail (err : string)
  | HPanic (v : string).

(** One effect; [inl] carries a panic value. *)
Definition exec_action (r : Runner) (rec : JobRecord) (a : haction) (now : time)
    : Runner * JobRecord * option string :=
  match a with
  | HProgress p => (r, set_progress rec p (r_Updated rec), None)
  | HLog step msg kv => (emit r (job_event rec step msg kv now), rec, None)
  | HStep p step msg kv => (WithStep r rec p step msg kv now, None)
  | HFail err => (Fail_ r rec err now, None)
  | HPanic v => (r, rec, Some v)
  end.

Fixpoint exec_actions (r : Runner) (rec : JobRecord) (l : list haction) (now : time)
    : Runner * JobRecord * option string :=
  match l with
  | [] => (r, rec, None)
  | a :: l' =>
      match exec_action r rec a now with
      | (r', rec', None) => exec_actions r' rec' l' now
      | res => res
      end
  end.

Definition runOne_begin (r : Runner) (rec : JobRecord) (now : time) : Runner * JobRecord :=
  let rec' := set_status rec Running now in
  (persist (put r rec') rec', rec').

(** The deferred recover. *)
Definition runOne_recover (r : Runner) (rec : JobRecord) (v : string) (now : time) : Runner :=
  let rec' := set_status (set_error rec v) Failed now in
  persist (put r rec') rec'.

Definition runOne_end (r : Runner) (rec : JobRecord) (now : time) : Runner :=
  if String.eqb (r_Status rec) Running then
    let rec' := set_status (set_progress rec float_one now) Succeeded now in
    persist (put r rec') rec'
  else r.

Definition runOne (handler : JobRecord → list haction) (r : Runner) (rec : JobRecord)
    (now : time) : Runner :=
  let '(r1, rec1) := runOne_begin r rec now in
  match exec_actions r1 rec1 (handler rec1) now with
  | (r2, rec2, Some v) => runOne_recover r2 rec2 v now
  | (r2, rec2, None) => runOne_end r2 rec2 now
  end.

(** ** The goroutines *)

(** In [StepUnsubscribe] the channel is one [SubscribeLogs] made for that job:
    its cancel function closes over both. *)

(** A worker of a kind waits on its queue or runs a job: its private copy of
    the record and the effects its handler has left. *)
Inductive wstate : Type :=
  | WIdle (kind : string)
  | WRun (kind : string) (rec : JobRecord) (todo : list haction).

Record system : Type := { runner : Runner; workers : gmap nat wstate }.

Inductive step (handler : string → JobRecord → list haction) : system → system → Prop :=
  | StepSubmit r ws id kind spec now r' w :
      jobs r !! id = None → Submit r id kind spec now = Some r' → ws !! w = None →
      step handler {| runner := r; workers := ws |}
                   {| runner := r'; workers := <[w := WIdle kind]> ws |}
  | StepTake r ws w kind id q rec now r' rec' :
      ws !! w = Some (WIdle kind) → queue_of r kind = id :: q →
      GetRec r id = Some rec →
      runOne_begin (with_queues r (<[kind := q]> (queues r))) rec now = (r', rec') →
      step handler {| runner := r; workers := ws |}
        {| runner := r'; workers := <[w := WRun kind rec' (handler kind rec')]> ws |}
  | StepSkip r ws w kind id q :
      ws !! w = Some (WIdle kind) → queue_of r kind = id :: q → GetRec r id = None →
      step handler {| runner := r; workers := ws |}
        {| runner := with_queues r (<[kind := q]> (queues r)); workers := ws |}
  | StepAct r ws w kind rec a todo now r' rec' :
      ws !! w = Some (WRun kind rec (a :: todo)) →
      exec_action r rec a now = (r', rec', None) →
      step handler {| runner := r; workers := ws |}
                   {| runner := r'; workers := <[w := WRun kind rec' todo]> ws |}
  | StepPanic r ws w kind rec a todo now r' rec' v :
      ws !! w = Some (WRun kind rec (a :: todo)) →
      exec_action r rec a now = (r', rec', Some v) →
      step handler {| runner := r; workers := ws |}
        {| runner := runOne_recover r' rec' v now; workers := <[w := WIdle kind]> ws |}
  | StepEnd r ws w kind rec now :
      ws !! w = Some (WRun kind rec []) →
      step handler {| runner := r; workers := ws |}
        {| runner := runOne_end r rec now; workers := <[w := WIdle kind]> ws |}
  | StepCancel r ws id now :
      step handler {| runner := r; workers := ws |}
                   {| runner := Cancel r id now; workers := ws |}
  | StepSubscribe r ws jobID r' ch :
      SubscribeLogs r jobID = (r', ch) →
      step handler {| runner := r; workers := ws |} {| runner := r'; workers := ws |}
  | StepUnsubscribe r ws jobID ch r' :
      ch ∈ dom (chans r) →
      (∀ j, j ≠ jobID → ch ∉ default [] (logSubs r !! j)) →
      UnsubscribeLogs r jobID ch = Some r' →
      step handler {| runner := r; workers := ws |} {| runner := r'; workers := ws |}
  | StepReceive r ws ch :
      step handler {| runner := r; workers := ws |}
                   {| runner := Receive r ch; workers := ws |}.

Definition init (st : option π) : system := {| runner := New st; workers := ∅ |}.

Definition reachable (handler : string → JobRecord → list haction) (st : option π)
    (s : system) : Prop := rtc (step handler) (init st) s.

(** ** Invariants *)

(** The runner's tables: records under their own id, queued ids known, bounded
    queues and buffers, subscribers only on open channels and listed once. *)
Record runner_inv (r : Runner) : Prop := {
  inv_ids : map_Forall (λ id rec, r_ID rec = id) (jobs r);
  inv_queued : ∀ kind id, id ∈ queue_of r kind → is_Some (jobs r !! id);
  inv_queue_len : ∀ kind, length (queue_of r kind) ≤ queue_cap;
  inv_open : ∀ j ch, ch ∈ default [] (logSubs r !! j) →
               ch ∈ dom (chans r) ∧ ch ∉ closed r;
  inv_once : ∀ j, NoDup (default [] (logSubs r !! j));
  inv_buf : map_Forall (λ _ b, length b ≤ log_cap) (chans r);
  inv_closed : closed r ⊆ dom (chans r)
}.

(** Every running worker works on a job the runner knows. *)
Definition system_inv (s : system) : Prop :=
  runner_inv (runner s)
  ∧ map_Forall (λ _ w, match w with
                       | WIdle _ => True
                       | WRun _ rec _ => is_Some (jobs (runner s) !! r_ID rec)
                       end) (workers s).

(** Two runners that differ at most in their durable store. *)
Definition same_memory (r1 r2 : Runner) : Prop :=
  jobs r1 = jobs r2 ∧ queues r1 = queues r2 ∧ logSubs r1 = logSubs r2
  ∧ chans r1 = chans r2 ∧ closed r1 = closed r2 ∧ canceled r1 = canceled r2.

#[local] Instance same_memory_equiv : Equivalence same_memory.
Proof.
  split.
  - intros r. repeat split.
  - intros r1 r2 (?&?&?&?&?&?). by repeat split.
  - intros r1 r2 r3 (?&?&?&?&?&?) (?&?&?&?&?&?). repeat split; congruence.
Qed.

Lemma persist_memory r rec : same_memory (persist r rec) r.
Proof. unfold persist. repeat case_match; by repeat split. Qed.

Lemma append_log_memory r e : same_memory (append_log r e) r.
Proof. unfold append_log. repeat case_match; by repeat split. Qed.

#[local] Instance runner_inv_proper : Proper (same_memory ==> iff) runner_inv.
Proof.
  assert (Hd : ∀ r1 r2, same_memory r1 r2 → runner_inv r1 → runner_inv r2).
  { intros r1 r2 (E1&E2&E3&E4&E5&E6) [H1 H2 H3 H4 H5 H6 H7].
    unfold queue_of in *. rewrite E1 E2 in H2. rewrite E2 in H3.
    rewrite E1 in H1. rewrite E4 in H6. rewrite E4 E5 in H7.
    split; [done|done|done| | |done|done].
    - intros j ch. rewrite -E3 -E4 -E5. apply H4.
    - intros j. rewrite -E3. apply H5. }
  intros r1 r2 E. split; apply Hd; [done|by symmetry].
Qed.

Lemma put_inv r rec : runner_inv r → runner_inv (put r rec).
Proof.
  intros [H1 H2 H3 H4 H5 H6 H7]. split; try done; simpl.
  - by apply map_Forall_insert_2.
  - intros kind id Hin. apply lookup_insert_is_Some'. right. by eapply H2.
Qed.

Lemma put_known r rec id : is_Some (jobs r !! id) → is_Some (jobs (put r rec) !! id).
Proof. intros H1. apply lookup_insert_is_Some'. by right. Qed.

Lemma put_self r rec : jobs (put r rec) !! r_ID rec = Some rec.
Proof. apply lookup_insert_eq. Qed.

(** Store a record and persist it: the pattern of every status change. *)
Lemma put_persist_inv r rec : runner_inv r → runner_inv (persist (put r rec) rec).
Proof. intros Hr. rewrite persist_memory. by apply put_inv. Qed.

Lemma put_persist_jobs r rec :
  jobs (persist (put r rec) rec) = <[r_ID rec := rec]> (jobs r).
Proof. by destruct (persist_memory (put r rec) rec) as [-> _]. Qed.

Lemma with_queues_inv r kind q :
  runner_inv r → (∀ id, id ∈ q → is_Some (jobs r !! id)) → length q ≤ queue_cap →
  runner_inv (with_queues r (<[kind := q]> (queues r))).
Proof.
  intros [H1 H2 H3 H4 H5 H6 H7] Hq Hl.
  assert (E : ∀ k, queue_of (with_queues r (<[kind := q]> (queues r))) k
                   = if decide (kind = k) then q else queue_of r k).
  { intros k. unfold queue_of. simpl. rewrite lookup_insert. by case_decide. }
  split; try done; simpl.
  - intros k id. rewrite E. case_decide; [apply Hq|apply H2].
  - intros k. rewrite E. by case_decide.
Qed.

Lemma ensureQueue_inv r kind : runner_inv r → runner_inv (ensureQueue r kind).
Proof.
  intros Hr. unfold ensureQueue. destruct (queues r !! kind); [done|].
  apply with_queues_inv; [done|set_solver|simpl; unfold queue_cap; lia].
Qed.

Lemma ensureQueue_jobs r kind : jobs (ensureQueue r kind) = jobs r.
Proof. unfold ensureQueue. by destruct (queues r !! kind). Qed.

(** ** Fan-out lemmas *)

Lemma send_nb_spec cs ch e :
  map_Forall (λ _ b, length b ≤ log_cap) cs →
  map_Forall (λ _ b, length b ≤ log_cap) (send_nb cs ch e) ∧ dom cs ⊆ dom (send_nb cs ch e).
Proof.
  intros Hb. unfold send_nb.
  destruct (Nat.ltb_spec (length (default [] (cs !! ch))) log_cap); [|done].
  split; [|rewrite dom_insert_L; set_solver].
  apply map_Forall_insert_2; [|done]. rewrite length_app /=. lia.
Qed.

Lemma send_all_spec l cs e :
  map_Forall (λ _ b, length b ≤ log_cap) cs →
  map_Forall (λ _ b, length b ≤ log_cap) (foldl (λ cs ch, send_nb cs ch e) cs l)
  ∧ dom cs ⊆ dom (foldl (λ cs ch, send_nb cs ch e) cs l).
Proof.
  revert cs; induction l as [|ch l IH]; intros cs Hb; [done|]. simpl.
  destruct (send_nb_spec cs ch e Hb) as [Hb' Hd].
  destruct (IH _ Hb') as [? ?]. split; [done|set_solver].
Qed.

Lemma publish_inv r j e : runner_inv r → runner_inv (publish r j e).
Proof.
  intros [H1 H2 H3 H4 H5 H6 H7].
  destruct (send_all_spec (default [] (logSubs r !! j)) (chans r) e H6) as [Hb Hd].
  split; try done; simpl; [|set_solver].
  intros j' ch [? ?]%H4. set_solver.
Qed.

Lemma publish_jobs r j e : jobs (publish r j e) = jobs r.
Proof. done. Qed.

Lemma emit_inv r e : runner_inv r → runner_inv (emit r e).
Proof. intros Hr. unfold emit. rewrite append_log_memory. by apply publish_inv. Qed.

Lemma emit_jobs r e : jobs (emit r e) = jobs r.
Proof. unfold emit. by destruct (append_log_memory (publish r (le_Job e) e) e) as [-> _]. Qed.

Lemma SubscribeLogs_inv r j : runner_inv r → runner_inv (SubscribeLogs r j).1.
Proof.
  intros [H1 H2 H3 H4 H5 H6 H7]. unfold SubscribeLogs.
  set (ch := fresh (dom (chans r))).
  assert (Hf : ch ∉ dom (chans r)) by apply is_fresh.
  split; try done; simpl.
  - intros j' c. rewrite lookup_insert dom_insert_L.
    case_decide; simpl; [rewrite elem_of_app list_elem_of_singleton|].
    + intros [[? ?]%H4| ->]; set_solver.
    + intros [? ?]%H4. set_solver.
  - intros j'. rewrite lookup_insert. case_decide; simpl; [|apply H5].
    apply NoDup_app. repeat split; [apply H5| |apply NoDup_singleton].
    intros x [? ?]%H4 ->%list_elem_of_singleton. done.
  - apply map_Forall_insert_2; [simpl; lia|done].
  - rewrite dom_insert_L. set_solver.
Qed.

Lemma remove_first_sublist ch l x : x ∈ remove_first ch l → x ∈ l.
Proof.
  induction l as [|y l IH]; simpl; [done|].
  destruct (Nat.eqb y ch); rewrite !elem_of_cons; [|intros [->|?]]; auto.
Qed.

Lemma remove_first_NoDup ch l :
  NoDup l → NoDup (remove_first ch l) ∧ ch ∉ remove_first ch l.
Proof.
  induction l as [|y l IH]; simpl; [split; [constructor|apply not_elem_of_nil]|].
  intros [Hy Hl]%NoDup_cons. destruct (Nat.eqb_spec y ch) as [->|Hne]; [done|].
  destruct (IH Hl) as [HN Hc]. split.
  - apply NoDup_cons. split; [|done]. by intros ?%remove_first_sublist.
  - rewrite elem_of_cons. by intros [->|?].
Qed.

Lemma UnsubscribeLogs_inv r j ch r' :
  runner_inv r → ch ∈ dom (chans r) →
  (∀ j', j' ≠ j → ch ∉ default [] (logSubs r !! j')) →
  UnsubscribeLogs r j ch = Some r' → runner_inv r'.
Proof.
  intros [H1 H2 H3 H4 H5 H6 H7] Hd Ho. unfold UnsubscribeLogs.
  case_decide; [done|]. intros [= <-].
  destruct (remove_first_NoDup ch _ (H5 j)) as [HN Hc].
  split; try done; simpl.
  - intros j' c. rewrite lookup_insert. case_decide as E; simpl.
    + intros Hin. destruct (H4 j c (remove_first_sublist _ _ _ Hin)) as [? ?].
      split; [done|]. assert (c ≠ ch) by (by intros ->). set_solver.
    + intros Hin. destruct (H4 _ _ Hin) as [? ?]. split; [done|].
      assert (c ≠ ch) by (intros ->; by eapply Ho). set_solver.
  - intros j'. rewrite lookup_insert. case_decide; [done|apply H5].
  - set_solver.
Qed.

Lemma Receive_inv r ch : runner_inv r → runner_inv (Receive r ch).
Proof.
  intros [H1 H2 H3 H4 H5 H6 H7]. split; try done; simpl.
  - intros j c [? ?]%H4. by rewrite dom_alter_L.
  - intros c b Hb. rewrite lookup_alter_Some in Hb.
    destruct Hb as [(_ & b' & Hb' & ->)|[_ Hb]]; [|by eapply H6].
    apply H6 in Hb'. simpl in Hb'. destruct b'; simpl in *; lia.
  - by rewrite dom_alter_L.
Qed.

(** ** Preservation by the operations *)

Lemma Submit_inv r id kind spec now r' :
  runner_inv r → Submit r id kind spec now = Some r' →
  runner_inv r' ∧ ∀ i, is_Some (jobs r !! i) → is_Some (jobs r' !! i).
Proof.
  intros Hr. unfold Submit.
  set (rec := new_record id kind spec now).
  set (r1 := ensureQueue (put r rec) kind).
  change (with_jobs r (<[id := rec]> (jobs r))) with (put r rec). fold r1.
  assert (Hi : runner_inv (persist r1 rec)).
  { rewrite persist_memory. by apply ensureQueue_inv, put_inv. }
  assert (Hj : jobs (persist r1 rec) = <[id := rec]> (jobs r)).
  { destruct (persist_memory r1 rec) as [-> _]. by rewrite /r1 ensureQueue_jobs. }
  destruct (Nat.ltb_spec (length (queue_of (persist r1 rec) kind)) queue_cap); [|done].
  intros [= <-]. simpl. split.
  - apply with_queues_inv; [done| |rewrite length_app /=; lia].
    intros i [Hin| ->%list_elem_of_singleton]%elem_of_app.
    + by eapply (inv_queued _ Hi).
    + rewrite Hj lookup_insert_eq. eauto.
  - intros i Hs. rewrite Hj. apply lookup_insert_is_Some'. by right.
Qed.

Lemma exec_action_inv r rec a now r' rec' o :
  runner_inv r → exec_action r rec a now = (r', rec', o) →
  runner_inv r' ∧ r_ID rec' = r_ID rec
  ∧ ∀ i, is_Some (jobs r !! i) → is_Some (jobs r' !! i).
Proof.
  intros Hr. destruct a; simpl; unfold WithStep, Fail_; intros [= <- <- <-];
    rewrite ?emit_jobs ?publish_jobs ?put_persist_jobs;
    (split; [auto using emit_inv, publish_inv, put_persist_inv|]);
    (split; [done|]); try done;
    intros i Hi; apply lookup_insert_is_Some'; by right.
Qed.

Lemma Cancel_inv r id now :
  runner_inv r →
  runner_inv (Cancel r id now) ∧ ∀ i, is_Some (jobs r !! i) → is_Some (jobs (Cancel r id now) !! i).
Proof.
  intros Hr. unfold Cancel. simpl.
  assert (Hc : runner_inv (with_canceled r ({[id]} ∪ canceled r))) by (by destruct Hr).
  destruct (jobs r !! id) as [rec|] eqn:E; [|done].
  assert (r_ID rec = id) as Hid by (by apply (inv_ids _ Hr)).
  set (rec' := set_status rec Canceled now).
  assert (Hp : with_jobs (with_canceled r ({[id]} ∪ canceled r)) (<[id := rec']> (jobs r))
               = put (with_canceled r ({[id]} ∪ canceled r)) rec').
  { unfold put. simpl. by rewrite Hid. }
  rewrite Hp. split; [by apply put_persist_inv|].
  intros i Hi. rewrite put_persist_jobs. apply lookup_insert_is_Some'. by right.
Qed.

(** Replacing one worker while the set of known jobs grows. *)
Lemma system_inv_update r ws r' w x :
  system_inv {| runner := r; workers := ws |} → runner_inv r' →
  (∀ i, is_Some (jobs r !! i) → is_Some (jobs r' !! i)) →
  (match x with WIdle _ => True | WRun _ rec _ => is_Some (jobs r' !! r_ID rec) end) →
  system_inv {| runner := r'; workers := <[w := x]> ws |}.
Proof.
  intros [_ Hw] Hr' Hg Hx. split; [done|]. simpl.
  apply map_Forall_insert_2; [done|]. eapply map_Forall_impl; [exact Hw|].
  intros i [?|? ? ?]; simpl; auto.
Qed.

Lemma system_inv_runner r ws r' :
  system_inv {| runner := r; workers := ws |} → runner_inv r' →
  (∀ i, is_Some (jobs r !! i) → is_Some (jobs r' !! i)) →
  system_inv {| runner := r'; workers := ws |}.
Proof.
  intros [_ Hw] Hr' Hg. split; [done|]. simpl.
  eapply map_Forall_impl; [exact Hw|]. intros i [?|? ? ?]; simpl; auto.
Qed.

Lemma queue_tail_inv r kind id q :
  runner_inv r → queue_of r kind = id :: q →
  runner_inv (with_queues r (<[kind := q]> (queues r))).
Proof.
  intros Hr Hq. apply with_queues_inv; [done| |].
  - intros i Hi. eapply (inv_queued _ Hr kind). rewrite Hq. set_solver.
  - pose proof (inv_queue_len _ Hr kind) as Hl. rewrite Hq /= in Hl. lia.
Qed.

Lemma put_persist_grow r rec i :
  is_Some (jobs r !! i) → is_Some (jobs (persist (put r rec) rec) !! i).
Proof. rewrite put_persist_jobs. intros ?. apply lookup_insert_is_Some'. by right. Qed.

Lemma runOne_end_inv r rec now :
  runner_inv r →
  runner_inv (runOne_end r rec now)
  ∧ ∀ i, is_Some (jobs r !! i) → is_Some (jobs (runOne_end r rec now) !! i).
Proof.
  intros Hr. unfold runOne_end. destruct (String.eqb _ _); [|done].
  split; [by apply put_persist_inv|]. intros i. apply put_persist_grow.
Qed.

#[local] Hint Resolve put_persist_inv put_persist_grow queue_tail_inv : gn.

Lemma step_inv handler s s' : system_inv s → step handler s s' → system_inv s'.
Proof.
  intros HI Hs. destruct Hs as
    [r ws id kind spec now r' w Hf HS Hw
    |r ws w kind id q rec now r' rec' Hw Hq Hg Hb
    |r ws w kind id q Hw Hq Hg
    |r ws w kind rec a todo now r' rec' Hw He
    |r ws w kind rec a todo now r' rec' v Hw He
    |r ws w kind rec now Hw
    |r ws id now
    |r ws j r' ch HS
    |r ws j ch r' Hd Ho HU
    |r ws ch]; pose proof (proj1 HI) as Hr; simpl in Hr.
  - destruct (Submit_inv _ _ _ _ _ _ Hr HS) as [? ?].
    by eapply system_inv_update.
  - unfold runOne_begin in Hb. injection Hb as <- <-.
    eapply system_inv_update; [done|by eauto with gn|by eauto with gn|].
    rewrite put_persist_jobs lookup_insert_eq. eauto.
  - eapply system_inv_runner; [done|by eauto with gn|done].
  - destruct (exec_action_inv _ _ _ _ _ _ _ Hr He) as (? & Hid & Hgrow).
    eapply system_inv_update; [done|done|done|]. rewrite Hid. apply Hgrow.
    exact (proj2 HI _ _ Hw).
  - destruct (exec_action_inv _ _ _ _ _ _ _ Hr He) as (? & _ & ?).
    eapply system_inv_update; [done|by apply put_persist_inv| |done].
    intros i Hi. unfold runOne_recover. auto with gn.
  - destruct (runOne_end_inv r rec now Hr) as [? ?]. by eapply system_inv_update.
  - destruct (Cancel_inv r id now Hr) as [? ?]. by eapply system_inv_runner.
  - eapply system_inv_runner; [done| |].
    + change r' with (r', ch).1. rewrite -HS. by apply SubscribeLogs_inv.
    + change r' with (r', ch).1. by rewrite -HS.
  - eapply system_inv_runner; [done|by eapply UnsubscribeLogs_inv|].
    unfold UnsubscribeLogs in HU. case_decide; by simplify_eq.
  - eapply system_inv_runner; [done|by apply Receive_inv|done].
Qed.

(** ** Lemmas on running one job *)

(** Memory agrees with the worker's copy on the status. *)
Definition status_in_memory (r : Runner) (rec : JobRecord) : Prop :=
  ∃ rc, jobs r !! r_ID rec = Some rc ∧ r_Status rc = r_Status rec.

Definition fails (a : haction) : bool :=
  match a with HFail _ | HPanic _ => true | _ => false end.

Lemma status_put_persist r rec : status_in_memory (persist (put r rec) rec) rec.
Proof. exists rec. by rewrite put_persist_jobs lookup_insert_eq. Qed.

Lemma exec_action_status r rec a now r' rec' o :
  status_in_memory r rec → exec_action r rec a now = (r', rec', o) →
  r_ID rec' = r_ID rec ∧ status_in_memory r' rec'
  ∧ match a with
    | HFail _ => r_Status rec' = Failed ∧ o = None
    | HPanic v => r_Status rec' = r_Status rec ∧ o = Some v
    | _ => r_Status rec' = r_Status rec ∧ o = None
    end.
Proof.
  intros Hm. destruct a; simpl; unfold WithStep, Fail_; intros [= <- <- <-];
    (split; [done|split; [|done]]); try exact Hm.
  - unfold status_in_memory. rewrite emit_jobs. exact Hm.
  - unfold status_in_memory. rewrite emit_jobs. apply status_put_persist.
  - unfold status_in_memory. rewrite publish_jobs. apply status_put_persist.
Qed.

Lemma exec_actions_status r rec l now r' rec' o :
  status_in_memory r rec → r_Status rec = Running ∨ r_Status rec = Failed →
  exec_actions r rec l now = (r', rec', o) →
  r_ID rec' = r_ID rec ∧ status_in_memory r' rec'
  ∧ match o with
    | Some _ => existsb fails l = true
    | None => r_Status rec' = if existsb fails l then Failed else r_Status rec
    end.
Proof.
  revert r rec; induction l as [|a l IH]; intros r rec Hm Hst; simpl.
  { intros [= <- <- <-]. auto. }
  destruct (exec_action r rec a now) as [[r1 rec1] o1] eqn:E.
  destruct (exec_action_status _ _ _ _ _ _ _ Hm E) as (Hid & Hm1 & Ha).
  destruct o1 as [v|].
  { intros [= <- <- <-]. destruct a; destruct Ha as [? Ha]; by simplify_eq/=. }
  intros HE.
  assert (Hst1 : r_Status rec1 = Running ∨ r_Status rec1 = Failed)
    by (destruct a; destruct Ha as [-> ?]; auto).
  destruct (IH _ _ Hm1 Hst1 HE) as (Hid' & Hm' & Ho).
  rewrite Hid' Hid. split; [done|]. split; [done|].
  destruct a; simpl in *; destruct Ha as [Ha ?]; simplify_eq;
    destruct o; rewrite ?Ha in Ho; try done.
  rewrite Ho. by destruct (existsb fails l).
Qed.

End runner.
Arguments Runner π : clear implicits.
Arguments system π : clear implicits.

(** ** Storage on the local database (persist_localdb.go) *)

(** [time.Format] and [time.Parse] with the layout [RFC3339Nano]. *)
Class TimeFmt := {
  fmt_nano : time → string;
  parse_nano : string → option time
}.

Class TimeFmtLaws `{TimeFmt} := {
  parse_fmt t : parse_nano (fmt_nano t) = Some t;
  fmt_valid t : valid_utf8 (fmt_nano t) = true;
  fmt_nonempty t : fmt_nano t ≠ ""
}.

Section local_persist.
Context {σ : Type} `{Sql σ} `{TimeFmt}.

Definition job_rec (rec : JobRecord) : list (string * any) :=
  [("id", AStr (r_ID rec)); ("kind", AStr (r_Kind rec));
   ("specJSON", AStr (r_SpecJSON rec)); ("status", AStr (r_Status rec));
   ("progress", ANum (r_Progress rec));
   ("created", AStr (fmt_nano (r_Created rec)));
   ("updated", AStr (fmt_nano (r_Updated rec)));
   ("result", AStr (r_Result rec)); ("error", AStr (r_Error rec))].

Definition LP_SaveJob (d : σ) (rec : JobRecord) : result σ :=
  Put d "jobs" (r_ID rec) (AObj (job_rec rec)).

(** One line of JSON per event; the encoding of the event is a parameter. *)
Definition LP_AppendLog (marshal_event : LogEvent → bytes) (d : σ)
    (jobID : string) (e : LogEvent) : result σ :=
  AppendLog d "joblogs" jobID (marshal_event e ++ [newline]).

Definition time_field (m : doc) (k : string) : time :=
  if String.eqb (str_field m k) "" then time_zero
  else default time_zero (parse_nano (str_field m k)).

Definition record_of_doc (m : doc) : JobRecord :=
  {| r_ID := str_field m "id";
     r_Kind := str_field m "kind";
     r_SpecJSON := str_field m "specJSON";
     r_Status := str_field m "status";
     r_Progress := match m !! "progress" with Some (ANum f) => f | _ => float_zero end;
     r_Created := time_field m "created";
     r_Updated := time_field m "updated";
     r_Result := str_field m "result";
     r_Error := str_field m "error" |}.

(** Documents without an id are skipped. *)
Definition LP_ListJobs (d : σ) : result (list JobRecord) :=
  match LocalDb.List_ d "jobs" with
  | Err e => Err e
  | Ok arr => Ok (List.filter (λ rec, negb (String.eqb (r_ID rec) ""))
                    (record_of_doc <$> arr))
  end.

Definition LP_GetJob (d : σ) (id : string) : result (option JobRecord) :=
  match Get d "jobs" id with
  | Err e => Err e
  | Ok _ =>
      match LP_ListJobs d with
      | Err e => Err e
      | Ok arr =>
          match find_first (λ rec, String.eqb (r_ID rec) id) arr with
          | Some rec => Ok (Some rec)
          | None => Err "not found"
          end
      end
  end.

Definition local_persist (marshal_event : LogEvent → bytes) : Persist σ :=
  {| SaveJob := LP_SaveJob; PersistLog := LP_AppendLog marshal_event;
     ListJobs := LP_ListJobs; GetJob := LP_GetJob |}.

(** Records that JSON can carry unchanged. *)
Definition record_ok (rec : JobRecord) : bool :=
  negb (String.eqb (r_ID rec) "") && valid_utf8 (r_ID rec)
  && valid_utf8 (r_Kind rec) && valid_utf8 (r_SpecJSON rec)
  && valid_utf8 (r_Status rec) && float_finite (r_Progress rec)
  && valid_utf8 (r_Result rec) && valid_utf8 (r_Error rec).

(** The jobs collection holds only documents written by [SaveJob]. *)
Definition jobs_wf (d : σ) : Prop :=
  ∀ k v, kv_select d "jobs" k = Ok (Some v) →
    ∃ rec, record_ok rec = true ∧ v = AObj (job_rec rec) ∧ r_ID rec = k.

Context `{!SqlLaws σ} `{!TimeFmtLaws}.

Lemma marshal_job rec :
  record_ok rec = true → marshal (AObj (job_rec rec)) = Ok (AObj (job_rec rec)).
Proof.
  intros Hok. unfold record_ok in Hok. bool_props.
  assert (Hf : flat_record (job_rec rec) = true).
  { unfold job_rec, flat_record. simpl. repeat (apply andb_true_iff; split);
      vm_compute valid_utf8; done. }
  rewrite (marshal_flat _ Hf). unfold job_rec. simpl.
  rewrite !json_text_valid ?fmt_valid //.
Qed.

Lemma record_of_job rec :
  record_of_doc (list_to_map (job_rec rec)) = rec.
Proof.
  unfold record_of_doc, time_field, str_field.
  rewrite !lookup_list_to_map_assoc. simpl.
  destruct (String.eqb_spec (fmt_nano (r_Created rec)) "") as [E|_];
    [by apply fmt_nonempty in E|].
  destruct (String.eqb_spec (fmt_nano (r_Updated rec)) "") as [E|_];
    [by apply fmt_nonempty in E|].
  rewrite !parse_fmt. by destruct rec.
Qed.

Lemma SaveJob_wf d rec d' :
  record_ok rec = true → jobs_wf d → LP_SaveJob d rec = Ok d' →
  jobs_wf d' ∧ kv_select d' "jobs" (r_ID rec) = Ok (Some (AObj (job_rec rec))).
Proof.
  intros Hok Hwf. unfold LP_SaveJob, Put. rewrite marshal_job //. intros Hu.
  split.
  - intros k v. rewrite (select_upsert _ _ _ _ _ _ _ Hu).
    case_decide as E; [|apply Hwf]. intros [= <-].
    exists rec. injection E as <-. auto.
  - rewrite (select_upsert _ _ _ _ _ _ _ Hu). by case_decide.
Qed.

Lemma unmarshal_jobs l :
  (∀ v, v ∈ l → ∃ rec, v = AObj (job_rec rec)) →
  ∃ recs, l = (λ rec, AObj (job_rec rec)) <$> recs
          ∧ unmarshal_maps l = Ok ((λ rec, list_to_map (job_rec rec)) <$> recs).
Proof.
  induction l as [|v l IH]; intros Hl; [by exists []|].
  destruct (Hl v ltac:(set_solver)) as [rec ->].
  destruct IH as (recs & -> & Hu); [intros v Hv; apply Hl; set_solver|].
  exists (rec :: recs). split; [done|]. simpl. by rewrite Hu.
Qed.

(** Under the invariant, listing returns exactly the stored records. *)
Lemma ListJobs_spec d l :
  jobs_wf d → kv_select_all d "jobs" = Ok l →
  ∃ recs, LP_ListJobs d = Ok recs
    ∧ ∀ rec, rec ∈ recs ↔
        kv_select d "jobs" (r_ID rec) = Ok (Some (AObj (job_rec rec)))
        ∧ record_ok rec = true.
Proof.
  intros Hwf Hl.
  assert (Hsel : ∀ v, v ∈ l → ∃ k rec, kv_select d "jobs" k = Ok (Some v)
            ∧ record_ok rec = true ∧ v = AObj (job_rec rec) ∧ r_ID rec = k).
  { intros v Hv. apply (select_all_elem _ _ _ _ Hl) in Hv as [k Hk].
    destruct (Hwf _ _ Hk) as (rec & ?). eauto. }
  destruct (unmarshal_jobs l) as (recs & El & Hu).
  { intros v Hv. destruct (Hsel v Hv) as (k & rec & _ & _ & -> & _). eauto. }
  unfold LP_ListJobs, LocalDb.List_. rewrite Hl Hu. eexists. split; [done|].
  assert (E : record_of_doc <$> ((λ rec, list_to_map (job_rec rec)) <$> recs) = recs).
  { rewrite -list_fmap_compose -{2}(list_fmap_id recs). apply list_fmap_ext.
    intros i rec _. apply record_of_job. }
  rewrite E. intros rec. rewrite list_elem_of_In List.filter_In -list_elem_of_In.
  assert (Hmem : ∀ rc, rc ∈ recs → AObj (job_rec rc) ∈ l).
  { intros rc Hrc. rewrite El. by apply (list_elem_of_fmap_2 (λ rec, AObj (job_rec rec))). }
  assert (Hinj : ∀ a b, AObj (job_rec a) = AObj (job_rec b) → a = b).
  { intros a b Hab. rewrite -(record_of_job a) -(record_of_job b).
    injection Hab. intros. unfold job_rec. congruence. }
  split.
  - intros [Hin _]. destruct (Hsel _ (Hmem _ Hin)) as (k & rc & Hk & Hok & Hv & <-).
    apply Hinj in Hv as <-. auto.
  - intros [Hk Hok]. split.
    + assert (Hv : AObj (job_rec rec) ∈ l) by (apply (select_all_elem _ _ _ _ Hl); eauto).
      rewrite El in Hv. apply list_elem_of_fmap in Hv as (rc & Hrc & Hin).
      by apply Hinj in Hrc as ->.
    + unfold record_ok in Hok. bool_props. by rewrite negb_true_iff.
Qed.

End local_persist.

(** An instance of the time format: sign and binary digits. *)
Fixpoint fmt_pos (p : positive) : string :=
  match p with
  | xH => "."
  | xO q => String "0" (fmt_pos q)
  | xI q => String "1" (fmt_pos q)
  end.

Fixpoint parse_pos (s : string) : option positive :=
  match s with
  | EmptyString => None
  | String c r =>
      if Ascii.eqb c "." then Some xH
      else if Ascii.eqb c "0" then xO <$> parse_pos r
      else xI <$> parse_pos r
  end.

#[export] Instance bits_time : TimeFmt := {
  fmt_nano t := match t with
                | Z0 => "z"
                | Zpos p => String "p" (fmt_pos p)
                | Zneg p => String "n" (fmt_pos p)
                end;
  parse_nano s := match s with
                  | EmptyString => None
                  | String c r => if Ascii.eqb c "z" then Some Z0
                                  else if Ascii.eqb c "p" then Zpos <$> parse_pos r
                                  else Zneg <$> parse_pos r
                  end
}.

Lemma parse_fmt_pos p : parse_pos (fmt_pos p) = Some p.
Proof. induction p as [p IH|p IH|]; simpl; rewrite ?IH; done. Qed.

Lemma fmt_pos_ascii p : is_ascii (fmt_pos p) = true.
Proof. induction p as [p IH|p IH|]; done. Qed.

#[export] Instance bits_time_laws : TimeFmtLaws.
Proof.
  split.
  - intros [|p|p]; simpl; by rewrite ?parse_fmt_pos.
  - intros [|p|p]; apply valid_ascii; [done| |]; apply fmt_pos_ascii.
  - by intros [|p|p].
Qed.

Lemma New_inv {π} `{Persist π} (st : option π) : runner_inv (New st).
Proof.
  assert (Hq : ∀ k, queue_of (New st) k = []).
  { intros k. unfold queue_of. simpl. by rewrite lookup_empty. }
  split; simpl.
  - apply map_Forall_empty.
  - intros kind id. rewrite Hq. set_solver.
  - intros kind. rewrite Hq /=. lia.
  - intros j ch. rewrite lookup_empty. set_solver.
  - intros j. rewrite lookup_empty. constructor.
  - apply map_Forall_empty.
  - set_solver.
Qed.

(** ** Properties *)

(** C4: safety of the runner.  In every state reachable from an empty runner by
    any interleaving of submissions, workers taking, running and finishing
    jobs, panicking handlers, cancellations, subscriptions and receivers: each
    record is stored under its own id, queues and log buffers never exceed
    their capacity, every queued id is a known job, log events are only sent
    to open channels (so publishing cannot panic), and every running worker
    works on a known job. *)
Theorem runner_safe {π} `{Persist π} handler (st : option π) (s : system π) :
  reachable handler st s → system_inv s.
Proof.
  unfold reachable. intros Hs.
  assert (HI : system_inv (init st)) by (split; [apply New_inv|apply map_Forall_empty]).
  revert HI. induction Hs as [|x y z Hxy _ IH]; [done|].
  intros HI. apply IH. by eapply step_inv.
Qed.

Definition mem_persist : Persist mem_db := local_persist (λ _, []).

Definition demo_handler (kind : string) (rec : JobRecord) : list haction :=
  [HLog "noop" "unhandled job kind" ∅; HProgress float_one].

Definition demo_submitted : option (Runner mem_db) :=
  @Submit mem_db mem_persist (New (Some mem_empty)) "j1" "k" "{}" 5%Z.

Lemma runner_safe_witness :
  ∃ r, demo_submitted = Some r
    ∧ @system_inv mem_db {| runner := r; workers := <[0 := WIdle "k"]> ∅ |}.
Proof.
  eexists. split; [reflexivity|].
  apply (@runner_safe mem_db mem_persist demo_handler (Some mem_empty)).
  eapply rtc_once. eapply StepSubmit; [reflexivity|reflexivity|reflexivity].
Defined.

(** The status of a job after its run. *)
Lemma runOne_status {π} `{Persist π} handler (r : Runner π) rec now :
  ∃ rc, jobs (runOne handler r rec now) !! r_ID rec = Some rc
        ∧ r_Status rc = if existsb fails (handler (set_status rec Running now))
                        then Failed else Succeeded.
Proof.
  unfold runOne, runOne_begin. set (rec1 := set_status rec Running now).
  destruct (exec_actions _ rec1 (handler rec1) now) as [[r2 rec2] o] eqn:E.
  destruct (exec_actions_status _ _ _ _ _ _ _ (status_put_persist r rec1)
              (or_introl eq_refl) E) as (Hid & (rc & Hrc & Hst) & Ho).
  change (r_ID rec) with (r_ID rec1). rewrite -Hid. destruct o as [v|].
  - exists (set_status (set_error rec2 v) Failed now). rewrite Ho. split; [|done].
    unfold runOne_recover. by rewrite put_persist_jobs lookup_insert_eq.
  - unfold runOne_end. destruct (existsb fails (handler rec1)); rewrite Ho.
    + exists rc. by rewrite Hst Ho.
    + simpl. eexists. rewrite put_persist_jobs lookup_insert_eq. done.
Qed.


(** Cancelling a running job has no effect on its outcome.  When [Cancel]
    arrives while the handler of a job is running and the handler returns
    without failing, the job is recorded as succeeded although it is marked as
    cancelled. *)
Theorem cancel_overwritten {π} `{Persist π} (r : Runner π) rec t1 t2 :
  r_Status rec = Running →
  let r' := runOne_end (Cancel r (r_ID rec) t1) rec t2 in
  IsCanceled r' (r_ID rec) = true
  ∧ ∃ rc, jobs r' !! r_ID rec = Some rc ∧ r_Status rc = Succeeded.
Proof.
  intros Hst. simpl. unfold runOne_end. rewrite Hst. simpl.
  set (rec' := set_status (set_progress rec float_one t2) Succeeded t2).
  split.
  - unfold IsCanceled. apply bool_decide_eq_true.
    destruct (persist_memory (put (Cancel r (r_ID rec) t1) rec') rec')
      as (_&_&_&_&_& ->). simpl. unfold Cancel. simpl.
    destruct (jobs r !! r_ID rec); [|set_solver].
    match goal with |- context [persist ?a ?b] =>
      destruct (persist_memory a b) as (_&_&_&_&_& ->) end. set_solver.
  - exists rec'. by rewrite put_persist_jobs lookup_insert_eq.
Qed.

Lemma cancel_overwritten_witness :
  let rec := set_status (new_record "j1" "k" "{}" 1%Z) Running 2%Z in
  IsCanceled (@runOne_end mem_db mem_persist
    (@Cancel mem_db mem_persist (New None) (r_ID rec) 3%Z) rec 4%Z) "j1" = true.
Proof.
  intros rec.
  exact (proj1 (@cancel_overwritten mem_db mem_persist (New None) rec 3%Z 4%Z eq_refl)).
Defined.

(** [List] merges memory and store.  For a runner whose records are under
    their own ids, the listing holds exactly the records in memory and the
    stored records whose id is not in memory, and no id twice when the store
    lists no id twice. *)
Theorem List_merges {π} `{Persist π} (r : Runner π) p persisted :
  runner_inv r → store r = Some p → ListJobs p = Ok persisted →
  (∀ rec, rec ∈ List_ r ↔
     jobs r !! r_ID rec = Some rec ∨ (jobs r !! r_ID rec = None ∧ rec ∈ persisted))
  ∧ (NoDup (r_ID <$> persisted) → NoDup (r_ID <$> List_ r)).
Proof.
  intros Hr Hs Hp. unfold List_. rewrite Hs Hp.
  set (out := (map_to_list (jobs r)).*2).
  assert (Hout : ∀ rec, rec ∈ out ↔ jobs r !! r_ID rec = Some rec).
  { intros rec. unfold out. rewrite list_elem_of_fmap. split.
    - intros ([k v] & -> & Hin). simpl. apply elem_of_map_to_list in Hin.
      by rewrite (inv_ids _ Hr _ _ Hin).
    - intros Hl. exists (r_ID rec, rec). by rewrite elem_of_map_to_list. }
  assert (Hex : ∀ q, existsb (λ m, String.eqb (r_ID m) (r_ID q)) out = false
                     ↔ jobs r !! r_ID q = None).
  { intros q. rewrite -not_true_iff_false List.existsb_exists. split.
    - intros Hn. destruct (jobs r !! r_ID q) as [m|] eqn:E; [|done].
      pose proof (inv_ids _ Hr _ _ E) as Hid. simpl in Hid.
      destruct Hn. exists m. rewrite -list_elem_of_In Hout Hid.
      split; [done|]. by apply String.eqb_eq.
    - intros Hn (m & Hm & Heq%String.eqb_eq). apply list_elem_of_In, Hout in Hm.
      congruence. }
  split.
  - intros rec. rewrite elem_of_app Hout list_elem_of_In List.filter_In -list_elem_of_In.
    rewrite negb_true_iff Hex. naive_solver.
  - intros Hn. rewrite fmap_app. apply NoDup_app. repeat split.
    + unfold out. rewrite -list_fmap_compose.
      assert (E : (r_ID ∘ snd) <$> map_to_list (jobs r) = (map_to_list (jobs r)).*1).
      { apply list_fmap_ext. intros i [k v] Hkv. simpl.
        apply list_elem_of_lookup_2, elem_of_map_to_list in Hkv. by apply (inv_ids _ Hr). }
      rewrite E. apply NoDup_fst_map_to_list.
    + intros id (a & -> & Ha%Hout)%list_elem_of_fmap (b & Hb & Hbin)%list_elem_of_fmap.
      apply list_elem_of_In, List.filter_In in Hbin as [_ Hbin].
      apply negb_true_iff, Hex in Hbin. congruence.
    + by apply NoDup_fmap_filter.
Qed.

Definition demo_record : JobRecord := new_record "j1" "k" "{}" 1%Z.
Definition demo_runner : Runner mem_db := put (New (Some mem_empty)) demo_record.

Lemma List_merges_witness : demo_record ∈ @List_ mem_db mem_persist demo_runner.
Proof.
  apply (proj1 (@List_merges mem_db mem_persist demo_runner mem_empty []
                  (put_inv _ demo_record (@New_inv mem_db mem_persist (Some mem_empty)))
                  eq_refl eq_refl) demo_record).
  left. reflexivity.
Defined.

(** Jobs survive a restart.  On a jobs collection written by [SaveJob], a
    saved record that JSON can carry is returned unchanged by [GetJob], and
    the collection keeps its form, so this holds after every further save. *)
Theorem SaveJob_GetJob {σ} `{SqlLaws σ} `{TimeFmtLaws} (d d' : σ) rec l :
  record_ok rec = true → jobs_wf d → LP_SaveJob d rec = Ok d' →
  kv_select_all d' "jobs" = Ok l →
  jobs_wf d' ∧ LP_GetJob d' (r_ID rec) = Ok (Some rec).
Proof.
  intros Hok Hwf HS Hl. destruct (SaveJob_wf _ _ _ Hok Hwf HS) as [Hwf' Hsel].
  split; [done|]. unfold LP_GetJob, Get. rewrite Hsel. simpl.
  destruct (ListJobs_spec _ _ Hwf' Hl) as (recs & -> & Hrecs).
  destruct (find_first _ recs) as [rc|] eqn:E.
  - apply find_first_Some in E as [Hin Hid%String.eqb_eq].
    apply Hrecs in Hin as [Hk _]. rewrite Hid Hsel in Hk.
    injection Hk as Hk. do 2 f_equal.
    rewrite -(record_of_job rc) -(record_of_job rec).
    unfold job_rec. congruence.
  - apply find_first_None in E. rewrite Forall_forall in E.
    specialize (E rec). rewrite String.eqb_refl in E. ospecialize (E _); [|done].
    by apply Hrecs.
Qed.

Lemma SaveJob_GetJob_witness :
  ∃ d', LP_SaveJob mem_empty (new_record "j1" "k" "{}" 7%Z) = Ok d'
        ∧ LP_GetJob d' "j1" = Ok (Some (new_record "j1" "k" "{}" 7%Z)).
Proof.
  eexists. split; [reflexivity|].
  refine (proj2 (SaveJob_GetJob mem_empty _ (new_record "j1" "k" "{}" 7%Z) _ _ _ _ _)).
  - vm_compute. reflexivity.
  - intros k v Hk. discriminate Hk.
  - reflexivity.
  - reflexivity.
Defined.
