(* ===== verification/Proxy.v ===== *)
(** * The reverse proxy (internal/proxy/reverse_proxy.go)

    Target selection and validation for a proxied request, the director's
    header and URL rewriting, the response rewriting that keeps a proxied
    application inside the proxy's base path, and the choice of transport.
    URL parsing ([url.Parse]) is an argument of the functions that use it. *)

From S2P Require Import Prelude GoStrings Values.

Local Open Scope Z_scope.

(** ** Standard-library pieces *)

(** The components of a parsed URL the code reads: [Scheme] (non-empty for an
    absolute URL), [Path], and [String()]. *)
Record URL : Type := { u_Scheme : string; u_Path : string; u_String : string }.

Definition IsAbs (u : URL) : bool := negb (String.eqb (u_Scheme u) "").

(** [http.Header]: canonical key to values. *)
Abbreviation header := (gmap string (list string)).

Definition hGet (h : header) (k : string) : string :=
  match h !! k with Some (v :: _) => v | _ => "" end.
Definition hValues (h : header) (k : string) : list string := default [] (h !! k).
Definition hSet (h : header) (k v : string) : header := <[k := [v]]> h.
Definition hDel (h : header) (k : string) : header := delete k h.
Definition hAdd (h : header) (k v : string) : header := <[k := hValues h k ++ [v]]> h.

(** [url.PathUnescape]. *)
Fixpoint PathUnescape (s : string) : option string :=
  match s with
  | EmptyString => Some EmptyString
  | String c r =>
      if Ascii.eqb c "%" then
        match r with
        | String a (String b r') =>
            x ← hex_val a; y ← hex_val b; t ← PathUnescape r';
            Some (String (zb (16 * x + y)) t)
        | _ => None
        end
      else String c <$> PathUnescape r
  end.

(** [strings.LastIndex(s, c)] as the text before and after. *)
Fixpoint CutLast (sep : ascii) (s : string) : option (string * string) :=
  match s with
  | EmptyString => None
  | String c r =>
      match CutLast sep r with
      | Some (a, b) => Some (String c a, b)
      | None => if Ascii.eqb c sep then Some (EmptyString, r) else None
      end
  end.

Definition has_byte (c : ascii) (s : string) : bool :=
  existsb (Ascii.eqb c) (s2b s).

(** [net.SplitHostPort]: [host:port] or [[host]:port]. *)
Definition SplitHostPort (hp : string) : option (string * string) :=
  match CutLast ":" hp with
  | None => None
  | Some (pre, port) =>
      match hp with
      | String c rest =>
          if Ascii.eqb c "[" then
            match Cut "]" rest with
            | None => None
            | Some (host, after) =>
                match after with
                | String d port' =>
                    if Ascii.eqb d ":" && String.eqb port' port
                       && negb (has_byte "[" host) && negb (has_byte "[" port')
                       && negb (has_byte "]" port')
                    then Some (host, port') else None
                | EmptyString => None
                end
            end
          else if has_byte ":" pre || has_byte "[" hp || has_byte "]" hp then None
          else Some (pre, port)
      | EmptyString => None
      end
  end.

(** ** Path helpers *)

Definition singleJoiningSlash (a b : string) : string :=
  let aslash := HasSuffix a "/" in
  let bslash := HasPrefix b "/" in
  if aslash && bslash then a +:+ drop_str 1 b
  else if negb aslash && negb bslash then a +:+ "/" +:+ b
  else a +:+ b.

(** [strings.SplitN(s, "/", 2)[0]]. *)
Definition first_segment (s : string) : string :=
  match Cut "/" s with Some (a, _) => a | None => s end.

(** The prefix up to and including the segment after [marker], if that segment
    is not empty. *)
Definition prefix_after (pth marker : string) : option string :=
  match Index pth marker with
  | None => None
  | Some i =>
      let rem := TrimPrefix (drop_str i pth) marker in
      let seg := first_segment rem in
      if String.eqb seg "" then None
      else Some (take_str i pth +:+ marker +:+ seg)
  end.

Definition basePrefixFromPath (pth : string) : string :=
  if String.eqb pth "" then ""
  else match prefix_after pth "/proxy/server/" with
       | Some p => p
       | None => default "" (prefix_after pth "/proxy/")
       end.

Section rewriting.
Context `{UnicodeCase}.
Variable url_Parse : string → option URL.

(** ** Response rewriting *)

Definition rewriteLocation (loc baseHref : string) : string :=
  if String.eqb loc "" then loc
  else
    let base := TrimRightByte "/" baseHref in
    match url_Parse loc with
    | Some u =>
        if IsAbs u then
          if String.eqb (u_Path u) "" || HasPrefix (u_Path u) "/"
          then base +:+ u_Path u
          else base +:+ "/" +:+ u_String u
        else if HasPrefix loc "/" then base +:+ loc
        else base +:+ "/" +:+ loc
    | None => if HasPrefix loc "/" then base +:+ loc else base +:+ "/" +:+ loc
    end.

Definition mentions_frame_ancestors (p : string) : bool :=
  Contains (ToLower p) "frame-ancestors".

Definition relaxFrameAncestors (csp : string) : string :=
  if String.eqb csp "" then "frame-ancestors *"
  else
    let parts := Split ";" csp in
    let found := existsb mentions_frame_ancestors parts in
    let parts1 := (λ p, if mentions_frame_ancestors p then " frame-ancestors *" else p)
                    <$> parts in
    let parts2 := if found then parts1 else parts1 ++ [" frame-ancestors *"] in
    Join "; " (List.filter (λ s, negb (String.eqb s "")) (TrimSpace <$> parts2)).

(** The path of a base reference, for cookies. *)
Definition cookie_path (baseHref : string) : string :=
  let path := match url_Parse baseHref with Some u => u_Path u | None => baseHref end in
  if String.eqb path "" then "/" else path.

(** What the attribute loop does with one attribute. *)
Inductive cookie_attr : Type := CBlank | CDomain | CSameSite | CSecure | CPath | CKeep.

Definition classify_attr (p : string) : cookie_attr :=
  let lp := ToLower p in
  if String.eqb p "" then CBlank
  else if HasPrefix lp "domain=" then CDomain
  else if HasPrefix lp "samesite=" then CSameSite
  else if String.eqb lp "secure" then CSecure
  else if HasPrefix lp "path=" then CPath
  else CKeep.

Definition attr_output (baseHref p : string) : list string :=
  match classify_attr p with
  | CKeep => [p]
  | CPath => ["Path=" +:+ cookie_path baseHref]
  | _ => []
  end.

Definition is_secure (p : string) : bool :=
  match classify_attr p with CSecure => true | _ => false end.
Definition is_samesite (p : string) : bool :=
  match classify_attr p with CSameSite => true | _ => false end.
Definition is_path (p : string) : bool :=
  match classify_attr p with CPath => true | _ => false end.

(** The output attributes in order, without the leading name=value. *)
Definition cookie_attrs (baseHref : string) (attrs : list string) : list string :=
  mjoin (attr_output baseHref <$> attrs)
  ++ (if existsb is_secure attrs then [] else ["Secure"])
  ++ (if existsb is_samesite attrs then [] else ["SameSite=None"])
  ++ ["Partitioned"]
  ++ (if existsb is_path attrs then [] else ["Path=" +:+ cookie_path baseHref]).

Definition rewriteSetCookieForIframe (h baseHref : string) : string :=
  if String.eqb h "" then h
  else
    match Split ";" h with
    | [] => h
    | nv :: rest =>
        Join "; " (TrimSpace nv :: cookie_attrs baseHref (TrimSpace <$> rest))
    end.

(** [ModifyResponse]: the base comes from the forwarded prefix of the request,
    else from its path, else it is [/proxy]. *)
Definition response_base (fwdPrefix reqPath : string) : string :=
  if negb (String.eqb fwdPrefix "") then fwdPrefix
  else let b := basePrefixFromPath reqPath in
       if String.eqb b "" then "/proxy" else b.

Definition service_worker_scope (base : string) : string :=
  let p := match url_Parse base with
           | Some u => if String.eqb (u_Path u) "" then base else u_Path u
           | None => base
           end in
  if String.eqb p "" then "/" else p.

Definition rewrite_cookies (h : header) (base : string) : header :=
  match hValues h "Set-Cookie" with
  | [] => h
  | cookies =>
      foldl (λ h c, hAdd h "Set-Cookie" (rewriteSetCookieForIframe c base))
        (hDel h "Set-Cookie") cookies
  end.

Definition ModifyResponse (h0 : header) (fwdPrefix reqPath : string) : header :=
  let base := response_base fwdPrefix reqPath in
  let h1 := hDel h0 "X-Frame-Options" in
  let h2 := hSet h1 "Cross-Origin-Opener-Policy" "same-origin-allow-popups" in
  let h3 := hDel h2 "Cross-Origin-Embedder-Policy" in
  let h4 := hSet h3 "Cross-Origin-Resource-Policy" "cross-origin" in
  let csp := hGet h4 "Content-Security-Policy" in
  let h5 := hSet h4 "Content-Security-Policy"
              (if negb (String.eqb csp "") then relaxFrameAncestors csp
               else "frame-ancestors *") in
  let h6 := hSet h5 "Service-Worker-Allowed" (service_worker_scope base) in
  let h7 := if String.eqb (hGet h6 "Referrer-Policy") ""
            then hSet h6 "Referrer-Policy" "no-referrer" else h6 in
  let loc := hGet h7 "Location" in
  let h8 := if negb (String.eqb loc "")
            then hSet h7 "Location" (rewriteLocation loc base) else h7 in
  rewrite_cookies h8 base.

End rewriting.

(** ** Request handling *)

(** The parts of the incoming request the selection reads. *)
Record proxy_request : Type := {
  pr_to : string;        (* query parameter "to" *)
  pr_path : string;      (* query parameter "path" *)
  pr_scheme : string;    (* query parameter "scheme" *)
  pr_URLPath : string    (* r.URL.Path *)
}.

(** [Options]: the resolver, when configured, and whether an API proxy is. *)
Record proxy_opts : Type := {
  ResolveServer : option (string → string → result (string * string * string));
  HasAPIProxy : bool
}.

Inductive outcome : Type :=
  | Reject (status : Z) (msg : string)
  | Forward (scheme host path serverID : string).

(** Cut [tail] at the first slash; the rest keeps the slash, and is [/] when
    there is none. *)
Definition split_rest (tail : string) : string * string :=
  match Cut "/" tail with
  | Some (a, b) => (a, String "/" b)
  | None => (tail, "/")
  end.

Definition unescape_or_same (s : string) : string := default s (PathUnescape s).

(** Target from the query or the path: scheme, host:port, sub-path, server id;
    or a resolution failure. *)
Definition select_target (o : proxy_opts) (r : proxy_request)
    : result (string * string * string * string) :=
  if (String.eqb (pr_to r) "" || String.eqb (pr_path r) "")
     && HasPrefix (pr_URLPath r) "/proxy/"
  then
    let suffix := TrimPrefix (pr_URLPath r) "/proxy/" in
    match ResolveServer o, HasPrefix suffix "server/" with
    | Some resolve, true =>
        let '(id, rest) := split_rest (TrimPrefix suffix "server/") in
        let id := unescape_or_same id in
        match resolve id rest with
        | Err e => Err e
        | Ok (sch, hostport, path) => Ok (sch, hostport, path, id)
        end
    | _, _ =>
        let '(to, rest) := split_rest suffix in
        Ok (pr_scheme r, unescape_or_same to, rest, "")
    end
  else Ok (pr_scheme r, pr_to r, pr_path r, "").

(** Validation of the target and the default scheme: a rejection or the scheme
    to use. *)
Definition validate_target (skip : bool) (scheme to : string) : outcome + string :=
  if skip then inr (if String.eqb scheme "" then "http" else scheme)
  else match SplitHostPort to with
       | None => inl (Reject 400 "invalid to")
       | Some (_, ps) =>
           match Atoi ps with
           | None => inl (Reject 400 "invalid port")
           | Some port =>
               if (port <=? 0) || (65535 <? port)
               then inl (Reject 400 "invalid port")
               else inr (if String.eqb scheme "" then
                           if (port =? 443) || (port =? 8443) then "https" else "http"
                         else scheme)
           end
       end.

Definition ServeHTTP (o : proxy_opts) (r : proxy_request) : outcome :=
  match select_target o r with
  | Err e => Reject 502 ("server resolution failed: " +:+ e)
  | Ok (scheme, to, subPath, serverID) =>
      let skip := negb (String.eqb serverID "") && HasAPIProxy o in
      if String.eqb subPath "" || negb (HasPrefix subPath "/")
         || (String.eqb to "" && negb skip)
      then Reject 400 "missing or invalid to/path"
      else
        match validate_target skip scheme to with
        | inl rej => rej
        | inr sch =>
            if negb (String.eqb sch "http") && negb (String.eqb sch "https")
            then Reject 400 "invalid scheme"
            else Forward sch to subPath serverID
        end
  end.

(** The director's forwarding headers.  [host] is [r.Host], [tls] whether the
    client connection uses TLS. *)
Definition director_headers (h : header) (host : string) (tls : bool)
    (urlPath serverID : string) (api : bool) : header :=
  let h1 := if negb (String.eqb host "") then hSet h "X-Forwarded-Host" host else h in
  let h2 := hSet h1 "X-Forwarded-Proto" (if tls then "https" else "http") in
  let h3 := if String.eqb (hGet h2 "X-Forwarded-Prefix") "" then
              let base := basePrefixFromPath urlPath in
              if negb (String.eqb base "") then hSet h2 "X-Forwarded-Prefix" base else h2
            else h2 in
  if api && negb (String.eqb serverID "")
  then hSet h3 "X-Guild-Server-ID" serverID else h3.

(** [dualTransport.RoundTrip]: the API transport only for API server paths. *)
Definition use_api_transport (has_api : bool) (path : string) : bool :=
  has_api && (HasPrefix path "/api/" || HasPrefix path "/apis/").

(** ** Lemmas *)

Lemma first_segment_prefix s : ∃ t, s = first_segment s +:+ t.
Proof.
  unfold first_segment. destruct (Cut "/" s) as [[a b]|] eqn:E.
  - apply Cut_Some in E as [-> _]. by eexists.
  - exists "". by rewrite str_app_nil_r.
Qed.

Lemma first_segment_no_slash s : "/"%char ∉ s2b (first_segment s).
Proof.
  unfold first_segment. destruct (Cut "/" s) as [[a b]|] eqn:E.
  - by apply Cut_Some in E as [_ ?].
  - by apply Cut_None in E.
Qed.

(** The computed base is an initial part of the path that ends in [marker]
    followed by one non-empty segment. *)
Lemma prefix_after_spec pth marker p :
  prefix_after pth marker = Some p →
  ∃ pre seg rest, p = pre +:+ marker +:+ seg ∧ pth = p +:+ rest
                  ∧ seg ≠ "" ∧ "/"%char ∉ s2b seg.
Proof.
  unfold prefix_after. destruct (Index pth marker) as [i|] eqn:E; [|done].
  destruct (Index_split _ _ _ E) as [t Ht].
  apply Index_Some in E as [Hp _]. apply HasPrefix_spec in Hp as [t' Ht'].
  rewrite Ht' TrimPrefix_app.
  destruct (String.eqb_spec (first_segment t') "") as [|Hne]; [done|].
  intros [= <-]. destruct (first_segment_prefix t') as [rest Hrest].
  exists (take_str i pth), (first_segment t'), rest.
  split; [done|]. split; [|split; [done|apply first_segment_no_slash]].
  rewrite !str_app_assoc -Hrest -Ht'. by rewrite take_drop_str.
Qed.

Lemma mentions_fa_star `{UnicodeCase} : mentions_frame_ancestors " frame-ancestors *" = true.
Proof. vm_compute. reflexivity. Qed.

Lemma relax_parts_no_semicolon `{UnicodeCase} csp (found : bool) :
  Forall (λ p, ";"%char ∉ s2b p)
    (TrimSpace <$>
      (let parts1 := (λ p, if mentions_frame_ancestors p then " frame-ancestors *" else p)
                       <$> Split ";" csp in
       if found then parts1 else parts1 ++ [" frame-ancestors *"])).
Proof.
  assert (H1 : ";"%char ∉ s2b " frame-ancestors *").
  { intros Hin%list_elem_of_In. vm_compute in Hin. by repeat destruct Hin as [Hin|Hin]. }
  apply Forall_fmap. simpl.
  assert (H2 : Forall (λ p, ";"%char ∉ s2b p)
            ((λ p, if mentions_frame_ancestors p then " frame-ancestors *" else p)
               <$> Split ";" csp)).
  { apply Forall_fmap. eapply Forall_impl; [apply Split_no_sep|].
    intros p Hp. simpl. by destruct (mentions_frame_ancestors p). }
  assert (H3 : Forall (λ p, ";"%char ∉ s2b p)
     (let parts1 := (λ p, if mentions_frame_ancestors p then " frame-ancestors *" else p)
                      <$> Split ";" csp in
      if found then parts1 else parts1 ++ [" frame-ancestors *"])).
  { destruct found; [done|]. apply Forall_app. auto. }
  eapply Forall_impl; [exact H3|]. intros p. apply TrimSpace_not_in.
Qed.

(** The directives a browser reads from a policy. *)
Definition directives (csp : string) : list string :=
  List.filter (λ s, negb (String.eqb s "")) (TrimSpace <$> Split ";" csp).

Lemma trimmed_fixed l :
  TrimSpace <$> (List.filter (λ s, negb (String.eqb s "")) (TrimSpace <$> l))
  = List.filter (λ s, negb (String.eqb s "")) (TrimSpace <$> l).
Proof.
  induction l as [|x l IH]; [done|]. rewrite fmap_cons. cbn [List.filter].
  destruct (negb (String.eqb (TrimSpace x) "")); [|done].
  by rewrite fmap_cons IH TrimSpace_idemp.
Qed.

Lemma filter_idem {A} (p : A → bool) l : List.filter p (List.filter p l) = List.filter p l.
Proof. induction l as [|x l IH]; [done|]. simpl. destruct (p x) eqn:E; simpl; by rewrite ?E ?IH. Qed.

(** Joining non-blank trimmed fields and reading them back. *)
Lemma directives_join l :
  Forall (λ p, ";"%char ∉ s2b p) (TrimSpace <$> l) →
  directives (Join "; " (List.filter (λ s, negb (String.eqb s "")) (TrimSpace <$> l)))
  = List.filter (λ s, negb (String.eqb s "")) (TrimSpace <$> l).
Proof.
  intros HF. set (out := List.filter _ _).
  assert (Ho : TrimSpace <$> out = out) by apply trimmed_fixed.
  assert (HFo : Forall (λ p, ";"%char ∉ s2b p) out) by (by apply Forall_List_filter).
  unfold directives. destruct out as [|x r] eqn:E; [reflexivity|].
  rewrite Join_space_fields //. rewrite Ho -E. apply filter_idem.
Qed.

Lemma attr_output_no_domain `{UnicodeCase} parse base p q :
  q ∈ attr_output parse base p →
  (q = p ∧ classify_attr p = CKeep) ∨ q = "Path=" +:+ cookie_path parse base.
Proof.
  unfold attr_output. destruct (classify_attr p); rewrite ?list_elem_of_singleton;
    try (by intros ?%not_elem_of_nil); auto.
Qed.

Lemma cookie_attrs_elem `{UnicodeCase} parse base attrs q :
  q ∈ cookie_attrs parse base attrs →
  (q ∈ attrs ∧ classify_attr q = CKeep) ∨ q = "Path=" +:+ cookie_path parse base
  ∨ (q = "Secure" ∧ existsb is_secure attrs = false)
  ∨ (q = "SameSite=None" ∧ existsb is_samesite attrs = false)
  ∨ q = "Partitioned".
Proof.
  unfold cookie_attrs. rewrite !elem_of_app. intros [Hq|[Hq|[Hq|[Hq|Hq]]]].
  - apply list_elem_of_join in Hq as (l & Hql & Hl).
    apply list_elem_of_fmap in Hl as (p & -> & Hp).
    apply attr_output_no_domain in Hql as [[-> ?]| ->]; auto.
  - destruct (existsb is_secure attrs) eqn:E; [by apply not_elem_of_nil in Hq|].
    apply list_elem_of_singleton in Hq. auto.
  - destruct (existsb is_samesite attrs) eqn:E; [by apply not_elem_of_nil in Hq|].
    apply list_elem_of_singleton in Hq. auto 6.
  - apply list_elem_of_singleton in Hq. auto 6.
  - destruct (existsb is_path attrs); [by apply not_elem_of_nil in Hq|].
    apply list_elem_of_singleton in Hq. auto.
Qed.

(** The attributes a browser reads from a Set-Cookie header. *)
Definition attributes (h : string) : list string := TrimSpace <$> tail (Split ";" h).

Lemma string_not_in (c : ascii) (s : string) :
  existsb (Ascii.eqb c) (s2b s) = false → c ∉ s2b s.
Proof.
  intros E Hin. apply not_true_iff_false in E. apply E.
  apply List.existsb_exists. exists c. rewrite -list_elem_of_In Ascii.eqb_refl. auto.
Qed.

Lemma cookie_fields `{UnicodeCase} parse base nv rest :
  ";"%char ∉ s2b (cookie_path parse base) →
  Forall (λ p, ";"%char ∉ s2b p) (nv :: rest) →
  Forall (λ p, ";"%char ∉ s2b p)
    (TrimSpace nv :: cookie_attrs parse base (TrimSpace <$> rest)).
Proof.
  intros Hb [Hnv Hr]%Forall_cons. constructor; [by apply TrimSpace_not_in|].
  apply Forall_forall. intros q Hq.
  apply cookie_attrs_elem in Hq as [[Hin _]|[-> |[[-> _]|[[-> _]| ->]]]].
  - apply list_elem_of_fmap in Hin as (p & -> & Hp). apply TrimSpace_not_in.
    rewrite Forall_forall in Hr. auto.
  - rewrite s2b_app elem_of_app. intros [Hin|Hin]; [|done].
    revert Hin. by apply string_not_in.
  - by apply string_not_in.
  - by apply string_not_in.
  - by apply string_not_in.
Qed.

(** What a browser reads from the rewritten header. *)
Lemma rewritten_attributes `{UnicodeCase} parse base h :
  h ≠ "" → ";"%char ∉ s2b (cookie_path parse base) →
  attributes (rewriteSetCookieForIframe parse h base)
  = TrimSpace <$> cookie_attrs parse base (attributes h).
Proof.
  intros Hh Hb. unfold rewriteSetCookieForIframe, attributes.
  destruct (String.eqb_spec h ""); [done|].
  pose proof (Split_no_sep ";" h) as HF.
  destruct (Split ";" h) as [|nv rest] eqn:E; [by apply Split_not_nil in E|].
  pose proof (cookie_fields parse base nv rest Hb HF) as HC.
  rewrite Split_Join_space //. cbn [tail].
  generalize (cookie_attrs parse base (TrimSpace <$> rest)). intros l.
  induction l as [|x l IH]; [done|]. by rewrite !fmap_cons TrimSpace_space IH.
Qed.

Lemma drop_while_snoc {A} (p : A → bool) l x :
  p x = false → ∃ l', drop_while p (l ++ [x]) = l' ++ [x].
Proof.
  intros Hx. induction l as [|y l IH]; simpl; [rewrite Hx; by exists []|].
  destruct (p y); [done|]. by exists (y :: l).
Qed.

Lemma trim_by_head {A} (p : A → bool) x l :
  p x = false → ∃ l', trim_by p (x :: l) = x :: l'.
Proof.
  intros Hx. unfold trim_by. simpl. rewrite Hx reverse_cons.
  destruct (drop_while_snoc p (reverse l) x Hx) as [l' ->].
  exists (reverse l'). by rewrite reverse_app.
Qed.

Lemma segs_cons_ascii c s :
  (bz c <? 0x80) = true → segs (s2b (String c s)) = (bz c, [c]) :: segs (s2b s).
Proof.
  intros Hc. rewrite segs_unfold; [|done]. unfold decode_rune. cbn. by rewrite Hc.
Qed.

Lemma TrimSpace_head c s :
  (bz c <? 0x80) = true → IsSpace (bz c) = false → ∃ t, TrimSpace (String c s) = String c t.
Proof.
  intros Hc Hs. unfold TrimSpace. rewrite segs_cons_ascii //.
  destruct (trim_by_head (λ rb, IsSpace rb.1) (bz c, [c]) (segs (s2b s)) Hs) as [l' ->].
  simpl. by eexists.
Qed.

Lemma ToLower_head `{UnicodeCase} c s :
  (bz c <? 0x80) = true → ∃ t, ToLower (String c s) = b2s (encode_rune (lower_rune (bz c))) +:+ t.
Proof.
  intros Hc. unfold ToLower, runes, string_of_runes. rewrite segs_cons_ascii //. simpl.
  rewrite b2s_app. by eexists.
Qed.

Lemma path_attr_not_domain `{UnicodeCase} p :
  HasPrefix (ToLower (TrimSpace ("Path=" +:+ p))) "domain=" = false.
Proof.
  destruct (TrimSpace_head "P" ("ath=" +:+ p) eq_refl eq_refl) as [t Ht].
  change ("Path=" +:+ p) with (String "P" ("ath=" +:+ p)). rewrite Ht.
  destruct (ToLower_head "P" t eq_refl) as [u ->]. reflexivity.
Qed.

Lemma kept_not_domain `{UnicodeCase} q :
  classify_attr q = CKeep → HasPrefix (ToLower q) "domain=" = false.
Proof.
  unfold classify_attr. intros Hq.
  destruct (String.eqb q ""); [done|].
  by destruct (HasPrefix (ToLower q) "domain=").
Qed.

Lemma path_attr_neq `{UnicodeCase} p s :
  HasPrefix s "S" = true → TrimSpace ("Path=" +:+ p) ≠ s.
Proof.
  intros Hs. destruct (TrimSpace_head "P" ("ath=" +:+ p) eq_refl eq_refl) as [t Ht].
  change ("Path=" +:+ p) with (String "P" ("ath=" +:+ p)). rewrite Ht.
  intros <-. done.
Qed.

Lemma attributes_trimmed h q : q ∈ attributes h → TrimSpace q = q.
Proof.
  unfold attributes. intros (p & -> & _)%list_elem_of_fmap. apply TrimSpace_idemp.
Qed.

(** Membership in the rewritten attributes, before the browser trims them. *)
Lemma rewritten_elem `{UnicodeCase} parse base h q :
  h ≠ "" → ";"%char ∉ s2b (cookie_path parse base) →
  q ∈ attributes (rewriteSetCookieForIframe parse h base) →
  (q ∈ attributes h ∧ classify_attr q = CKeep)
  ∨ q = TrimSpace ("Path=" +:+ cookie_path parse base)
  ∨ (q = "Secure" ∧ existsb is_secure (attributes h) = false)
  ∨ (q = "SameSite=None" ∧ existsb is_samesite (attributes h) = false)
  ∨ q = "Partitioned".
Proof.
  intros Hh Hb. rewrite rewritten_attributes //.
  intros (p & -> & Hp)%list_elem_of_fmap.
  apply cookie_attrs_elem in Hp as [[Hin Hk]|[-> |[[-> ?]|[[-> ?]| ->]]]];
    [left|right; left|right; right; left|right; right; right; left|do 4 right]; auto.
  rewrite (attributes_trimmed _ _ Hin). auto.
Qed.

Lemma validate_rejects skip s t rej sch to path sid :
  validate_target skip s t = inl rej → rej ≠ Forward sch to path sid.
Proof. unfold validate_target. intros H ->. by repeat case_match; simplify_eq. Qed.

Lemma validate_port skip s t x :
  skip = false → validate_target skip s t = inr x →
  ∃ host ps port, SplitHostPort t = Some (host, ps) ∧ Atoi ps = Some port
                  ∧ 1 ≤ port ≤ 65535.
Proof.
  intros -> Hv. unfold validate_target in Hv.
  destruct (SplitHostPort t) as [[host ps]|]; [|done].
  destruct (Atoi ps) as [port|] eqn:E; [|done].
  destruct ((port <=? 0) || (65535 <? port)) eqn:E3; [done|]. bool_props.
  exists host, ps, port. repeat split; [done|lia|lia].
Qed.

(** ** Properties *)

(** C24: the proxy only forwards to well-formed targets.  Whenever [ServeHTTP]
    forwards a request, the scheme is http or https and the path is absolute;
    and unless the target is a server id reached through the API proxy, the
    target is a host and port with the port between 1 and 65535. *)
Theorem ServeHTTP_validates (o : proxy_opts) (r : proxy_request) sch to path sid :
  ServeHTTP o r = Forward sch to path sid →
  (sch = "http" ∨ sch = "https") ∧ HasPrefix path "/" = true
  ∧ (sid = "" ∨ HasAPIProxy o = false →
     ∃ host ps port, SplitHostPort to = Some (host, ps) ∧ Atoi ps = Some port
                     ∧ 1 ≤ port ≤ 65535).
Proof.
  unfold ServeHTTP. destruct (select_target o r) as [[[[s t] p] id]|e]; [|done].
  destruct (_ || _) eqn:Eg; [done|]. bool_props.
  destruct (validate_target _ s t) as [rej|x] eqn:EV.
  { intros ->. by eapply validate_rejects in EV. }
  destruct (String.eqb_spec x "http"); [|destruct (String.eqb_spec x "https")];
    simpl; intros Hx; simplify_eq; (split; [by auto|]); (split; [done|]);
    intros Hs; (eapply validate_port; [|exact EV]);
    destruct Hs as [-> | ->]; by rewrite ?andb_false_r.
Qed.

Definition demo_opts : proxy_opts := {| ResolveServer := None; HasAPIProxy := false |}.
Definition demo_request : proxy_request :=
  {| pr_to := ""; pr_path := ""; pr_scheme := "";
     pr_URLPath := "/proxy/10.0.0.7:8443/login" |}.

Lemma ServeHTTP_validates_witness :
  ServeHTTP demo_opts demo_request = Forward "https" "10.0.0.7:8443" "/login" ""
  ∧ HasPrefix "/login" "/" = true.
Proof.
  split; [vm_compute; reflexivity|].
  apply (ServeHTTP_validates demo_opts demo_request "https" "10.0.0.7:8443" "/login" "").
  vm_compute. reflexivity.
Defined.

(** Redirects stay under the proxy.  A non-empty Location is rewritten to
    the base reference, without trailing slashes, followed by nothing or by a
    path that starts with a slash, whatever the upstream sent and however it
    parses as a URL. *)
Theorem rewriteLocation_under_base (parse : string → option URL) (loc base : string) :
  loc ≠ "" →
  ∃ t, rewriteLocation parse loc base = TrimRightByte "/" base +:+ t
       ∧ (t = "" ∨ HasPrefix t "/" = true).
Proof.
  intros Hl. unfold rewriteLocation. destruct (String.eqb_spec loc ""); [done|].
  assert (Hrel : ∃ t, (if HasPrefix loc "/" then TrimRightByte "/" base +:+ loc
                       else TrimRightByte "/" base +:+ "/" +:+ loc)
                      = TrimRightByte "/" base +:+ t ∧ (t = "" ∨ HasPrefix t "/" = true)).
  { destruct (HasPrefix loc "/") eqn:E; [exists loc; split; [done|by right]|].
    exists ("/" +:+ loc). split; [done|right; apply HasPrefix_app]. }
  destruct (parse loc) as [u|]; [|done]. destruct (IsAbs u); [|done].
  destruct (String.eqb_spec (u_Path u) "") as [E|E]; cbn [orb].
  - exists (u_Path u). auto.
  - destruct (HasPrefix (u_Path u) "/") eqn:E'; [exists (u_Path u); split; [done|by right]|].
    exists ("/" +:+ u_String u). split; [done|right; apply HasPrefix_app].
Qed.

Lemma rewriteLocation_under_base_witness :
  ∃ t, rewriteLocation (λ _, None) "/login?x=1" "/proxy/server/a/"
       = TrimRightByte "/" "/proxy/server/a/" +:+ t ∧ (t = "" ∨ HasPrefix t "/" = true).
Proof. apply (rewriteLocation_under_base (λ _, None)). discriminate. Defined.

(** Framing policy.  The directives a browser reads from a relaxed policy
    are the upstream's non-blank directives in order, each one that mentions
    frame-ancestors replaced by [frame-ancestors *], with that directive
    appended when none mentioned it; in particular it is always present. *)
Theorem relaxFrameAncestors_spec `{UnicodeCase} (csp : string) :
  csp ≠ "" →
  directives (relaxFrameAncestors csp)
  = List.filter (λ s, negb (String.eqb s ""))
      ((λ p, if mentions_frame_ancestors p then "frame-ancestors *" else TrimSpace p)
         <$> Split ";" csp)
    ++ (if existsb mentions_frame_ancestors (Split ";" csp) then []
        else ["frame-ancestors *"])
  ∧ "frame-ancestors *" ∈ directives (relaxFrameAncestors csp).
Proof.
  intros Hc.
  set (f := λ p, if mentions_frame_ancestors p then " frame-ancestors *" else p).
  set (found := existsb mentions_frame_ancestors (Split ";" csp)).
  assert (E : directives (relaxFrameAncestors csp)
    = List.filter (λ s, negb (String.eqb s ""))
        (TrimSpace <$> (if found then f <$> Split ";" csp
                        else (f <$> Split ";" csp) ++ [" frame-ancestors *"]))).
  { unfold relaxFrameAncestors. destruct (String.eqb_spec csp ""); [done|].
    apply directives_join, relax_parts_no_semicolon. }
  assert (Ef : TrimSpace <$> (f <$> Split ";" csp)
    = (λ p, if mentions_frame_ancestors p then "frame-ancestors *" else TrimSpace p)
        <$> Split ";" csp).
  { rewrite -list_fmap_compose. apply list_fmap_ext. intros i p _. unfold f. simpl.
    by destruct (mentions_frame_ancestors p). }
  assert (Eq : directives (relaxFrameAncestors csp)
    = List.filter (λ s, negb (String.eqb s ""))
        ((λ p, if mentions_frame_ancestors p then "frame-ancestors *" else TrimSpace p)
           <$> Split ";" csp) ++ (if found then [] else ["frame-ancestors *"])).
  { rewrite E. destruct found; [by rewrite Ef app_nil_r|].
    by rewrite fmap_app List.filter_app Ef. }
  split; [exact Eq|]. rewrite Eq. destruct found eqn:Efd; [|set_solver].
  rewrite app_nil_r list_elem_of_In List.filter_In. split; [|done].
  apply List.existsb_exists in Efd as (p & Hp & Hm).
  apply list_elem_of_In, list_elem_of_fmap. exists p. rewrite Hm.
  by rewrite list_elem_of_In.
Qed.

Lemma relaxFrameAncestors_spec_witness :
  "frame-ancestors *" ∈
    directives (@relaxFrameAncestors ascii_case "default-src 'self'; Frame-Ancestors none;").
Proof. apply (@relaxFrameAncestors_spec ascii_case). discriminate. Defined.

(** What a browser reads from a rewritten cookie.  The Domain attribute is
    always gone; but the Secure attribute is present exactly when the upstream
    did not set it, and SameSite=None exactly when the upstream set no
    SameSite: an upstream cookie marked Secure loses the mark. *)
Theorem rewriteSetCookie_attributes `{UnicodeCase} (parse : string → option URL) h base :
  h ≠ "" → ";"%char ∉ s2b (cookie_path parse base) →
  let A := attributes (rewriteSetCookieForIframe parse h base) in
  (∀ q, q ∈ A → HasPrefix (ToLower q) "domain=" = false)
  ∧ ("Secure" ∈ A ↔ existsb is_secure (attributes h) = false)
  ∧ ("SameSite=None" ∈ A ↔ existsb is_samesite (attributes h) = false).
Proof.
  intros Hh Hb A. split; [|split].
  - intros q Hq. apply rewritten_elem in Hq as [[_ Hk]|[-> |[[-> _]|[[-> _]| ->]]]]; try done.
    + by apply kept_not_domain.
    + apply path_attr_not_domain.
  - split.
    + intros Hq. apply rewritten_elem in Hq as [[_ Hk]|[E|[[_ ?]|[[? _]|?]]]]; try done.
      symmetry in E. by apply path_attr_neq in E.
    + intros E. unfold A. rewrite rewritten_attributes // list_elem_of_fmap.
      exists "Secure". split; [done|]. unfold cookie_attrs. rewrite E. set_solver.
  - split.
    + intros Hq. apply rewritten_elem in Hq as [[_ Hk]|[E|[[? _]|[[_ ?]|?]]]]; try done.
      symmetry in E. by apply path_attr_neq in E.
    + intros E. unfold A. rewrite rewritten_attributes // list_elem_of_fmap.
      exists "SameSite=None". split; [done|]. unfold cookie_attrs. rewrite E. set_solver.
Qed.

Definition path_url (s : string) : option URL :=
  Some {| u_Scheme := ""; u_Path := s; u_String := s |}.

Lemma rewriteSetCookie_attributes_witness :
  rewriteSetCookieForIframe (H := ascii_case) path_url
    "sid=1; Domain=ex.org; Secure; HttpOnly" "/proxy/server/a"
  = "sid=1; HttpOnly; SameSite=None; Partitioned; Path=/proxy/server/a"
  ∧ "SameSite=None" ∈ attributes (rewriteSetCookieForIframe (H := ascii_case) path_url
      "sid=1; Domain=ex.org; Secure; HttpOnly" "/proxy/server/a").
Proof.
  split; [vm_compute; reflexivity|].
  apply (@rewriteSetCookie_attributes ascii_case path_url).
  - discriminate.
  - apply string_not_in. vm_compute. reflexivity.
  - vm_compute. reflexivity.
Defined.

Lemma hValues_add h k v : hValues (hAdd h k v) k = hValues h k ++ [v].
Proof. unfold hValues at 1, hAdd. by rewrite lookup_insert_eq. Qed.

Lemma fold_add_values (f : string → string) k cs h :
  hValues (foldl (λ h c, hAdd h k (f c)) h cs) k = hValues h k ++ (f <$> cs).
Proof.
  revert h; induction cs as [|c cs IH]; intros h; simpl; [by rewrite app_nil_r|].
  by rewrite IH hValues_add -app_assoc.
Qed.

Lemma fold_add_other (f : string → string) k k' cs h :
  k ≠ k' → (foldl (λ h c, hAdd h k (f c)) h cs) !! k' = h !! k'.
Proof.
  intros Hne. revert h; induction cs as [|c cs IH]; intros h; [done|]. simpl.
  rewrite IH. by apply lookup_insert_ne.
Qed.

Lemma rewrite_cookies_values `{UnicodeCase} parse h base :
  hValues (rewrite_cookies parse h base) "Set-Cookie"
  = (λ c, rewriteSetCookieForIframe parse c base) <$> hValues h "Set-Cookie".
Proof.
  unfold rewrite_cookies. destruct (hValues h "Set-Cookie") as [|c cs] eqn:E; [done|].
  rewrite (fold_add_values (λ c, rewriteSetCookieForIframe parse c base)).
  unfold hDel, hValues at 1. by rewrite lookup_delete_eq.
Qed.

Lemma rewrite_cookies_other `{UnicodeCase} parse h base k :
  k ≠ "Set-Cookie" → rewrite_cookies parse h base !! k = h !! k.
Proof.
  intros Hk. unfold rewrite_cookies. destruct (hValues h "Set-Cookie"); [done|].
  rewrite (fold_add_other (λ c, rewriteSetCookieForIframe parse c base)); [|done].
  by apply lookup_delete_ne.
Qed.

Definition touched : list string :=
  ["X-Frame-Options"; "Cross-Origin-Opener-Policy"; "Cross-Origin-Embedder-Policy";
   "Cross-Origin-Resource-Policy"; "Content-Security-Policy"; "Service-Worker-Allowed";
   "Referrer-Policy"; "Location"; "Set-Cookie"].

(** Response rewriting as a whole.  For every upstream response: the
    framing headers are removed, the policy allows framing by every ancestor,
    every cookie is rewritten one for one in order, and headers outside the
    rewritten ones are passed through. *)
Theorem ModifyResponse_spec `{UnicodeCase} (parse : string → option URL) h fwd path :
  let base := response_base fwd path in
  let h' := ModifyResponse parse h fwd path in
  h' !! "X-Frame-Options" = None ∧ h' !! "Cross-Origin-Embedder-Policy" = None
  ∧ hGet h' "Content-Security-Policy"
    = (if String.eqb (hGet h "Content-Security-Policy") "" then "frame-ancestors *"
       else relaxFrameAncestors (hGet h "Content-Security-Policy"))
  ∧ hValues h' "Set-Cookie"
    = (λ c, rewriteSetCookieForIframe parse c base) <$> hValues h "Set-Cookie"
  ∧ ∀ k, k ∉ touched → h' !! k = h !! k.
Proof.
  intros base h'. unfold h', ModifyResponse.
  set (loc := hGet _ "Location"). fold base.
  rewrite rewrite_cookies_values.
  split; [|split; [|split; [|split]]].
  - rewrite rewrite_cookies_other //. unfold hSet, hDel.
    repeat case_match; by simplify_map_eq.
  - rewrite rewrite_cookies_other //. unfold hSet, hDel.
    repeat case_match; by simplify_map_eq.
  - unfold hGet at 1. rewrite rewrite_cookies_other //.
    assert (E : hGet (hSet (hDel (hSet (hDel h "X-Frame-Options")
        "Cross-Origin-Opener-Policy" "same-origin-allow-popups")
        "Cross-Origin-Embedder-Policy") "Cross-Origin-Resource-Policy" "cross-origin")
        "Content-Security-Policy" = hGet h "Content-Security-Policy").
    { unfold hGet, hSet, hDel. by simplify_map_eq. }
    rewrite E. set (csp := hGet h "Content-Security-Policy").
    replace (if String.eqb csp "" then "frame-ancestors *" else relaxFrameAncestors csp)
      with (if negb (String.eqb csp "") then relaxFrameAncestors csp
            else "frame-ancestors *") by (by destruct (String.eqb csp "")).
    set (v := if negb (String.eqb csp "") then _ else _).
    clearbody loc v. unfold hSet.
    repeat match goal with |- context [if ?b then _ else _] => destruct b end;
      by simplify_map_eq.
  - f_equal. unfold hValues, hSet, hDel. repeat case_match; by simplify_map_eq.
  - intros k Hk. unfold touched in Hk. rewrite !not_elem_of_cons in Hk.
    destruct Hk as (?&?&?&?&?&?&?&?&?&_). rewrite rewrite_cookies_other //.
    unfold hSet, hDel. repeat case_match; by simplify_map_eq.
Qed.

(** The proxy base of a path.  When the base prefix is not empty it is an
    initial part of the request path and ends in the proxy marker followed by
    one non-empty path segment. *)
Theorem basePrefixFromPath_prefix (pth : string) :
  basePrefixFromPath pth ≠ "" →
  ∃ pre marker seg rest,
    basePrefixFromPath pth = pre +:+ marker +:+ seg
    ∧ pth = basePrefixFromPath pth +:+ rest
    ∧ (marker = "/proxy/server/" ∨ marker = "/proxy/")
    ∧ seg ≠ "" ∧ "/"%char ∉ s2b seg.
Proof.
  unfold basePrefixFromPath. destruct (String.eqb pth ""); [done|].
  destruct (prefix_after pth "/proxy/server/") as [p|] eqn:E1.
  - intros _. apply prefix_after_spec in E1 as (pre & seg & rest & -> & Hp & ? & ?).
    exists pre, "/proxy/server/", seg, rest. auto.
  - destruct (prefix_after pth "/proxy/") as [p|] eqn:E2; [|done]. intros _. simpl.
    apply prefix_after_spec in E2 as (pre & seg & rest & -> & Hp & ? & ?).
    exists pre, "/proxy/", seg, rest. auto.
Qed.

Lemma basePrefixFromPath_prefix_witness :
  basePrefixFromPath "/api/cluster/abc/proxy/server/foo/bar"
  = "/api/cluster/abc/proxy/server/foo"
  ∧ ∃ pre marker seg rest,
      basePrefixFromPath "/api/cluster/abc/proxy/server/foo/bar" = pre +:+ marker +:+ seg
      ∧ "/api/cluster/abc/proxy/server/foo/bar"
        = basePrefixFromPath "/api/cluster/abc/proxy/server/foo/bar" +:+ rest
      ∧ (marker = "/proxy/server/" ∨ marker = "/proxy/")
      ∧ seg ≠ "" ∧ "/"%char ∉ s2b seg.
Proof.
  split; [vm_compute; reflexivity|].
  apply (basePrefixFromPath_prefix "/api/cluster/abc/proxy/server/foo/bar").
  vm_compute. discriminate.
Defined.
