(* ===== verification/Prog.v ===== *)
(** * Programs that make requests

    Code that calls a service is a tree: each node is a request, with one
    subtree per answer.  Nothing is assumed about the answers, so a theorem
    about every run of a tree holds for every state of the service and
    whatever its other clients do between two requests. *)

From S2P Require Import Prelude.

(** ** Programs over a signature of requests *)

(** [E X] is the type of the requests answered by an [X]; answers are data, so
    [X] is small. *)
Inductive gprog (E : Set → Type) (A : Type) : Type :=
  | Ret (a : A)
  | Vis {X : Set} (c : E X) (k : X → gprog E A).
Arguments Ret {E A} _.
Arguments Vis {E A X} _ _.

(** A request with its answer. *)
Inductive gevent (E : Set → Type) : Type := | Ev {X : Set} (c : E X) (r : X).
Arguments Ev {E X} _ _.

(** A state machine that answers requests. *)
Definition server (E : Set → Type) (σ : Type) : Type := ∀ X : Set, σ → E X → σ * X.

Section programs.
Context {E : Set → Type}.

Fixpoint bind {A B} (p : gprog E A) (f : A → gprog E B) : gprog E B :=
  match p with
  | Ret a => f a
  | Vis c k => Vis c (λ x, bind (k x) f)
  end.

Definition request {X : Set} (c : E X) : gprog E X := Vis c Ret.

(** The trace [t] is a run of [p] that ends in [a]. *)
Fixpoint runs {A} (p : gprog E A) (t : list (gevent E)) (a : A) : Prop :=
  match p with
  | Ret b => t = [] ∧ a = b
  | Vis c k => ∃ r t', t = Ev c r :: t' ∧ runs (k r) t' a
  end.

(** A property of every request of a program, whatever the answers. *)
Fixpoint issues_only (P : gevent E → Prop) {A} (p : gprog E A) : Prop :=
  match p with
  | Ret _ => True
  | Vis c k => ∀ r, P (Ev c r) ∧ issues_only P (k r)
  end.

Fixpoint exec {σ A} (h : server E σ) (p : gprog E A) (s : σ) : σ * A :=
  match p with
  | Ret a => (s, a)
  | Vis c k => let '(s', x) := h _ s c in exec h (k x) s'
  end.

Fixpoint exec_trace {σ A} (h : server E σ) (p : gprog E A) (s : σ) : list (gevent E) :=
  match p with
  | Ret a => []
  | Vis c k => let '(s', x) := h _ s c in Ev c x :: exec_trace h (k x) s'
  end.

Lemma runs_bind {A B} (p : gprog E A) (f : A → gprog E B) t b :
  runs (bind p f) t b ↔ ∃ t1 t2 a, t = t1 ++ t2 ∧ runs p t1 a ∧ runs (f a) t2 b.
Proof.
  revert t; induction p as [a|X c k IH]; intros t; simpl.
  - split; [intros H; by exists [], t, a|].
    by intros (t1 & t2 & a' & -> & [-> ->] & H).
  - split.
    + intros (r & t' & -> & Hk). apply IH in Hk as (t1 & t2 & a & -> & H1 & H2).
      exists (Ev c r :: t1), t2, a. split; [done|]. split; [|done]. by exists r, t1.
    + intros (t1 & t2 & a & -> & (r & t' & -> & Hk) & H2).
      exists r, (t' ++ t2). split; [done|]. apply IH. by exists t', t2, a.
Qed.

Lemma runs_request {X : Set} (c : E X) t r : runs (request c) t r ↔ t = [Ev c r].
Proof.
  simpl. split; [intros (r' & t' & -> & -> & ->); done|]. intros ->. eauto.
Qed.

Lemma runs_req_bind {X : Set} {A} (c : E X) (k : X → gprog E A) t a :
  runs (bind (request c) k) t a → ∃ r t', t = Ev c r :: t' ∧ runs (k r) t' a.
Proof. done. Qed.

Lemma issues_only_runs P {A} (p : gprog E A) t a :
  issues_only P p → runs p t a → Forall P t.
Proof.
  revert t; induction p as [b|X c k IH]; intros t; simpl.
  - by intros _ [-> _].
  - intros HP (r & t' & -> & Hk). destruct (HP r). constructor; eauto.
Qed.

Lemma issues_only_bind P {A B} (p : gprog E A) (f : A → gprog E B) :
  issues_only P p → (∀ a, issues_only P (f a)) → issues_only P (bind p f).
Proof. induction p as [a|X c k IH]; simpl; [done|]. naive_solver. Qed.

Lemma exec_bind {σ A B} (h : server E σ) (p : gprog E A) (f : A → gprog E B) s :
  exec h (bind p f) s = let '(s', a) := exec h p s in exec h (f a) s'.
Proof.
  revert s; induction p as [a|X c k IH]; intros s; simpl; [done|].
  destruct (h X s c) as [s' x]. apply IH.
Qed.

(** Running against a server gives a run. *)
Lemma exec_runs {σ A} (h : server E σ) (p : gprog E A) s :
  runs p (exec_trace h p s) (exec h p s).2.
Proof.
  revert s; induction p as [a|X c k IH]; intros s; simpl; [done|].
  destruct (h X s c) as [s' x]. eauto.
Qed.

End programs.

(** ** A signature inside a larger one *)

Section translation.
Context {E F : Set → Type} (f : ∀ X : Set, E X → F X).

Fixpoint translate {A} (p : gprog E A) : gprog F A :=
  match p with
  | Ret a => Ret a
  | Vis c k => Vis (f _ c) (λ x, translate (k x))
  end.

Definition translate_event (e : gevent E) : gevent F :=
  match e with Ev c r => Ev (f _ c) r end.

Lemma translate_runs {A} (p : gprog E A) t a :
  runs (translate p) t a ↔ ∃ t', t = translate_event <$> t' ∧ runs p t' a.
Proof.
  revert t; induction p as [b|X c k IH]; intros t; simpl.
  - split; [intros [-> ->]; by exists []|]. by intros (t' & -> & -> & ->).
  - split.
    + intros (r & t' & -> & Hk). apply IH in Hk as (t0 & -> & Hk).
      exists (Ev c r :: t0). split; [done|]. by exists r, t0.
    + intros (t' & -> & r & t0 & -> & Hk). exists r, (translate_event <$> t0).
      split; [done|]. apply IH. by exists t0.
Qed.

Lemma issues_only_translate (P : gevent F → Prop) {A} (p : gprog E A) :
  issues_only (λ e, P (translate_event e)) p → issues_only P (translate p).
Proof. induction p as [b|X c k IH]; simpl; [done|]. naive_solver. Qed.

End translation.

Lemma issues_only_mono {E : Set → Type} (P Q : gevent E → Prop) {A} (p : gprog E A) :
  (∀ e, P e → Q e) → issues_only P p → issues_only Q p.
Proof. intros HPQ. induction p as [x|X c k IH]; simpl; [done|]. naive_solver. Qed.

Lemma issues_only_all {E : Set → Type} (P : gevent E → Prop) {A} (p : gprog E A) :
  (∀ e, P e) → issues_only P p.
Proof. intros HP. induction p as [x|X c k IH]; simpl; auto. Qed.

(** A property of every result of a program, whatever the answers. *)
Fixpoint ends_in {E : Set → Type} {A} (Q : A → Prop) (p : gprog E A) : Prop :=
  match p with
  | Ret a => Q a
  | Vis c k => ∀ r, ends_in Q (k r)
  end.

Lemma ends_in_runs {E : Set → Type} {A} (Q : A → Prop) (p : gprog E A) t a :
  ends_in Q p → runs p t a → Q a.
Proof.
  revert t; induction p as [b|X c k IH]; intros t; simpl; [by intros HQ [_ ->]|].
  intros HQ (r & t' & -> & Hk). eauto.
Qed.

Lemma ends_in_bind {E : Set → Type} {A B} (Q : B → Prop) (p : gprog E A) (f : A → gprog E B) :
  (∀ a, ends_in Q (f a)) → ends_in Q (bind p f).
Proof. intros Hf. induction p as [b|X c k IH]; simpl; auto. Qed.

Lemma ends_in_bind_strong {E : Set → Type} {A B} (P : A → Prop) (Q : B → Prop) (p : gprog E A)
    (f : A → gprog E B) :
  ends_in P p → (∀ a, P a → ends_in Q (f a)) → ends_in Q (bind p f).
Proof. intros HP Hf. induction p as [b|X c k IH]; simpl in *; auto. Qed.

Lemma issues_only_bind_strong {E : Set → Type} {A B} (P : gevent E → Prop) (Q : A → Prop)
    (p : gprog E A) (f : A → gprog E B) :
  issues_only P p → ends_in Q p → (∀ a, Q a → issues_only P (f a)) → issues_only P (bind p f).
Proof. intros HP HQ Hf. induction p as [b|X c k IH]; simpl in *; [auto|]. naive_solver. Qed.

(** What a server gives for a program is a result of the program. *)
Lemma exec_ends_in {E : Set → Type} {σ A} (h : server E σ) (Q : A → Prop) (p : gprog E A) s :
  ends_in Q p → Q (exec h p s).2.
Proof. intros Hp. eapply ends_in_runs; [exact Hp|apply exec_runs]. Qed.

Lemma ends_in_translate {E F : Set → Type} (f : ∀ X : Set, E X → F X) {A} (Q : A → Prop)
    (p : gprog E A) : ends_in Q p → ends_in Q (translate f p).
Proof. induction p as [b|X c k IH]; simpl; auto. Qed.

(** Walk through a program: [tac] closes the goals about single requests and
    results, and the calls of named programs. *)
Ltac prog_walk tac :=
  repeat first
    [ solve [tac]
    | lazymatch goal with
      | |- True => exact I
      | |- issues_only _ (Ret _) => exact I
      | |- ∀ _, _ => intros ?
      | |- issues_only _ (bind (request _) _) => intros ?; split
      | |- issues_only _ (request _) => intros ?; split
      | |- issues_only _ (bind _ _) => apply issues_only_bind
      | |- issues_only _ (if ?b then _ else _) => destruct b eqn:?
      | |- issues_only _ (match ?x with _ => _ end) => destruct x eqn:?
      | |- ends_in _ (bind _ _) => apply ends_in_bind
      | |- ends_in _ (request _) => intros ?
      | |- ends_in _ (if ?b then _ else _) => destruct b eqn:?
      | |- ends_in _ (match ?x with _ => _ end) => destruct x eqn:?
      | |- ends_in _ (Ret _) => cbn [ends_in]
      end
    | progress cbv beta zeta ].

Declare Scope prog_scope.
Delimit Scope prog_scope with prog.
Notation "'do' x '<-' p ';' q" := (bind p (λ x, q))
  (at level 10, x name, p at level 100, q at level 200) : prog_scope.
Global Open Scope prog_scope.
