(* ===== verification/Mux.v ===== *)
(** * Request dispatch (net/http ServeMux)

    The patterns of the code are plain paths: a pattern that ends in a slash
    stands for the subtree below it, and the longest matching pattern wins. *)

From S2P Require Import Prelude GoStrings.

Local Open Scope Z_scope.

(** A path the mux does not redirect: rooted, without empty, [.] or [..]
    segments before the last one. *)
Definition clean_segment (s : string) : bool :=
  negb (String.eqb s "") && negb (String.eqb s ".") && negb (String.eqb s "..").

Definition clean_path (p : string) : bool :=
  match Split "/" p with
  | "" :: segs =>
      match last segs with
      | None => false
      | Some l => forallb clean_segment (take (length segs - 1) segs)
                  && (clean_segment l || String.eqb l "")
      end
  | _ => false
  end.

(** A pattern that ends in a slash matches the subtree below it. *)
Definition pattern_matches (pat path : string) : bool :=
  if HasSuffix pat "/" then HasPrefix path pat else String.eqb pat path.

(** The longest matching pattern. *)
Fixpoint longest (best : option string) (l : list string) : option string :=
  match l with
  | [] => best
  | p :: r =>
      longest (match best with
               | Some b => if slen b <? slen p then Some p else best
               | None => Some p
               end) r
  end.

Definition mux_match (pats : list string) (path : string) : option string :=
  longest None (List.filter (λ p, pattern_matches p path) pats).

(** [/tree] is redirected to the registered [/tree/] unless it is registered
    itself. *)
Definition mux_redirects (pats : list string) (path : string) : bool :=
  negb (clean_path path)
  || (negb (existsb (String.eqb path) pats) && existsb (String.eqb (path +:+ "/")) pats).


Lemma longest_elem best l p : longest best l = Some p → best = Some p ∨ p ∈ l.
Proof.
  revert best; induction l as [|x l IH]; intros best; simpl; [auto|].
  intros H. apply IH in H as [H|H]; [|right; by right].
  destruct best as [b|]; [destruct (slen b <? slen x)|]; simplify_eq; auto; right; left.
Qed.

(** A dispatched pattern is registered and matches. *)
Lemma mux_match_Some pats path p :
  mux_match pats path = Some p → p ∈ pats ∧ pattern_matches p path = true.
Proof.
  intros [Hb|Hp]%longest_elem; [done|].
  apply list_elem_of_In, List.filter_In in Hp. by rewrite list_elem_of_In.
Qed.

Lemma pattern_exact pat path :
  pattern_matches pat path = true → HasSuffix pat "/" = false → path = pat.
Proof. unfold pattern_matches. intros Hm Hs. rewrite Hs in Hm. by apply String.eqb_eq in Hm. Qed.

Lemma pattern_subtree pat path :
  pattern_matches pat path = true → HasSuffix pat "/" = true → HasPrefix path pat = true.
Proof. unfold pattern_matches. intros Hm Hs. by rewrite Hs in Hm. Qed.
