(* ===== verification/K8sTypes.v ===== *)
(** * Kubernetes objects and the Workspace resource

    The fields of the Kubernetes API types that the Go code reads or writes
    (k8s.io/api/core/v1, apps/v1, networking/v1), and the custom resource of
    api/v1alpha1/types.go. *)

From S2P Require Import Prelude GoStrings Values.

(** ** Pods *)

Record ContainerPort : Type := {
  cp_Name : string; cp_ContainerPort : Z; cp_Protocol : string
}.

(** [ValueFrom] is only passed on, never looked at. *)
Record EnvVar : Type := {
  env_Name : string; env_Value : string; env_ValueFrom : option any
}.

Record SecurityContext : Type := {
  sc_AllowPrivilegeEscalation : option bool;
  sc_RunAsNonRoot : option bool;
  sc_RunAsUser : option Z;
  sc_DropCapabilities : option (list string)
}.

Record PodSecurityContext : Type := {
  psc_RunAsUser : option Z;
  psc_RunAsGroup : option Z;
  psc_FSGroup : option Z;
  psc_SeccompProfile : option string
}.

(** A probe with an HTTP GET handler. *)
Record Probe : Type := {
  probe_Path : string;
  probe_Port : Z;
  probe_InitialDelaySeconds : Z;
  probe_PeriodSeconds : Z;
  probe_TimeoutSeconds : Z;
  probe_FailureThreshold : Z;
  probe_SuccessThreshold : Z
}.

Record VolumeMount : Type := { vm_Name : string; vm_MountPath : string }.

Record Container : Type := {
  c_Name : string;
  c_Image : string;
  c_Env : list EnvVar;
  c_Command : list string;
  c_Args : list string;
  c_Ports : list ContainerPort;
  c_SecurityContext : option SecurityContext;
  c_ReadinessProbe : option Probe;
  c_LivenessProbe : option Probe;
  c_VolumeMounts : list VolumeMount
}.

Record Toleration : Type := {
  tol_Key : string; tol_Operator : string; tol_Effect : string
}.

(** Volumes are empty directories, given by their names. *)
Record PodSpec : Type := {
  pod_Containers : list Container;
  pod_InitContainers : list Container;
  pod_Volumes : list string;
  pod_Tolerations : list Toleration;
  pod_ImagePullSecrets : list string;
  pod_SecurityContext : option PodSecurityContext
}.

(** ** Deployments, services and ingresses *)

Record OwnerReference : Type := {
  or_APIVersion : string;
  or_Kind : string;
  or_Name : string;
  or_UID : string;
  or_Controller : option bool;
  or_BlockOwnerDeletion : option bool
}.

(** [MaxSurge] and [MaxUnavailable] of a rolling update. *)
Record DeploymentSpec : Type := {
  ds_Replicas : Z;
  ds_Selector : gmap string string;
  ds_TemplateLabels : gmap string string;
  ds_Pod : PodSpec;
  ds_RollingUpdate : option (string * string)
}.

Record Deployment : Type := {
  d_Namespace : string;
  d_Name : string;
  d_Labels : gmap string string;
  d_OwnerReferences : list OwnerReference;
  d_Spec : DeploymentSpec;
  d_ReadyReplicas : Z
}.

Abbreviation ServiceType := string (only parsing).
Definition ServiceTypeClusterIP : ServiceType := "ClusterIP".
Definition ServiceTypeNodePort : ServiceType := "NodePort".
Definition ServiceTypeLoadBalancer : ServiceType := "LoadBalancer".

Record ServicePort : Type := {
  sp_Name : string; sp_Port : Z; sp_TargetPort : Z; sp_NodePort : Z
}.

Record LoadBalancerIngress : Type := { lbi_IP : string; lbi_Hostname : string }.

Record Service : Type := {
  s_Namespace : string;
  s_Name : string;
  s_Labels : gmap string string;
  s_Annotations : gmap string string;
  s_OwnerReferences : list OwnerReference;
  s_Selector : gmap string string;
  s_Ports : list ServicePort;
  s_Type : ServiceType;
  s_PublishNotReadyAddresses : bool;
  s_ClusterIP : string;
  s_Ingress : list LoadBalancerIngress
}.

(** One rule, one path: host, path, path type, backend service and port. *)
Record Ingress : Type := {
  i_Namespace : string;
  i_Name : string;
  i_Labels : gmap string string;
  i_Annotations : gmap string string;
  i_OwnerReferences : list OwnerReference;
  i_ClassName : option string;
  i_Host : string;
  i_Path : string;
  i_PathType : string;
  i_BackendService : string;
  i_BackendPort : Z;
  i_TLS : list (list string * string)
}.

Definition NodeExternalIP : string := "ExternalIP".
Definition NodeInternalIP : string := "InternalIP".

(** A node by its status addresses: type and address. *)
Record NodeAddress : Type := { na_Type : string; na_Address : string }.
Record Node : Type := { node_Addresses : list NodeAddress }.

(** ** api/v1alpha1/types.go *)

Abbreviation ExposureType := string (only parsing).
Definition ExposureClusterIP : ExposureType := "ClusterIP".
Definition ExposureLoadBalancer : ExposureType := "LoadBalancer".
Definition ExposureIngress : ExposureType := "Ingress".

Record WorkspacePort : Type := {
  wp_ContainerPort : Z; wp_Name : string; wp_Protocol : string
}.

Record WorkspaceExposure : Type := {
  we_Type : ExposureType;
  we_Domain : string;
  we_IngressClass : string;
  we_TLSIssuer : string
}.

Record WorkspaceSpec : Type := {
  wsp_Image : string;
  wsp_Env : list EnvVar;
  wsp_Ports : list WorkspacePort;
  wsp_Exposure : option WorkspaceExposure;
  wsp_PresetsRef : string;
  wsp_Notes : string
}.

Abbreviation WorkspacePhase := string (only parsing).
Definition PhasePending : WorkspacePhase := "Pending".
Definition PhaseRunning : WorkspacePhase := "Running".
Definition PhaseFailed : WorkspacePhase := "Failed".
Definition PhaseTerminating : WorkspacePhase := "Terminating".

Record Condition : Type := {
  cond_Type : string; cond_Status : string; cond_Reason : string; cond_Message : string
}.

Record WorkspaceStatus : Type := {
  wst_Phase : WorkspacePhase;
  wst_ReadyReplicas : Z;
  wst_ServiceDNS : string;
  wst_ServiceIP : string;
  wst_ExternalURL : string;
  wst_ProxyTarget : string;
  wst_Conditions : list Condition;
  wst_LastError : string
}.

(** The object metadata the code uses: name, namespace, annotations and the
    deletion timestamp. *)
Record Workspace : Type := {
  ws_Name : string;
  ws_Namespace : string;
  ws_UID : string;
  ws_Annotations : gmap string string;
  ws_DeletionTimestamp : option string;
  ws_Spec : WorkspaceSpec;
  ws_Status : WorkspaceStatus
}.

(** ** Errors of the API server *)

(** What [apierrors.IsNotFound], [IsAlreadyExists] and [IsConflict] tell
    apart. *)
Inductive api_error : Type :=
  | NotFound
  | AlreadyExists
  | Conflict
  | OtherError (e : string).

Definition IsNotFound (e : api_error) : bool :=
  match e with NotFound => true | _ => false end.

#[export] Instance api_error_eq_dec : EqDecision api_error.
Proof. solve_decision. Defined.
