(* ===== verification/KubeApi.v ===== *)
(** * Requests to a Kubernetes API server

    Code that uses client-go or controller-runtime is a program over the
    requests below.  The library procedures it calls (conflict retry, owner
    references) are the class [KubeLib], with their documented behaviour as
    its laws. *)

From S2P Require Import Prelude GoStrings Values Prog K8sTypes.

(** ** Requests *)

(** A pod as the log reader sees it: its name and its containers' names. *)
Record Pod : Type := { p_Name : string; p_Containers : list string }.

(** A label selector [key=value]. *)
Abbreviation selector := (string * string)%type.

(** The type index is the type of the answer.  [CreateOrUpdateService] is
    controllerutil.CreateOrUpdate with its mutate function. *)
Inductive call : Set → Type :=
  | GetWorkspace (ns name : string) : call (api_error + Workspace)
  | ListWorkspaces : call (api_error + list Workspace)
  | PatchWorkspace (w : Workspace) : call (option api_error)
  | UpdateWorkspaceStatus (w : Workspace) : call (api_error + unit)
  | GetConfigMap (ns name : string) : call (api_error + gmap string string)
  | GetDeployment (ns name : string) : call (api_error + Deployment)
  | CreateDeployment (d : Deployment) : call (api_error + Deployment)
  | UpdateDeployment (d : Deployment) : call (api_error + Deployment)
  | DeleteDeployment (ns name : string) : call (option api_error)
  | ListDeployments (ns : string) (sel : selector) : call (api_error + list Deployment)
  | GetService (ns name : string) : call (api_error + Service)
  | CreateService (s : Service) : call (api_error + Service)
  | UpdateService (s : Service) : call (api_error + Service)
  | DeleteService (ns name : string) : call (option api_error)
  | ListServices (ns : string) (sel : selector) : call (api_error + list Service)
  | CreateOrUpdateService (ns name : string) (mutate : Service → option Service)
      : call (api_error + Service)
  | GetIngress (ns name : string) : call (api_error + Ingress)
  | CreateIngress (i : Ingress) : call (api_error + Ingress)
  | UpdateIngress (i : Ingress) : call (api_error + Ingress)
  | ListNodes : call (api_error + list Node)
  | ListPods (ns : string) (sel : selector) : call (api_error + list Pod)
  | PodLogs (ns pod container : string) (tail : Z) : call (api_error + string).

(** ** Programs *)

Abbreviation prog := (gprog call).
Abbreviation event := (gevent call).
Abbreviation trace := (list (gevent call)).

(** ** Library procedures *)

Class KubeLib := {
  (** client-go's retry.RetryOnConflict with the default backoff. *)
  RetryOnConflict {A : Type} : prog (api_error + A) → prog (api_error + A);
  (** controllerutil.SetControllerReference, on the owner references of the
      owned object. *)
  SetControllerReference : Workspace → list OwnerReference → result (list OwnerReference)
}.

(** The procedure is run until it does not end in a conflict, or the attempts
    are used up; the last run decides the result. *)
Class KubeLibLaws `{KubeLib} := {
  retry_runs {A} (p : prog (api_error + A)) t r :
    runs (RetryOnConflict p) t r →
    ∃ ts tl, t = concat ts ++ tl ∧ runs p tl r
             ∧ Forall (λ t', runs p t' (inl Conflict)) ts
}.

Section retry.
Context `{KubeLibLaws}.

(** A retried procedure inherits the requests of one attempt... *)
Lemma retry_issues (P : event → Prop) {A} (p : prog (api_error + A)) t r :
  issues_only P p → runs (RetryOnConflict p) t r → Forall P t.
Proof.
  intros HP Hr. apply retry_runs in Hr as (ts & tl & -> & Hl & Hts).
  apply Forall_app. split; [|by eapply issues_only_runs].
  clear Hl. induction Hts as [|t' ts Ht' Hts IH]; simpl; [constructor|].
  apply Forall_app. split; [by eapply issues_only_runs|done].
Qed.

(** ... and the outcome of its last attempt. *)
Lemma retry_last {A} (p : prog (api_error + A)) t r :
  runs (RetryOnConflict p) t r → ∃ t0 tl, t = t0 ++ tl ∧ runs p tl r.
Proof. intros Hr. apply retry_runs in Hr as (ts & tl & -> & Hl & _). eauto. Qed.

End retry.

(** An instance: four attempts, and an owner reference that replaces one to
    the same owner unless another controller owns the object. *)
Fixpoint retry_n (n : nat) {A} (p : prog (api_error + A)) : prog (api_error + A) :=
  match n with
  | O => p
  | S n' => do r <- p ;
            match r with
            | inl Conflict => retry_n n' p
            | _ => Ret r
            end
  end.

Definition owner_ref (w : Workspace) : OwnerReference :=
  {| or_APIVersion := "guildnet.io/v1alpha1"; or_Kind := "Workspace";
     or_Name := ws_Name w; or_UID := ws_UID w; or_Controller := Some true;
     or_BlockOwnerDeletion := Some true |}.

Definition set_owner (w : Workspace) (l : list OwnerReference)
    : result (list OwnerReference) :=
  match find_first (λ o, bool_decide (or_Controller o = Some true)) l with
  | Some o => if String.eqb (or_UID o) (ws_UID w) then Ok l
              else Err "already owned by another controller"
  | None => Ok (l ++ [owner_ref w])
  end.

Definition default_lib : KubeLib :=
  {| RetryOnConflict := @retry_n 3; SetControllerReference := set_owner |}.

Lemma retry_n_runs n {A} (p : prog (api_error + A)) t r :
  runs (retry_n n p) t r →
  ∃ ts tl, t = concat ts ++ tl ∧ runs p tl r ∧ Forall (λ t', runs p t' (inl Conflict)) ts.
Proof.
  revert t; induction n as [|n IH]; intros t; simpl.
  { intros Hr. by exists [], t. }
  intros (t1 & t2 & a & -> & H1 & H2)%runs_bind.
  assert (Hd : runs (Ret a) t2 r →
    ∃ ts tl, t1 ++ t2 = concat ts ++ tl ∧ runs p tl r
             ∧ Forall (λ t', runs p t' (inl Conflict)) ts).
  { intros [-> ->]. exists [], t1. by rewrite app_nil_r. }
  destruct a as [[]|]; try (by apply Hd).
  apply IH in H2 as (ts & tl & -> & Hl & Hts).
  exists (t1 :: ts), tl. rewrite -app_assoc. auto.
Qed.

Lemma default_lib_laws : @KubeLibLaws default_lib.
Proof. split. intros A p t r. apply retry_n_runs. Qed.

(** ** An in-memory API server, for running programs *)

Record kube_state : Type := {
  ks_ws : gmap (string * string) Workspace;
  ks_dep : gmap (string * string) Deployment;
  ks_svc : gmap (string * string) Service;
  ks_ing : gmap (string * string) Ingress;
  ks_cm : gmap (string * string) (gmap string string)
}.

Definition empty_kube : kube_state :=
  {| ks_ws := ∅; ks_dep := ∅; ks_svc := ∅; ks_ing := ∅; ks_cm := ∅ |}.

Definition blank_service (ns name : string) : Service :=
  {| s_Namespace := ns; s_Name := name; s_Labels := ∅; s_Annotations := ∅;
     s_OwnerReferences := []; s_Selector := ∅; s_Ports := []; s_Type := "";
     s_PublishNotReadyAddresses := false; s_ClusterIP := ""; s_Ingress := [] |}.

Definition found {A} (o : option A) : api_error + A :=
  match o with Some a => inr a | None => inl NotFound end.

Definition set_dep (s : kube_state) (m : gmap (string * string) Deployment) : kube_state :=
  {| ks_ws := ks_ws s; ks_dep := m; ks_svc := ks_svc s; ks_ing := ks_ing s; ks_cm := ks_cm s |}.
Definition set_svc (s : kube_state) (m : gmap (string * string) Service) : kube_state :=
  {| ks_ws := ks_ws s; ks_dep := ks_dep s; ks_svc := m; ks_ing := ks_ing s; ks_cm := ks_cm s |}.
Definition set_ws (s : kube_state) (m : gmap (string * string) Workspace) : kube_state :=
  {| ks_ws := m; ks_dep := ks_dep s; ks_svc := ks_svc s; ks_ing := ks_ing s; ks_cm := ks_cm s |}.
Definition set_ing (s : kube_state) (m : gmap (string * string) Ingress) : kube_state :=
  {| ks_ws := ks_ws s; ks_dep := ks_dep s; ks_svc := ks_svc s; ks_ing := m; ks_cm := ks_cm s |}.

(** The objects of a namespace that carry a label. *)
Definition select {A} (labels : A → gmap string string) (ns : string) (sel : selector)
    (m : gmap (string * string) A) : list A :=
  snd <$> List.filter (λ kv, String.eqb kv.1.1 ns
                             && bool_decide (labels kv.2 !! sel.1 = Some sel.2))
            (map_to_list m).

Definition mem_server : server call kube_state := λ X s c,
  match c in call X return kube_state * X with
  | GetWorkspace ns n => (s, found (ks_ws s !! (ns, n)))
  | ListWorkspaces => (s, inr (snd <$> map_to_list (ks_ws s)))
  | PatchWorkspace w => (set_ws s (<[(ws_Namespace w, ws_Name w) := w]> (ks_ws s)), None)
  | UpdateWorkspaceStatus w =>
      (set_ws s (<[(ws_Namespace w, ws_Name w) := w]> (ks_ws s)), inr tt)
  | GetConfigMap ns n => (s, found (ks_cm s !! (ns, n)))
  | GetDeployment ns n => (s, found (ks_dep s !! (ns, n)))
  | CreateDeployment d =>
      match ks_dep s !! (d_Namespace d, d_Name d) with
      | Some _ => (s, inl AlreadyExists)
      | None => (set_dep s (<[(d_Namespace d, d_Name d) := d]> (ks_dep s)), inr d)
      end
  | UpdateDeployment d =>
      match ks_dep s !! (d_Namespace d, d_Name d) with
      | None => (s, inl NotFound)
      | Some _ => (set_dep s (<[(d_Namespace d, d_Name d) := d]> (ks_dep s)), inr d)
      end
  | DeleteDeployment ns n =>
      match ks_dep s !! (ns, n) with
      | None => (s, Some NotFound)
      | Some _ => (set_dep s (delete (ns, n) (ks_dep s)), None)
      end
  | ListDeployments ns sel => (s, inr (select d_Labels ns sel (ks_dep s)))
  | GetService ns n => (s, found (ks_svc s !! (ns, n)))
  | CreateService v =>
      match ks_svc s !! (s_Namespace v, s_Name v) with
      | Some _ => (s, inl AlreadyExists)
      | None => (set_svc s (<[(s_Namespace v, s_Name v) := v]> (ks_svc s)), inr v)
      end
  | UpdateService v =>
      match ks_svc s !! (s_Namespace v, s_Name v) with
      | None => (s, inl NotFound)
      | Some _ => (set_svc s (<[(s_Namespace v, s_Name v) := v]> (ks_svc s)), inr v)
      end
  | DeleteService ns n =>
      match ks_svc s !! (ns, n) with
      | None => (s, Some NotFound)
      | Some _ => (set_svc s (delete (ns, n) (ks_svc s)), None)
      end
  | ListServices ns sel => (s, inr (select s_Labels ns sel (ks_svc s)))
  | CreateOrUpdateService ns n f =>
      match f (default (blank_service ns n) (ks_svc s !! (ns, n))) with
      | None => (s, inl (OtherError "mutate"))
      | Some v => (set_svc s (<[(ns, n) := v]> (ks_svc s)), inr v)
      end
  | GetIngress ns n => (s, found (ks_ing s !! (ns, n)))
  | CreateIngress i =>
      match ks_ing s !! (i_Namespace i, i_Name i) with
      | Some _ => (s, inl AlreadyExists)
      | None => (set_ing s (<[(i_Namespace i, i_Name i) := i]> (ks_ing s)), inr i)
      end
  | UpdateIngress i =>
      match ks_ing s !! (i_Namespace i, i_Name i) with
      | None => (s, inl NotFound)
      | Some _ => (set_ing s (<[(i_Namespace i, i_Name i) := i]> (ks_ing s)), inr i)
      end
  | ListNodes => (s, inr [])
  | ListPods _ _ => (s, inr [])
  | PodLogs _ _ _ _ => (s, inl NotFound)
  end.
