(* ===== verification/Operator.v ===== *)
(** * The workspace operator (internal/operator/workspace_controller.go)

    [Reconcile] turns a Workspace into a Deployment and a Service and reports
    its status.  The desired objects are pure functions of the Workspace; the
    reconciliation is a program of API requests. *)

From S2P Require Import Prelude GoStrings Values Prog K8sTypes KubeApi.

Local Open Scope Z_scope.

Section desired.
Context `{UnicodeCase}.

(** ** The desired container *)

Definition workspace_label (ws : Workspace) : gmap string string :=
  {[ "guildnet.io/workspace" := ws_Name ws ]}.

Definition workspace_ports (ws : Workspace) : list ContainerPort :=
  let ports := (λ p, {| cp_Name := wp_Name p; cp_ContainerPort := wp_ContainerPort p;
                        cp_Protocol := wp_Protocol p |}) <$> wsp_Ports (ws_Spec ws) in
  match ports with
  | [] => [{| cp_Name := "http"; cp_ContainerPort := 8080; cp_Protocol := "" |}]
  | _ => ports
  end.

(** [ports[0].ContainerPort]; the list is never empty. *)
Definition first_port (ws : Workspace) : Z :=
  match workspace_ports ws with [] => 0 | p :: _ => cp_ContainerPort p end.

Definition imgLower (ws : Workspace) : string := ToLower (wsp_Image (ws_Spec ws)).
Definition is_nginx (ws : Workspace) : bool := Contains (imgLower ws) "nginx".
Definition is_alpine (ws : Workspace) : bool := Contains (imgLower ws) "alpine".
Definition is_code_server (ws : Workspace) : bool :=
  Contains (imgLower ws) "codercom/code-server" || Contains (imgLower ws) "code-server".

Definition plain_env (n v : string) : EnvVar :=
  {| env_Name := n; env_Value := v; env_ValueFrom := None |}.

Definition has_env (env : list EnvVar) (n : string) : bool :=
  existsb (λ e, String.eqb (env_Name e) n) env.

(** Blank names are dropped; PORT and, for code-server, PASSWORD get defaults.
    Both presence tests look at the environment before the defaults. *)
Definition workspace_env (ws : Workspace) : list EnvVar :=
  let env := List.filter (λ e, negb (String.eqb (TrimSpace (env_Name e)) ""))
               (wsp_Env (ws_Spec ws)) in
  let env1 := if has_env env "PORT" then env else env ++ [plain_env "PORT" "8080"] in
  if is_code_server ws && negb (has_env env "PASSWORD")
  then env1 ++ [plain_env "PASSWORD" "changeme"] else env1.

Definition alpine_command : list string :=
  ["/bin/sh"; "-c"; "while true; do echo -e 'HTTP/1.1 200 OK\r\nContent-Length:2\r\n\r\nok' | nc -l -p 8080 -w 1; done"].

Definition workspace_command (ws : Workspace) : list string :=
  if is_alpine ws then alpine_command else [].

Definition readiness_probe (ws : Workspace) : Probe :=
  {| probe_Path := "/"; probe_Port := first_port ws; probe_InitialDelaySeconds := 10;
     probe_PeriodSeconds := 5; probe_TimeoutSeconds := 3; probe_FailureThreshold := 12;
     probe_SuccessThreshold := 1 |}.

Definition liveness_probe (ws : Workspace) : Probe :=
  {| probe_Path := "/"; probe_Port := first_port ws; probe_InitialDelaySeconds := 60;
     probe_PeriodSeconds := 15; probe_TimeoutSeconds := 5;
     probe_FailureThreshold := if is_alpine ws then 3 else 4;
     probe_SuccessThreshold := 1 |}.

Definition workspace_args (ws : Workspace) : list string :=
  if is_code_server ws
  then ["--bind-addr"; "0.0.0.0:8080"; "--auth"; "password"] else [].

(** The nginx case sets the same context as the default. *)
Definition workspace_secctx (ws : Workspace) : SecurityContext :=
  {| sc_AllowPrivilegeEscalation := Some (is_code_server ws);
     sc_RunAsNonRoot := Some true; sc_RunAsUser := None;
     sc_DropCapabilities := Some ["ALL"] |}.

Definition nginx_cache_mount : VolumeMount :=
  {| vm_Name := "nginx-cache"; vm_MountPath := "/var/cache/nginx" |}.

Definition init_container : Container :=
  {| c_Name := "workspace-init"; c_Image := "busybox:1.35.0"; c_Env := [];
     c_Command := ["sh"; "-c"; "chown -R 101:101 /var/cache/nginx || true; ls -ld /var/cache/nginx || true"];
     c_Args := []; c_Ports := [];
     c_SecurityContext := Some {| sc_AllowPrivilegeEscalation := None;
       sc_RunAsNonRoot := None; sc_RunAsUser := Some 0; sc_DropCapabilities := None |};
     c_ReadinessProbe := None; c_LivenessProbe := None;
     c_VolumeMounts := [nginx_cache_mount] |}.

(** The value of [workspaceContainer] when it is copied into the pod spec. *)
Definition workspace_container (ws : Workspace) : Container :=
  {| c_Name := "workspace"; c_Image := wsp_Image (ws_Spec ws); c_Env := workspace_env ws;
     c_Command := workspace_command ws; c_Args := workspace_args ws;
     c_Ports := workspace_ports ws; c_SecurityContext := Some (workspace_secctx ws);
     c_ReadinessProbe := Some (readiness_probe ws);
     c_LivenessProbe := Some (liveness_probe ws);
     c_VolumeMounts := [nginx_cache_mount] |}.

(** The image [workspaceContainer] has at the end: the assignments for nginx
    change the local variable after the pod spec has been given its copy. *)
Definition desired_image (ws : Workspace) : string :=
  if is_nginx ws && negb (Contains (ToLower (wsp_Image (ws_Spec ws))) "unprivileged")
  then "nginxinc/nginx-unprivileged:1.25" else wsp_Image (ws_Spec ws).

(** ** The desired deployment *)

Definition pod_secctx (ws : Workspace) : PodSecurityContext :=
  let uid := if is_nginx ws then 101 else 1000 in
  {| psc_RunAsUser := Some uid; psc_RunAsGroup := Some uid; psc_FSGroup := Some uid;
     psc_SeccompProfile := Some "RuntimeDefault" |}.

Definition workspace_pod (ws : Workspace) : PodSpec :=
  {| pod_Containers := [workspace_container ws]; pod_InitContainers := [init_container];
     pod_Volumes := ["nginx-cache"];
     pod_Tolerations := [{| tol_Key := "node-role.kubernetes.io/control-plane";
                            tol_Operator := "Exists"; tol_Effect := "NoSchedule" |}];
     pod_ImagePullSecrets := []; pod_SecurityContext := Some (pod_secctx ws) |}.

Definition workspace_deployment_spec (ws : Workspace) : DeploymentSpec :=
  {| ds_Replicas := 1; ds_Selector := workspace_label ws;
     ds_TemplateLabels := workspace_label ws; ds_Pod := workspace_pod ws;
     ds_RollingUpdate := Some ("25%", "25%") |}.

(** [desired], with the owner references [SetControllerReference] gave it. *)
Definition desired_deployment (ws : Workspace) (owners : list OwnerReference) : Deployment :=
  {| d_Namespace := ws_Namespace ws; d_Name := ws_Name ws;
     d_Labels := workspace_label ws; d_OwnerReferences := owners;
     d_Spec := workspace_deployment_spec ws; d_ReadyReplicas := 0 |}.

(** ** Verification of the live deployment *)

Definition cmpInt64 (a b : option Z) : bool :=
  match a, b with
  | None, None => true
  | None, _ | _, None => false
  | Some x, Some y => (x =? y)%Z
  end.

Definition podsc_mismatch (desired live : option PodSecurityContext) : bool :=
  match desired, live with
  | None, None => false
  | None, Some _ | Some _, None => true
  | Some d, Some l =>
      negb (cmpInt64 (psc_RunAsUser d) (psc_RunAsUser l))
      || negb (cmpInt64 (psc_RunAsGroup d) (psc_RunAsGroup l))
      || negb (cmpInt64 (psc_FSGroup d) (psc_FSGroup l))
  end.

(** The first container named workspace: image and presence of a container
    security context. *)
Definition container_mismatch (ws : Workspace) (cs : list Container) : bool :=
  match find_first (λ c, String.eqb (c_Name c) "workspace") cs with
  | None => true
  | Some c =>
      negb (String.eqb (c_Image c) (desired_image ws))
      || (if is_nginx ws then bool_decide (is_Some (c_SecurityContext c))
          else negb (bool_decide (is_Some (c_SecurityContext c))))
  end.

Definition needFix (ws : Workspace) (live : Deployment) : bool :=
  let pod := ds_Pod (d_Spec live) in
  (match pod_InitContainers pod with [] => true | _ => false end)
  || podsc_mismatch (pod_SecurityContext (workspace_pod ws)) (pod_SecurityContext pod)
  || container_mismatch ws (pod_Containers pod).

(** ** The desired service *)

Definition truthy (v : string) : bool :=
  String.eqb v "1" || String.eqb v "true" || String.eqb v "yes".
Definition falsy (v : string) : bool :=
  String.eqb v "0" || String.eqb v "false" || String.eqb v "no".

(** The cached default or, when that is false, WORKSPACE_LB_DEFAULT. *)
Definition effective_default_lb (cached : bool) (env_lb : string) : bool :=
  if cached then true else truthy (ToLower (TrimSpace env_lb)).

Definition workspace_service_type (ws : Workspace) (defaultLB : bool) : ServiceType :=
  match wsp_Exposure (ws_Spec ws) with
  | Some e => if String.eqb (we_Type e) ExposureLoadBalancer
              then ServiceTypeLoadBalancer else ServiceTypeClusterIP
  | None => if defaultLB then ServiceTypeLoadBalancer else ServiceTypeClusterIP
  end.

Definition workspace_service_ports (ws : Workspace) : list ServicePort :=
  (λ cp, {| sp_Name := cp_Name cp; sp_Port := cp_ContainerPort cp;
            sp_TargetPort := cp_ContainerPort cp; sp_NodePort := 0 |}) <$> workspace_ports ws.

End desired.

(** ** Reconciliation *)

Section reconcile.
Context `{UnicodeCase} `{KubeLib}.

(** [(ctrl.Result, error)]: nothing to do, try again in five seconds, or an
    error handed to the controller. *)
Inductive reconcile_result : Type :=
  | Done
  | RequeueAfter5s
  | Failed (e : api_error).

(** The mutate function of the service's CreateOrUpdate. *)
Definition mutate_service (ws : Workspace) (defaultLB : bool) (cur : Service)
    : option Service :=
  match SetControllerReference ws (s_OwnerReferences cur) with
  | Err _ => None
  | Ok owners =>
      Some {| s_Namespace := s_Namespace cur; s_Name := s_Name cur;
              s_Labels := workspace_label ws; s_Annotations := s_Annotations cur;
              s_OwnerReferences := owners; s_Selector := workspace_label ws;
              s_Ports := workspace_service_ports ws;
              s_Type := workspace_service_type ws defaultLB;
              s_PublishNotReadyAddresses := true; s_ClusterIP := s_ClusterIP cur;
              s_Ingress := s_Ingress cur |}
  end.

Definition with_spec (d : Deployment) (spec : DeploymentSpec) : Deployment :=
  {| d_Namespace := d_Namespace d; d_Name := d_Name d; d_Labels := d_Labels d;
     d_OwnerReferences := d_OwnerReferences d; d_Spec := spec;
     d_ReadyReplicas := d_ReadyReplicas d |}.

Definition with_owners (d : Deployment) (owners : list OwnerReference) : Deployment :=
  {| d_Namespace := d_Namespace d; d_Name := d_Name d; d_Labels := d_Labels d;
     d_OwnerReferences := owners; d_Spec := d_Spec d;
     d_ReadyReplicas := d_ReadyReplicas d |}.

(** Create the deployment when it is missing, else replace its spec.  A create
    fills the desired object with the server's answer.  [None] means requeue. *)
Definition ensure_deployment (desired : Deployment) : prog (option Deployment) :=
  do got <- request (GetDeployment (d_Namespace desired) (d_Name desired)) ;
  match got with
  | inl e =>
      if IsNotFound e then
        do made <- request (CreateDeployment desired) ;
        Ret (match made with inl _ => None | inr d => Some d end)
      else Ret None
  | inr existing =>
      do upd <- request (UpdateDeployment (with_spec existing (d_Spec desired))) ;
      Ret (match upd with inl _ => None | inr _ => Some desired end)
  end.

(** One attempt to set the owner reference of the live deployment. *)
Definition attach_owner (ws : Workspace) : prog (api_error + Deployment) :=
  do got <- request (GetDeployment (ws_Namespace ws) (ws_Name ws)) ;
  match got with
  | inl e => Ret (inl e)
  | inr cur =>
      match SetControllerReference ws (d_OwnerReferences cur) with
      | Err e => Ret (inl (OtherError e))
      | Ok owners => request (UpdateDeployment (with_owners cur owners))
      end
  end.

(** One attempt to write the desired spec over the live deployment. *)
Definition reapply (ws : Workspace) (spec : DeploymentSpec) : prog (api_error + Deployment) :=
  do got <- request (GetDeployment (ws_Namespace ws) (ws_Name ws)) ;
  match got with
  | inl e => Ret (inl e)
  | inr cur => request (UpdateDeployment (with_spec cur spec))
  end.

(** The verification loop; [n] is the number of attempts left and the result is
    [finalErr]. *)
Fixpoint verify_loop (ws : Workspace) (spec : DeploymentSpec) (n : nat)
    (finalErr : option api_error) : prog (option api_error) :=
  match n with
  | O => Ret finalErr
  | S n' =>
      do got <- request (GetDeployment (ws_Namespace ws) (ws_Name ws)) ;
      match got with
      | inl e => verify_loop ws spec n' (Some e)
      | inr live =>
          if needFix ws live then
            do r <- RetryOnConflict (reapply ws spec) ;
            verify_loop ws spec n' (match r with inl e => Some e | inr _ => finalErr end)
          else Ret None
      end
  end.

(** Poll until the deployment is gone, [n] times at most. *)
Fixpoint wait_deleted (ws : Workspace) (n : nat) : prog unit :=
  match n with
  | O => Ret tt
  | S n' =>
      do got <- request (GetDeployment (ws_Namespace ws) (ws_Name ws)) ;
      match got with
      | inl e => if IsNotFound e then Ret tt else wait_deleted ws n'
      | inr _ => wait_deleted ws n'
      end
  end.

(** Delete and create; every error is only logged. *)
Definition recreate (ws : Workspace) (desired : Deployment) : prog unit :=
  do del <- request (DeleteDeployment (ws_Namespace ws) (ws_Name ws)) ;
  do _ <- match del with None => wait_deleted ws 20 | Some _ => Ret tt end ;
  match SetControllerReference ws (d_OwnerReferences desired) with
  | Err _ => Ret tt
  | Ok owners =>
      do _ <- request (CreateDeployment (with_owners desired owners)) ; Ret tt
  end.

Definition workspace_phase (deleting : bool) (ready : Z) : WorkspacePhase :=
  if deleting then PhaseTerminating
  else if (0 <? ready)%Z then PhaseRunning else PhasePending.

Definition service_dns (svc : Service) : string :=
  s_Name svc +:+ "." +:+ s_Namespace svc +:+ ".svc".

(** The status written for the workspace read back as [fresh]. *)
Definition new_status (ws fresh : Workspace) (ready : Z) (svc : Service) : WorkspaceStatus :=
  let old := ws_Status fresh in
  {| wst_Phase := workspace_phase (bool_decide (is_Some (ws_DeletionTimestamp fresh))) ready;
     wst_ReadyReplicas := ready;
     wst_ServiceDNS := service_dns svc;
     wst_ServiceIP := if String.eqb (s_ClusterIP svc) "" then wst_ServiceIP old
                      else s_ClusterIP svc;
     wst_ExternalURL := wst_ExternalURL old;
     wst_ProxyTarget := "http://" +:+ service_dns svc +:+ ":" +:+ fmt_d (first_port ws);
     wst_Conditions := wst_Conditions old;
     wst_LastError := wst_LastError old |}.

Definition with_status (w : Workspace) (st : WorkspaceStatus) : Workspace :=
  {| ws_Name := ws_Name w; ws_Namespace := ws_Namespace w; ws_UID := ws_UID w;
     ws_Annotations := ws_Annotations w; ws_DeletionTimestamp := ws_DeletionTimestamp w;
     ws_Spec := ws_Spec w; ws_Status := st |}.

Definition update_status (ns name : string) (ws : Workspace) (ready : Z) (svc : Service)
    : prog (api_error + unit) :=
  do got <- request (GetWorkspace ns name) ;
  match got with
  | inl e => Ret (inl e)
  | inr fresh =>
      request (UpdateWorkspaceStatus (with_status fresh (new_status ws fresh ready svc)))
  end.

(** [env_lb] is the value of WORKSPACE_LB_DEFAULT. *)
Definition reconcile_service_and_status (ns name : string) (ws : Workspace) (ready : Z)
    (cachedLB : bool) (env_lb : string) : prog reconcile_result :=
  let defaultLB := effective_default_lb cachedLB env_lb in
  do sres <- RetryOnConflict
    (request (CreateOrUpdateService (ws_Namespace ws) (ws_Name ws) (mutate_service ws defaultLB))) ;
  match sres with
  | inl _ => Ret RequeueAfter5s
  | inr svc =>
      do ures <- RetryOnConflict (update_status ns name ws ready svc) ;
      Ret (match ures with inl _ => RequeueAfter5s | inr _ => Done end)
  end.

Definition reconcile_deployment (ws : Workspace) (desired : Deployment)
    (k : Deployment → prog reconcile_result) : prog reconcile_result :=
  do ensured <- ensure_deployment desired ;
  match ensured with
  | None => Ret RequeueAfter5s
  | Some desired =>
      do got <- request (GetDeployment (ws_Namespace ws) (ws_Name ws)) ;
      match got with
      | inl _ => Ret RequeueAfter5s
      | inr dep =>
          do _ <- RetryOnConflict (attach_owner ws) ;
          do finalErr <- verify_loop ws (d_Spec desired) 5 None ;
          do _ <- match finalErr with Some _ => recreate ws desired | None => Ret tt end ;
          k dep
      end
  end.

Definition Reconcile (ns name : string) (cachedLB : bool) (env_lb : string)
    : prog reconcile_result :=
  do got <- request (GetWorkspace ns name) ;
  match got with
  | inl e => Ret (if IsNotFound e then Done else Failed e)
  | inr ws =>
      match SetControllerReference ws [] with
      | Err _ => Ret RequeueAfter5s
      | Ok owners =>
          reconcile_deployment ws (desired_deployment ws owners)
            (λ dep, reconcile_service_and_status ns name ws (d_ReadyReplicas dep) cachedLB env_lb)
      end
  end.

(** ** The operator-level default *)

(** One round of the polling goroutine: the normalised value of the
    ConfigMap's key (a missing key reads as the empty string) or of the
    environment. *)
Definition lb_value (cm : api_error + gmap string string) (env_lb : string) : string :=
  let v := match cm with
           | inr data => ToLower (TrimSpace (default "" (data !! "workspace_lb_enabled")))
           | inl _ => ""
           end in
  let v := if truthy v then "true" else if falsy v then "false" else v in
  if String.eqb v "" then
    (if truthy (ToLower (TrimSpace env_lb)) then "true" else "false")
  else v.

Definition annotate (now : string) (w : Workspace) : Workspace :=
  {| ws_Name := ws_Name w; ws_Namespace := ws_Namespace w; ws_UID := ws_UID w;
     ws_Annotations := <["guildnet.io/config-hash" := now]> (ws_Annotations w);
     ws_DeletionTimestamp := ws_DeletionTimestamp w; ws_Spec := ws_Spec w;
     ws_Status := ws_Status w |}.

Fixpoint patch_all (now : string) (l : list Workspace) : prog unit :=
  match l with
  | [] => Ret tt
  | w :: r => do _ <- request (PatchWorkspace (annotate now w)) ; patch_all now r
  end.

(** The loop variables: [last] and the reconciler's [DefaultLB]. *)
Definition poll_state : Type := string * bool.

Definition poll (env_lb now : string) (st : poll_state) : prog poll_state :=
  do cm <- request (GetConfigMap "guildnet-system" "guildnet-cluster-settings") ;
  let v := lb_value cm env_lb in
  if String.eqb v st.1 then Ret st
  else
    do lst <- request ListWorkspaces ;
    match lst with
    | inl _ => Ret (v, String.eqb v "true")
    | inr items => do _ <- patch_all now items ; Ret (v, String.eqb v "true")
    end.

(** The initial read of [SetupWithManager]. *)
Definition initial_default_lb (cm : api_error + gmap string string) : bool :=
  match cm with
  | inl _ => false
  | inr data => match data !! "workspace_lb_enabled" with
                | Some v => truthy (ToLower (TrimSpace v))
                | None => false
                end
  end.

End reconcile.

(** ** Lemmas *)

Section lemmas.
Context `{UC : UnicodeCase} {KL : KubeLib} {KLL : KubeLibLaws}.

Lemma workspace_ports_cons ws : ∃ p ps, workspace_ports ws = p :: ps.
Proof. unfold workspace_ports. destruct (_ <$> _) as [|p ps]; eauto. Qed.

Lemma has_env_elem env n : has_env env n = true ↔ ∃ e, e ∈ env ∧ env_Name e = n.
Proof.
  unfold has_env. rewrite List.existsb_exists. split.
  - intros (e & He & En). exists e. rewrite list_elem_of_In. by apply String.eqb_eq in En.
  - intros (e & He & <-). exists e. rewrite -list_elem_of_In. by rewrite String.eqb_refl.
Qed.

(** A successful run of the last phase: the service write and the status write. *)
Lemma service_and_status_done ns name ws ready cachedLB env_lb t :
  runs (reconcile_service_and_status ns name ws ready cachedLB env_lb) t Done →
  ∃ svc fresh t1 t2,
    t = t1 ++ [Ev (CreateOrUpdateService (ws_Namespace ws) (ws_Name ws)
                 (mutate_service ws (effective_default_lb cachedLB env_lb))) (inr svc)]
        ++ t2 ++ [Ev (GetWorkspace ns name) (inr fresh);
                  Ev (UpdateWorkspaceStatus
                       (with_status fresh (new_status ws fresh ready svc))) (inr tt)].
Proof.
  unfold reconcile_service_and_status.
  intros (t1 & t2 & [e|svc] & -> & H1 & H2)%runs_bind; [by destruct H2|].
  apply retry_last in H1 as (t0 & tl & -> & ->%runs_request).
  apply runs_bind in H2 as (t3 & t4 & [e|[]] & -> & H3 & [-> Hd]); [done|].
  apply retry_last in H3 as (t5 & tl' & -> & Hu).
  apply runs_req_bind in Hu as ([e|fresh] & t' & -> & Hu); [by destruct Hu|].
  apply runs_request in Hu as ->.
  exists svc, fresh, t0, t5. by rewrite !app_nil_r -!app_assoc.
Qed.

(** A create or update of a deployment with the given spec succeeded. *)
Definition wrote_deployment (spec : DeploymentSpec) (t : trace) : Prop :=
  ∃ d r, d_Spec d = spec
         ∧ (Ev (CreateDeployment d) (inr r) ∈ t ∨ Ev (UpdateDeployment d) (inr r) ∈ t).

Lemma wrote_deployment_app spec t1 t2 :
  wrote_deployment spec t1 → wrote_deployment spec (t1 ++ t2).
Proof.
  intros (d & r & Hd & Hin). exists d, r. split; [done|].
  rewrite !list_elem_of_In in Hin |- *.
  destruct Hin; [left|right]; apply List.in_or_app; by left.
Qed.

Lemma ensure_deployment_done desired t d :
  runs (ensure_deployment desired) t (Some d) → wrote_deployment (d_Spec desired) t.
Proof.
  intros ([e|existing] & t' & -> & Hr)%runs_req_bind.
  - destruct (IsNotFound e); [|by destruct Hr].
    apply runs_req_bind in Hr as ([e'|made] & t2 & -> & [-> Hd]); [done|].
    exists desired, made. split; [done|]. left. right. left.
  - apply runs_req_bind in Hr as ([e'|upd] & t2 & -> & [-> Hd]); [done|].
    exists (with_spec existing (d_Spec desired)), upd. split; [done|]. right. right. left.
Qed.

Lemma reconcile_deployment_done ws desired k t :
  runs (reconcile_deployment ws desired k) t Done →
  ∃ dep t1 t2, t = t1 ++ t2 ∧ runs (k dep) t2 Done
    ∧ wrote_deployment (d_Spec desired) t1
    ∧ Ev (GetDeployment (ws_Namespace ws) (ws_Name ws)) (inr dep) ∈ t1.
Proof.
  unfold reconcile_deployment.
  intros (t1 & t2 & [desired'|] & -> & H1 & H2)%runs_bind; [|by destruct H2].
  apply runs_req_bind in H2 as ([e|dep] & t3 & -> & H3); [by destruct H3|].
  cbv beta iota in H3.
  apply runs_bind in H3 as (t4 & t5 & a & -> & _ & H5).
  apply runs_bind in H5 as (t6 & t7 & b & -> & _ & H7).
  apply runs_bind in H7 as (t8 & t9 & c & -> & _ & H9).
  exists dep, (t1 ++ Ev (GetDeployment (ws_Namespace ws) (ws_Name ws)) (inr dep)
                  :: t4 ++ t6 ++ t8), t9.
  split; [by rewrite -app_assoc /= -!app_assoc|]. split; [done|]. split.
  - apply wrote_deployment_app. by eapply ensure_deployment_done.
  - rewrite list_elem_of_In. apply List.in_or_app. right. by left.
Qed.

(** Answers that are not errors. *)
Definition answer_ok (e : event) : bool :=
  match e with
  | Ev c r =>
      match c in call X return X → bool with
      | PatchWorkspace _ | DeleteDeployment _ _ | DeleteService _ _ =>
          λ r, match r with None => true | Some _ => false end
      | GetWorkspace _ _ | ListWorkspaces | UpdateWorkspaceStatus _ | GetConfigMap _ _
      | GetDeployment _ _ | CreateDeployment _ | UpdateDeployment _
      | ListDeployments _ _ | GetService _ _ | CreateService _ | UpdateService _
      | ListServices _ _ | CreateOrUpdateService _ _ _ | GetIngress _ _
      | CreateIngress _ | UpdateIngress _ | ListNodes | ListPods _ _ | PodLogs _ _ _ _ =>
          λ r, match r with inl _ => false | inr _ => true end
      end r
  end.

Definition is_delete (e : event) : bool :=
  match e with
  | Ev (DeleteDeployment _ _) _ | Ev (DeleteService _ _) _ => true
  | _ => false
  end.

(** When no request fails, the attempts to rewrite the deployment succeed and
    the verification ends without an error, whatever the live deployment is. *)
Lemma verify_loop_ok ws spec n t r :
  runs (verify_loop ws spec n None) t r → Forall answer_ok t → r = None.
Proof.
  revert t; induction n as [|n IH]; intros t; simpl; [by intros [-> ->]|].
  intros ([e|live] & t' & -> & Hk) Hok; apply Forall_cons in Hok as [He Hok]; [done|].
  destruct (needFix ws live); [|by destruct Hk].
  apply runs_bind in Hk as (t1 & t2 & a & -> & H1 & H2).
  apply Forall_app in Hok as [Hok1 Hok2].
  destruct a as [e|d]; [|by eapply IH].
  apply retry_last in H1 as (t0 & tl & -> & Hr). apply Forall_app in Hok1 as [_ Hok1].
  unfold reapply in Hr. apply runs_req_bind in Hr as ([e'|cur] & t3 & -> & Hr).
  - by apply Forall_cons in Hok1 as [? _].
  - apply runs_request in Hr as ->. apply Forall_cons in Hok1 as [_ Hok1].
    by apply Forall_cons in Hok1 as [? _].
Qed.

Abbreviation no_delete p := (issues_only (λ e, is_delete e = false) p).

Lemma verify_loop_no_delete ws spec n fe t r :
  runs (verify_loop ws spec n fe) t r → Forall (λ e, is_delete e = false) t.
Proof.
  revert fe t; induction n as [|n IH]; intros fe t; simpl.
  { intros [-> _]. constructor. }
  intros ([e|live] & t' & -> & Hk); constructor; try done.
  { by eapply IH. }
  destruct (needFix ws live); [|destruct Hk as [-> _]; constructor].
  apply runs_bind in Hk as (t1 & t2 & a & -> & H1 & H2). apply Forall_app. split.
  - eapply retry_issues; [|exact H1]. unfold reapply. simpl. intros [|]; simpl; auto.
  - by eapply IH.
Qed.

Lemma service_and_status_no_delete ns name ws ready cachedLB env_lb t r :
  runs (reconcile_service_and_status ns name ws ready cachedLB env_lb) t r →
  Forall (λ e, is_delete e = false) t.
Proof.
  unfold reconcile_service_and_status.
  intros (t1 & t2 & a & -> & H1 & H2)%runs_bind. apply Forall_app. split.
  { eapply retry_issues; [|exact H1]. by simpl. }
  destruct a as [e|svc]; [destruct H2 as [-> _]; constructor|].
  apply runs_bind in H2 as (t3 & t4 & b & -> & H3 & [-> _]). rewrite app_nil_r.
  eapply retry_issues; [|exact H3]. unfold update_status. simpl. intros [|]; simpl; auto.
Qed.

Lemma ensure_deployment_no_delete d : no_delete (ensure_deployment d).
Proof.
  unfold ensure_deployment. simpl. intros [e|x]; split; auto; simpl; auto.
  destruct (IsNotFound e); simpl; auto.
Qed.

Lemma attach_owner_no_delete ws : no_delete (attach_owner ws).
Proof.
  unfold attach_owner. simpl. intros [e|x]; split; auto; simpl; auto.
  destruct (SetControllerReference _ _); simpl; auto.
Qed.

End lemmas.

(** ** Properties *)

Definition demo_ws (image : string) : Workspace :=
  {| ws_Name := "dev"; ws_Namespace := "team"; ws_UID := "u1"; ws_Annotations := ∅;
     ws_DeletionTimestamp := None;
     ws_Spec := {| wsp_Image := image; wsp_Env := [plain_env "LANG" "C"]; wsp_Ports := [];
                   wsp_Exposure := None; wsp_PresetsRef := ""; wsp_Notes := "" |};
     ws_Status := {| wst_Phase := ""; wst_ReadyReplicas := 0; wst_ServiceDNS := "";
                     wst_ServiceIP := ""; wst_ExternalURL := ""; wst_ProxyTarget := "";
                     wst_Conditions := []; wst_LastError := "" |} |}.

Definition demo_kube (image : string) : kube_state :=
  set_ws empty_kube {[ ("team", "dev") := demo_ws image ]}.

Definition demo_reconcile : prog reconcile_result :=
  @Reconcile ascii_case default_lib "team" "dev" false "".

(** C6: what a completed reconciliation has done.  A run that ends with
    neither a requeue nor an error either found no Workspace, or read it first,
    successfully created or updated a deployment with the spec derived from it
    and read the deployment, then created or updated the service with the
    ports, selector and type the Workspace asks for, and last of all wrote the
    status computed from that deployment and that service into the Workspace
    as it was read immediately before. *)
Theorem Reconcile_done `{UC : UnicodeCase} {KL : KubeLib} {KLL : KubeLibLaws}
    ns name cachedLB env_lb t :
  runs (Reconcile ns name cachedLB env_lb) t Done →
  t = [Ev (GetWorkspace ns name) (inl NotFound)]
  ∨ ∃ ws owners dep svc fresh t1 t2,
      t = Ev (GetWorkspace ns name) (inr ws) :: t1
          ++ [Ev (CreateOrUpdateService (ws_Namespace ws) (ws_Name ws)
                (mutate_service ws (effective_default_lb cachedLB env_lb))) (inr svc)]
          ++ t2
          ++ [Ev (GetWorkspace ns name) (inr fresh);
              Ev (UpdateWorkspaceStatus (with_status fresh
                    (new_status ws fresh (d_ReadyReplicas dep) svc))) (inr tt)]
      ∧ SetControllerReference ws [] = Ok owners
      ∧ wrote_deployment (d_Spec (desired_deployment ws owners)) t1
      ∧ Ev (GetDeployment (ws_Namespace ws) (ws_Name ws)) (inr dep) ∈ t1.
Proof.
  unfold Reconcile. intros ([e|ws] & t' & -> & Hr)%runs_req_bind.
  - destruct e; simpl in Hr; destruct Hr as [-> Hd]; try done. by left.
  - right. destruct (SetControllerReference ws []) as [owners|] eqn:Ho; [|by destruct Hr].
    apply reconcile_deployment_done in Hr as (dep & t1 & t2 & -> & Hr & Hw & Hin).
    apply service_and_status_done in Hr as (svc & fresh & t3 & t4 & ->).
    exists ws, owners, dep, svc, fresh, (t1 ++ t3), t4. split; [by rewrite -!app_assoc|].
    split; [done|]. split; [by apply wrote_deployment_app|].
    rewrite list_elem_of_In. apply List.in_or_app. left. by apply list_elem_of_In.
Qed.

Lemma Reconcile_done_witness :
  let t := exec_trace mem_server demo_reconcile (demo_kube "codercom/code-server:4") in
  t = [Ev (GetWorkspace "team" "dev") (inl NotFound)]
  ∨ ∃ ws owners dep svc fresh t1 t2,
      t = Ev (GetWorkspace "team" "dev") (inr ws) :: t1
          ++ [Ev (CreateOrUpdateService (ws_Namespace ws) (ws_Name ws)
                (@mutate_service default_lib ws
                   (@effective_default_lb ascii_case false ""))) (inr svc)]
          ++ t2
          ++ [Ev (GetWorkspace "team" "dev") (inr fresh);
              Ev (UpdateWorkspaceStatus (with_status fresh
                    (new_status ws fresh (d_ReadyReplicas dep) svc))) (inr tt)]
      ∧ @SetControllerReference default_lib ws [] = Ok owners
      ∧ wrote_deployment (d_Spec (@desired_deployment ascii_case ws owners)) t1
      ∧ Ev (GetDeployment (ws_Namespace ws) (ws_Name ws)) (inr dep) ∈ t1.
Proof.
  intros t. apply (@Reconcile_done ascii_case default_lib default_lib_laws "team" "dev" false "" t).
  assert (E : (exec mem_server demo_reconcile (demo_kube "codercom/code-server:4")).2 = Done)
    by (vm_compute; reflexivity).
  rewrite -E. apply exec_runs.
Defined.

(** The pods the operator asks for.  For every Workspace: the container
    runs the Workspace's image as non-root with every capability dropped, and
    may escalate privileges only for code-server images; the pod runs as uid
    101 for nginx images and 1000 otherwise; the user's environment entries
    with non-blank names are kept in order and PORT is always set (PASSWORD
    too for code-server); the probes ask the first port; and the labels of
    the pods are those the deployment and the service select. *)
Theorem workspace_pod_spec `{UC : UnicodeCase} {KL : KubeLib} (ws : Workspace)
    (lb : bool) (cur svc : Service) :
  mutate_service ws lb cur = Some svc →
  let spec := workspace_deployment_spec ws in
  let c := workspace_container ws in
  pod_Containers (ds_Pod spec) = [c]
  ∧ c_Image c = wsp_Image (ws_Spec ws)
  ∧ c_SecurityContext c = Some {| sc_AllowPrivilegeEscalation := Some (is_code_server ws);
      sc_RunAsNonRoot := Some true; sc_RunAsUser := None;
      sc_DropCapabilities := Some ["ALL"] |}
  ∧ psc_RunAsUser <$> pod_SecurityContext (ds_Pod spec)
    = Some (Some (if is_nginx ws then 101 else 1000))
  ∧ (∃ extra, c_Env c = List.filter (λ e, negb (String.eqb (TrimSpace (env_Name e)) ""))
                          (wsp_Env (ws_Spec ws)) ++ extra)
  ∧ has_env (c_Env c) "PORT" = true
  ∧ (is_code_server ws = true → has_env (c_Env c) "PASSWORD" = true)
  ∧ (∃ p ps, c_Ports c = p :: ps
       ∧ probe_Port <$> c_ReadinessProbe c = Some (cp_ContainerPort p)
       ∧ probe_Port <$> c_LivenessProbe c = Some (cp_ContainerPort p))
  ∧ ds_Selector spec = ds_TemplateLabels spec
  ∧ s_Selector svc = ds_TemplateLabels spec
  ∧ sp_TargetPort <$> s_Ports svc = cp_ContainerPort <$> c_Ports c.
Proof.
  intros Hm spec c. unfold mutate_service in Hm.
  destruct (SetControllerReference _ _); [|done]. simplify_eq.
  set (env := List.filter (λ e, negb (String.eqb (TrimSpace (env_Name e)) ""))
                (wsp_Env (ws_Spec ws))).
  assert (Henv : ∃ e1 e2, c_Env c = (env ++ e1) ++ e2
      ∧ has_env (env ++ e1) "PORT" = true
      ∧ (is_code_server ws = true → has_env (env ++ e2) "PASSWORD" = true)).
  { exists (if has_env env "PORT" then [] else [plain_env "PORT" "8080"]),
      (if is_code_server ws && negb (has_env env "PASSWORD")
       then [plain_env "PASSWORD" "changeme"] else []).
    split; [|split].
    - simpl. unfold workspace_env. fold env.
      destruct (has_env env "PORT"), (is_code_server ws && _); by rewrite ?app_nil_r.
    - destruct (has_env env "PORT") eqn:E; [by rewrite app_nil_r|].
      unfold has_env. by rewrite List.existsb_app orb_true_r.
    - intros ->. destruct (has_env env "PASSWORD") eqn:E; [by rewrite app_nil_r|].
      unfold has_env. by rewrite List.existsb_app orb_true_r. }
  destruct Henv as (e1 & e2 & Ec & Hport & Hpass).
  destruct (workspace_ports_cons ws) as (p & ps & Ep).
  split_and!; try done.
  - exists (e1 ++ e2). by rewrite Ec app_assoc.
  - rewrite Ec. unfold has_env in *. by rewrite List.existsb_app Hport.
  - intros Hc%Hpass. rewrite Ec. unfold has_env in *.
    rewrite !List.existsb_app in Hc |- *. by destruct (existsb _ env), (existsb _ e1).
  - exists p, ps. unfold c. simpl. unfold first_port. by rewrite Ep.
  - simpl. unfold workspace_service_ports. by rewrite -list_fmap_compose.
Qed.

Lemma workspace_pod_spec_witness :
  @mutate_service default_lib (demo_ws "nginx:1.25") true (blank_service "team" "dev") ≠ None
  ∧ psc_RunAsUser <$> pod_SecurityContext
      (ds_Pod (@workspace_deployment_spec ascii_case (demo_ws "nginx:1.25")))
    = Some (Some 101).
Proof.
  split; [vm_compute; discriminate|].
  assert (H := @workspace_pod_spec ascii_case default_lib (demo_ws "nginx:1.25") true
                 (blank_service "team" "dev")).
  specialize (H _ eq_refl) as (_ & _ & _ & H & _). rewrite H. vm_compute. reflexivity.
Defined.

Lemma needFix_desired `{UC : UnicodeCase} ws owners :
  needFix ws (desired_deployment ws owners) = is_nginx ws.
Proof.
  unfold needFix. simpl. rewrite !Z.eqb_refl. simpl.
  unfold container_mismatch. simpl. unfold desired_image.
  destruct (is_nginx ws); simpl; [apply orb_true_r|]. by rewrite String.eqb_refl.
Qed.

Lemma reconcile_deployment_no_delete `{UC : UnicodeCase} {KL : KubeLib} {KLL : KubeLibLaws}
    ws desired k t r :
  (∀ dep t' r', runs (k dep) t' r' → Forall (λ e, is_delete e = false) t') →
  runs (reconcile_deployment ws desired k) t r → Forall answer_ok t →
  Forall (λ e, is_delete e = false) t.
Proof.
  intros Hkd. unfold reconcile_deployment.
  intros (t1 & t2 & a & -> & H1 & H2)%runs_bind [Hok1 Hok2]%Forall_app.
  apply Forall_app. split.
  { eapply issues_only_runs; [apply ensure_deployment_no_delete|exact H1]. }
  destruct a as [desired'|]; [|destruct H2 as [-> _]; constructor].
  apply runs_req_bind in H2 as ([e|dep] & t3 & -> & H3).
  { destruct H3 as [-> _]. by repeat constructor. }
  apply Forall_cons in Hok2 as [_ Hok]. constructor; [done|].
  apply runs_bind in H3 as (t4 & t5 & a & -> & H4 & H5).
  apply runs_bind in H5 as (t6 & t7 & fe & -> & H6 & H7).
  apply Forall_app in Hok as [_ Hok]. apply Forall_app in Hok as [Hok6 _].
  apply Forall_app. split.
  { eapply retry_issues; [apply attach_owner_no_delete|exact H4]. }
  apply Forall_app. split; [by eapply verify_loop_no_delete|].
  rewrite (verify_loop_ok _ _ _ _ _ H6 Hok6) in H7. eapply Hkd, H7.
Qed.

(** Verification after the write.  The deployment exactly as the operator
    writes it passes the operator's own check if and only if the image is not
    an nginx image: for nginx the check wants an image and a cleared security
    context that are only ever set on a local copy, so every round rewrites the
    same spec.  And since a mismatch alone never sets the error that triggers
    it, a run in which no request fails never deletes the deployment to
    recreate it, however long the mismatch persists. *)
Theorem operator_verification `{UC : UnicodeCase} {KL : KubeLib} {KLL : KubeLibLaws}
    (ws : Workspace) :
  (∀ owners, needFix ws (desired_deployment ws owners) = is_nginx ws)
  ∧ (∀ ns name cachedLB env_lb t r,
       runs (Reconcile ns name cachedLB env_lb) t r → Forall answer_ok t →
       Forall (λ e, is_delete e = false) t).
Proof.
  split; [apply needFix_desired|]. intros ns name cachedLB env_lb t r.
  unfold Reconcile. intros ([e|ws'] & t' & -> & Hr)%runs_req_bind Hok.
  { destruct Hr as [-> _]. by repeat constructor. }
  apply Forall_cons in Hok as [_ Hok]. constructor; [done|].
  destruct (SetControllerReference ws' []) as [owners|].
  - eapply reconcile_deployment_no_delete; [|exact Hr|exact Hok].
    intros dep t'' r'. apply service_and_status_no_delete.
  - destruct Hr as [-> _]. constructor.
Qed.

Definition is_update_deployment (e : event) : bool :=
  match e with Ev (UpdateDeployment _) _ => true | _ => false end.

(** A second reconciliation of an nginx workspace rewrites the deployment
    seven times; of any other, twice. *)
Definition demo_rewrites (image : string) : nat :=
  let s1 := (exec mem_server demo_reconcile (demo_kube image)).1 in
  length (List.filter is_update_deployment (exec_trace mem_server demo_reconcile s1)).

Lemma operator_verification_witness :
  demo_rewrites "nginx:1.25" = 7%nat ∧ demo_rewrites "alpine:3" = 2%nat
  ∧ @needFix ascii_case (demo_ws "nginx:1.25")
      (@desired_deployment ascii_case (demo_ws "nginx:1.25") []) = true.
Proof.
  split; [vm_compute; reflexivity|]. split; [vm_compute; reflexivity|].
  rewrite (proj1 (@operator_verification ascii_case default_lib default_lib_laws
                    (demo_ws "nginx:1.25"))).
  vm_compute. reflexivity.
Defined.

Lemma lb_value_nonempty `{UC : UnicodeCase} cm env_lb : lb_value cm env_lb ≠ "".
Proof.
  unfold lb_value. set (v := match cm with inl _ => _ | inr _ => _ end).
  destruct (truthy v); [done|]. destruct (falsy v); [done|].
  destruct (String.eqb_spec v ""); [|done].
  by destruct (truthy (ToLower (TrimSpace env_lb))).
Qed.

Lemma patch_all_runs now l t r : runs (patch_all now l) t r →
  Forall2 (λ w e, ∃ a, e = Ev (PatchWorkspace (annotate now w)) a) l t.
Proof.
  revert t; induction l as [|w l IH]; intros t; simpl; [by intros [-> _]|].
  intros (a & t' & -> & Hr). constructor; [by exists a|]. by apply IH.
Qed.

(** The ConfigMap's own value, before the environment is consulted. *)
Definition cm_truthy `{UnicodeCase} (cm : api_error + gmap string string) : bool :=
  match cm with
  | inr data => truthy (ToLower (TrimSpace (default "" (data !! "workspace_lb_enabled"))))
  | inl _ => false
  end.

Lemma lb_value_true `{UC : UnicodeCase} cm env_lb :
  String.eqb (lb_value cm env_lb) "true" || truthy (ToLower (TrimSpace env_lb))
  = cm_truthy cm || truthy (ToLower (TrimSpace env_lb)).
Proof.
  unfold lb_value, cm_truthy.
  destruct (truthy (ToLower (TrimSpace env_lb))) eqn:E; [by rewrite !orb_true_r|].
  rewrite !orb_false_r. destruct cm as [e|data]; [done|].
  set (v := ToLower _). destruct (truthy v) eqn:Et; [done|].
  destruct (falsy v) eqn:Ef; [done|]. unfold truthy in Et. bool_props.
  destruct (String.eqb v "") eqn:Ev; [done|]. by bool_props.
Qed.

(** The operator-level default.  One polling round leaves the cached flag
    in step with the value it computed from the ConfigMap or, when that gives
    none, from the environment; it patches every workspace when the value
    changed and issues no other request when it did not.  The default that
    reconciliation then uses is the disjunction of the ConfigMap and the
    environment variable: a ConfigMap that says false does not override the
    environment. *)
Theorem poll_default_lb `{UC : UnicodeCase} env_lb now st t st' :
  st.1 = "" ∨ st.2 = String.eqb st.1 "true" →
  runs (poll env_lb now st) t st' →
  ∃ cm t', t = Ev (GetConfigMap "guildnet-system" "guildnet-cluster-settings") cm :: t'
    ∧ st' = (lb_value cm env_lb, String.eqb (lb_value cm env_lb) "true")
    ∧ effective_default_lb st'.2 env_lb
      = cm_truthy cm || truthy (ToLower (TrimSpace env_lb))
    ∧ (lb_value cm env_lb = st.1 → t' = [])
    ∧ (lb_value cm env_lb ≠ st.1 →
       ∃ ans t'', t' = Ev ListWorkspaces ans :: t''
         ∧ ∀ items, ans = inr items →
           Forall2 (λ w e, ∃ a, e = Ev (PatchWorkspace (annotate now w)) a) items t'').
Proof.
  intros Hst. unfold poll. intros (cm & t' & -> & Hr)%runs_req_bind.
  exists cm, t'. split; [done|]. cbv beta zeta in Hr.
  destruct (String.eqb_spec (lb_value cm env_lb) st.1) as [E|E].
  - destruct Hr as [-> ->].
    destruct Hst as [Hst|Hst]; [by rewrite Hst in E; apply lb_value_nonempty in E|].
    split; [rewrite E -Hst; by destruct st|]. split; [|by split].
    rewrite Hst -E -lb_value_true. unfold effective_default_lb.
    by destruct (String.eqb _ "true").
  - apply runs_req_bind in Hr as (ans & t'' & -> & Hr).
    assert (Hst' : st' = (lb_value cm env_lb, String.eqb (lb_value cm env_lb) "true")
        ∧ ∀ items, ans = inr items →
          Forall2 (λ w e, ∃ a, e = Ev (PatchWorkspace (annotate now w)) a) items t'').
    { destruct ans as [e|items]; [by destruct Hr as [-> ->]|].
      apply runs_bind in Hr as (t1 & t2 & a & -> & H1 & [-> ->]).
      split; [done|]. intros ? [= <-]. rewrite app_nil_r. by eapply patch_all_runs. }
    destruct Hst' as [-> HF]. split; [done|]. split.
    + rewrite -lb_value_true. unfold effective_default_lb. simpl.
      by destruct (String.eqb _ "true").
    + split; [done|]. intros _. eauto.
Qed.

Definition lb_off_kube : kube_state :=
  {| ks_ws := ∅; ks_dep := ∅; ks_svc := ∅; ks_ing := ∅;
     ks_cm := {[ ("guildnet-system", "guildnet-cluster-settings")
                 := {[ "workspace_lb_enabled" := "false" ]} ]} |}.

(** The ConfigMap disables load balancers, the environment enables them. *)
Definition lb_off_poll : prog poll_state := @poll ascii_case "true" "0" ("", true).

Lemma poll_default_lb_witness :
  (exec mem_server lb_off_poll lb_off_kube).2 = ("false", false)
  ∧ ∃ cm t', exec_trace mem_server lb_off_poll lb_off_kube
             = Ev (GetConfigMap "guildnet-system" "guildnet-cluster-settings") cm :: t'
      ∧ @effective_default_lb ascii_case (exec mem_server lb_off_poll lb_off_kube).2.2 "true"
        = @cm_truthy ascii_case cm || truthy (ToLower (H := ascii_case) (TrimSpace "true")).
Proof.
  split; [vm_compute; reflexivity|].
  destruct (@poll_default_lb ascii_case "true" "0" ("", true)
              (exec_trace mem_server lb_off_poll lb_off_kube)
              (exec mem_server lb_off_poll lb_off_kube).2
              (or_introl eq_refl) (exec_runs mem_server lb_off_poll lb_off_kube))
    as (cm & t' & Et & _ & He & _).
  exact (ex_intro _ cm (ex_intro _ t' (conj Et He))).
Defined.
