(* ===== verification/K8s.v ===== *)
(** * The Kubernetes client (internal/k8s/k8s.go)

    Creating workloads (Deployment, Service and optional Ingress), deleting and
    listing them, resolving a service address, reading logs. *)

From stdpp Require Import sorting.
From S2P Require Import Prelude GoStrings Values Prog K8sTypes KubeApi Names.

Local Open Scope Z_scope.

(** ** Helpers *)

(** Conversion of an [int] to [int32]: the low 32 bits, signed. *)
Definition int32_of (z : Z) : Z :=
  let m := z mod 2 ^ 32 in if m <? 2 ^ 31 then m else m - 2 ^ 32.

Record EnsureOpts : Type := {
  eo_Namespace : string;
  eo_ID : string;
  eo_ImagePullSecret : string;
  eo_LBEnabled : bool;
  eo_LBPool : string;
  eo_IngressDomain : string;
  eo_IngressTLSSecret : string;
  eo_IngressClassName : string;
  eo_CertManagerIssuer : string;
  eo_IngressAuthURL : string;
  eo_IngressAuthSignin : string
}.

Definition or_ns (ns : string) : string := if String.eqb ns "" then "default" else ns.

Section ensure.
Context `{UnicodeCase}.

(** The derived name; the fallback to the image is as in the source. *)
Definition workload_name (spec : JobSpec) : string :=
  let name := dns1123Name (js_Name spec) in
  if String.eqb name "" then dns1123Name (js_Image spec) else name.

Definition workload_id (spec : JobSpec) (opt : EnsureOpts) : string :=
  if String.eqb (eo_ID opt) "" then workload_name spec else eo_ID opt.

Definition workload_labels (name id : string) : gmap string string :=
  list_to_map [("app", name); ("app.kubernetes.io/name", name);
               ("guildnet.io/managed", "true"); ("guildnet.io/id", id)].

Definition exposed (spec : JobSpec) : list Port :=
  List.filter (λ p, 0 <? port_Port p) (js_Expose spec).

Definition job_code_server (spec : JobSpec) : bool :=
  let img := ToLower (TrimSpace (js_Image spec)) in
  Contains img "codercom/code-server" || Contains img "code-server".

Definition container_ports (spec : JobSpec) : list ContainerPort :=
  match (λ p, {| cp_Name := port_Name p; cp_ContainerPort := int32_of (port_Port p);
                 cp_Protocol := "" |}) <$> exposed spec with
  | [] =>
      let img := ToLower (TrimSpace (js_Image spec)) in
      let http := {| cp_Name := "http"; cp_ContainerPort := 8080; cp_Protocol := "" |} in
      if Contains img "codercom/code-server" || Contains img "ghcr.io/coder/code-server"
         || Contains img "code-server"
      then [http]
      else [http; {| cp_Name := "https"; cp_ContainerPort := 8443; cp_Protocol := "" |}]
  | ports => ports
  end.

(** Set [k] unless it has a non-blank value. *)
Definition default_env (k v : string) (env : gmap string string) : gmap string string :=
  if String.eqb (TrimSpace (default "" (env !! k))) "" then <[k := v]> env else env.

Definition env_le (a b : EnvVar) : Prop := String.leb (env_Name a) (env_Name b) = true.
#[local] Instance env_le_dec : RelDecision env_le.
Proof. intros a b. unfold env_le. apply _. Defined.

(** The environment list, sorted by name. *)
Definition container_env (spec : JobSpec) : list EnvVar :=
  let env := default_env "PASSWORD" "changeme" (default_env "PORT" "8080" (js_Env spec)) in
  merge_sort env_le
    ((λ kv, {| env_Name := kv.1; env_Value := kv.2; env_ValueFrom := None |}) <$> map_to_list env).

Definition container_args (spec : JobSpec) : list string :=
  (if job_code_server spec
   then ["--bind-addr"; "0.0.0.0:8080"; "--auth"; "password"] else []) ++ js_Args spec.

Definition http_probe (port : Z) : Probe :=
  {| probe_Path := "/"; probe_Port := port; probe_InitialDelaySeconds := 0;
     probe_PeriodSeconds := 0; probe_TimeoutSeconds := 0; probe_FailureThreshold := 0;
     probe_SuccessThreshold := 0 |}.

Definition probe_port (spec : JobSpec) : Z :=
  match container_ports spec with [] => 8080 | p :: _ => cp_ContainerPort p end.

Definition job_deployment (spec : JobSpec) (opt : EnsureOpts) : Deployment :=
  let name := workload_name spec in
  let labels := workload_labels name (workload_id spec opt) in
  let secret := TrimSpace (eo_ImagePullSecret opt) in
  let tol k := {| tol_Key := k; tol_Operator := "Exists"; tol_Effect := "NoSchedule" |} in
  {| d_Namespace := or_ns (eo_Namespace opt); d_Name := name; d_Labels := labels;
     d_OwnerReferences := [];
     d_Spec := {|
       ds_Replicas := 1; ds_Selector := {[ "app" := name ]}; ds_TemplateLabels := labels;
       ds_Pod := {|
         pod_Containers := [{|
           c_Name := "app"; c_Image := js_Image spec; c_Env := container_env spec;
           c_Command := []; c_Args := container_args spec; c_Ports := container_ports spec;
           c_SecurityContext := Some {|
             sc_AllowPrivilegeEscalation := Some (job_code_server spec);
             sc_RunAsNonRoot := Some true; sc_RunAsUser := None;
             sc_DropCapabilities := Some ["ALL"] |};
           c_ReadinessProbe := Some (http_probe (probe_port spec));
           c_LivenessProbe := Some (http_probe (probe_port spec));
           c_VolumeMounts := [] |}];
         pod_InitContainers := []; pod_Volumes := [];
         pod_Tolerations := [tol "node-role.kubernetes.io/control-plane";
                             tol "node-role.kubernetes.io/master"];
         pod_ImagePullSecrets := if String.eqb secret "" then [] else [secret];
         pod_SecurityContext := Some {| psc_RunAsUser := Some 1000;
           psc_RunAsGroup := Some 1000; psc_FSGroup := Some 1000;
           psc_SeccompProfile := None |} |};
       ds_RollingUpdate := None |};
     d_ReadyReplicas := 0 |}.

(** The branch for no ports at all cannot be taken, as the source notes. *)
Definition service_ports (spec : JobSpec) : list ServicePort :=
  let mirror cp := {| sp_Name := cp_Name cp; sp_Port := cp_ContainerPort cp;
                      sp_TargetPort := cp_ContainerPort cp; sp_NodePort := 0 |} in
  match js_Expose spec, container_ports spec with
  | [], [] => [{| sp_Name := "http"; sp_Port := 8080; sp_TargetPort := 8080; sp_NodePort := 0 |}]
  | _, cports =>
      match (λ p, {| sp_Name := if String.eqb (port_Name p) "" then "p-" +:+ fmt_d (port_Port p)
                                else port_Name p;
                     sp_Port := int32_of (port_Port p);
                     sp_TargetPort := int32_of (port_Port p); sp_NodePort := 0 |})
            <$> exposed spec with
      | [] => mirror <$> cports
      | sports => sports
      end
  end.

Definition job_service (spec : JobSpec) (opt : EnsureOpts) : Service :=
  let name := workload_name spec in
  {| s_Namespace := or_ns (eo_Namespace opt); s_Name := name;
     s_Labels := workload_labels name (workload_id spec opt);
     s_Annotations := if String.eqb (eo_LBPool opt) "" then ∅
                      else {[ "metallb.universe.tf/address-pool" := eo_LBPool opt ]};
     s_OwnerReferences := []; s_Selector := {[ "app" := name ]};
     s_Ports := service_ports spec;
     s_Type := if eo_LBEnabled opt then ServiceTypeLoadBalancer else ServiceTypeClusterIP;
     s_PublishNotReadyAddresses := true; s_ClusterIP := ""; s_Ingress := [] |}.

(** ** Ingress *)

Definition make_ingress (ns name host service : string) (port : Z) (tlsSecret : string)
    (annotations : gmap string string) (ingressClass : string) (owner : OwnerReference)
    : Ingress :=
  {| i_Namespace := ns; i_Name := name;
     i_Labels := list_to_map [("app", name); ("guildnet.io/managed", "true")];
     i_Annotations := annotations;
     i_OwnerReferences :=
       if String.eqb (or_Name owner) "" then []
       else [{| or_APIVersion := or_APIVersion owner; or_Kind := or_Kind owner;
                or_Name := or_Name owner; or_UID := or_UID owner;
                or_Controller := Some true; or_BlockOwnerDeletion := Some true |}];
     i_ClassName := if String.eqb ingressClass "" then None else Some ingressClass;
     i_Host := host; i_Path := "/"; i_PathType := "Prefix";
     i_BackendService := service; i_BackendPort := port;
     i_TLS := if String.eqb tlsSecret "" then [] else [([host], tlsSecret)] |}.

Definition err_of {A} (r : api_error + A) : option api_error :=
  match r with inl e => Some e | inr _ => None end.

Definition EnsureIngress (ns name host service : string) (port : Z) (tlsSecret : string)
    (annotations : gmap string string) (ingressClass : string) (owner : OwnerReference)
    : prog (option api_error) :=
  let ing := make_ingress ns name host service port tlsSecret annotations ingressClass owner in
  do got <- request (GetIngress ns name) ;
  match got with
  | inr _ => do r <- request (UpdateIngress ing) ; Ret (err_of r)
  | inl _ => do r <- request (CreateIngress ing) ; Ret (err_of r)
  end.

Definition no_owner : OwnerReference :=
  {| or_APIVersion := ""; or_Kind := ""; or_Name := ""; or_UID := "";
     or_Controller := None; or_BlockOwnerDeletion := None |}.

(** The ingress of a workload: host, TLS secret and annotations. *)
Definition ingress_host (id : string) (opt : EnsureOpts) : string :=
  id +:+ "." +:+ TrimSpace (eo_IngressDomain opt).

Definition wants_issuer (opt : EnsureOpts) : bool :=
  negb (String.eqb (TrimSpace (eo_CertManagerIssuer opt)) "")
  && String.eqb (TrimSpace (eo_IngressTLSSecret opt)) "".

Definition ingress_tls (id : string) (opt : EnsureOpts) : string :=
  if wants_issuer opt then "workspace-" +:+ id +:+ "-tls"
  else TrimSpace (eo_IngressTLSSecret opt).

Definition set_nonblank (k v : string) (m : gmap string string) : gmap string string :=
  let v := TrimSpace v in if String.eqb v "" then m else <[k := v]> m.

Definition ingress_annotations (opt : EnsureOpts) : gmap string string :=
  let base : gmap string string := list_to_map
    [("nginx.ingress.kubernetes.io/enable-websocket", "true");
     ("nginx.ingress.kubernetes.io/proxy-read-timeout", "3600");
     ("nginx.ingress.kubernetes.io/proxy-send-timeout", "3600");
     ("nginx.ingress.kubernetes.io/backend-protocol", "HTTP")] in
  let m := if wants_issuer opt
           then <["cert-manager.io/cluster-issuer" := TrimSpace (eo_CertManagerIssuer opt)]> base
           else base in
  set_nonblank "nginx.ingress.kubernetes.io/auth-signin" (eo_IngressAuthSignin opt)
    (set_nonblank "nginx.ingress.kubernetes.io/auth-url" (eo_IngressAuthURL opt) m).

(** ** EnsureDeploymentAndService *)

Definition apply_deployment (d : Deployment) : prog (option api_error) :=
  do got <- request (GetDeployment (d_Namespace d) (d_Name d)) ;
  match got with
  | inr _ => do r <- request (UpdateDeployment d) ; Ret (err_of r)
  | inl _ => do r <- request (CreateDeployment d) ; Ret (err_of r)
  end.

Definition apply_service (s : Service) : prog (option api_error) :=
  do got <- request (GetService (s_Namespace s) (s_Name s)) ;
  match got with
  | inr _ => do r <- request (UpdateService s) ; Ret (err_of r)
  | inl _ => do r <- request (CreateService s) ; Ret (err_of r)
  end.

(** Name, id and error. *)
Definition EnsureDeploymentAndService (spec : JobSpec) (opt : EnsureOpts)
    : prog (string * string * option api_error) :=
  let name := workload_name spec in
  let id := workload_id spec opt in
  do e1 <- apply_deployment (job_deployment spec opt) ;
  match e1 with
  | Some e => Ret ("", "", Some e)
  | None =>
      do e2 <- apply_service (job_service spec opt) ;
      match e2 with
      | Some e => Ret ("", "", Some e)
      | None =>
          if negb (String.eqb (TrimSpace (eo_IngressDomain opt)) "") && negb (eo_LBEnabled opt)
          then
            do e3 <- EnsureIngress (or_ns (eo_Namespace opt)) name (ingress_host id opt) name 8080
                       (ingress_tls id opt) (ingress_annotations opt)
                       (TrimSpace (eo_IngressClassName opt)) no_owner ;
            Ret (name, id, e3)
          else Ret (name, id, None)
      end
  end.

End ensure.

(** ** Deleting, listing, resolving *)

Fixpoint delete_deployments (ns : string) (l : list Deployment) : prog unit :=
  match l with
  | [] => Ret tt
  | d :: r => do _ <- request (DeleteDeployment ns (d_Name d)) ; delete_deployments ns r
  end.

Fixpoint delete_services (ns : string) (l : list Service) : prog unit :=
  match l with
  | [] => Ret tt
  | s :: r => do _ <- request (DeleteService ns (s_Name s)) ; delete_services ns r
  end.

Definition managed : selector := ("guildnet.io/managed", "true").

(** Always returns nil. *)
Definition DeleteManaged (ns : string) : prog unit :=
  let ns := or_ns ns in
  do deps <- request (ListDeployments ns managed) ;
  do _ <- match deps with inr l => delete_deployments ns l | inl _ => Ret tt end ;
  do svcs <- request (ListServices ns managed) ;
  match svcs with inr l => delete_services ns l | inl _ => Ret tt end.

(** Port choice: HTTPS first, then 8080, then the first one. *)
Definition is_https_port (p : Z) : bool := (p =? 8443) || (p =? 443).

Definition pick_port (ports : list ServicePort) : Z :=
  let p := match find_first (λ sp, is_https_port (sp_Port sp)) ports with
           | Some sp => sp_Port sp | None => 0 end in
  let p := if p =? 0 then
             match find_first (λ sp, sp_Port sp =? 8080) ports with
             | Some sp => sp_Port sp | None => 0 end
           else p in
  if p =? 0 then match ports with sp :: _ => sp_Port sp | [] => 0 end else p.

Definition first_container (d : Deployment) : option Container :=
  head (pod_Containers (ds_Pod (d_Spec d))).

Definition firstImage (d : Deployment) : string :=
  match first_container d with Some c => c_Image c | None => "" end.

(** The external URL of a service with a load balancer address. *)
Definition server_url (d : Deployment) (svc : Service) : string :=
  match s_Ingress svc with
  | [] => ""
  | i :: _ =>
      let ip := if String.eqb (lbi_IP i) "" then lbi_Hostname i else lbi_IP i in
      let p := match s_Ports svc with
               | _ :: _ => pick_port (s_Ports svc)
               | [] => match first_container d with
                       | Some c => match c_Ports c with
                                   | cp :: _ => cp_ContainerPort cp
                                   | [] => 8080
                                   end
                       | None => 8080
                       end
               end in
      if String.eqb ip "" then ""
      else (if is_https_port p then "https" else "http")
           +:+ "://" +:+ ip +:+ ":" +:+ fmt_d p +:+ "/"
  end.

(** Later entries win, as in the loop over the container's environment. *)
Definition env_of (l : list EnvVar) : gmap string string :=
  foldl (λ m e, <[env_Name e := env_Value e]> m) ∅ l.

Definition server_of (d : Deployment) (svc : api_error + Service) : Server :=
  let id := default "" (d_Labels d !! "guildnet.io/id") in
  let id := if String.eqb id "" then d_Name d else id in
  {| srv_ID := id; srv_Name := d_Name d; srv_Image := firstImage d;
     srv_Status := if 0 <? d_ReadyReplicas d then "running" else "pending";
     srv_Node := ""; srv_CreatedAt := ""; srv_UpdatedAt := "";
     srv_Ports := match svc with
                  | inr s => (λ sp, {| port_Port := sp_Port sp; port_Name := sp_Name sp |})
                               <$> s_Ports s
                  | inl _ => []
                  end;
     srv_Resources := None; srv_Args := [];
     srv_Env := match first_container d with Some c => env_of (c_Env c) | None => ∅ end;
     srv_Events := [];
     srv_URL := match svc with inr s => server_url d s | inl _ => "" end |}.

Fixpoint list_servers (ns : string) (l : list Deployment) : prog (list Server) :=
  match l with
  | [] => Ret []
  | d :: r =>
      do svc <- request (GetService ns (d_Name d)) ;
      do rest <- list_servers ns r ;
      Ret (server_of d svc :: rest)
  end.

Definition ListServers (ns : string) : prog (api_error + list Server) :=
  let ns := or_ns ns in
  do deps <- request (ListDeployments ns managed) ;
  match deps with
  | inl e => Ret (inl e)
  | inr l => do servers <- list_servers ns l ; Ret (inr servers)
  end.

(** The second half of [ResolveServiceAddress], on the service found. *)
Definition service_address (svc : Service) : result (string * Z * bool) :=
  if String.eqb (s_ClusterIP svc) "" || String.eqb (s_ClusterIP svc) "None"
  then Err "service has no clusterIP"
  else
    let https := match find_first (λ sp, is_https_port (sp_Port sp)) (s_Ports svc) with
                 | Some _ => true | None => false end in
    let p := pick_port (s_Ports svc) in
    if p =? 0 then Err "service has no ports" else Ok (s_ClusterIP svc, p, https).

Definition ResolveServiceAddress (ns idOrName : string) : prog (result (string * Z * bool)) :=
  let ns := or_ns ns in
  do got <- request (GetService ns idOrName) ;
  match got with
  | inr svc => Ret (service_address svc)
  | inl _ =>
      do lst <- request (ListServices ns ("guildnet.io/id", idOrName)) ;
      Ret (match lst with
           | inr (svc :: _) => service_address svc
           | _ => Err ("service not found for " +:+ idOrName)
           end)
  end.

Definition GetServer (ns idOrName : string) : prog (option Server) :=
  do l <- ListServers ns ;
  Ret (match l with
       | inl _ => None
       | inr servers =>
           find_first (λ s, String.eqb (srv_ID s) idOrName || String.eqb (srv_Name s) idOrName)
             servers
       end).

(** Log lines of the first pod; [now] stamps them. *)
Definition log_lines (now level data : string) : list LogLine :=
  (λ ln, {| ll_T := now; ll_LVL := level; ll_MSG := ln |}) <$> Split "010" (TrimSpace data).

Definition pod_logs (now ns level : string) (limit : Z) (dep : Deployment)
    : prog (option (list LogLine)) :=
  do pods <- request (ListPods ns ("app", d_Name dep)) ;
  match pods with
  | inr (pod :: _) =>
      do data <- request (PodLogs ns (p_Name pod) (default "" (head (p_Containers pod))) limit) ;
      Ret (match data with inl _ => None | inr d => Some (log_lines now level d) end)
  | _ => Ret None
  end.

Definition GetLogs (now ns idOrName level : string) (limit : Z) : prog (option (list LogLine)) :=
  let ns := or_ns ns in
  do got <- request (GetDeployment ns idOrName) ;
  match got with
  | inr dep => pod_logs now ns level limit dep
  | inl _ =>
      do lst <- request (ListDeployments ns ("guildnet.io/id", idOrName)) ;
      match lst with
      | inr (dep :: _) => pod_logs now ns level limit dep
      | _ => Ret None
      end
  end.

(** ** Lemmas *)

Section lemmas.
Context `{UnicodeCase}.

Definition dep_write (d : Deployment) (got : api_error + Deployment) (a : Deployment) : event :=
  match got with
  | inr _ => Ev (UpdateDeployment d) (inr a)
  | inl _ => Ev (CreateDeployment d) (inr a)
  end.

Definition svc_write (s : Service) (got : api_error + Service) (a : Service) : event :=
  match got with
  | inr _ => Ev (UpdateService s) (inr a)
  | inl _ => Ev (CreateService s) (inr a)
  end.

Definition ing_write (i : Ingress) (got : api_error + Ingress) (a : Ingress) : event :=
  match got with
  | inr _ => Ev (UpdateIngress i) (inr a)
  | inl _ => Ev (CreateIngress i) (inr a)
  end.

Lemma apply_deployment_ok d t :
  runs (apply_deployment d) t None →
  ∃ g a, t = [Ev (GetDeployment (d_Namespace d) (d_Name d)) g; dep_write d g a].
Proof.
  unfold apply_deployment. intros (g & t' & -> & Hr)%runs_req_bind.
  exists g. destruct g as [e|x];
    apply runs_req_bind in Hr as ([e'|a] & t'' & -> & [-> Hn]); try done; by exists a.
Qed.

Lemma apply_service_ok s t :
  runs (apply_service s) t None →
  ∃ g a, t = [Ev (GetService (s_Namespace s) (s_Name s)) g; svc_write s g a].
Proof.
  unfold apply_service. intros (g & t' & -> & Hr)%runs_req_bind.
  exists g. destruct g as [e|x];
    apply runs_req_bind in Hr as ([e'|a] & t'' & -> & [-> Hn]); try done; by exists a.
Qed.

Lemma EnsureIngress_ok ns name host service port tls anns cls owner t :
  runs (EnsureIngress ns name host service port tls anns cls owner) t None →
  ∃ g a, t = [Ev (GetIngress ns name) g;
              ing_write (make_ingress ns name host service port tls anns cls owner) g a].
Proof.
  unfold EnsureIngress. intros (g & t' & -> & Hr)%runs_req_bind.
  exists g. destruct g as [e|x];
    apply runs_req_bind in Hr as ([e'|a] & t'' & -> & [-> Hn]); try done; by exists a.
Qed.

Lemma container_ports_cons spec : ∃ p ps, container_ports spec = p :: ps.
Proof.
  unfold container_ports. destruct (_ <$> exposed spec) as [|p ps]; [|eauto].
  destruct (_ || _ || _); eauto.
Qed.

(** The service forwards to exactly the ports of the container. *)
Lemma service_ports_match spec :
  sp_TargetPort <$> service_ports spec = cp_ContainerPort <$> container_ports spec.
Proof.
  unfold service_ports. destruct (container_ports_cons spec) as (p & ps & Ep).
  destruct (exposed spec) as [|x xs] eqn:Ex.
  - rewrite Ep. destruct (js_Expose spec); simpl; f_equal;
    clear Ep; induction ps as [|q ps IH]; simpl; congruence.
  - assert (Hne : ∃ y ys, js_Expose spec = y :: ys).
    { destruct (js_Expose spec) as [|y ys] eqn:E; [|eauto].
      unfold exposed in Ex. by rewrite E in Ex. }
    destruct Hne as (y & ys & ->). unfold container_ports. rewrite Ex. simpl.
    f_equal. clear. induction xs as [|q qs IH]; simpl; congruence.
Qed.

Lemma labels_select name id :
  ({[ "app" := name ]} : gmap string string) ⊆ workload_labels name id.
Proof. apply map_singleton_subseteq_l. by vm_compute. Qed.

End lemmas.

Lemma find_first_none_fmap (p : Z → bool) ports :
  find_first (λ sp, p (sp_Port sp)) ports = None → ∀ q, q ∈ sp_Port <$> ports → p q = false.
Proof.
  rewrite find_first_None Forall_forall. intros HF q (sp & -> & Hsp)%list_elem_of_fmap. auto.
Qed.

(** What the port choice guarantees. *)
Lemma pick_port_spec ports :
  let ps := sp_Port <$> ports in
  (pick_port ports ≠ 0 → pick_port ports ∈ ps)
  ∧ (∀ q, q ∈ ps → is_https_port q = true → is_https_port (pick_port ports) = true)
  ∧ ((∀ q, q ∈ ps → is_https_port q = false) → 8080 ∈ ps → pick_port ports = 8080).
Proof.
  intros ps. unfold pick_port.
  destruct (find_first (λ sp, is_https_port (sp_Port sp)) ports) as [sp|] eqn:E1.
  - apply find_first_Some in E1 as [Hin Hs].
    assert (Hps : sp_Port sp ∈ ps) by (apply list_elem_of_fmap; eauto).
    assert (Hz : (sp_Port sp =? 0) = false)
      by (unfold is_https_port in Hs; bool_props; lia).
    cbv zeta. rewrite !Hz. split; [done|]. split; [done|]. intros Hno. by rewrite Hno in Hs.
  - pose proof (find_first_none_fmap _ _ E1) as Hno. simpl.
    destruct (find_first (λ sp, sp_Port sp =? 8080) ports) as [sp|] eqn:E2.
    + apply find_first_Some in E2 as [Hin Hs%Z.eqb_eq]. rewrite Hs. simpl.
      split; [intros _; apply list_elem_of_fmap; eauto|]. split; [|done].
      intros q Hq Ht. by rewrite Hno in Ht.
    + pose proof (find_first_none_fmap (λ p, p =? 8080) _ E2) as Hno2. simpl.
      split.
      * destruct ports; [done|]. intros _. apply list_elem_of_here.
      * split; [intros q Hq Ht; by rewrite Hno in Ht|].
        intros _ Hin. by apply Hno2 in Hin.
Qed.

Lemma delete_deployments_runs ns l t r : runs (delete_deployments ns l) t r →
  Forall2 (λ d e, ∃ a, e = Ev (DeleteDeployment ns (d_Name d)) a) l t.
Proof.
  revert t; induction l as [|d l IH]; intros t; simpl; [by intros [-> _]|].
  intros (a & t' & -> & Hr). constructor; [by exists a|]. by apply IH.
Qed.

Lemma delete_services_runs ns l t r : runs (delete_services ns l) t r →
  Forall2 (λ s e, ∃ a, e = Ev (DeleteService ns (s_Name s)) a) l t.
Proof.
  revert t; induction l as [|d l IH]; intros t; simpl; [by intros [-> _]|].
  intros (a & t' & -> & Hr). constructor; [by exists a|]. by apply IH.
Qed.

(** ** Properties *)

(** C25: creating a workload.  When [EnsureDeploymentAndService] reports
    success it has read and then written the Deployment, read and then written
    the Service (created when the read failed, updated otherwise), and, exactly
    when a domain is configured and no load balancer is, the Ingress.  The
    service selects the pods of that deployment and forwards to exactly the
    container's ports; the ingress, though, always points at port 8080. *)
Theorem EnsureDeploymentAndService_ok `{UnicodeCase} spec opt t n i :
  runs (EnsureDeploymentAndService spec opt) t (n, i, None) →
  let d := job_deployment spec opt in
  let s := job_service spec opt in
  let ns := or_ns (eo_Namespace opt) in
  let ing := make_ingress ns n (ingress_host i opt) n 8080 (ingress_tls i opt)
               (ingress_annotations opt) (TrimSpace (eo_IngressClassName opt)) no_owner in
  n = workload_name spec ∧ i = workload_id spec opt
  ∧ s_Selector s ⊆ ds_TemplateLabels (d_Spec d)
  ∧ (∃ c, pod_Containers (ds_Pod (d_Spec d)) = [c]
      ∧ sp_TargetPort <$> s_Ports s = cp_ContainerPort <$> c_Ports c)
  ∧ ∃ g1 a1 g2 a2 ti,
      t = [Ev (GetDeployment ns n) g1; dep_write d g1 a1;
           Ev (GetService ns n) g2; svc_write s g2 a2] ++ ti
      ∧ if negb (String.eqb (TrimSpace (eo_IngressDomain opt)) "") && negb (eo_LBEnabled opt)
        then ∃ g3 a3, ti = [Ev (GetIngress ns n) g3; ing_write ing g3 a3]
        else ti = [].
Proof.
  intros Hr d s ns ing. unfold EnsureDeploymentAndService in Hr.
  apply runs_bind in Hr as (t1 & t2 & e1 & -> & H1 & H2).
  destruct e1; [by destruct H2|]. apply apply_deployment_ok in H1 as (g1 & a1 & ->).
  apply runs_bind in H2 as (t3 & t4 & e2 & -> & H3 & H4).
  destruct e2; [by destruct H4|]. apply apply_service_ok in H3 as (g2 & a2 & ->).
  assert (Hni : n = workload_name spec ∧ i = workload_id spec opt
    ∧ if negb (String.eqb (TrimSpace (eo_IngressDomain opt)) "") && negb (eo_LBEnabled opt)
      then ∃ g3 a3, t4 = [Ev (GetIngress ns n) g3; ing_write ing g3 a3]
      else t4 = []).
  { destruct (_ && _).
    - apply runs_bind in H4 as (t5 & t6 & e3 & -> & H5 & [-> Hn]). simplify_eq.
      apply EnsureIngress_ok in H5 as (g3 & a3 & ->). rewrite app_nil_r. eauto.
    - by destruct H4 as [-> [= -> ->]]. }
  destruct Hni as (-> & -> & Hti).
  split; [done|]. split; [done|]. split; [apply labels_select|]. split.
  { eexists. split; [reflexivity|]. apply service_ports_match. }
  exists g1, a1, g2, a2, t4. split; [done|exact Hti].
Qed.

Definition demo_job : JobSpec :=
  {| js_Name := "My App"; js_Image := "ghcr.io/acme/app:1"; js_Args := []; js_Env := ∅;
     js_Resources := None; js_Labels := ∅;
     js_Expose := [{| port_Port := 3000; port_Name := "web" |}] |}.

Definition demo_opt : EnsureOpts :=
  {| eo_Namespace := ""; eo_ID := ""; eo_ImagePullSecret := ""; eo_LBEnabled := false;
     eo_LBPool := ""; eo_IngressDomain := "example.org"; eo_IngressTLSSecret := "";
     eo_IngressClassName := "nginx"; eo_CertManagerIssuer := ""; eo_IngressAuthURL := "";
     eo_IngressAuthSignin := "" |}.

Definition demo_ensure : prog (string * string * option api_error) :=
  @EnsureDeploymentAndService ascii_case demo_job demo_opt.

(** A service on port 3000 gets an ingress to port 8080. *)
Lemma EnsureDeploymentAndService_ok_witness :
  (exec mem_server demo_ensure empty_kube).2 = ("my-app", "my-app", None)
  ∧ sp_Port <$> @service_ports ascii_case demo_job = [3000]
  ∧ i_BackendPort <$> ks_ing (exec mem_server demo_ensure empty_kube).1 !! ("default", "my-app")
    = Some 8080
  ∧ "my-app" = @workload_name ascii_case demo_job.
Proof.
  split; [vm_compute; reflexivity|]. split; [vm_compute; reflexivity|].
  split; [vm_compute; reflexivity|].
  apply (@EnsureDeploymentAndService_ok ascii_case demo_job demo_opt
           (exec_trace mem_server demo_ensure empty_kube) "my-app" "my-app").
  assert (E : (exec mem_server demo_ensure empty_kube).2 = ("my-app", "my-app", None))
    by (vm_compute; reflexivity).
  rewrite -E. apply exec_runs.
Defined.

(** Address resolution.  A resolved address is the service's own cluster
    IP with one of its ports; the flag says whether the service has an HTTPS
    port (8443 or 443), and then the port is one; otherwise 8080 is chosen when
    the service has it. *)
Theorem service_address_spec (svc : Service) host p https :
  service_address svc = Ok (host, p, https) →
  let ps := sp_Port <$> s_Ports svc in
  host = s_ClusterIP svc ∧ host ≠ "" ∧ host ≠ "None" ∧ p ∈ ps
  ∧ (https = true ↔ ∃ q, q ∈ ps ∧ is_https_port q = true)
  ∧ https = is_https_port p
  ∧ (https = false → 8080 ∈ ps → p = 8080).
Proof.
  unfold service_address.
  destruct (String.eqb_spec (s_ClusterIP svc) "") as [|Hc]; [done|].
  destruct (String.eqb_spec (s_ClusterIP svc) "None") as [|Hn]; [done|]. simpl.
  destruct (pick_port_spec (s_Ports svc)) as (Hin & Hs & H8).
  destruct (pick_port (s_Ports svc) =? 0) eqn:Ez; [done|]. bool_props.
  intros [= <- <- <-]. specialize (Hin Ez).
  assert (Hiff : (match find_first (λ sp, is_https_port (sp_Port sp)) (s_Ports svc) with
                  | Some _ => true | None => false end) = true
                 ↔ ∃ q, q ∈ sp_Port <$> s_Ports svc ∧ is_https_port q = true).
  { destruct (find_first _ _) as [sp|] eqn:E.
    - apply find_first_Some in E as [Hsp Ht]. split; [|done]. intros _.
      exists (sp_Port sp). split; [|done]. apply list_elem_of_fmap. eauto.
    - split; [done|]. intros (q & Hq & Ht).
      by rewrite (find_first_none_fmap _ _ E q Hq) in Ht. }
  split_and!; try done.
  - destruct (match find_first _ _ with Some _ => true | None => false end) eqn:E.
    + destruct Hiff as [(q & Hq & Ht) _]; [done|]. by rewrite (Hs q).
    + destruct (is_https_port (pick_port (s_Ports svc))) eqn:Ep; [|done].
      destruct Hiff as [_ Hi]. by specialize (Hi (ex_intro _ _ (conj Hin Ep))).
  - intros E. apply H8. intros q Hq. destruct (is_https_port q) eqn:Eq; [|done].
    destruct Hiff as [_ Hi]. specialize (Hi (ex_intro _ q (conj Hq Eq))). congruence.
Qed.

Definition demo_svc : Service :=
  {| s_Namespace := "default"; s_Name := "app"; s_Labels := ∅; s_Annotations := ∅;
     s_OwnerReferences := []; s_Selector := ∅;
     s_Ports := [{| sp_Name := "web"; sp_Port := 3000; sp_TargetPort := 3000; sp_NodePort := 0 |};
                 {| sp_Name := "tls"; sp_Port := 8443; sp_TargetPort := 8443; sp_NodePort := 0 |}];
     s_Type := ServiceTypeClusterIP; s_PublishNotReadyAddresses := true;
     s_ClusterIP := "10.0.0.9"; s_Ingress := [] |}.

Lemma service_address_spec_witness :
  service_address demo_svc = Ok ("10.0.0.9", 8443, true)
  ∧ 8443 ∈ sp_Port <$> s_Ports demo_svc.
Proof.
  split; [vm_compute; reflexivity|].
  apply (service_address_spec demo_svc "10.0.0.9" 8443 true). vm_compute. reflexivity.
Defined.

(** Deleting managed workloads.  Every run of [DeleteManaged] lists the
    managed deployments and deletes exactly those, in order, then does the same
    for the services; a failed list deletes nothing of its kind, a failed
    delete does not stop the others, and no other request is made. *)
Theorem DeleteManaged_exact ns t :
  runs (DeleteManaged ns) t tt →
  ∃ deps td svcs ts,
    t = Ev (ListDeployments (or_ns ns) managed) deps :: td
        ++ Ev (ListServices (or_ns ns) managed) svcs :: ts
    ∧ Forall2 (λ d e, ∃ a, e = Ev (DeleteDeployment (or_ns ns) (d_Name d)) a)
        (match deps with inr l => l | inl _ => [] end) td
    ∧ Forall2 (λ s e, ∃ a, e = Ev (DeleteService (or_ns ns) (s_Name s)) a)
        (match svcs with inr l => l | inl _ => [] end) ts.
Proof.
  unfold DeleteManaged. intros (deps & t' & -> & Hr)%runs_req_bind.
  apply runs_bind in Hr as (td & t2 & a & -> & H1 & H2).
  apply runs_req_bind in H2 as (svcs & ts & -> & H3).
  exists deps, td, svcs, ts. split; [done|]. split.
  - destruct deps; [by destruct H1 as [-> _]|]. by eapply delete_deployments_runs.
  - destruct svcs; [by destruct H3 as [-> _]|]. by eapply delete_services_runs.
Qed.

Definition demo_delete_trace : trace :=
  exec_trace mem_server (DeleteManaged "")
    (exec mem_server demo_ensure empty_kube).1.

Lemma DeleteManaged_exact_witness :
  length demo_delete_trace = 4%nat
  ∧ ∃ deps td svcs ts,
      demo_delete_trace = Ev (ListDeployments "default" managed) deps :: td
        ++ Ev (ListServices "default" managed) svcs :: ts
      ∧ Forall2 (λ d e, ∃ a, e = Ev (DeleteDeployment "default" (d_Name d)) a)
          (match deps with inr l => l | inl _ => [] end) td
      ∧ Forall2 (λ s e, ∃ a, e = Ev (DeleteService "default" (s_Name s)) a)
          (match svcs with inr l => l | inl _ => [] end) ts.
Proof.
  split; [vm_compute; reflexivity|].
  apply (DeleteManaged_exact "" demo_delete_trace).
  assert (E : (exec mem_server (DeleteManaged "") (exec mem_server demo_ensure empty_kube).1).2
              = tt) by (vm_compute; reflexivity).
  unfold demo_delete_trace. rewrite -E. apply exec_runs.
Defined.
