(* ===== verification/DbDiscovery.v ===== *)
(** * Finding the database (internal/db/db.go and cluster.go)

    [AutoDiscoverAddr] and the discovery half of [ConnectForK8s]: both pick a
    RethinkDB address from the environment and the cluster's service.  They
    are written independently in the source and are modelled as written. *)

From S2P Require Import Prelude GoStrings Values Prog K8sTypes KubeApi.

Local Open Scope Z_scope.

(** The process environment; unset variables read as the empty string. *)
Definition env_map : Type := string → string.

Definition trim_or (v dflt : string) : string :=
  let v := TrimSpace v in if String.eqb v "" then dflt else v.

Definition hostport (host : string) (port : Z) : string := host +:+ ":" +:+ fmt_d port.

Definition is_client_port (sp : ServicePort) : bool :=
  String.eqb (sp_Name sp) "client" || (sp_Port sp =? 28015).

(** [port] after the loop that looks for the client port. *)
Definition client_port (ports : list ServicePort) : Z :=
  match find_first is_client_port ports with Some sp => sp_Port sp | None => 28015 end.

(** [nodePort] after its loop and the fallback to the first port. *)
Definition client_node_port (ports : list ServicePort) : Z :=
  let np := match find_first is_client_port ports with
            | Some sp => sp_NodePort sp | None => 0 end in
  if np =? 0 then match ports with sp :: _ => sp_NodePort sp | [] => 0 end else np.

Definition lb_host (ing : list LoadBalancerIngress) : string :=
  match ing with
  | [] => ""
  | i :: _ => if String.eqb (lbi_IP i) "" then lbi_Hostname i else lbi_IP i
  end.

Definition usable_address (a : NodeAddress) : bool :=
  (String.eqb (na_Type a) NodeExternalIP && negb (String.eqb (TrimSpace (na_Address a)) ""))
  || (String.eqb (na_Type a) NodeInternalIP && negb (String.eqb (TrimSpace (na_Address a)) "")).

Definition has_cluster_ip (svc : Service) : bool :=
  negb (String.eqb (s_ClusterIP svc) "") && negb (String.eqb (s_ClusterIP svc) "None").

(** ** AutoDiscoverAddr *)

(** The nested loop over nodes and addresses, returning from inside. *)
Fixpoint node_address_in (addrs : list NodeAddress) : option string :=
  match addrs with
  | [] => None
  | a :: r => if usable_address a then Some (na_Address a) else node_address_in r
  end.

Fixpoint node_address (nodes : list Node) : option string :=
  match nodes with
  | [] => None
  | n :: r => match node_address_in (node_Addresses n) with
              | Some a => Some a
              | None => node_address r
              end
  end.

Definition cluster_ip_addr (svc : Service) : string :=
  if has_cluster_ip svc then hostport (s_ClusterIP svc) (client_port (s_Ports svc)) else "".

(** Discovery through the API server, with its early returns. *)
Definition discover_service (env : env_map) : prog string :=
  let svcName := trim_or (env "RETHINKDB_SERVICE_NAME") "rethinkdb" in
  let ns := trim_or (env "RETHINKDB_NAMESPACE") "default" in
  do got <- request (GetService ns svcName) ;
  match got with
  | inl _ => Ret ""
  | inr svc =>
      let host := lb_host (s_Ingress svc) in
      let port := client_port (s_Ports svc) in
      if negb (String.eqb host "") && (0 <? port) then Ret (hostport host port)
      else
        let nodePort := client_node_port (s_Ports svc) in
        if String.eqb (s_Type svc) ServiceTypeNodePort && (0 <? nodePort) then
          do nodes <- request ListNodes ;
          Ret (match nodes with
               | inr ns => match node_address ns with
                           | Some a => hostport a nodePort
                           | None => cluster_ip_addr svc
                           end
               | inl _ => cluster_ip_addr svc
               end)
        else Ret (cluster_ip_addr svc)
  end.

Definition is_loopback (v : string) : bool :=
  String.eqb v "127.0.0.1:28015" || HasPrefix v "127." || HasPrefix v "localhost".

(** [client]: whether a Kubernetes client can be built; [ns_file]: the contents
    of the service account's namespace file. *)
Definition AutoDiscoverAddr (env : env_map) (client : bool) (ns_file : option string)
    : prog string :=
  let v := TrimSpace (env "RETHINKDB_ADDR") in
  if negb (String.eqb v "") then Ret (if is_loopback (TrimSpace v) then "" else v)
  else if String.eqb (TrimSpace (env "KUBERNETES_SERVICE_HOST")) "" then
    if client then discover_service env else Ret ""
  else
    let host := TrimSpace (env "RETHINKDB_SERVICE_HOST") in
    let port := trim_or (env "RETHINKDB_SERVICE_PORT") "28015" in
    if negb (String.eqb host "") then Ret (host +:+ ":" +:+ port)
    else
      let svc := trim_or (env "RETHINKDB_SERVICE_NAME") "rethinkdb" in
      let ns := TrimSpace (env "RETHINKDB_NAMESPACE") in
      let ns := if String.eqb ns "" then
                  match ns_file with Some b => TrimSpace b | None => "" end
                else ns in
      Ret (if String.eqb ns "" then svc +:+ ":28015"
           else svc +:+ "." +:+ ns +:+ ".svc.cluster.local:28015").

(** ** ConnectForK8s *)

(** The same search written with a variable and break. *)
Definition scan_addresses (nodePort : Z) (addr : string) (addrs : list NodeAddress) : string :=
  match find_first usable_address addrs with
  | Some a => hostport (na_Address a) nodePort
  | None => addr
  end.

Fixpoint scan_nodes (nodePort : Z) (addr : string) (nodes : list Node) : string :=
  match nodes with
  | [] => addr
  | n :: r =>
      let addr' := scan_addresses nodePort addr (node_Addresses n) in
      if negb (String.eqb addr' "") then addr' else scan_nodes nodePort addr' r
  end.

(** The address [ConnectForK8s] connects to; the empty string makes it fail. *)
Definition k8s_address (env : env_map) (addrOverride : string) : prog string :=
  let addr := TrimSpace addrOverride in
  if negb (String.eqb addr "") then Ret addr
  else
    let svcName := trim_or (env "RETHINKDB_SERVICE_NAME") "rethinkdb" in
    let ns := trim_or (env "RETHINKDB_NAMESPACE") "default" in
    do got <- request (GetService ns svcName) ;
    match got with
    | inl _ => Ret addr
    | inr svc =>
        let host := lb_host (s_Ingress svc) in
        let port := client_port (s_Ports svc) in
        let addr := if negb (String.eqb host "") && (0 <? port)
                    then hostport host port else addr in
        let nodePort := client_node_port (s_Ports svc) in
        do addr <- (if String.eqb addr "" && String.eqb (s_Type svc) ServiceTypeNodePort
                       && (0 <? nodePort)
                    then do nodes <- request ListNodes ;
                         Ret (match nodes with
                              | inr l => scan_nodes nodePort addr l
                              | inl _ => addr
                              end)
                    else Ret addr) ;
        Ret (if String.eqb addr "" && has_cluster_ip svc
             then hostport (s_ClusterIP svc) (client_port (s_Ports svc)) else addr)
    end.

(** [r.Connect] is a parameter: a session or an error. *)
Definition ConnectForK8s {S} (connect : string → string → string → result S)
    (env : env_map) (addrOverride user pass : string) : prog (result S) :=
  do addr <- k8s_address env addrOverride ;
  Ret (if String.eqb addr "" then
         Err ("rethinkdb: no in-cluster service address discovered for service '"
              +:+ env "RETHINKDB_SERVICE_NAME" +:+ "' in namespace '"
              +:+ env "RETHINKDB_NAMESPACE" +:+ "'")
       else match connect addr (TrimSpace user) (TrimSpace pass) with
            | Ok s => Ok s
            | Err e => Err ("rethinkdb connect failed addr=" +:+ addr +:+ ": " +:+ e)
            end).

(** [ConnectWithOptions] and [ConnectWithSettings] have the same body. *)
Definition ConnectWithOptions {S} (connect : string → string → string → result S)
    (address user pass : string) : result S :=
  let addr := TrimSpace address in
  if String.eqb addr "" then
    Err "rethinkdb: explicit address required; RethinkDB must run inside the Kubernetes cluster"
  else match connect addr (TrimSpace user) (TrimSpace pass) with
       | Ok s => Ok s
       | Err e => Err ("rethinkdb connect failed addr=" +:+ addr +:+ ": " +:+ e)
       end.

(** ** Lemmas *)

Lemma hostport_nonempty h p : String.eqb (hostport h p) "" = false.
Proof. unfold hostport. by destruct h. Qed.

Lemma node_address_in_find addrs :
  node_address_in addrs = na_Address <$> find_first usable_address addrs.
Proof. induction addrs as [|a r IH]; [done|]. simpl. by destruct (usable_address a). Qed.

Lemma scan_nodes_address nodePort nodes :
  scan_nodes nodePort "" nodes
  = match node_address nodes with Some a => hostport a nodePort | None => "" end.
Proof.
  induction nodes as [|n r IH]; [done|]. cbn [scan_nodes node_address].
  unfold scan_addresses. rewrite node_address_in_find.
  destruct (find_first usable_address (node_Addresses n)); simpl; [|done].
  by rewrite hostport_nonempty.
Qed.

Lemma k8s_address_discover env t a :
  runs (k8s_address env "") t a ↔ runs (discover_service env) t a.
Proof.
  unfold k8s_address, discover_service.
  change (TrimSpace "") with "". cbv zeta. change (negb (String.eqb "" "")) with false.
  cbv iota.
  cbn [bind request runs].
  assert (HE : ∀ (p q : api_error + Service → prog string),
    (∀ r t, runs (p r) t a ↔ runs (q r) t a) →
    (∃ r t', t = Ev (GetService (trim_or (env "RETHINKDB_NAMESPACE") "default")
        (trim_or (env "RETHINKDB_SERVICE_NAME") "rethinkdb")) r :: t' ∧ runs (p r) t' a)
    ↔ (∃ r t', t = Ev (GetService (trim_or (env "RETHINKDB_NAMESPACE") "default")
        (trim_or (env "RETHINKDB_SERVICE_NAME") "rethinkdb")) r :: t' ∧ runs (q r) t' a)).
  { intros p q Hpq. split; intros (r & t' & -> & Hr); exists r, t'; split; try done;
      by apply Hpq. }
  apply HE. clear. intros [e|svc] t; [done|].
  set (host := lb_host (s_Ingress svc)). set (port := client_port (s_Ports svc)).
  set (np := client_node_port (s_Ports svc)).
  destruct (negb (String.eqb host "") && (0 <? port)).
  { rewrite hostport_nonempty. simpl. by rewrite hostport_nonempty. }
  rewrite String.eqb_refl. cbn [andb].
  destruct (String.eqb (s_Type svc) ServiceTypeNodePort && (0 <? np)); [|reflexivity].
  cbn [bind request runs]. unfold cluster_ip_addr.
  assert (Hn : ∀ (r : api_error + list Node) t', runs (E := call) (bind (Ret r) (λ nodes,
      bind (Ret (match nodes with inl _ => "" | inr l => scan_nodes np "" l end))
        (λ addr, Ret (if String.eqb addr "" && has_cluster_ip svc
           then hostport (s_ClusterIP svc) (client_port (s_Ports svc)) else addr)))) t' a
    ↔ runs (E := call) (Ret (match r with
       | inl _ => cluster_ip_addr svc
       | inr l => match node_address l with Some x => hostport x np
                  | None => cluster_ip_addr svc end end)) t' a).
  { intros [e|nodes] t'; [done|]. cbn [bind]. rewrite scan_nodes_address.
    destruct (node_address nodes); [by rewrite hostport_nonempty|done]. }
  split; intros (r & t' & -> & Hr); exists r, t'; (split; [done|]); by apply Hn.
Qed.

(** ** Properties *)

(** The two discovery procedures agree.  Outside a cluster and without
    explicit configuration, [AutoDiscoverAddr] and [ConnectForK8s] make the
    same requests and settle on the same address; and [ConnectForK8s] connects
    to that address exactly, or reports that none was found. *)
Theorem discovery_agrees {S} (connect : string → string → string → result S)
    (env : env_map) ns_file user pass t :
  TrimSpace (env "RETHINKDB_ADDR") = "" →
  TrimSpace (env "KUBERNETES_SERVICE_HOST") = "" →
  (∀ a, runs (AutoDiscoverAddr env true ns_file) t a ↔ runs (k8s_address env "") t a)
  ∧ (∀ r, runs (ConnectForK8s connect env "" user pass) t r →
      ∃ a, runs (AutoDiscoverAddr env true ns_file) t a
        ∧ (is_ok r = true → a ≠ "" ∧ connect a (TrimSpace user) (TrimSpace pass) = r)).
Proof.
  intros Ha Hk.
  assert (Heq : ∀ a, runs (AutoDiscoverAddr env true ns_file) t a
                     ↔ runs (k8s_address env "") t a).
  { intros a. rewrite k8s_address_discover. unfold AutoDiscoverAddr. by rewrite Ha Hk. }
  split; [done|]. intros r. unfold ConnectForK8s.
  intros (t1 & t2 & a & -> & H1 & [-> ->])%runs_bind. rewrite app_nil_r in Heq |- *.
  exists a. split; [by apply Heq|]. destruct (String.eqb_spec a ""); [done|].
  by destruct (connect a (TrimSpace user) (TrimSpace pass)).
Qed.

Definition rethink_service : Service :=
  {| s_Namespace := "default"; s_Name := "rethinkdb"; s_Labels := ∅; s_Annotations := ∅;
     s_OwnerReferences := []; s_Selector := ∅;
     s_Ports := [{| sp_Name := "http"; sp_Port := 8080; sp_TargetPort := 8080; sp_NodePort := 0 |};
                 {| sp_Name := "client"; sp_Port := 28015; sp_TargetPort := 28015;
                    sp_NodePort := 30815 |}];
     s_Type := ServiceTypeClusterIP; s_PublishNotReadyAddresses := false;
     s_ClusterIP := "10.96.0.7"; s_Ingress := [] |}.

Definition rethink_kube : kube_state :=
  set_svc empty_kube {[ ("default", "rethinkdb") := rethink_service ]}.

Lemma discovery_agrees_witness :
  (exec mem_server (k8s_address (λ _, "") "") rethink_kube).2 = "10.96.0.7:28015"
  ∧ runs (k8s_address (λ _, "") "")
      (exec_trace mem_server (AutoDiscoverAddr (λ _, "") true None) rethink_kube)
      (exec mem_server (AutoDiscoverAddr (λ _, "") true None) rethink_kube).2.
Proof.
  split; [vm_compute; reflexivity|].
  apply (discovery_agrees (λ a _ _, Ok a) (λ _, "") None "" "").
  - vm_compute. reflexivity.
  - vm_compute. reflexivity.
  - apply exec_runs.
Defined.
