(* ===== verification/DbManager.v ===== *)
(** * The database manager (internal/db/db.go)

    Per-organisation databases on a RethinkDB cluster: creating databases and
    tables, rows, schemas, the audit trail, change feeds.  The cluster is
    reached through the class [Rethink], one method per query the package
    runs; [RethinkLaws] states what the RethinkDB documentation says about
    them.  A method may fail at any time, and returns the state of the cluster
    and the connection afterwards either way. *)

From stdpp Require Import sorting.
From S2P Require Import Prelude GoStrings Values Names.

Local Open Scope Z_scope.

(** ** The database *)

(** [Table(t)[.Between(..)][.OrderBy(index)].Limit(n)]: bounds are open, an
    empty index means a plain scan. *)
Record query : Type := {
  q_db : string;
  q_table : string;
  q_index : string;
  q_after : option string;
  q_before : option string;
  q_desc : bool;
  q_limit : Z
}.

Class Rethink (σ : Type) := {
  db_list : σ → σ * result (list string);
  db_create : σ → string → σ * result unit;
  db_drop : σ → string → σ * result unit;
  table_create : σ → string → string → string → σ * result unit;
  table_scan : σ → string → string → σ * result (list doc);
  (** the generated keys; [true] means conflict: "replace" *)
  tb_insert : σ → string → string → list doc → bool → σ * result (list string);
  tb_get : σ → string → string → string → σ * result (option doc);
  tb_update : σ → string → string → string → doc → σ * result unit;
  tb_delete : σ → string → string → string → σ * result unit;
  tb_query : σ → query → σ * result (list doc);
  (** [OrderBy desc id, Limit n] on a table *)
  tb_latest : σ → string → string → Z → σ * result (list doc)
}.

(** How the driver encodes the structs it is given. *)
Class Codec := {
  enc_table : Table → doc;
  dec_table : doc → result Table;
  enc_audit : AuditEvent → doc;
  dec_audit : doc → result AuditEvent
}.

(** ** Errors and retries *)

Section errors.
Context `{UnicodeCase}.

Definition isTransientErr (e : string) : bool :=
  let s := ToLower e in
  Contains s "no primary replica" || Contains s "not available"
  || Contains s "connection reset" || Contains s "broken pipe"
  || Contains s "timed out" || Contains s "eof".

Definition ClassifyError (err : option string) : string :=
  match err with
  | None => "none"
  | Some e =>
      let s := ToLower e in
      if isTransientErr e then "transient"
      else if Contains s "auth" || Contains s "unauthorized" || Contains s "permission"
      then "auth"
      else if Contains s "no such table" || Contains s "no such database"
              || Contains s "missing"
      then "schema"
      else "fatal"
  end.

Definition retryable (e : string) : bool :=
  isTransientErr e || Contains (ToLower e) "no such database" || Contains (ToLower e) "db".

(** One try and up to [n] more while [again] accepts the error. *)
Fixpoint attempts {σ A} (again : string → bool) (n : nat)
    (op : σ → σ * result A) (s : σ) : σ * result A :=
  match op s with
  | (s', Ok a) => (s', Ok a)
  | (s', Err e) =>
      if again e then
        match n with O => (s', Err e) | S n' => attempts again n' op s' end
      else (s', Err e)
  end.

(** [attempts < 1] counts as one. *)
Definition retryTransient {σ} (n : Z) (fn : σ → σ * result unit) (s : σ) : σ * result unit :=
  attempts retryable (Z.to_nat (Z.max 1 n - 1)) fn s.

End errors.

(** ** Operations *)

Section manager.
Context `{UC : UnicodeCase} {σ : Type} `{R : Rethink σ} `{CD : Codec}.

(** Sequencing of fallible steps. *)
Definition bind_r {A B} (m : σ * result A) (k : σ → A → σ * result B) : σ * result B :=
  match m with
  | (s, Ok a) => k s a
  | (s, Err e) => (s, Err e)
  end.

(** A create whose "already exists" error is ignored. *)
Definition create_table_once (dbn t : string) (s : σ) : σ * result unit :=
  match table_create s dbn t "id" with
  | (s', Err e) => if Contains e "already exists" then (s', Ok tt) else (s', Err e)
  | r => r
  end.

Definition ensureMetaTables (s : σ) (orgID dbID : string) : σ * result unit :=
  let dbn := dbName orgID dbID in
  bind_r (retryTransient 5 (create_table_once dbn "_schemas") s) (λ s _,
  bind_r (retryTransient 5 (create_table_once dbn "_audit") s) (λ s _,
  retryTransient 5 (create_table_once dbn "_info") s)).

Definition EnsureDatabase (s : σ) (orgID dbID : string) : σ * result unit :=
  let name := dbName orgID dbID in
  bind_r (attempts isTransientErr 2 db_list s) (λ s dbs,
  bind_r (if existsb (String.eqb name) dbs then (s, Ok tt)
          else attempts isTransientErr 2 (λ s, db_create s name) s) (λ s _,
  ensureMetaTables s orgID dbID)).

(** [nano] is the clock reading used for a missing id. *)
Definition InsertAudit (s : σ) (orgID dbID : string) (nano : Z) (ev : AuditEvent)
    : σ * result unit :=
  let ev := if String.eqb (ae_ID ev) "" then
              {| ae_ID := "a-" +:+ fmt_d nano; ae_Scope := ae_Scope ev;
                 ae_ScopeID := ae_ScopeID ev; ae_Actor := ae_Actor ev;
                 ae_Action := ae_Action ev; ae_Diff := ae_Diff ev; ae_TS := ae_TS ev |}
            else ev in
  bind_r (ensureMetaTables s orgID dbID) (λ s _,
  bind_r (tb_insert s (dbName orgID dbID) "_audit" [enc_audit ev] false) (λ s _, (s, Ok tt))).

Definition audit (id : string) (scope : AuditScope) (scopeID action : string) (diff : any)
    (ts : string) : AuditEvent :=
  {| ae_ID := id; ae_Scope := scope; ae_ScopeID := scopeID; ae_Actor := "system";
     ae_Action := action; ae_Diff := diff; ae_TS := ts |}.

(** Best effort: the outcome of an audit write is discarded. *)
Definition audited (s : σ) (orgID dbID : string) (nano : Z) (ev : AuditEvent) : σ :=
  (InsertAudit s orgID dbID nano ev).1.

(** Readings of the clock: [model.NowISO()] and [time.Now().UnixNano()], in the
    order they are taken. *)
Record clock : Type := { iso : nat → string; nano : nat → Z }.

(** A table with its name as a value, for the audit record. *)
Definition with_created (tbl : Table) (dbn created : string) : Table :=
  {| tbl_ID := tbl_ID tbl; tbl_DatabaseID := dbn; tbl_Name := tbl_Name tbl;
     tbl_PrimaryKey := tbl_PrimaryKey tbl; tbl_TTL := tbl_TTL tbl;
     tbl_Schema := tbl_Schema tbl; tbl_CreatedAt := created |}.

Definition pk_or_id (pk : string) : string := if String.eqb pk "" then "id" else pk.

Definition CreateTable (ck : clock) (s : σ) (orgID dbID : string) (tbl : Table)
    : σ * result unit :=
  let tbl := {| tbl_ID := tbl_ID tbl; tbl_DatabaseID := tbl_DatabaseID tbl;
                tbl_Name := tbl_Name tbl; tbl_PrimaryKey := pk_or_id (tbl_PrimaryKey tbl);
                tbl_TTL := tbl_TTL tbl; tbl_Schema := tbl_Schema tbl;
                tbl_CreatedAt := tbl_CreatedAt tbl |} in
  let dbn := dbName orgID dbID in
  bind_r (EnsureDatabase s orgID dbID) (λ s _,
  bind_r (match table_create s dbn (tbl_Name tbl) (tbl_PrimaryKey tbl) with
          | (s', Err e) => if Contains e "already exists" then (s', Ok tt) else (s', Err e)
          | r => r
          end) (λ s _,
  bind_r (create_table_once dbn "_schemas" s) (λ s _,
  let tbl := with_created tbl dbn (iso ck 0) in
  bind_r (tb_insert s dbn "_schemas" [enc_table tbl] true) (λ s _,
  let s := (ensureMetaTables s orgID dbID).1 in
  (audited s orgID dbID (nano ck 0)
     (audit (tbl_ID tbl +:+ "/schema") ScopeTable (tbl_ID tbl) "create_table"
        (obj_of (enc_table tbl)) (iso ck 1)), Ok tt))))).

(** The stored creation time, when the record can be read and decoded. *)
Definition existing_created (r : result (option doc)) : string :=
  match r with
  | Ok (Some d) => match dec_table d with Ok t => tbl_CreatedAt t | Err _ => "" end
  | _ => ""
  end.

(** [diff] is the JSON form of the new schema, for the audit record. *)
Definition UpdateTableSchema (ck : clock) (s : σ) (orgID dbID table : string)
    (schema : list ColumnDef) (primaryKey : string) (diff : any) : σ * result unit :=
  let dbn := dbName orgID dbID in
  let '(s, got) := tb_get s dbn "_schemas" table in
  let created := existing_created got in
  let updated := {| tbl_ID := table; tbl_DatabaseID := dbn; tbl_Name := table;
                    tbl_PrimaryKey := pk_or_id primaryKey; tbl_TTL := 0;
                    tbl_Schema := schema;
                    tbl_CreatedAt := if String.eqb created "" then iso ck 0 else created |} in
  bind_r (tb_insert s dbn "_schemas" [enc_table updated] true) (λ s _,
  (audited s orgID dbID (nano ck 1)
     (audit (table +:+ "/" +:+ fmt_d (nano ck 0) +:+ "/schema") ScopeTable table
        "update_schema" (AObj [("schema", diff)]) (iso ck 1)), Ok tt)).

(** Decoding of a list of rows fails with the first row that does. *)
Fixpoint decode_all {A} (dec : doc → result A) (l : list doc) : result (list A) :=
  match l with
  | [] => Ok []
  | d :: r => match dec d with
              | Err e => Err e
              | Ok a => match decode_all dec r with
                        | Err e => Err e
                        | Ok rest => Ok (a :: rest)
                        end
              end
  end.

Definition GetTables (s : σ) (orgID dbID : string) : σ * result (list Table) :=
  bind_r (EnsureDatabase s orgID dbID) (λ s _,
  bind_r (table_scan s (dbName orgID dbID) "_schemas") (λ s rows,
  (s, decode_all dec_table rows))).

Definition str_any (l : list string) : any := AArr (AStr <$> l).

(** [num] turns the number of generated keys into the audit record's value. *)
Definition InsertRows (num : Z → any) (ck : clock) (s : σ) (orgID dbID table : string)
    (rows : list doc) : σ * result (list string) :=
  match rows with
  | [] => (s, Ok [])
  | _ =>
      bind_r (tb_insert s (dbName orgID dbID) table rows false) (λ s keys,
      (audited s orgID dbID (nano ck 1)
         (audit (table +:+ "/" +:+ fmt_d (nano ck 0)) ScopeTable table "insert"
            (AObj [("count", num (Z.of_nat (length keys))); ("ids", str_any keys)]) (iso ck 0)),
       Ok keys))
  end.

(** The query term built for a page. *)
Definition page_query (dbn table pk : string) (limit : Z) (cursor : string) (ascending : bool)
    : query :=
  {| q_db := dbn; q_table := table; q_index := pk;
     q_after := if negb (String.eqb pk "") && negb (String.eqb cursor "") && ascending
                then Some cursor else None;
     q_before := if negb (String.eqb pk "") && negb (String.eqb cursor "") && negb ascending
                 then Some cursor else None;
     q_desc := negb ascending; q_limit := limit + 1 |}.

(** Split the page off the rows fetched, and the cursor to the next one: the
    key of the page's last row when it is a string. *)
Definition split_page (pk : string) (limit : Z) (rows : list doc) : list doc * string :=
  if (limit <? Z.of_nat (length rows))
  then (take (Z.to_nat limit) rows,
        match rows !! Z.to_nat (limit - 1) with
        | Some row => match row !! pk with Some (AStr k) => k | _ => "" end
        | None => ""
        end)
  else (rows, "").

Definition QueryRows (s : σ) (orgID dbID table pk : string) (limit : Z) (cursor : string)
    (ascending : bool) : σ * result (list doc * string) :=
  let limit := if limit <=? 0 then 50 else limit in
  bind_r (tb_query s (page_query (dbName orgID dbID) table pk limit cursor ascending)) (λ s rows,
  (s, Ok (split_page pk limit rows))).

Definition UpdateRow (ck : clock) (s : σ) (orgID dbID table id : string) (patch : doc)
    : σ * result unit :=
  bind_r (tb_update s (dbName orgID dbID) table id patch) (λ s _,
  (audited s orgID dbID (nano ck 0)
     (audit (table +:+ "/" +:+ id +:+ "/upd") ScopeRow id "update" (obj_of patch) (iso ck 0)),
   Ok tt)).

Definition DeleteRow (ck : clock) (s : σ) (orgID dbID table id : string) : σ * result unit :=
  bind_r (tb_delete s (dbName orgID dbID) table id) (λ s _,
  (audited s orgID dbID (nano ck 0)
     (audit (table +:+ "/" +:+ id +:+ "/del") ScopeRow id "delete" ANil (iso ck 0)), Ok tt)).

Definition ListAudit (s : σ) (orgID dbID : string) (limit : Z) : σ * result (list AuditEvent) :=
  let limit := if limit <=? 0 then 200 else limit in
  bind_r (tb_latest s (dbName orgID dbID) "_audit" limit) (λ s rows,
  (s, decode_all dec_audit rows)).

(** One change of a feed as an event. *)
Definition change_event (ts table : string) (old_val new_val : option doc) : ChangefeedEvent :=
  let ev ty before after :=
    {| cf_Type := ty; cf_TableID := table; cf_RowID := ""; cf_Before := before;
       cf_After := after; cf_Cursor := ""; cf_TS := ts; cf_Pending := 0;
       cf_Snapshot := false; cf_Error := "" |} in
  match old_val, new_val with
  | None, Some n => ev "insert" None (Some n)
  | Some o, Some n => ev "update" (Some o) (Some n)
  | Some o, None => ev "delete" (Some o) None
  | None, None => ev "" None None
  end.

(** ** Databases *)

Definition db_info (dbID orgID : string) (meta : option doc) : DatabaseInstance :=
  let name := match meta with Some m => str_field m "name" | None => "" end in
  {| di_ID := dbID; di_OrgID := orgID;
     di_Name := if String.eqb name "" then dbID else name;
     di_Description := match meta with Some m => str_field m "description" | None => "" end;
     di_Replication := 0; di_Shards := 0; di_PrimaryRegion := "";
     di_CreatedAt := match meta with Some m => str_field m "created_at" | None => "" end |}.

(** [cur.One] fails on a missing row. *)
Definition got_doc (r : result (option doc)) : option doc :=
  match r with Ok (Some d) => Some d | _ => None end.

Definition org_prefix (orgID : string) : string :=
  "org_" +:+ ToLower (TrimSpace orgID) +:+ "__".

(** The loop over the listed names. *)
Fixpoint list_infos (s : σ) (orgID : string) (names : list string)
    : σ * list DatabaseInstance :=
  match names with
  | [] => (s, [])
  | name :: r =>
      if HasPrefix name (org_prefix orgID) then
        let dbID := TrimPrefix name (org_prefix orgID) in
        let s := (table_create s name "_info" "id").1 in
        let '(s, got) := tb_get s name "_info" "db" in
        let '(s, rest) := list_infos s orgID r in
        (s, db_info dbID orgID (got_doc got) :: rest)
      else list_infos s orgID r
  end.

Definition ListDatabases (s : σ) (orgID : string) : σ * result (list DatabaseInstance) :=
  bind_r (db_list s) (λ s dbs, let '(s, l) := list_infos s orgID dbs in (s, Ok l)).

Definition CreateDatabase (ck : clock) (s : σ) (orgID dbID name description : string)
    : σ * result DatabaseInstance :=
  let created := iso ck 0 in
  let meta : doc := list_to_map [("id", AStr "db"); ("name", AStr name);
                                 ("description", AStr description);
                                 ("created_at", AStr created)] in
  bind_r (EnsureDatabase s orgID dbID) (λ s _,
  bind_r (ensureMetaTables s orgID dbID) (λ s _,
  bind_r (retryTransient 5 (λ s, bind_r (tb_insert s (dbName orgID dbID) "_info" [meta] true)
                                   (λ s _, (s, Ok tt))) s) (λ s _,
  (s, Ok {| di_ID := dbID; di_OrgID := orgID; di_Name := name; di_Description := description;
            di_Replication := 0; di_Shards := 0; di_PrimaryRegion := "";
            di_CreatedAt := created |})))).

Definition GetDatabase (s : σ) (orgID dbID : string) : σ * result DatabaseInstance :=
  bind_r (db_list s) (λ s names,
  if existsb (String.eqb (dbName orgID dbID)) names then
    let '(s, got) := tb_get s (dbName orgID dbID) "_info" "db" in
    (s, Ok (db_info dbID orgID (got_doc got)))
  else (s, Err "not found")).

Definition DeleteDatabase (s : σ) (orgID dbID : string) : σ * result unit :=
  db_drop s (dbName orgID dbID).

(** A lightweight query; the two-second limit is the connection's business. *)
Definition Ping (s : σ) : σ * result unit :=
  bind_r (db_list s) (λ s _, (s, Ok tt)).

End manager.

(** ** What the database promises *)

(** A table: its primary key and its rows in primary key order. *)
Record tdata : Type := { td_pk : string; td_rows : list doc }.

(** The databases with their tables. *)
Definition rdb : Type := gmap string (gmap string tdata).

Definition table_of (v : rdb) (dbn t : string) : option tdata := (v !! dbn) ≫= (.!! t).

Definition key_of (pk : string) (d : doc) : option any := d !! pk.

(** Bounds on the primary key: strings compare by bytes and come after every
    other type. *)
Definition in_bounds (pk : string) (after before : option string) (d : doc) : bool :=
  (match after with
   | None => true
   | Some c => match d !! pk with Some (AStr k) => String.ltb c k | _ => false end
   end)
  && (match before with
      | None => true
      | Some c => match d !! pk with Some (AStr k) => String.ltb k c | _ => true end
      end).

(** The rows of a query's range in the order asked for, and the ones returned. *)
Definition range_of (td : tdata) (q : query) : list doc :=
  let rows := List.filter (in_bounds (td_pk td) (q_after q) (q_before q)) (td_rows td) in
  if q_desc q then reverse rows else rows.

Definition eval_query (td : tdata) (q : query) : list doc :=
  take (Z.to_nat (q_limit q)) (range_of td q).

(** The row with a string key. *)
Definition row_of (td : tdata) (k : string) : option doc :=
  find_first (λ d, match d !! td_pk td with Some (AStr k') => String.eqb k k' | _ => false end)
    (td_rows td).

(** Every database and table of [v] is still there in [v']. *)
Definition keeps (v v' : rdb) : Prop :=
  ∀ dbn t, is_Some (v !! dbn) → is_Some (v' !! dbn)
           ∧ (is_Some (table_of v dbn t) → is_Some (table_of v' dbn t)).

Class RethinkView (σ : Type) := view : σ → rdb.

Class RethinkLaws (σ : Type) `{Rethink σ} `{RethinkView σ} := {
  (** reads do not change the data *)
  list_view s : view (db_list s).1 = view s;
  query_view s q : view (tb_query s q).1 = view s;
  get_view s dbn t k : view (tb_get s dbn t k).1 = view s;
  (** the list of databases is exact *)
  list_exact s s' l : db_list s = (s', Ok l) → ∀ n, n ∈ l ↔ is_Some (view s !! n);
  (** creating a database or a table makes it exist, and removes nothing; the
      error for an existing table says so and is reported only for one *)
  create_exists s n s' : db_create s n = (s', Ok tt) → is_Some (view s' !! n);
  create_keeps s n : keeps (view s) (view (db_create s n).1);
  table_exists s dbn t pk s' r :
    table_create s dbn t pk = (s', r) →
    (r = Ok tt ∨ ∃ e, r = Err e ∧ Contains e "already exists" = true) →
    is_Some (table_of (view s') dbn t);
  table_keeps s dbn t pk : keeps (view s) (view (table_create s dbn t pk).1);
  table_same s dbn t pk :
    is_Some (table_of (view s) dbn t) → view (table_create s dbn t pk).1 = view s;
  (** an indexed query needs the index to be the primary key here, and returns
      the rows of the range in key order, up to the limit *)
  query_exact s q s' l :
    tb_query s q = (s', Ok l) → q_index q ≠ "" →
    ∃ td, table_of (view s) (q_db q) (q_table q) = Some td
      ∧ q_index q = td_pk td ∧ l = eval_query td q;
  (** a get by key reads that row *)
  get_exact s dbn t k s' o :
    tb_get s dbn t k = (s', Ok o) →
    ∃ td, table_of (view s) dbn t = Some td ∧ o = row_of td k;
  (** an accepted insert with conflict "replace" stores the document under its
      key, and no insert removes a database or a table *)
  insert_replaces s dbn t d s' keys td k :
    tb_insert s dbn t [d] true = (s', Ok keys) →
    table_of (view s') dbn t = Some td → d !! td_pk td = Some (AStr k) → row_of td k = Some d;
  insert_keeps s dbn t ds b : keeps (view s) (view (tb_insert s dbn t ds b).1)
}.

(** ** An in-memory instance, with string keys *)

Definition lookup_td (v : rdb) (dbn t : string) : result tdata :=
  match table_of v dbn t with
  | Some td => Ok td
  | None => Err "Table does not exist."
  end.

Definition set_td (v : rdb) (dbn t : string) (td : tdata) : rdb :=
  match v !! dbn with
  | None => v
  | Some m => <[dbn := <[t := td]> m]> v
  end.

Definition key_lt (pk k : string) (d : doc) : bool :=
  match d !! pk with Some (AStr k') => String.ltb k' k | _ => true end.
Definition key_gt (pk k : string) (d : doc) : bool :=
  match d !! pk with Some (AStr k') => String.ltb k k' | _ => false end.

Definition put_row (td : tdata) (k : string) (d : doc) : tdata :=
  {| td_pk := td_pk td;
     td_rows := List.filter (key_lt (td_pk td) k) (td_rows td)
                ++ d :: List.filter (key_gt (td_pk td) k) (td_rows td) |}.

Fixpoint mem_insert (td : tdata) (ds : list doc) (replace : bool) : result tdata :=
  match ds with
  | [] => Ok td
  | d :: r =>
      match d !! td_pk td with
      | Some (AStr k) =>
          match row_of td k, replace with
          | Some _, false => Err "Duplicate primary key"
          | _, _ => mem_insert (put_row td k d) r replace
          end
      | _ => Err "Primary keys must be strings here"
      end
  end.

Definition mem_update (td : tdata) (k : string) (p : doc) : tdata :=
  match row_of td k with
  | Some d => put_row td k (p ∪ d)
  | None => td
  end.

Definition mem_delete (td : tdata) (k : string) : tdata :=
  {| td_pk := td_pk td;
     td_rows := List.filter (key_lt (td_pk td) k) (td_rows td)
                ++ List.filter (key_gt (td_pk td) k) (td_rows td) |}.

Definition on_table {A} (v : rdb) (dbn t : string) (f : tdata → result (tdata * A))
    : rdb * result A :=
  match lookup_td v dbn t with
  | Err e => (v, Err e)
  | Ok td => match f td with
             | Err e => (v, Err e)
             | Ok (td', a) => (set_td v dbn t td', Ok a)
             end
  end.

#[export] Instance mem_rethink : Rethink rdb := {|
  db_list v := (v, Ok (fst <$> map_to_list v));
  db_create v n := match v !! n with
                   | Some _ => (v, Err "Database already exists.")
                   | None => (<[n := ∅]> v, Ok tt)
                   end;
  db_drop v n := match v !! n with
                 | None => (v, Err "Database does not exist.")
                 | Some _ => (delete n v, Ok tt)
                 end;
  table_create v dbn t pk :=
    match v !! dbn with
    | None => (v, Err "Database does not exist.")
    | Some m => match m !! t with
                | Some _ => (v, Err "Table already exists.")
                | None => (<[dbn := <[t := {| td_pk := pk; td_rows := [] |}]> m]> v, Ok tt)
                end
    end;
  table_scan v dbn t := on_table v dbn t (λ td, Ok (td, td_rows td));
  tb_insert v dbn t ds b :=
    on_table v dbn t (λ td, match mem_insert td ds b with
                            | Ok td' => Ok (td', []) | Err e => Err e end);
  tb_get v dbn t k := (v, match lookup_td v dbn t with
                          | Ok td => Ok (row_of td k) | Err e => Err e end);
  tb_update v dbn t k p := on_table v dbn t (λ td, Ok (mem_update td k p, tt));
  tb_delete v dbn t k := on_table v dbn t (λ td, Ok (mem_delete td k, tt));
  tb_query v q :=
    (v, match lookup_td v (q_db q) (q_table q) with
        | Err e => Err e
        | Ok td => if String.eqb (q_index q) "" then Ok (take (Z.to_nat (q_limit q)) (td_rows td))
                   else if String.eqb (q_index q) (td_pk td) then Ok (eval_query td q)
                   else Err "Index was not found."
        end);
  tb_latest v dbn t n := (v, match lookup_td v dbn t with
                             | Ok td => Ok (take (Z.to_nat n) (reverse (td_rows td)))
                             | Err e => Err e end)
|}.

#[export] Instance mem_view : RethinkView rdb := λ v, v.

Lemma keeps_refl v : keeps v v.
Proof. intros dbn t H. split; auto. Qed.

Lemma keeps_trans u v w : keeps u v → keeps v w → keeps u w.
Proof.
  intros H1 H2 dbn t Hu. destruct (H1 dbn t Hu) as [Hv Ht1].
  destruct (H2 dbn t Hv) as [Hw Ht2]. auto.
Qed.

Lemma keeps_insert_db (v : rdb) n : v !! n = None → keeps v (<[n := ∅]> v).
Proof.
  intros Hn dbn t Hd. unfold table_of.
  destruct (decide (n = dbn)) as [->|Hne]; [rewrite Hn in Hd; by destruct Hd|].
  rewrite lookup_insert_ne //.
Qed.

Lemma keeps_insert_table (v : rdb) dbn m t td :
  v !! dbn = Some m → keeps v (<[dbn := <[t := td]> m]> v).
Proof.
  intros Hm dbn' t' Hd. unfold table_of. destruct (decide (dbn = dbn')) as [->|Hne].
  - rewrite lookup_insert_eq Hm. simpl. split; [done|].
    destruct (decide (t = t')) as [->|]; [rewrite lookup_insert_eq; eauto|].
    by rewrite lookup_insert_ne.
  - rewrite lookup_insert_ne //.
Qed.

Lemma keeps_set_td v dbn t td : keeps v (set_td v dbn t td).
Proof.
  unfold set_td. destruct (v !! dbn) as [m|] eqn:E; [|apply keeps_refl].
  by apply keeps_insert_table.
Qed.

Lemma keeps_on_table {A} v dbn t (f : tdata → result (tdata * A)) :
  keeps v (on_table v dbn t f).1.
Proof.
  unfold on_table. destruct (lookup_td v dbn t) as [td|]; [|apply keeps_refl].
  destruct (f td) as [[td' a]|]; [apply keeps_set_td|apply keeps_refl].
Qed.

Lemma lookup_td_ok v dbn t td : lookup_td v dbn t = Ok td → table_of v dbn t = Some td.
Proof. unfold lookup_td. destruct (table_of v dbn t); intros; by simplify_eq. Qed.

Lemma set_td_lookup v dbn t td td' :
  table_of v dbn t = Some td → table_of (set_td v dbn t td') dbn t = Some td'.
Proof.
  unfold table_of, set_td. destruct (v !! dbn) as [m|]; [|done]. intros _.
  by rewrite lookup_insert_eq /= lookup_insert_eq.
Qed.

Lemma ltb_irrefl s : String.ltb s s = false.
Proof.
  unfold String.ltb. pose proof (String.compare_antisym s s) as Ha.
  by destruct (String.compare s s).
Qed.

Lemma find_first_app_none {A} (p : A → bool) l1 l2 :
  find_first p l1 = None → find_first p (l1 ++ l2) = find_first p l2.
Proof. induction l1 as [|x l1 IH]; [done|]. simpl. by destruct (p x). Qed.

Lemma row_of_put td k d :
  d !! td_pk td = Some (AStr k) → row_of (put_row td k d) k = Some d.
Proof.
  intros Hk. unfold row_of, put_row. simpl. rewrite find_first_app_none.
  - simpl. by rewrite Hk String.eqb_refl.
  - apply find_first_None, Forall_forall. intros x Hx.
    apply list_elem_of_In, List.filter_In in Hx as [_ Hx]. unfold key_lt in Hx.
    destruct (x !! td_pk td) as [[]|]; try done.
    destruct (String.eqb_spec k s); [|done]. subst. by rewrite ltb_irrefl in Hx.
Qed.

Lemma mem_insert_row td d b td' k :
  mem_insert td [d] b = Ok td' → d !! td_pk td' = Some (AStr k) → row_of td' k = Some d.
Proof.
  simpl. destruct (d !! td_pk td) as [[| | |k0| |]|] eqn:Ek; try done.
  intros Hm Hk. assert (td' = put_row td k0 d) as ->.
  { destruct (row_of td k0), b; by simplify_eq. }
  simpl in Hk. rewrite Ek in Hk. simplify_eq. by apply row_of_put.
Qed.

#[export] Instance mem_laws : RethinkLaws rdb.
Proof.
  split; try done.
  - intros s s' l [= <- <-] n. unfold view, mem_view. rewrite list_elem_of_fmap. split.
    + intros ([k m] & -> & H%elem_of_map_to_list). simpl. eauto.
    + intros [m H%elem_of_map_to_list]. by exists (n, m).
  - intros s n s'. simpl. destruct (s !! n); [done|]. intros [= <-].
    unfold view, mem_view. rewrite lookup_insert_eq. eauto.
  - intros s n. simpl. destruct (s !! n) eqn:E; [apply keeps_refl|by apply keeps_insert_db].
  - intros s dbn t pk s' r. simpl. unfold view, mem_view, table_of.
    destruct (s !! dbn) as [m|] eqn:E.
    + destruct (m !! t) eqn:Et; intros [= <- <-] _; [rewrite E; eauto|].
      rewrite lookup_insert_eq /= lookup_insert_eq. eauto.
    + intros [= <- <-] [?|(e & [= <-] & He)]; [done|]. vm_compute in He. done.
  - intros s dbn t pk. simpl. destruct (s !! dbn) as [m|] eqn:E; [|apply keeps_refl].
    destruct (m !! t); [apply keeps_refl|by apply keeps_insert_table].
  - intros s dbn t pk. simpl. unfold view, mem_view, table_of.
    destruct (s !! dbn) as [m|]; [|done]. simpl. intros [td ->]. done.
  - intros s q s' l. simpl. unfold view, mem_view.
    destruct (lookup_td s (q_db q) (q_table q)) as [td|] eqn:E; [|done].
    apply lookup_td_ok in E. destruct (String.eqb_spec (q_index q) ""); [done|].
    destruct (String.eqb_spec (q_index q) (td_pk td)); [|done].
    intros [= <- <-] _. eauto.
  - intros s dbn t k s' o. simpl. unfold view, mem_view.
    destruct (lookup_td s dbn t) as [td|] eqn:E; [|done]. intros [= <- <-].
    apply lookup_td_ok in E. eauto.
  - intros s dbn t d s' keys td k. simpl. unfold on_table, view, mem_view.
    destruct (lookup_td s dbn t) as [td0|] eqn:E; [|done]. apply lookup_td_ok in E.
    destruct (mem_insert td0 [d] true) as [td'|] eqn:Em; [|simpl in Em; by rewrite Em].
    simpl in Em. rewrite Em. intros [= <- <-].
    rewrite (set_td_lookup _ _ _ _ _ E). intros [= <-]. by apply (mem_insert_row td0 d true).
  - intros s dbn t ds b. apply keeps_on_table.
Qed.

(** ** Lemmas *)

Lemma ascii_lt_trans a b c :
  Ascii.compare a b = Lt → Ascii.compare b c = Lt → Ascii.compare a c = Lt.
Proof. unfold Ascii.compare. rewrite !N.compare_lt_iff. lia. Qed.

Lemma ascii_eq_compare a b : Ascii.compare a b = Eq → a = b.
Proof.
  unfold Ascii.compare. rewrite N.compare_eq_iff. intros E.
  by rewrite -(ascii_N_embedding a) E ascii_N_embedding.
Qed.

Lemma compare_lt_trans a b c :
  String.compare a b = Lt → String.compare b c = Lt → String.compare a c = Lt.
Proof.
  revert b c; induction a as [|x a IH]; intros [|y b] [|z c]; simpl; try done.
  destruct (Ascii.compare x y) eqn:Exy; try done;
    destruct (Ascii.compare y z) eqn:Eyz; try done.
  - apply ascii_eq_compare in Exy as ->. rewrite Eyz. apply IH.
  - apply ascii_eq_compare in Exy as ->. by rewrite Eyz.
  - apply ascii_eq_compare in Eyz as ->. by rewrite Exy.
  - by rewrite (ascii_lt_trans _ _ _ Exy Eyz).
Qed.

Lemma ltb_lt a b : String.ltb a b = true ↔ String.compare a b = Lt.
Proof. unfold String.ltb. by destruct (String.compare a b). Qed.

Lemma ltb_trans a b c : String.ltb a b = true → String.ltb b c = true → String.ltb a c = true.
Proof. rewrite !ltb_lt. apply compare_lt_trans. Qed.

Lemma ltb_asym a b : String.ltb a b = true → String.ltb b a = false.
Proof.
  rewrite ltb_lt. unfold String.ltb. rewrite (String.compare_antisym b a). by intros ->.
Qed.

(** An element of a filtered list splits the list it came from. *)
Lemma filter_split {A} (f : A → bool) l r1 x r2 :
  List.filter f l = r1 ++ x :: r2 →
  ∃ a b, l = a ++ x :: b ∧ List.filter f b = r2.
Proof.
  revert r1; induction l as [|y l IH]; intros r1; simpl; [by destruct r1|].
  destruct (f y).
  - destruct r1 as [|z r1]; simpl; intros [= -> E]; [by exists [], l|].
    destruct (IH _ E) as (a & b & -> & ?). by exists (z :: a), b.
  - intros E. destruct (IH _ E) as (a & b & -> & ?). by exists (y :: a), b.
Qed.

(** Rows in strict order of their string keys. *)
Definition key_of_row (pk : string) (d : doc) : string := str_field d pk.

Definition sorted_keys (td : tdata) : Prop :=
  Forall (λ d, d !! td_pk td = Some (AStr (key_of_row (td_pk td) d))) (td_rows td)
  ∧ StronglySorted (λ a b, String.ltb (key_of_row (td_pk td) a) (key_of_row (td_pk td) b) = true)
      (td_rows td).

Abbreviation after pk c := (in_bounds pk (Some c) None).

Lemma after_key pk c d k : d !! pk = Some (AStr k) → after pk c d = String.ltb c k.
Proof. intros Hk. unfold in_bounds. by rewrite Hk andb_true_r. Qed.

Lemma filter_all_true {A} (f : A → bool) l : Forall (λ x, f x = true) l → List.filter f l = l.
Proof. induction 1 as [|x l Hx _ IH]; simpl; [done|]. by rewrite Hx IH. Qed.

Lemma filter_all_false {A} (f : A → bool) l : Forall (λ x, f x = false) l → List.filter f l = [].
Proof. induction 1 as [|x l Hx _ IH]; simpl; [done|]. by rewrite Hx. Qed.

Lemma key_row_eq pk d k : d !! pk = Some (AStr k) → key_of_row pk d = k.
Proof. unfold key_of_row, str_field. by intros ->. Qed.

(** In key order, what comes after the key of a row is what follows the row. *)
Lemma filter_after td a x b k :
  sorted_keys td → td_rows td = a ++ x :: b → x !! td_pk td = Some (AStr k) →
  List.filter (after (td_pk td) k) (td_rows td) = b
  ∧ Forall (λ d, String.ltb k (key_of_row (td_pk td) d) = true) b.
Proof.
  intros [HF HS] E Hk. pose proof (key_row_eq _ _ _ Hk) as Ek. rewrite E in HF HS.
  apply Forall_app in HF as [HFa HF]. apply Forall_cons in HF as [_ HFb].
  apply StronglySorted_app in HS as (Hab & _ & HS).
  apply StronglySorted_cons in HS as [Hxb _]. rewrite Ek in Hxb.
  split; [|done]. rewrite E List.filter_app. simpl.
  rewrite (after_key _ _ _ _ Hk) ltb_irrefl.
  rewrite filter_all_false.
  - simpl. apply filter_all_true. rewrite Forall_forall in HFb. rewrite Forall_forall in Hxb.
    apply Forall_forall. intros d Hd.
    by rewrite (after_key _ _ _ _ (HFb d Hd)) Hxb.
  - rewrite Forall_forall in HFa. apply Forall_forall. intros d Hd.
    rewrite (after_key _ _ _ _ (HFa d Hd)). apply ltb_asym.
    rewrite -Ek. apply Hab; [done|]. apply list_elem_of_here.
Qed.

(** In key order, the rows after a row of an ascending range are the rest of
    the range. *)
Lemma rest_of_range td q a x b :
  sorted_keys td → q_desc q = false → q_before q = None → range_of td q = a ++ x :: b →
  List.filter (after (td_pk td) (match x !! td_pk td with Some (AStr k) => k | _ => "" end))
    (td_rows td) = b.
Proof.
  intros Hs Hd Hb E. unfold range_of in E. rewrite Hd Hb in E. pose proof E as E1.
  apply filter_split in E1 as (a' & b' & Er & <-).
  destruct Hs as [HF HS]. pose proof HF as HFs. rewrite Er in HF.
  apply Forall_app in HF as [_ HF]. apply Forall_cons in HF as [Hk HF].
  set (k := key_of_row (td_pk td) x) in *. rewrite Hk.
  destruct (filter_after td a' x b' k (conj HFs HS) Er Hk) as [-> Hgt].
  symmetry. apply filter_all_true.
  assert (Hfx : in_bounds (td_pk td) (q_after q) None x = true).
  { assert (Hin : x ∈ List.filter (in_bounds (td_pk td) (q_after q) None) (td_rows td))
      by (rewrite E; set_solver).
    by apply list_elem_of_In, List.filter_In in Hin as [_ Hin]. }
  rewrite Forall_forall in HF. rewrite Forall_forall in Hgt.
  apply Forall_forall. intros d Hd'. specialize (HF d Hd'). specialize (Hgt d Hd').
  unfold in_bounds in Hfx |- *. destruct (q_after q) as [c|]; [|done].
  rewrite Hk in Hfx. rewrite HF. rewrite !andb_true_r in Hfx |- *. by eapply ltb_trans.
Qed.

Section laws.
Context `{UC : UnicodeCase} {σ : Type} `{R : Rethink σ} {V : RethinkView σ}.
Context {L : RethinkLaws σ} `{CD : Codec}.

Lemma attempts_ok {A} again n (op : σ → σ * result A) s s' a :
  attempts again n op s = (s', Ok a) → ∃ s0, op s0 = (s', Ok a).
Proof.
  revert s; induction n as [|n IH]; intros s; simpl;
    destruct (op s) as [s1 [x|e]] eqn:E; intros Hr; simplify_eq; eauto;
    destruct (again e); simplify_eq; eauto.
Qed.

Lemma attempts_inv {A} (P : σ → Prop) again n (op : σ → σ * result A) s :
  (∀ s, P s → P (op s).1) → P s → P (attempts again n op s).1.
Proof.
  intros Hop. revert s; induction n as [|n IH]; intros s Hs; simpl;
    pose proof (Hop s Hs) as H1; destruct (op s) as [s1 [x|e]]; simpl in *; try done;
    destruct (again e); try done. by apply IH.
Qed.

Lemma attempts_keeps {A} again n (op : σ → σ * result A) s :
  (∀ s, keeps (view s) (view (op s).1)) → keeps (view s) (view (attempts again n op s).1).
Proof.
  intros Hop. apply (attempts_inv (λ s', keeps (view s) (view s'))); [|apply keeps_refl].
  intros s1 H1. eapply keeps_trans; [exact H1|apply Hop].
Qed.

Lemma create_once_keeps dbn t s : keeps (view s) (view (create_table_once dbn t s).1).
Proof.
  unfold create_table_once. pose proof (table_keeps s dbn t "id") as Hk.
  destruct (table_create s dbn t "id") as [s1 [[]|e]]; [done|].
  by destruct (Contains e "already exists").
Qed.

Lemma retry_create_ok n dbn t s s' :
  retryTransient n (create_table_once dbn t) s = (s', Ok tt) →
  is_Some (table_of (view s') dbn t) ∧ keeps (view s) (view s').
Proof.
  unfold retryTransient. intros Hr. split.
  - apply attempts_ok in Hr as [s0 Ho]. unfold create_table_once in Ho.
    destruct (table_create s0 dbn t "id") as [s1 r] eqn:E. destruct r as [[]|e].
    + simplify_eq. eapply table_exists; [exact E|by left].
    + destruct (Contains e "already exists") eqn:Ec; simplify_eq.
      eapply table_exists; [exact E|]. right. eauto.
  - assert (Hk := attempts_keeps retryable (Z.to_nat (Z.max 1 n - 1)) (create_table_once dbn t) s).
    rewrite Hr in Hk. apply Hk. intros s1. apply create_once_keeps.
Qed.

Definition meta_tables (v : rdb) (dbn : string) : Prop :=
  is_Some (table_of v dbn "_schemas") ∧ is_Some (table_of v dbn "_audit")
  ∧ is_Some (table_of v dbn "_info").

Lemma table_db v dbn t : is_Some (table_of v dbn t) → is_Some (v !! dbn).
Proof. unfold table_of. destruct (v !! dbn); [eauto|]. by intros [? ?]. Qed.

Lemma ensureMetaTables_ok s orgID dbID s' :
  ensureMetaTables s orgID dbID = (s', Ok tt) →
  meta_tables (view s') (dbName orgID dbID) ∧ keeps (view s) (view s').
Proof.
  unfold ensureMetaTables, bind_r.
  destruct (retryTransient 5 (create_table_once _ "_schemas") s) as [s1 [[]|]] eqn:E1; [|done].
  destruct (retryTransient 5 (create_table_once _ "_audit") s1) as [s2 [[]|]] eqn:E2; [|done].
  intros E3. apply retry_create_ok in E1 as [H1 K1]. apply retry_create_ok in E2 as [H2 K2].
  apply retry_create_ok in E3 as [H3 K3].
  split; [|by eapply keeps_trans; [|eapply keeps_trans]].
  split; [|split; [|done]].
  - apply (keeps_trans _ _ _ K2 K3); [by eapply table_db|done].
  - apply K3; [by eapply table_db|done].
Qed.

Lemma EnsureDatabase_meta s orgID dbID s' :
  EnsureDatabase s orgID dbID = (s', Ok tt) →
  meta_tables (view s') (dbName orgID dbID) ∧ keeps (view s) (view s').
Proof.
  unfold EnsureDatabase. set (name := dbName orgID dbID).
  destruct (attempts isTransientErr 2 db_list s) as [s1 [dbs|]] eqn:E1; [|done].
  cbn [bind_r]. set (cr := if existsb _ _ then _ else _).
  assert (Hk : keeps (view s) (view cr.1)).
  { eapply keeps_trans.
    - assert (Hk := attempts_keeps isTransientErr 2 db_list s). rewrite E1 in Hk.
      apply Hk. intros s0. rewrite list_view. apply keeps_refl.
    - unfold cr. destruct (existsb _ _); [apply keeps_refl|].
      apply attempts_keeps. intros s0. apply create_keeps. }
  destruct cr as [s2 [[]|]] eqn:E2; [|done]. cbn [bind_r]. intros [H3 K3]%ensureMetaTables_ok.
  split; [done|]. by eapply keeps_trans.
Qed.

End laws.

Lemma split_page_spec pk limit range :
  0 < limit →
  let '(rows, next) := split_page pk limit (take (Z.to_nat (limit + 1)) range) in
  rows = take (Z.to_nat limit) range
  ∧ (Z.of_nat (length range) <= limit → next = "")
  ∧ (limit < Z.of_nat (length range) →
     ∃ a x b, range = a ++ x :: b ∧ b = drop (Z.to_nat limit) range
       ∧ next = match x !! pk with Some (AStr k) => k | _ => "" end).
Proof.
  intros Hl. unfold split_page. rewrite length_take.
  destruct (limit <? Z.of_nat (min (Z.to_nat (limit + 1)) (length range))) eqn:E; bool_props.
  - split; [rewrite take_take; f_equal; lia|]. split; [lia|]. intros Hlen.
    assert (Hx : (Z.to_nat (limit - 1) < length range)%nat) by lia.
    apply lookup_lt_is_Some in Hx as [x Hx].
    exists (take (Z.to_nat (limit - 1)) range), x, (drop (Z.to_nat limit) range).
    replace (Z.to_nat limit) with (S (Z.to_nat (limit - 1))) by lia.
    split; [by rewrite take_drop_middle|]. split; [done|].
    rewrite lookup_take_lt; [by rewrite Hx|lia].
  - split; [rewrite !take_ge //; lia|]. split; [done|]. lia.
Qed.

Lemma page_facts `{UC : UnicodeCase} {σ : Type} `{R : Rethink σ} {V : RethinkView σ}
    {L : RethinkLaws σ} (s : σ) org db table pk limit cursor asc s' rows next :
  pk ≠ "" → 0 < limit →
  QueryRows s org db table pk limit cursor asc = (s', Ok (rows, next)) →
  view s' = view s
  ∧ ∃ td, table_of (view s) (dbName org db) table = Some td ∧ td_pk td = pk
    ∧ let range := range_of td (page_query (dbName org db) table pk limit cursor asc) in
      rows = take (Z.to_nat limit) range
      ∧ (Z.of_nat (length range) <= limit → next = "")
      ∧ (limit < Z.of_nat (length range) →
         ∃ x, last rows = Some x ∧ next = match x !! pk with Some (AStr k) => k | _ => "" end)
      ∧ (sorted_keys td → asc = true → limit < Z.of_nat (length range) →
         List.filter (in_bounds pk (Some next) None) (td_rows td)
         = drop (Z.to_nat limit) range).
Proof.
  intros Hpk Hl. unfold QueryRows. replace (limit <=? 0) with false by lia.
  destruct (tb_query s _) as [s1 [l|]] eqn:Eq; [|done]. cbn [bind_r]. intros [= <- Es].
  pose proof (query_view s (page_query (dbName org db) table pk limit cursor asc)) as Hv.
  rewrite Eq in Hv. split; [done|].
  destruct (query_exact _ _ _ _ Eq Hpk) as (td & Ht & Hpk' & ->). simpl in Hpk', Ht. subst pk.
  exists td. split; [done|]. split; [done|].
  set (range := range_of td _).
  unfold eval_query in Es. simpl in Es. fold range in Es.
  pose proof (split_page_spec (td_pk td) limit range Hl) as Hs. rewrite Es in Hs.
  destruct Hs as (-> & H1 & H2). split; [done|]. split; [done|].
  assert (Hlast : ∀ a x b, range = a ++ x :: b → b = drop (Z.to_nat limit) range →
                  limit < Z.of_nat (length range) →
                  take (Z.to_nat limit) range = a ++ [x]).
  { intros a x b E1 E2 Hlen. rewrite -(take_drop (Z.to_nat limit) range) -E2 in E1.
    replace (a ++ x :: b) with ((a ++ [x]) ++ b) in E1 by (by rewrite -app_assoc).
    by apply app_inv_tail in E1. }
  split.
  - intros Hlen. destruct (H2 Hlen) as (a & x & b & E1 & E2 & En). exists x. split; [|done].
    rewrite (Hlast _ _ _ E1 E2 Hlen). by rewrite last_snoc.
  - intros Hs -> Hlen. destruct (H2 Hlen) as (a & x & b & E0 & E2 & ->). rewrite -E2.
    apply (rest_of_range td (page_query (dbName org db) table (td_pk td) limit cursor true) a x b);
      [exact Hs|done|simpl; by rewrite andb_false_r|exact E0].
Qed.

(** ** Properties *)


Definition demo_doc (k v : string) : doc := list_to_map [("id", AStr k); ("v", AStr v)].
Definition demo_td : tdata :=
  {| td_pk := "id"; td_rows := [demo_doc "a" "1"; demo_doc "b" "2"; demo_doc "c" "3"] |}.
Definition demo_rdb : rdb := {[ "org_acme__crm" := {[ "people" := demo_td ]} ]}.


(** Ensuring a database.  When [EnsureDatabase] succeeds, after whatever
    retries, the organisation's database and its three internal tables exist,
    and no database or table that existed before is gone. *)
Theorem EnsureDatabase_ok `{UC : UnicodeCase} {σ : Type} `{R : Rethink σ} {V : RethinkView σ}
    {L : RethinkLaws σ} (s : σ) orgID dbID s' :
  EnsureDatabase s orgID dbID = (s', Ok tt) →
  is_Some (view s' !! dbName orgID dbID)
  ∧ is_Some (table_of (view s') (dbName orgID dbID) "_schemas")
  ∧ is_Some (table_of (view s') (dbName orgID dbID) "_audit")
  ∧ is_Some (table_of (view s') (dbName orgID dbID) "_info")
  ∧ keeps (view s) (view s').
Proof.
  intros [(H1 & H2 & H3) Hk]%EnsureDatabase_meta. split; [by eapply table_db|]. auto.
Qed.

Lemma EnsureDatabase_ok_witness :
  ∃ s', @EnsureDatabase ascii_case rdb mem_rethink ∅ "acme" "crm" = (s', Ok tt)
        ∧ is_Some (view s' !! "org_acme__crm").
Proof.
  exists (@EnsureDatabase ascii_case rdb mem_rethink ∅ "acme" "crm").1.
  assert (E : @EnsureDatabase ascii_case rdb mem_rethink ∅ "acme" "crm"
    = ((@EnsureDatabase ascii_case rdb mem_rethink ∅ "acme" "crm").1, Ok tt))
    by (apply snd_pair; vm_compute; reflexivity).
  split; [exact E|].
  exact (proj1 (@EnsureDatabase_ok ascii_case rdb mem_rethink mem_view mem_laws _ _ _ _ E)).
Defined.

Lemma existsb_elem n l : n ∈ l → existsb (String.eqb n) l = true.
Proof.
  intros Hn. apply List.existsb_exists. exists n. rewrite String.eqb_refl.
  by rewrite -list_elem_of_In.
Qed.

(** Metadata round trip.  After [CreateDatabase] succeeds, a [GetDatabase]
    of the same ids whose reads are answered returns exactly the instance that
    was created, with its name, description and creation time (the name not
    being empty, and the _info table keyed by id). *)
Theorem CreateDatabase_GetDatabase `{UC : UnicodeCase} {σ : Type} `{R : Rethink σ}
    {V : RethinkView σ} {L : RethinkLaws σ} (ck : clock) (s : σ) org db name descr s1 inst :
  CreateDatabase ck s org db name descr = (s1, Ok inst) → name ≠ "" →
  (∀ td, table_of (view s1) (dbName org db) "_info" = Some td → td_pk td = "id") →
  ∀ s2 names s3 o, db_list s1 = (s2, Ok names) →
    tb_get s2 (dbName org db) "_info" "db" = (s3, Ok o) →
    GetDatabase s1 org db = (s3, Ok inst).
Proof.
  unfold CreateDatabase. set (meta := list_to_map _ : doc).
  destruct (EnsureDatabase s org db) as [sa [[]|]] eqn:Ea; [|done].
  destruct (ensureMetaTables sa org db) as [sb [[]|]] eqn:Eb; cbn [bind_r];
    rewrite Eb; [|done]. cbn [bind_r].
  destruct (retryTransient 5 _ sb) as [sc [[]|]] eqn:Ec; [|done]. cbn [bind_r].
  intros [= <- <-] Hname Hpk s2 names s3 o Hl Hg.
  apply ensureMetaTables_ok in Eb as [(_ & _ & Hinfo) _].
  unfold retryTransient in Ec.
  assert (Hk := attempts_keeps retryable (Z.to_nat (Z.max 1 5 - 1)) (λ s,
    bind_r (tb_insert s (dbName org db) "_info" [meta] true) (λ s _, (s, Ok tt))) sb).
  rewrite Ec in Hk. specialize (Hk ltac:(intros s0; unfold bind_r;
    pose proof (insert_keeps s0 (dbName org db) "_info" [meta] true) as Hi;
    by destruct (tb_insert s0 _ _ _ _) as [? [|]])).
  destruct (Hk (dbName org db) "_info" (table_db _ _ _ Hinfo)) as [Hdb Htd].
  specialize (Htd Hinfo) as [td Htd].
  apply attempts_ok in Ec as [s0 Ei]. unfold bind_r in Ei.
  destruct (tb_insert s0 (dbName org db) "_info" [meta] true) as [s0' [keys|]] eqn:Eins; [|done].
  simplify_eq.
  assert (Hrow : row_of td "db" = Some meta).
  { eapply insert_replaces; [exact Eins|exact Htd|]. rewrite (Hpk td Htd). by vm_compute. }
  unfold GetDatabase. rewrite Hl. cbn [bind_r].
  rewrite existsb_elem; [|by apply (list_exact _ _ _ Hl)]. rewrite Hg.
  pose proof (list_view sc) as Hv. rewrite Hl in Hv. simpl in Hv.
  destruct (get_exact _ _ _ _ _ _ Hg) as (td' & Htd' & ->).
  rewrite Hv Htd in Htd'. simplify_eq. rewrite Hrow. unfold db_info. cbn [got_doc].
  assert (Hf : ∀ k v, assoc k [("id", AStr "db"); ("name", AStr name);
      ("description", AStr descr); ("created_at", AStr (iso ck 0))] = Some (AStr v) →
      str_field meta k = v).
  { intros k v Hkv. unfold str_field, meta. by rewrite lookup_list_to_map_assoc Hkv. }
  rewrite (Hf "name" name) // (Hf "description" descr) // (Hf "created_at" (iso ck 0)) //.
  by destruct (String.eqb_spec name "").
Qed.

Definition demo_clock : clock := {| iso := λ _, "2025-01-02T03:04:05Z"; nano := λ n, Z.of_nat n |}.
Definition demo_created : rdb * result DatabaseInstance :=
  @CreateDatabase ascii_case rdb mem_rethink demo_clock ∅ "Acme" "crm" "CRM" "customers".

Lemma CreateDatabase_GetDatabase_witness :
  ∃ inst s3, demo_created.2 = Ok inst ∧ di_Name inst = "CRM"
    ∧ @GetDatabase ascii_case rdb mem_rethink demo_created.1 "Acme" "crm" = (s3, Ok inst).
Proof.
  eexists _, _. split; [vm_compute; reflexivity|]. split; [reflexivity|].
  eapply (@CreateDatabase_GetDatabase ascii_case rdb mem_rethink mem_view mem_laws
            demo_clock ∅ "Acme" "crm" "CRM" "customers").
  - apply snd_pair. vm_compute. reflexivity.
  - discriminate.
  - intros td Htd. vm_compute in Htd. by simplify_eq.
  - apply snd_pair. vm_compute. reflexivity.
  - apply snd_pair. vm_compute. reflexivity.
Defined.

Lemma list_infos_ids `{UC : UnicodeCase} {σ} `{R : Rethink σ} (s : σ) org names :
  di_ID <$> (list_infos s org names).2
  = (λ n, TrimPrefix n (org_prefix org)) <$> List.filter (λ n, HasPrefix n (org_prefix org)) names.
Proof.
  revert s; induction names as [|n names IH]; intros s; [done|].
  cbn [list_infos List.filter]. destruct (HasPrefix n (org_prefix org)); [|apply IH].
  destruct (tb_get _ n "_info" "db") as [s1 got].
  destruct (list_infos s1 org names) as [s2 rest] eqn:E.
  cbn [snd]. rewrite !fmap_cons. f_equal. rewrite -(IH s1). by rewrite E.
Qed.

Lemma org_prefix_normal `{UC : UnicodeCase} o d :
  all_bytes db_char o = true → o ≠ "" → all_bytes db_char d = true → d ≠ "" →
  dbName o d = org_prefix o +:+ d.
Proof.
  intros Ho Hno Hd Hnd. rewrite dbName_normal //. unfold org_prefix.
  rewrite (TrimSpace_id db_char); [|auto with gn..].
  rewrite (ToLower_id db_char); [|auto with gn..]. by rewrite !str_app_assoc.
Qed.

Lemma org_prefix_misses `{UC : UnicodeCase} org d :
  all_bytes db_char (ToLower (TrimSpace org)) = false ∨ ToLower (TrimSpace org) = "" →
  HasPrefix (dbName org d) (org_prefix org) = false.
Proof.
  destruct (HasPrefix _ _) eqn:E; [|done]. intros [Hx|Hx].
  - apply HasPrefix_spec in E as [t E].
    assert (Hs : all_bytes db_char (dbName org d) = true).
    { unfold dbName. by rewrite !all_bytes_app !sanitize_safe. }
    rewrite E in Hs. unfold org_prefix in Hs. rewrite !all_bytes_app in Hs.
    bool_props. congruence.
  - unfold org_prefix, dbName in E. rewrite Hx in E.
    change (sanitize (or_default "")) with "default" in E. by vm_compute in E.
Qed.

(** Listing the databases of an organisation.  The listed ids are the
    names with the organisation's prefix, without it; every database created
    for normalised ids is listed under its own id; but for an organisation
    whose id needs sanitising, or is empty, the prefix does not match the
    names its databases were created with, and none of them is listed. *)
Theorem ListDatabases_spec `{UC : UnicodeCase} {σ : Type} `{R : Rethink σ} {V : RethinkView σ}
    {L : RethinkLaws σ} (s : σ) org s' l :
  ListDatabases s org = (s', Ok l) →
  (∃ names, (∀ n, n ∈ names ↔ is_Some (view s !! n))
    ∧ di_ID <$> l = (λ n, TrimPrefix n (org_prefix org))
                      <$> List.filter (λ n, HasPrefix n (org_prefix org)) names)
  ∧ (∀ d, all_bytes db_char org = true → org ≠ "" → all_bytes db_char d = true → d ≠ "" →
       is_Some (view s !! dbName org d) → d ∈ di_ID <$> l)
  ∧ (all_bytes db_char (ToLower (TrimSpace org)) = false ∨ ToLower (TrimSpace org) = "" →
     ∀ d, HasPrefix (dbName org d) (org_prefix org) = false).
Proof.
  unfold ListDatabases. destruct (db_list s) as [s1 [names|]] eqn:El; [|done]. cbn [bind_r].
  destruct (list_infos s1 org names) as [s2 l'] eqn:Ei. intros [= <- <-].
  pose proof (list_infos_ids s1 org names) as Hids. rewrite Ei in Hids. simpl in Hids.
  pose proof (list_exact _ _ _ El) as Hx.
  split; [by exists names|]. split; [|intros H d; by apply org_prefix_misses].
  intros d Ho Hno Hd Hnd Hin. rewrite Hids. apply list_elem_of_fmap.
  exists (dbName org d). rewrite org_prefix_normal // TrimPrefix_app. split; [done|].
  apply list_elem_of_In, List.filter_In. split.
  - apply list_elem_of_In, Hx. by rewrite -org_prefix_normal.
  - apply HasPrefix_app.
Qed.

(** A database created for the organisation Acme Inc is not listed for it. *)
Lemma ListDatabases_spec_witness :
  let s := (@CreateDatabase ascii_case rdb mem_rethink demo_clock ∅ "Acme Inc" "crm" "" "").1 in
  (@ListDatabases ascii_case rdb mem_rethink s "Acme Inc").2 = Ok []
  ∧ is_Some (s !! @dbName ascii_case "Acme Inc" "crm")
  ∧ HasPrefix (@dbName ascii_case "Acme Inc" "crm") (@org_prefix ascii_case "Acme Inc") = false.
Proof.
  intros s. split; [vm_compute; reflexivity|].
  split; [apply (bool_decide_unpack _); vm_compute; exact I|].
  eapply (@ListDatabases_spec ascii_case rdb mem_rethink mem_view mem_laws s "Acme Inc").
  - apply snd_pair. vm_compute. reflexivity.
  - left. vm_compute. reflexivity.
Defined.
