(* ===== verification/DbHandlers.v ===== *)
(** * The database HTTP API (internal/httpx/db_handlers.go, db_iface.go)

    The handlers as programs over the [DBManager] interface: one request per
    interface method, whose answers are arbitrary.  Decoding of request bodies
    (encoding/json, encoding/csv) is the class [Bodies]. *)

From S2P Require Import Prelude GoStrings Values Names Rbac Prog Mux DbManager.

Local Open Scope Z_scope.

(** ** The DBManager interface (db_iface.go) *)

(** [MConnect] is the lazy connection attempt of [ensureManager]. *)
Inductive mcall : Set → Type :=
  | MConnect : mcall bool
  | MListDatabases (org : string) : mcall (result (list DatabaseInstance))
  | MCreateDatabase (org db name description : string) : mcall (result DatabaseInstance)
  | MGetDatabase (org db : string) : mcall (result DatabaseInstance)
  | MDeleteDatabase (org db : string) : mcall (result unit)
  | MGetTables (org db : string) : mcall (result (list Table))
  | MCreateTable (org db : string) (t : Table) : mcall (result unit)
  | MUpdateTableSchema (org db table : string) (schema : list ColumnDef) (pk : string)
      : mcall (result unit)
  | MQueryRows (org db table orderBy : string) (limit : Z) (cursor : string) (forward : bool)
      : mcall (result (list doc * string))
  | MInsertRows (org db table : string) (rows : list doc) : mcall (result (list string))
  | MUpdateRow (org db table id : string) (patch : doc) : mcall (result unit)
  | MDeleteRow (org db table id : string) : mcall (result unit)
  | MListAudit (org db : string) (limit : Z) : mcall (result (list AuditEvent))
  | MSubscribeTable (org db table : string) : mcall (result unit)
  | MPing : mcall (result unit).

Abbreviation prog := (gprog mcall).

(** ** Requests and responses *)

Record http_request : Type := {
  hr_Method : string;
  hr_Path : string;
  hr_Principal : string;      (* X-Debug-Principal *)
  hr_ContentType : string;
  hr_Query : string → string; (* the empty string when absent *)
  hr_Body : string
}.

Inductive payload : Type :=
  | PDatabases (l : list DatabaseInstance)
  | PDatabase (d : DatabaseInstance)
  | PDeleted (id : string)
  | PUpdated (id : string)
  | PTables (l : list Table)
  | PTable (t : Table)
  | PAudit (l : list AuditEvent)
  | PBindings (l : list PermissionBinding)
  | PBinding (b : PermissionBinding)
  | PRevoked
  | PViews
  | PPreview (p : ImportPreviewResponse)
  | PInserted (ids : list string)
  | PPage (rows : list doc) (next : string)
  | PHealth (status : string)
  | PRows (rows : list doc).

(** [RPanic] is a nil dereference; the server drops the connection.
    [RUnfinished] marks a loop that did not end within the model's fuel. *)
Inductive resp : Type :=
  | RJson (status : Z) (p : payload)
  | RStatus (status : Z)
  | RError (status : Z) (msg code : string)
  | RCsv (head : list string) (records : list (list string))
  | RStream
  | RPanic
  | RUnfinished.

(** What the handlers decode from a body.  The second component of the first
    method's result is ignored by the source, so there is no error. *)
Class Bodies := {
  body_create : string → string * string * string;
  body_table : string → result (string * list ColumnDef * string);
  body_schema : string → result (list ColumnDef * string);
  body_binding : string → result PermissionBinding;
  body_any : string → result any;
  body_map : string → result doc;
  body_maps : string → result (list doc);
  body_import : string → result (any * bool * option (gmap string string));
  csv_read : string → result (list (list string));
  rfc3339_ok : string → bool;
  stringify_other : any → string
}.

(** [DBAPI]: whether a manager is connected, the organisation, the bindings. *)
Record dbapi : Type := { api_Manager : bool; api_OrgID : string; api_RBAC : RBACStore }.

Definition with_rbac (a : dbapi) (s : RBACStore) : dbapi :=
  {| api_Manager := api_Manager a; api_OrgID := api_OrgID a; api_RBAC := s |}.

Definition forbidden : resp := RError 403 "permission denied" "forbidden".
Definition unavailable : resp := RError 503 "database unavailable" "db_unavailable".
Definition not_allowed : resp := RStatus 405.

Section handlers.
Context `{BD : Bodies}.

Definition ensureManager (a : dbapi) : prog dbapi :=
  if api_Manager a then Ret a
  else do ok <- request MConnect ;
       Ret {| api_Manager := ok; api_OrgID := api_OrgID a; api_RBAC := api_RBAC a |}.

Definition principal_of (r : http_request) : string := PrincipalFromRequest (hr_Principal r).

(** The role of a principal; no principal means admin. *)
Definition roleFor (a : dbapi) (principal tableID dbID : string) : Role :=
  if String.eqb (TrimSpace principal) "" then RoleAdmin
  else
    let role := RoleFor (api_RBAC a) principal tableID dbID in
    if String.eqb role "" then RoleFor (api_RBAC a) principal "" (api_OrgID a) else role.

(** *** Databases *)

Definition handleDatabases (now : string) (a : dbapi) (r : http_request)
    : prog (dbapi * resp) :=
  do a <- ensureManager a ;
  let principal := principal_of r in
  if String.eqb (hr_Method r) "GET" then
    if negb (api_Manager a) then Ret (a, RJson 200 (PDatabases []))
    else do res <- request (MListDatabases (api_OrgID a)) ;
         Ret (a, match res with
                 | Err _ => RError 500 "list failed" "list_failed"
                 | Ok l => RJson 200 (PDatabases l)
                 end)
  else if String.eqb (hr_Method r) "POST" then
    if negb (String.eqb principal "")
       && negb (Allow (RoleFor (api_RBAC a) principal "" (api_OrgID a)) "db.create")
    then Ret (a, forbidden)
    else
      let '(id, name, descr) := body_create (hr_Body r) in
      if String.eqb (TrimSpace id) "" then Ret (a, RError 400 "missing id" "invalid_id")
      else
        let name := if String.eqb (TrimSpace name) "" then id else name in
        if negb (api_Manager a) then Ret (a, unavailable)
        else
          do res <- request (MCreateDatabase (api_OrgID a) id name descr) ;
          match res with
          | Err _ => Ret (a, RError 500 "database create failed" "db_create_failed")
          | Ok inst =>
              let a := if String.eqb (TrimSpace principal) "" then a
                       else with_rbac a (Grant (api_RBAC a)
                              {| pb_Principal := principal; pb_Scope := "db:" +:+ id;
                                 pb_Role := RoleMaintainer; pb_CreatedAt := now |}) in
              Ret (a, RJson 201 (PDatabase inst))
          end
  else Ret (a, not_allowed).

(** *** Rows *)

(** The schema of a table, empty when it is not listed. *)
Definition schema_in (tbls : result (list Table)) (table : string) : list ColumnDef :=
  match tbls with
  | Ok l => match find_first (λ t, String.eqb (tbl_Name t) table) l with
            | Some t => tbl_Schema t
            | None => []
            end
  | Err _ => []
  end.

(** The objects of a decoded array. *)
Definition objects (l : list any) : list doc := omap as_obj l.

Definition handleRows (a : dbapi) (r : http_request) (dbID table : string) (rest : list string)
    : prog (dbapi * resp) :=
  let principal := principal_of r in
  let org := api_OrgID a in
  let may_write := Allow (roleFor a principal table dbID) "row.write" in
  match rest with
  | [] =>
      if String.eqb (hr_Method r) "GET" then
        let role := roleFor a principal table dbID in
        if negb (Allow role "row.read") then Ret (a, forbidden)
        else
          do res <- request (MQueryRows org dbID table "id" 50 (hr_Query r "cursor") true) ;
          match res with
          | Err _ => Ret (a, RError 500 "query failed" "query_failed")
          | Ok page =>
              do tbls <- request (MGetTables org dbID) ;
              let schema := schema_in tbls table in
              Ret (a, RJson 200 (PPage (fmap (M:=list) (MaskRow role schema) page.1) page.2))
          end
      else if String.eqb (hr_Method r) "POST" then
        if negb may_write then Ret (a, forbidden)
        else
          let insert rows :=
            do res <- request (MInsertRows org dbID table rows) ;
            Ret (a, match res with
                    | Err _ => RError 500 "insert failed" "insert_failed"
                    | Ok ids => RJson 201 (PInserted ids)
                    end) in
          match body_any (hr_Body r) with
          | Err _ => Ret (a, RError 400 "invalid json" "bad_json")
          | Ok (AObj kvs) => insert [list_to_map kvs]
          | Ok (AArr items) => insert (objects items)
          | Ok _ => Ret (a, RError 400 "unsupported payload" "bad_payload")
          end
      else Ret (a, not_allowed)
  | rowID :: _ =>
      if String.eqb rowID "" then Ret (a, RError 400 "missing id" "missing_id")
      else if String.eqb (hr_Method r) "PATCH" then
        if negb may_write then Ret (a, forbidden)
        else match body_map (hr_Body r) with
             | Err _ => Ret (a, RError 400 "invalid json" "bad_json")
             | Ok patch =>
                 do res <- request (MUpdateRow org dbID table rowID patch) ;
                 Ret (a, match res with
                         | Err _ => RError 500 "update failed" "update_failed"
                         | Ok _ => RJson 200 (PUpdated rowID)
                         end)
             end
      else if String.eqb (hr_Method r) "DELETE" then
        if negb may_write then Ret (a, forbidden)
        else do res <- request (MDeleteRow org dbID table rowID) ;
             Ret (a, match res with
                     | Err _ => RError 500 "delete failed" "delete_failed"
                     | Ok _ => RJson 200 (PDeleted rowID)
                     end)
      else Ret (a, not_allowed)
  end.

(** *** Import *)

Definition validateType (t : ColumnType) (v : any) : bool :=
  if String.eqb t ColString then match v with AStr _ => true | _ => false end
  else if String.eqb t ColNumber then match v with ANum _ => true | _ => false end
  else if String.eqb t ColBoolean then match v with ABool _ => true | _ => false end
  else if String.eqb t ColTimestamp then
    match v with AStr s => rfc3339_ok s | _ => false end
  else true.

(** Rename columns; a source column maps to its target when the mapping gives a
    non-empty one.  When two columns meet, the source's map iteration order
    decides, here the order of [map_to_list]. *)
Definition normalize (mapping : gmap string string) (row : doc) : doc :=
  if bool_decide (mapping = ∅) then row
  else foldl (λ out kv, match mapping !! kv.1 with
                        | Some to => if String.eqb to "" then <[kv.1 := kv.2]> out
                                     else <[to := kv.2]> out
                        | None => <[kv.1 := kv.2]> out
                        end) ∅ (map_to_list row).

Definition csv_row (head rec : list string) : doc :=
  foldl (λ m cv, <[cv.1 := AStr cv.2]> m) ∅ (zip head rec).

Definition csv_rows (records : list (list string)) : list doc :=
  match records with
  | [] => []
  | head :: recs => csv_row head <$> List.filter (λ rec, negb (bool_decide (rec = []))) recs
  end.

(** Rows, whether the body asks for a dry run, and the mapping; or the reply. *)
Definition parse_import (ct body : string)
    : resp + (list doc * bool * gmap string string) :=
  let trimmed := TrimSpace body in
  if Contains ct "text/csv" then
    match csv_read body with
    | Err _ => inl (RError 400 "csv parse failed" "csv_parse")
    | Ok [] => inl (RError 400 "empty csv" "empty_csv")
    | Ok records => inr (csv_rows records, false, ∅)
    end
  else if String.eqb trimmed "" then inl (RError 400 "empty body" "empty_body")
  else if HasPrefix trimmed "{" then
    match body_import body with
    | Err _ => inl (RError 400 "invalid json" "bad_json")
    | Ok (rows, dry, mapping) =>
        match rows with
        | AArr items => inr (objects items, dry, default ∅ mapping)
        | AObj kvs => inr ([list_to_map kvs], dry, default ∅ mapping)
        | _ => inl (RError 400 "rows must be object or array" "bad_rows")
        end
    end
  else if HasPrefix trimmed "[" then
    match body_maps body with
    | Err _ => inl (RError 400 "invalid json array" "bad_json")
    | Ok rows => inr (rows, false, ∅)
    end
  else inl (RError 400 "unsupported body" "unsupported_body").

(** The errors and the mapped columns of one previewed row. *)
Definition preview_column (mapped : doc) (acc : doc * list string) (col : ColumnDef)
    : doc * list string :=
  match mapped !! col_Name col with
  | None => (acc.1, if col_Required col then acc.2 ++ ["missing:" +:+ col_Name col] else acc.2)
  | Some val =>
      (<[col_Name col := val]> acc.1,
       if validateType (col_Type col) val then acc.2 else acc.2 ++ ["type:" +:+ col_Name col])
  end.

Definition preview_row (schema : list ColumnDef) (mapping : gmap string string) (row : doc)
    : ImportPreviewRow :=
  let '(m, errs) := foldl (preview_column (normalize mapping row)) (∅, []) schema in
  {| ip_Raw := row; ip_Mapped := m; ip_Errors := errs |}.

Definition preview (schema : list ColumnDef) (mapping : gmap string string) (rows : list doc)
    : ImportPreviewResponse :=
  {| ipr_Rows := preview_row schema mapping <$> take 50 rows; ipr_ColumnMap := mapping;
     ipr_Total := Z.of_nat (length rows); ipr_Errors := [] |}.

Definition handleImport (a : dbapi) (r : http_request) (dbID table : string)
    : prog (dbapi * resp) :=
  let org := api_OrgID a in
  if negb (Allow (roleFor a (principal_of r) table dbID) "row.write") then Ret (a, forbidden)
  else if negb (String.eqb (hr_Method r) "POST") then Ret (a, not_allowed)
  else
    do tbls <- request (MGetTables org dbID) ;
    let schema := schema_in tbls table in
    match parse_import (hr_ContentType r) (hr_Body r) with
    | inl rep => Ret (a, rep)
    | inr (rows, dry, mapping) =>
        if String.eqb (hr_Query r "dry_run") "1" || dry
        then Ret (a, RJson 200 (PPreview (preview schema mapping rows)))
        else
          do res <- request (MInsertRows org dbID table (normalize mapping <$> rows)) ;
          Ret (a, match res with
                  | Err _ => RError 500 "import failed" "import_failed"
                  | Ok ids => RJson 200 (PInserted ids)
                  end)
    end.

(** *** Export *)

Definition export_limit (ls : string) : Z :=
  match Atoi ls with
  | Some n => if (0 <? n) && (n <=? 10000) then n else 1000
  | None => 1000
  end.

(** The page loop; [acc] holds the masked rows so far, and a failed query gives
    [None].  [fuel] bounds the iterations. *)
Fixpoint export_loop (fuel : nat) (org dbID table : string) (role : Role) (limit : Z)
    (cursor : string) (acc : list doc) : prog (option (option (list doc))) :=
  if negb (Z.of_nat (length acc) <? limit) then Ret (Some (Some acc))
  else
    match fuel with
    | O => Ret None
    | S n =>
        do res <- request (MQueryRows org dbID table "id" 200 cursor true) ;
        match res with
        | Err _ => Ret (Some None)
        | Ok page =>
            do tbls <- request (MGetTables org dbID) ;
            let acc := take (Z.to_nat limit)
                         (acc ++ fmap (M:=list) (MaskRow role (schema_in tbls table)) page.1) in
            if String.eqb page.2 "" || String.eqb cursor page.2 then Ret (Some (Some acc))
            else export_loop n org dbID table role limit page.2 acc
        end
    end.

Definition stringify (v : option any) : string :=
  match v with
  | None | Some ANil => ""
  | Some (AStr s) => s
  | Some x => stringify_other x
  end.

(** The header is the first row's columns, in map iteration order. *)
Definition csv_of (rows : list doc) : resp :=
  match rows with
  | [] => RCsv [] []
  | first :: _ =>
      let head := (map_to_list first).*1 in
      RCsv head ((λ row, (λ col, stringify (row !! col)) <$> head) <$> rows)
  end.

Definition export_fuel (limit : Z) : nat := S (Z.to_nat limit).

Definition handleExport (a : dbapi) (r : http_request) (dbID table : string)
    : prog (dbapi * resp) :=
  let role := roleFor a (principal_of r) table dbID in
  if negb (Allow role "row.read") then Ret (a, forbidden)
  else
    let format := hr_Query r "format" in
    let limit := if String.eqb (hr_Query r "limit") "" then 1000
                 else export_limit (hr_Query r "limit") in
    do res <- export_loop (export_fuel limit) (api_OrgID a) dbID table role limit "" [] ;
    Ret (a, match res with
            | None => RUnfinished
            | Some None => RError 500 "export query failed" "export_query"
            | Some (Some rows) => if String.eqb format "csv" then csv_of rows
                                  else RJson 200 (PRows rows)
            end).

(** *** Tables *)

Definition handle_table_list (a : dbapi) (r : http_request) (dbID : string)
    : prog (dbapi * resp) :=
  let org := api_OrgID a in
  if String.eqb (hr_Method r) "GET" then
    do res <- request (MGetTables org dbID) ;
    Ret (a, match res with
            | Err _ => RError 500 "list tables failed" "list_failed"
            | Ok l => RJson 200 (PTables l)
            end)
  else if String.eqb (hr_Method r) "POST" then
    if negb (Allow (roleFor a (principal_of r) "" dbID) "table.create") then Ret (a, forbidden)
    else match body_table (hr_Body r) with
         | Err _ => Ret (a, RError 400 "invalid table spec" "invalid_spec")
         | Ok (name, schema, pk) =>
             if String.eqb (TrimSpace name) "" then
               Ret (a, RError 400 "invalid table spec" "invalid_spec")
             else
               let tbl := {| tbl_ID := name; tbl_DatabaseID := ""; tbl_Name := name;
                             tbl_PrimaryKey := pk; tbl_TTL := 0; tbl_Schema := schema;
                             tbl_CreatedAt := "" |} in
               do res <- request (MCreateTable org dbID tbl) ;
               Ret (a, match res with
                       | Err _ => RError 500 "table create failed" "create_failed"
                       | Ok _ => RJson 201 (PTable tbl)
                       end)
         end
  else Ret (a, not_allowed).

Definition handle_table_item (a : dbapi) (r : http_request) (dbID table : string)
    : prog (dbapi * resp) :=
  let org := api_OrgID a in
  if String.eqb (hr_Method r) "GET" then
    do res <- request (MGetTables org dbID) ;
    Ret (a, match find_first (λ t, String.eqb (tbl_Name t) table)
                    (match res with Ok l => l | Err _ => [] end) with
            | Some t => RJson 200 (PTable t)
            | None => RError 404 "table not found" "not_found"
            end)
  else if String.eqb (hr_Method r) "PATCH" then
    if negb (Allow (roleFor a (principal_of r) table dbID) "table.schema") then Ret (a, forbidden)
    else match body_schema (hr_Body r) with
         | Err _ => Ret (a, RError 400 "invalid schema" "invalid_schema")
         | Ok ([], _) => Ret (a, RError 400 "invalid schema" "invalid_schema")
         | Ok (schema, pk) =>
             do res <- request (MUpdateTableSchema org dbID table schema pk) ;
             Ret (a, match res with
                     | Err _ => RError 500 "schema update failed" "schema_failed"
                     | Ok _ => RJson 200 (PUpdated table)
                     end)
         end
  else if String.eqb (hr_Method r) "DELETE" then
    if negb (Allow (roleFor a (principal_of r) table dbID) "table.delete") then Ret (a, forbidden)
    else Ret (a, RError 400 "delete not implemented" "not_implemented")
  else Ret (a, not_allowed).

Definition handleTables (a : dbapi) (r : http_request) (dbID : string) (rest : list string)
    : prog (dbapi * resp) :=
  if negb (api_Manager a) then Ret (a, unavailable)
  else
    match rest with
    | [] => handle_table_list a r dbID
    | [table] => handle_table_item a r dbID table
    | table :: op :: more =>
        if String.eqb op "rows" then handleRows a r dbID table more
        else if String.eqb op "views" then Ret (a, RJson 200 PViews)
        else if String.eqb op "import" then handleImport a r dbID table
        else if String.eqb op "export" then handleExport a r dbID table
        else Ret (a, RStatus 404)
    end.

(** *** Subroutes of a database *)

(** The permission handlers; listing returns every binding of every scope, in
    map iteration order. *)
Definition handlePermissions (now : string) (a : dbapi) (r : http_request) (dbID : string)
    : dbapi * resp :=
  let may_manage := Allow (roleFor a (principal_of r) "" dbID) "table.schema" in
  if String.eqb (hr_Method r) "GET" then
    (a, RJson 200 (PBindings (concat (map_to_list (bindings (api_RBAC a))).*2)))
  else if String.eqb (hr_Method r) "POST" then
    if negb may_manage then (a, forbidden)
    else match body_binding (hr_Body r) with
         | Err _ => (a, RError 400 "invalid permission" "invalid_perm")
         | Ok b =>
             if String.eqb (TrimSpace (pb_Principal b)) ""
                || String.eqb (TrimSpace (pb_Scope b)) ""
             then (a, RError 400 "invalid permission" "invalid_perm")
             else
               let b := {| pb_Principal := pb_Principal b; pb_Scope := pb_Scope b;
                           pb_Role := pb_Role b; pb_CreatedAt := now |} in
               (with_rbac a (Grant (api_RBAC a) b), RJson 201 (PBinding b))
         end
  else if String.eqb (hr_Method r) "DELETE" then
    if negb may_manage then (a, forbidden)
    else
      let scope := hr_Query r "scope" in
      let who := hr_Query r "principal" in
      if String.eqb (TrimSpace scope) "" || String.eqb (TrimSpace who) ""
      then (a, RError 400 "missing scope/principal" "invalid_perm")
      else (with_rbac a (Revoke (api_RBAC a) scope who), RJson 200 PRevoked)
  else (a, not_allowed).

(** /api/db/:dbId itself. *)
Definition handle_database_item (a : dbapi) (r : http_request) (dbID : string)
    : prog (dbapi * resp) :=
  if String.eqb (hr_Method r) "GET" then
    if negb (api_Manager a) then Ret (a, unavailable)
    else do res <- request (MGetDatabase (api_OrgID a) dbID) ;
         Ret (a, match res with
                 | Err _ => RError 404 "database not found" "not_found"
                 | Ok d => RJson 200 (PDatabase d)
                 end)
  else if String.eqb (hr_Method r) "PATCH" then
    Ret (a, RError 400 "update not implemented" "not_implemented")
  else if String.eqb (hr_Method r) "DELETE" then
    if negb (api_Manager a) then Ret (a, unavailable)
    else do res <- request (MDeleteDatabase (api_OrgID a) dbID) ;
         Ret (a, match res with
                 | Err _ => RError 500 "delete failed" "delete_failed"
                 | Ok _ => RJson 200 (PDeleted dbID)
                 end)
  else Ret (a, not_allowed).

Definition handle_audit (a : dbapi) (dbID : string) : prog (dbapi * resp) :=
  if negb (api_Manager a) then Ret (a, RPanic)
  else do res <- request (MListAudit (api_OrgID a) dbID 200) ;
       Ret (a, match res with
               | Err _ => RError 500 "audit list failed" "audit_failed"
               | Ok l => RJson 200 (PAudit l)
               end).

(** The dispatch below /api/db/:dbId, and on the path. *)
Definition route_database (now : string) (a : dbapi) (r : http_request) (dbID : string)
    (rest : list string) : prog (dbapi * resp) :=
  match rest with
  | [] => handle_database_item a r dbID
  | sub :: more =>
      if String.eqb sub "tables" then handleTables a r dbID more
      else if String.eqb sub "audit" then handle_audit a dbID
      else if String.eqb sub "permissions" then Ret (handlePermissions now a r dbID)
      else Ret (a, RStatus 404)
  end.

Definition route_path (now : string) (a : dbapi) (r : http_request) : prog (dbapi * resp) :=
  let tail := TrimPrefix (hr_Path r) "/api/db/" in
  if String.eqb tail "" then Ret (a, RStatus 404)
  else
    match Split "/" tail with
    | [] => Ret (a, RStatus 404)
    | dbID :: rest =>
        if String.eqb dbID "" then Ret (a, RStatus 404) else route_database now a r dbID rest
    end.

Definition handleDatabaseSubroutes (now : string) (a : dbapi) (r : http_request)
    : prog (dbapi * resp) :=
  do a <- ensureManager a ; route_path now a r.

(** *** Change feeds *)

(** What the event loop of [handleChangefeed] can receive and send. *)
Inductive feed_input : Type := FeedEvent (ev : ChangefeedEvent) | Heartbeat.
Inductive feed_output : Type := SendEvent (ev : ChangefeedEvent) | SendPaused (pending : Z) | SendPing.

Definition backlog_cap : nat := 512.

(** One round while the client and the stream are alive. *)
Definition feed_step (paused : bool) (backlog : list ChangefeedEvent) (i : feed_input)
    : list ChangefeedEvent * list feed_output :=
  match i with
  | FeedEvent ev =>
      if paused then
        (if (length backlog <? backlog_cap)%nat then backlog ++ [ev] else backlog, [])
      else (backlog, [SendEvent ev])
  | Heartbeat =>
      if paused && negb (bool_decide (backlog = []))
      then (backlog, [SendPaused (Z.of_nat (length backlog))])
      else (backlog, [SendPing])
  end.

Fixpoint feed_loop (paused : bool) (backlog : list ChangefeedEvent) (ins : list feed_input)
    : list ChangefeedEvent * list feed_output :=
  match ins with
  | [] => (backlog, [])
  | i :: r => let '(b, o) := feed_step paused backlog i in
              let '(b', o') := feed_loop paused b r in (b', o ++ o')
  end.

(** [can_flush]: whether the response writer supports streaming.  A stream
    starts with an init event and then runs [feed_loop]. *)
Definition handleChangefeed (can_flush : bool) (a : dbapi) (r : http_request)
    : prog (dbapi * resp) :=
  match Split "/" (TrimPrefix (hr_Path r) "/sse/db/") with
  | dbID :: t :: table :: c :: _ =>
      if String.eqb t "tables" && String.eqb c "changes" then
        if negb (api_Manager a) then Ret (a, RPanic)
        else do res <- request (MSubscribeTable (api_OrgID a) dbID table) ;
             Ret (a, match res with
                     | Err _ => RError 500 "subscribe failed" "subscribe_failed"
                     | Ok _ => if can_flush then RStream
                               else RError 500 "stream unsupported" "stream_unsupported"
                     end)
      else Ret (a, RStatus 404)
  | _ => Ret (a, RStatus 404)
  end.

(** *** Connectivity and the route table *)

Definition handle_health (a : dbapi) : prog (dbapi * resp) :=
  do a <- ensureManager a ;
  if api_Manager a then
    do res <- request MPing ;
    Ret (a, RJson 200 (PHealth (match res with Ok _ => "ok" | Err _ => "unavailable" end)))
  else Ret (a, RJson 200 (PHealth "unavailable")).

Definition db_patterns : list string := ["/api/db"; "/api/db/"; "/sse/db/"; "/api/db/health"].

(** [Register] and the dispatch it sets up. *)
Definition serve_db (now : string) (can_flush : bool) (a : dbapi) (r : http_request)
    : prog (dbapi * resp) :=
  if mux_redirects db_patterns (hr_Path r) then Ret (a, RStatus 301)
  else
    match mux_match db_patterns (hr_Path r) with
    | None => Ret (a, RStatus 404)
    | Some p =>
        if String.eqb p "/api/db" then handleDatabases now a r
        else if String.eqb p "/api/db/health" then handle_health a
        else if String.eqb p "/sse/db/" then handleChangefeed can_flush a r
        else handleDatabaseSubroutes now a r
    end.

(** [InitAndRegisterDB]: the initial state, with the demo principal. *)
Definition init_api (now : string) (hasManager : bool) (org : string) : dbapi :=
  let org := if String.eqb (TrimSpace org) "" then "default" else org in
  {| api_Manager := hasManager; api_OrgID := org;
     api_RBAC := Grant NewRBACStore
       {| pb_Principal := "user:demo"; pb_Scope := "db:" +:+ org; pb_Role := RoleMaintainer;
          pb_CreatedAt := now |} |}.

End handlers.

(** ** Authorisation *)

(** What must be allowed for a request to the manager. *)
Definition authorized (a : dbapi) (p : string) (e : gevent mcall) : Prop :=
  match e with
  | Ev c _ =>
      match c with
      | MCreateTable _ db _ => Allow (roleFor a p "" db) "table.create" = true
      | MUpdateTableSchema _ db t _ _ => Allow (roleFor a p t db) "table.schema" = true
      | MInsertRows _ db t _ | MUpdateRow _ db t _ _ | MDeleteRow _ db t _ =>
          Allow (roleFor a p t db) "row.write" = true
      | MQueryRows _ db t _ _ _ _ => Allow (roleFor a p t db) "row.read" = true
      | MCreateDatabase _ _ _ _ => False
      | _ => True
      end
  end.

(** Split a goal about the requests of a handler along the handler's tests. *)
Ltac handler_cases :=
  repeat (cbn [bind request issues_only]; first
    [ done
    | match goal with
      | |- _ ∧ _ => split
      | |- ∀ _, _ => intros
      | |- context [if negb (Allow ?x ?y) then _ else _] => destruct (Allow x y) eqn:?
      | |- context [if String.eqb ?x ?y then _ else _] => destruct (String.eqb x y)
      | |- context [if ?b then _ else _] => destruct b
      | |- context [match ?x with _ => _ end] => destruct x
      end ]).

Section authorization.
Context `{BD : Bodies}.

Abbreviation auth a r := (authorized a (principal_of r)).

Lemma handleRows_auth a r dbID table rest :
  issues_only (auth a r) (handleRows a r dbID table rest).
Proof. unfold handleRows. destruct rest; handler_cases. Qed.

Lemma handleImport_auth a r dbID table :
  issues_only (auth a r) (handleImport a r dbID table).
Proof.
  unfold handleImport. prog_walk ltac:(idtac; lazymatch goal with
    | |- authorized _ _ _ => cbn [authorized]; first [exact I | by bool_props]
    end).
Qed.

Lemma export_loop_auth a r dbID table role limit n cursor acc :
  role = roleFor a (principal_of r) table dbID → Allow role "row.read" = true →
  issues_only (auth a r) (export_loop n (api_OrgID a) dbID table role limit cursor acc).
Proof.
  intros Er Ha. revert cursor acc; induction n as [|n IH]; intros cursor acc;
    cbn [export_loop]; destruct (negb _); try done.
  cbn [bind request issues_only]. intros [page|e]; split; try done; simpl; [congruence| |congruence].
  intros tbls. split; [done|]. destruct (_ || _); [done|]. apply IH.
Qed.

Lemma handleExport_auth a r dbID table :
  issues_only (auth a r) (handleExport a r dbID table).
Proof.
  unfold handleExport. destruct (Allow _ _) eqn:E; [|done]. cbn [negb].
  apply issues_only_bind; [|done]. by apply export_loop_auth.
Qed.

Lemma handleTables_auth a r dbID rest :
  issues_only (auth a r) (handleTables a r dbID rest).
Proof.
  unfold handleTables. destruct (api_Manager a); [|done]. cbn [negb].
  destruct rest as [|table [|op more]].
  - unfold handle_table_list. handler_cases.
  - unfold handle_table_item. handler_cases.
  - destruct (String.eqb op "rows"); [apply handleRows_auth|].
    destruct (String.eqb op "views"); [done|].
    destruct (String.eqb op "import"); [apply handleImport_auth|].
    destruct (String.eqb op "export"); [apply handleExport_auth|done].
Qed.

(** Connecting changes neither the bindings nor the organisation. *)
Lemma authorized_manager a b p e :
  api_RBAC b = api_RBAC a → api_OrgID b = api_OrgID a → authorized b p e → authorized a p e.
Proof. intros E1 E2. unfold authorized, roleFor. by rewrite E1 E2. Qed.

Lemma route_path_auth now a r : issues_only (auth a r) (route_path now a r).
Proof.
  unfold route_path. destruct (String.eqb _ ""); [done|].
  destruct (Split "/" _) as [|dbID rest]; [done|]. destruct (String.eqb dbID ""); [done|].
  destruct rest as [|sub more]; simpl.
  { unfold handle_database_item. handler_cases. }
  destruct (String.eqb sub "tables"); [apply handleTables_auth|].
  destruct (String.eqb sub "audit"); [unfold handle_audit; handler_cases|].
  by destruct (String.eqb sub "permissions").
Qed.

Lemma subroutes_auth now a r :
  issues_only (auth a r) (handleDatabaseSubroutes now a r).
Proof.
  unfold handleDatabaseSubroutes, ensureManager.
  destruct (api_Manager a); [apply route_path_auth|]. intros ok. split; [done|].
  eapply issues_only_mono; [|apply route_path_auth]. intros e. by apply authorized_manager.
Qed.

End authorization.

(** ** Properties *)

(** C2: authorisation.  In every run of the database API on a path below
    /api/db/, whatever the database answers, each request that creates a
    table, changes a schema, inserts, updates, deletes or queries rows is made
    only if the caller's role on that table and database allows the action;
    no database is created there.  Deleting a database, however, is not
    checked: a DELETE of /api/db/:id is passed on for every caller and every
    set of bindings. *)
Theorem requests_authorized `{BD : Bodies} now a r :
  (∀ t res, runs (handleDatabaseSubroutes now a r) t res →
            Forall (authorized a (principal_of r)) t)
  ∧ (∀ dbID ans, api_Manager a = true → hr_Method r = "DELETE" →
       hr_Path r = "/api/db/" +:+ dbID → dbID ≠ "" → ("/"%char ∉ s2b dbID) →
       runs (handleDatabaseSubroutes now a r)
         [Ev (MDeleteDatabase (api_OrgID a) dbID) ans]
         (a, match ans with
             | Err _ => RError 500 "delete failed" "delete_failed"
             | Ok _ => RJson 200 (PDeleted dbID)
             end)).
Proof.
  split.
  - intros t res Hr. eapply issues_only_runs; [apply subroutes_auth|exact Hr].
  - intros dbID ans Hm Hd Hp Hne Hs. unfold handleDatabaseSubroutes, ensureManager.
    rewrite Hm. cbn [bind]. unfold route_path. rewrite Hp TrimPrefix_app Split_single //.
    destruct (String.eqb_spec dbID ""); [done|].
    unfold route_database, handle_database_item. rewrite Hd Hm. simpl. by exists ans, [].
Qed.

(** Body decoders that reject everything, for examples that need none. *)
Definition no_bodies : Bodies :=
  {| body_create := λ _, ("", "", ""); body_table := λ _, Err "eof";
     body_schema := λ _, Err "eof"; body_binding := λ _, Err "eof";
     body_any := λ _, Err "eof"; body_map := λ _, Err "eof"; body_maps := λ _, Err "eof";
     body_import := λ _, Err "eof"; csv_read := λ _, Err "eof";
     rfc3339_ok := λ _, false; stringify_other := λ _, "" |}.

Definition demo_api : dbapi :=
  {| api_Manager := true; api_OrgID := "acme";
     api_RBAC := Grant NewRBACStore {| pb_Principal := "user:eve"; pb_Scope := "db:crm";
       pb_Role := RoleViewer; pb_CreatedAt := "" |} |}.

Definition demo_req (method path principal : string) : http_request :=
  {| hr_Method := method; hr_Path := path; hr_Principal := principal; hr_ContentType := "";
     hr_Query := λ _, ""; hr_Body := "" |}.

(** A viewer of a database may not write a row in it, but deletes it whole. *)
Lemma requests_authorized_witness :
  Allow (@roleFor demo_api "user:eve" "people" "crm") "row.write" = false
  ∧ runs (@handleDatabaseSubroutes no_bodies "" demo_api
            (demo_req "DELETE" "/api/db/crm" "user:eve"))
      [Ev (MDeleteDatabase "acme" "crm") (Ok tt)] (demo_api, RJson 200 (PDeleted "crm")).
Proof.
  split; [vm_compute; reflexivity|].
  apply (proj2 (@requests_authorized no_bodies "" demo_api
                  (demo_req "DELETE" "/api/db/crm" "user:eve")) "crm" (Ok tt));
    try reflexivity; [discriminate|].
  intros Hin. apply list_elem_of_In in Hin. simpl in Hin. by intuition discriminate.
Defined.

(** Managing permissions.  The bindings change only for callers whose role
    on the database in the path allows schema changes.  The binding an
    accepted request adds takes effect as sent: its scope may be any other
    database and its role any role, so a maintainer of one database can make
    any principal the administrator of another. *)
Theorem permissions_guarded `{BD : Bodies} now a r dbID a' rsp :
  handlePermissions now a r dbID = (a', rsp) →
  (api_RBAC a' ≠ api_RBAC a → Allow (roleFor a (principal_of r) "" dbID) "table.schema" = true)
  ∧ (∀ b other, rsp = RJson 201 (PBinding b) → pb_Scope b = "db:" +:+ other → other ≠ "" →
       RoleFor (api_RBAC a') (pb_Principal b) "" other = pb_Role b).
Proof.
  unfold handlePermissions.
  destruct (String.eqb _ "GET"); [intros [= <- <-]; by split|].
  destruct (String.eqb _ "POST").
  { destruct (Allow _ _); [|intros [= <- <-]; by split]. cbn [negb].
    destruct (body_binding _) as [b|]; [|intros [= <- <-]; by split].
    destruct (_ || _); [intros [= <- <-]; by split|].
    intros [= <- <-]. split; [done|]. intros b' other [= <-] Hs Hne. simpl in Hs |- *.
    unfold RoleFor. destruct (String.eqb_spec other ""); [done|]. simpl.
    unfold role_in. fold (binding_in (Grant (api_RBAC a) {| pb_Principal := pb_Principal b;
      pb_Scope := pb_Scope b; pb_Role := pb_Role b; pb_CreatedAt := now |})
      (String "d" (String "b" (String ":" other))) (pb_Principal b)).
    rewrite binding_in_Grant. simpl. rewrite decide_True //. by rewrite Hs. }
  destruct (String.eqb _ "DELETE"); [|intros [= <- <-]; by split].
  destruct (Allow _ _); [|intros [= <- <-]; by split]. cbn [negb].
  destruct (_ || _); intros [= <- <-]; by split.
Qed.

Definition binding_bodies : Bodies :=
  {| body_create := λ _, ("", "", ""); body_table := λ _, Err "eof";
     body_schema := λ _, Err "eof";
     body_binding := λ _, Ok {| pb_Principal := "user:eve"; pb_Scope := "db:payroll";
                                pb_Role := RoleAdmin; pb_CreatedAt := "" |};
     body_any := λ _, Err "eof"; body_map := λ _, Err "eof"; body_maps := λ _, Err "eof";
     body_import := λ _, Err "eof"; csv_read := λ _, Err "eof";
     rfc3339_ok := λ _, false; stringify_other := λ _, "" |}.

Definition maintainer_api : dbapi :=
  {| api_Manager := true; api_OrgID := "acme";
     api_RBAC := Grant NewRBACStore {| pb_Principal := "user:eve"; pb_Scope := "db:crm";
       pb_Role := RoleMaintainer; pb_CreatedAt := "" |} |}.

Definition escalate : dbapi * resp :=
  @handlePermissions binding_bodies "" maintainer_api
    (demo_req "POST" "/api/db/crm/permissions" "user:eve") "crm".

Lemma permissions_guarded_witness :
  RoleFor (api_RBAC maintainer_api) "user:eve" "" "payroll" = ""
  ∧ RoleFor (api_RBAC escalate.1) "user:eve" "" "payroll" = RoleAdmin.
Proof.
  split; [vm_compute; reflexivity|].
  apply (proj2 (@permissions_guarded binding_bodies "" maintainer_api
    (demo_req "POST" "/api/db/crm/permissions" "user:eve") "crm" escalate.1 escalate.2
    eq_refl) {| pb_Principal := "user:eve"; pb_Scope := "db:payroll";
                pb_Role := RoleAdmin; pb_CreatedAt := "" |} "payroll");
    [vm_compute; reflexivity|reflexivity|discriminate].
Defined.

(** ** Import *)

Section import.
Context `{BD : Bodies}.

(** The complaints about one column of a mapped row. *)
Definition column_errors (mapped : doc) (col : ColumnDef) : list string :=
  match mapped !! col_Name col with
  | None => if col_Required col then ["missing:" +:+ col_Name col] else []
  | Some v => if validateType (col_Type col) v then [] else ["type:" +:+ col_Name col]
  end.

Lemma preview_errors mapped schema acc :
  (foldl (preview_column mapped) acc schema).2 = acc.2 ++ (schema ≫= column_errors mapped).
Proof.
  revert acc; induction schema as [|col schema IH]; intros [m errs]; simpl;
    [by rewrite app_nil_r|].
  rewrite IH app_assoc. f_equal. unfold preview_column, column_errors. simpl.
  destruct (mapped !! col_Name col); [destruct (validateType _ _)|destruct (col_Required col)];
    simpl; by rewrite ?app_nil_r.
Qed.

(** A row that satisfies the schema. *)
Definition row_ok (schema : list ColumnDef) (mapped : doc) : Prop :=
  Forall (λ col, match mapped !! col_Name col with
                 | None => col_Required col = false
                 | Some v => validateType (col_Type col) v = true
                 end) schema.

Lemma preview_row_errors schema mapping row :
  ip_Errors (preview_row schema mapping row) = [] ↔ row_ok schema (normalize mapping row).
Proof.
  unfold preview_row. pose proof (preview_errors (normalize mapping row) schema (∅, [])) as He.
  destruct (foldl _ _ _) as [m errs]. simpl in He |- *. subst errs. unfold row_ok.
  induction schema as [|col schema IH]; simpl; [by split; constructor|].
  rewrite Forall_cons -IH app_nil.
  assert (Hc : column_errors (normalize mapping row) col = []
    ↔ match normalize mapping row !! col_Name col with
      | None => col_Required col = false
      | Some v => validateType (col_Type col) v = true
      end).
  { unfold column_errors. destruct (_ !! _);
      [destruct (validateType _ _)|destruct (col_Required col)]; by split. }
  by rewrite Hc.
Qed.

End import.

Definition is_insert (e : gevent mcall) : bool :=
  match e with Ev (MInsertRows _ _ _ _) _ => true | _ => false end.


Definition import_bodies : Bodies :=
  {| body_create := λ _, ("", "", ""); body_table := λ _, Err "eof";
     body_schema := λ _, Err "eof"; body_binding := λ _, Err "eof";
     body_any := λ _, Err "eof"; body_map := λ _, Err "eof";
     body_maps := λ _, Ok [{[ "name" := AStr "Ann" ]}; ∅];
     body_import := λ _, Err "eof"; csv_read := λ _, Err "eof";
     rfc3339_ok := λ _, false; stringify_other := λ _, "" |}.

Definition demo_import : http_request :=
  {| hr_Method := "POST"; hr_Path := ""; hr_Principal := ""; hr_ContentType := "application/json";
     hr_Query := λ k, if String.eqb k "dry_run" then "1" else ""; hr_Body := "[{},{}]" |}.

Definition name_schema : list ColumnDef :=
  [{| col_Name := "name"; col_Type := ColString; col_Required := true; col_Unique := false;
      col_Indexed := false; col_Default := ANil; col_Enum := []; col_Regex := "";
      col_Mask := false |}].

Definition people : Table :=
  {| tbl_ID := "people"; tbl_DatabaseID := ""; tbl_Name := "people"; tbl_PrimaryKey := "id";
     tbl_TTL := 0; tbl_Schema := name_schema; tbl_CreatedAt := "" |}.


(** ** Export *)

(** The pagination contract between the manager and its clients, for a table
    with the contents [td]: an answered page is the first rows of the range,
    and the next cursor is empty at the end and else the last row's key. *)
Definition page_contract (td : tdata) (orderBy : string) (limit : Z) (cursor : string)
    (forward : bool) (rows : list doc) (next : string) : Prop :=
  let range := range_of td (page_query "" "" orderBy limit cursor forward) in
  rows = take (Z.to_nat limit) range
  ∧ (Z.of_nat (length range) <= limit → next = "")
  ∧ (limit < Z.of_nat (length range) →
     ∃ x, last rows = Some x
          ∧ next = match x !! orderBy with Some (AStr k) => k | _ => "" end).

(** Every page of a run keeps the contract, every table list gives the schema. *)
Definition answers_from (td : tdata) (table : string) (schema : list ColumnDef)
    (e : gevent mcall) : Prop :=
  match e with
  | Ev c ans =>
      match c in mcall X return X → Prop with
      | MQueryRows _ _ _ orderBy limit cursor forward =>
          λ ans, match ans with
                 | Ok (rows, next) => page_contract td orderBy limit cursor forward rows next
                 | Err _ => True
                 end
      | MGetTables _ _ => λ ans, schema_in ans table = schema
      | _ => λ _, True
      end ans
  end.

(** The manager keeps the contract. *)
Lemma QueryRows_contract `{UC : UnicodeCase} {σ : Type} `{R : Rethink σ} {V : RethinkView σ}
    {L : RethinkLaws σ} (s : σ) org db table pk limit cursor fwd s' rows next :
  pk ≠ "" → 0 < limit →
  QueryRows s org db table pk limit cursor fwd = (s', Ok (rows, next)) →
  ∃ td, table_of (view s) (dbName org db) table = Some td ∧ td_pk td = pk
        ∧ page_contract td pk limit cursor fwd rows next.
Proof.
  intros Hpk Hl Hq. apply page_facts in Hq as (_ & td & Ht & Hp & H1 & H2 & H3 & _);
    [|done..]. exists td. split; [done|]. split; [done|]. split; [exact H1|]. by split.
Qed.

Section export.
Context `{BD : Bodies}.

Definition rows_after (td : tdata) (cursor : string) : list doc :=
  range_of td (page_query "" "" "id" 200 cursor true).

Lemma rows_after_start td : rows_after td "" = td_rows td.
Proof.
  unfold rows_after, range_of. simpl. apply filter_all_true, Forall_true. done.
Qed.

Lemma rows_after_cursor td c :
  c ≠ "" → td_pk td = "id" → rows_after td c = List.filter (in_bounds "id" (Some c) None) (td_rows td).
Proof.
  intros Hc Hp. unfold rows_after, range_of. simpl.
  destruct (String.eqb_spec c ""); [done|]. simpl. by rewrite Hp.
Qed.

(** No row has the empty string for a key: it would end the cursor. *)
Definition keys_nonempty (td : tdata) : Prop :=
  Forall (λ d, key_of_row (td_pk td) d ≠ "") (td_rows td).

(** What one page leaves: the cursor of the next one starts the rest. *)
Lemma page_next td cursor rows next :
  sorted_keys td → keys_nonempty td → td_pk td = "id" →
  page_contract td "id" 200 cursor true rows next →
  200 < Z.of_nat (length (rows_after td cursor)) →
  next ≠ "" ∧ next ≠ cursor ∧ rows_after td next = drop 200 (rows_after td cursor).
Proof.
  intros Hs Hne Hp (-> & _ & H2) Hlen. fold (rows_after td cursor) in H2.
  destruct (H2 Hlen) as (x & Hl & En).
  assert (Hsplit : ∃ a, rows_after td cursor = a ++ x :: drop 200 (rows_after td cursor)).
  { apply last_Some in Hl as [a Ha]. exists a.
    rewrite -{1}(take_drop 200 (rows_after td cursor)).
    change (Z.to_nat 200) with 200%nat in Ha. rewrite Ha -app_assoc. done. }
  destruct Hsplit as [a Ea].
  assert (Hb : q_before (page_query "" "" "id" 200 cursor true) = None)
    by (simpl; by rewrite andb_false_r).
  pose proof (rest_of_range td (page_query "" "" "id" 200 cursor true) a x _ Hs eq_refl Hb Ea) as Hrest. rewrite Hp in Hrest.
  assert (Hx : x ∈ td_rows td).
  { assert (Hin : x ∈ rows_after td cursor) by (rewrite Ea; set_solver).
    unfold rows_after, range_of in Hin. simpl in Hin.
    apply list_elem_of_In, List.filter_In in Hin as [Hin _]. by apply list_elem_of_In. }
  destruct Hs as [HF _]. rewrite Forall_forall in HF. pose proof (HF x Hx) as Hk.
  unfold keys_nonempty in Hne. rewrite Forall_forall in Hne. pose proof (Hne x Hx) as Hkn.
  rewrite Hp in Hk, Hkn. rewrite Hk in En, Hrest. subst next.
  split; [done|]. split; [|by rewrite rows_after_cursor].
  intros <-. assert (Hin : x ∈ rows_after td (key_of_row "id" x)) by (rewrite Ea; set_solver).
  rewrite rows_after_cursor // in Hin.
  apply list_elem_of_In, List.filter_In in Hin as [_ Hin].
  by rewrite (after_key _ _ _ _ Hk) ltb_irrefl in Hin.
Qed.

(** The loop invariant: [done] has been read and [rest] has not. *)
Lemma export_loop_spec td table schema role limit org dbID n cursor done rest t res :
  sorted_keys td → keys_nonempty td → td_pk td = "id" → 0 < limit →
  td_rows td = done ++ rest → rest = rows_after td cursor →
  let acc := take (Z.to_nat limit) (MaskRow role schema <$> done) in
  (Z.to_nat limit ≤ n + length acc)%nat →
  runs (export_loop n org dbID table role limit cursor acc) t res →
  Forall (answers_from td table schema) t →
  res = Some None
  ∨ res = Some (Some (take (Z.to_nat limit) (MaskRow role schema <$> td_rows td))).
Proof.
  intros Hs Hne Hp Hl. revert cursor done rest t.
  assert (Hfull : ∀ done rest : list doc, td_rows td = done ++ rest →
    (Z.to_nat limit <= length done)%nat →
    take (Z.to_nat limit) (MaskRow role schema <$> done)
    = take (Z.to_nat limit) (MaskRow role schema <$> td_rows td)).
  { intros done rest -> Hd. rewrite fmap_app take_app_le // length_fmap. done. }
  induction n as [|n IH]; intros cursor done rest t Er Hrest acc Hfuel Hr Hans;
    pose proof (length_take (MaskRow role schema <$> done) (Z.to_nat limit)) as Hla;
    fold acc in Hla; rewrite length_fmap in Hla; cbn [export_loop] in Hr;
    (destruct (negb (Z.of_nat (length acc) <? limit)) eqn:Ef;
      [bool_props; destruct Hr as [-> ->]; right; do 2 f_equal; apply (Hfull done rest Er); lia
      |bool_props]).
  { lia. }
  assert (Eacc : acc = MaskRow role schema <$> done) by (apply take_ge; rewrite length_fmap; lia).
  apply runs_req_bind in Hr as ([page|e] & t1 & -> & Hr); [|destruct Hr as [-> ->]; by left].
  pose proof (List.Forall_inv Hans) as Hpage. apply List.Forall_inv_tail in Hans.
  destruct page as [rows next]. simpl in Hpage.
  apply runs_req_bind in Hr as (tbls & t2 & -> & Hr). cbn [fst snd] in Hr.
  pose proof (List.Forall_inv Hans) as Hsch. apply List.Forall_inv_tail in Hans.
  simpl in Hsch. rewrite Hsch in Hr.
  pose proof Hpage as (Erows & Hend & _). fold (rows_after td cursor) in Erows, Hend.
  rewrite -Hrest in Erows, Hend. change (Z.to_nat 200) with 200%nat in Erows.
  rewrite Eacc -fmap_app in Hr. destruct (decide (Z.of_nat (length rest) <= 200)) as [Hd|Hd].
  - rewrite (Hend Hd) String.eqb_refl in Hr. destruct Hr as [-> ->]. right.
    by rewrite Er Erows (take_ge rest); [|lia].
  - destruct (page_next td cursor rows next Hs Hne Hp Hpage) as (Hn & Hc & Hafter);
      [rewrite -Hrest; lia|].
    destruct (String.eqb_spec next ""); [done|].
    destruct (String.eqb_spec cursor next); [congruence|]. cbn [orb] in Hr.
    rewrite -Hrest in Hafter.
    apply (IH next (done ++ rows) (drop 200 rest) t2); try done.
    + by rewrite Er Erows -app_assoc take_drop.
    + rewrite length_take length_fmap length_app Erows length_take. lia.
Qed.

End export.

(** The limit an export uses. *)
Definition export_limit_of (r : http_request) : Z :=
  if String.eqb (hr_Query r "limit") "" then 1000 else export_limit (hr_Query r "limit").

Lemma export_limit_range r : 1 <= export_limit_of r <= 10000.
Proof.
  unfold export_limit_of, export_limit. destruct (String.eqb _ ""); [lia|].
  destruct (Atoi _) as [n|]; [|lia]. destruct (_ && _) eqn:E; bool_props; lia.
Qed.

(** Exports are complete.  Against a database that keeps the pagination
    contract on a table with ordered non-empty string keys, an export is
    refused, or fails with the query, or returns exactly the first [limit] rows
    of the table in key order, each masked for the caller's role; the loop over
    the pages always ends, and nothing but pages and table lists is requested.
    The manager's own queries keep that contract. *)
Theorem export_complete `{BD : Bodies} a r dbID table td schema t a' rsp :
  sorted_keys td → keys_nonempty td → td_pk td = "id" →
  runs (handleExport a r dbID table) t (a', rsp) →
  Forall (answers_from td table schema) t →
  let role := roleFor a (principal_of r) table dbID in
  let rows := take (Z.to_nat (export_limit_of r)) (MaskRow role schema <$> td_rows td) in
  (Allow role "row.read" = false ∧ t = [] ∧ rsp = forbidden)
  ∨ rsp = RError 500 "export query failed" "export_query"
  ∨ (Allow role "row.read" = true
     ∧ rsp = if String.eqb (hr_Query r "format") "csv" then csv_of rows
             else RJson 200 (PRows rows)).
Proof.
  intros Hs Hne Hp Hr Hans role rows. unfold handleExport in Hr. fold role in Hr.
  destruct (Allow role "row.read") eqn:Ea; [|left; by destruct Hr as [-> [= -> ->]]].
  right. cbn [negb] in Hr. fold (export_limit_of r) in Hr. cbv zeta in Hr.
  apply runs_bind in Hr as (t1 & t2 & res & -> & H1 & [-> H2]). rewrite app_nil_r in Hans.
  pose proof (export_limit_range r) as Hl.
  destruct (export_loop_spec td table schema role (export_limit_of r) (api_OrgID a) dbID
    (export_fuel (export_limit_of r)) "" [] (td_rows td) t1 res) as [-> | ->];
    [done|done|done|lia|done|by rewrite rows_after_start|unfold export_fuel; lia
    |by rewrite take_nil|done| |].
  - left. by simplify_eq.
  - right. split; [done|]. by simplify_eq.
Qed.

Definition export_req : http_request :=
  {| hr_Method := "GET"; hr_Path := ""; hr_Principal := ""; hr_ContentType := "";
     hr_Query := λ k, if String.eqb k "limit" then "2" else ""; hr_Body := "" |}.

Definition export_events : list (gevent mcall) :=
  [Ev (MQueryRows "acme" "crm" "people" "id" 200 "" true) (Ok (td_rows demo_td, ""));
   Ev (MGetTables "acme" "crm") (Ok [people])].

Definition export_reply : resp :=
  RJson 200 (PRows [demo_doc "a" "1"; demo_doc "b" "2"]).

Lemma export_complete_witness :
  runs (@handleExport no_bodies demo_api export_req "crm" "people")
    export_events (demo_api, export_reply)
  ∧ ((Allow (roleFor demo_api "" "people" "crm") "row.read" = false
      ∧ export_events = [] ∧ export_reply = forbidden)
     ∨ export_reply = RError 500 "export query failed" "export_query"
     ∨ (Allow (roleFor demo_api "" "people" "crm") "row.read" = true
        ∧ export_reply = RJson 200 (PRows (take 2
            (MaskRow (roleFor demo_api "" "people" "crm") name_schema <$> td_rows demo_td))))).
Proof.
  assert (Hr : runs (@handleExport no_bodies demo_api export_req "crm" "people")
    export_events (demo_api, export_reply)).
  { eexists _, _. split; [reflexivity|]. eexists _, _. split; [reflexivity|].
    split; vm_compute; reflexivity. }
  split; [exact Hr|].
  apply (@export_complete no_bodies demo_api export_req "crm" "people" demo_td name_schema
           export_events demo_api export_reply).
  - split; repeat constructor.
  - repeat constructor; vm_compute; discriminate.
  - reflexivity.
  - exact Hr.
  - repeat constructor; try (vm_compute; reflexivity); by vm_compute.
Defined.
