(* ===== verification/DbSystem.v ===== *)
(** * The database API on top of the manager

    The handlers of internal/httpx/db_handlers.go run against the manager of
    internal/db/db.go: every request of the interface is answered by the
    operation that implements it, on the same database.  The class
    [RethinkFrame] adds to the laws of the database that a command touches
    only what it is applied to. *)

From S2P Require Import Prelude GoStrings Values Names Rbac Prog Mux DbManager DbHandlers.

Local Open Scope Z_scope.

(** ** What a command changes *)

(** From [v] to [v'] only databases in [D] change, and only tables in [T]. *)
Definition changes (D T : string → Prop) (v v' : rdb) : Prop :=
  (∀ d, ¬ D d → v' !! d = v !! d) ∧ (∀ d t, ¬ T t → table_of v' d t = table_of v d t).

Definition nothing (_ : string) : Prop := False.
Definition anything (_ : string) : Prop := True.

#[export] Instance changes_refl D T : Reflexive (changes D T).
Proof. by split. Qed.
#[export] Instance changes_trans D T : Transitive (changes D T).
Proof.
  intros u v w [H1 H2] [K1 K2]. split.
  - intros d Hd. by rewrite K1 // H1.
  - intros d t Ht. by rewrite K2 // H2.
Qed.

Lemma changes_mono (D D' T T' : string → Prop) v v' :
  (∀ d, D d → D' d) → (∀ t, T t → T' t) → changes D T v v' → changes D' T' v v'.
Proof. intros HD HT [H1 H2]. split; [|intros d t Ht; apply H2; auto]. intros d Hd. apply H1. auto. Qed.

Lemma changes_tables (D T T' : string → Prop) v v' :
  changes D T v v' → (∀ t, T t → T' t) → changes D T' v v'.
Proof. intros H HT. by apply (changes_mono D D T T'). Qed.

Lemma changes_eq D T (v v' : rdb) : v' = v → changes D T v v'.
Proof. by intros ->. Qed.

Class RethinkFrame (σ : Type) `{Rethink σ} `{RethinkView σ} := {
  (** opening a change feed on a table *)
  tb_changes : σ → string → string → σ * result unit;
  feed_view s dbn t : view (tb_changes s dbn t).1 = view s;
  scan_view s dbn t : view (table_scan s dbn t).1 = view s;
  latest_view s dbn t n : view (tb_latest s dbn t n).1 = view s;
  create_frame s n : changes (λ d, d = n) nothing (view s) (view (db_create s n).1);
  drop_frame s n : changes (λ d, d = n) anything (view s) (view (db_drop s n).1);
  table_frame s dbn t pk :
    changes (λ d, d = dbn) (λ t', t' = t) (view s) (view (table_create s dbn t pk).1);
  insert_frame s dbn t ds b :
    changes (λ d, d = dbn) (λ t', t' = t) (view s) (view (tb_insert s dbn t ds b).1);
  update_frame s dbn t k p :
    changes (λ d, d = dbn) (λ t', t' = t) (view s) (view (tb_update s dbn t k p).1);
  delete_frame s dbn t k :
    changes (λ d, d = dbn) (λ t', t' = t) (view s) (view (tb_delete s dbn t k).1)
}.

(** The in-memory database keeps these laws. *)
Lemma set_td_changes v dbn t td :
  changes (λ d, d = dbn) (λ t', t' = t) v (set_td v dbn t td).
Proof.
  unfold set_td. destruct (v !! dbn) as [m|] eqn:E; [|reflexivity]. split.
  - intros d Hd. by rewrite lookup_insert_ne.
  - intros d t' Ht. unfold table_of. destruct (decide (dbn = d)) as [->|Hne].
    + rewrite lookup_insert_eq E /=. by rewrite lookup_insert_ne.
    + by rewrite lookup_insert_ne.
Qed.

Lemma on_table_changes {A} v dbn t (f : tdata → result (tdata * A)) :
  changes (λ d, d = dbn) (λ t', t' = t) v (on_table v dbn t f).1.
Proof.
  unfold on_table. destruct (lookup_td v dbn t) as [td|]; [|reflexivity].
  destruct (f td) as [[td' a]|]; [apply set_td_changes|reflexivity].
Qed.

Lemma set_td_same v dbn t td : table_of v dbn t = Some td → set_td v dbn t td = v.
Proof.
  unfold set_td, table_of. destruct (v !! dbn) as [m|] eqn:E; [|done]. simpl. intros Ht.
  rewrite insert_id // E. f_equal. by rewrite insert_id.
Qed.

#[export] Instance mem_frame : RethinkFrame rdb.
Proof.
  refine {| tb_changes v dbn t := (v, Ok tt) |}; unfold view, mem_view; try done;
    try (intros; apply on_table_changes).
  - intros v dbn t. cbn. unfold on_table. destruct (lookup_td v dbn t) as [td|] eqn:E; [|done].
    by apply set_td_same, lookup_td_ok.
  - intros v n. cbn. destruct (v !! n) eqn:E; [reflexivity|]. split.
    + intros d Hd. by rewrite lookup_insert_ne.
    + intros d t _. unfold table_of. destruct (decide (n = d)) as [->|].
      * by rewrite lookup_insert_eq E /= lookup_empty.
      * by rewrite lookup_insert_ne.
  - intros v n. cbn. destruct (v !! n); [|reflexivity]. split; [|by intros ? ? []].
    intros d Hd. by rewrite lookup_delete_ne.
  - intros v dbn t pk. cbn. destruct (v !! dbn) as [m|] eqn:E; [|reflexivity].
    destruct (m !! t) eqn:Et; [reflexivity|].
    pose proof (set_td_changes v dbn t {| td_pk := pk; td_rows := [] |}) as Hs.
    unfold set_td in Hs. by rewrite E in Hs.
Defined.

(** ** What an operation of the manager changes *)

(** The tables the manager keeps for itself. *)
Definition internal (t : string) : Prop := t = "_schemas" ∨ t = "_audit" ∨ t = "_info".
#[export] Instance internal_dec t : Decision (internal t).
Proof. unfold internal. apply _. Defined.

(** A table of the user, and those of the manager. *)
Definition table_or_internal (table t : string) : Prop := t = table ∨ internal t.

Section frames.
Context `{UC : UnicodeCase} {σ : Type} `{R : Rethink σ} {V : RethinkView σ}.
Context {L : RethinkLaws σ} {Fr : RethinkFrame σ} `{CD : Codec}.

Lemma bind_r_changes {A B} D T v (m : σ * result A) (k : σ → A → σ * result B) :
  changes D T v (view m.1) → (∀ s a, changes D T (view s) (view (k s a).1)) →
  changes D T v (view (bind_r m k).1).
Proof. intros Hm Hk. destruct m as [s [a|e]]; [|done]. etrans; [exact Hm|apply Hk]. Qed.

Lemma attempts_changes {A} D T again n (op : σ → σ * result A) s :
  (∀ s, changes D T (view s) (view (op s).1)) →
  changes D T (view s) (view (attempts again n op s).1).
Proof.
  intros Hop. apply (attempts_inv (λ s', changes D T (view s) (view s'))); [|done].
  intros s1 H1. etrans; [exact H1|apply Hop].
Qed.

Lemma once_changes dbn t (T : string → Prop) s :
  T t → changes (λ d, d = dbn) T (view s) (view (create_table_once dbn t s).1).
Proof.
  intros Ht. unfold create_table_once. pose proof (table_frame s dbn t "id") as Hf.
  assert (changes (λ d, d = dbn) T (view s) (view (table_create s dbn t "id").1)) as H
    by (eapply changes_tables; [exact Hf|]; by intros ? ->).
  destruct (table_create s dbn t "id") as [s1 [[]|e]]; [done|]. by destruct (Contains _ _).
Qed.

(** Commands on one table, within a larger set of tables. *)
Lemma insert_within dbn t (T : string → Prop) s ds b :
  T t → changes (λ d, d = dbn) T (view s) (view (tb_insert s dbn t ds b).1).
Proof. intros Ht. eapply changes_tables; [apply insert_frame|]. by intros ? ->. Qed.
Lemma update_within dbn t (T : string → Prop) s k p :
  T t → changes (λ d, d = dbn) T (view s) (view (tb_update s dbn t k p).1).
Proof. intros Ht. eapply changes_tables; [apply update_frame|]. by intros ? ->. Qed.
Lemma delete_within dbn t (T : string → Prop) s k :
  T t → changes (λ d, d = dbn) T (view s) (view (tb_delete s dbn t k).1).
Proof. intros Ht. eapply changes_tables; [apply delete_frame|]. by intros ? ->. Qed.

Lemma meta_changes (T : string → Prop) s org db :
  (∀ t, internal t → T t) →
  changes (λ d, d = dbName org db) T (view s) (view (ensureMetaTables s org db).1).
Proof.
  intros HT. unfold ensureMetaTables, retryTransient.
  apply bind_r_changes; [|intros s1 _; apply bind_r_changes; [|intros s2 _]];
    apply attempts_changes; intros s'; apply once_changes, HT; unfold internal; auto.
Qed.

Lemma ensure_changes (T : string → Prop) s org db :
  (∀ t, internal t → T t) →
  changes (λ d, d = dbName org db) T (view s) (view (EnsureDatabase s org db).1).
Proof.
  intros HT. unfold EnsureDatabase. apply bind_r_changes.
  - apply attempts_changes. intros s'. apply changes_eq, list_view.
  - intros s1 dbs. apply bind_r_changes; [|intros s2 _; by apply meta_changes].
    destruct (existsb _ dbs); [reflexivity|]. apply attempts_changes. intros s'.
    eapply changes_tables; [apply create_frame|]. by intros ? [].
Qed.

Lemma audited_changes (T : string → Prop) s org db n ev :
  (∀ t, internal t → T t) →
  changes (λ d, d = dbName org db) T (view s) (view (audited s org db n ev)).
Proof.
  intros HT. unfold audited, InsertAudit. apply bind_r_changes; [by apply meta_changes|].
  intros s1 _. apply bind_r_changes; [|reflexivity].
  apply insert_within, HT. unfold internal. auto.
Qed.

Lemma create_table_changes c s org db tbl :
  changes (λ d, d = dbName org db) (table_or_internal (tbl_Name tbl)) (view s)
    (view (CreateTable c s org db tbl).1).
Proof.
  unfold CreateTable, table_or_internal. cbv zeta.
  apply bind_r_changes; [apply ensure_changes; auto|]. intros s1 _. apply bind_r_changes.
  { pose proof (table_frame s1 (dbName org db) (tbl_Name tbl) (pk_or_id (tbl_PrimaryKey tbl))) as Hf.
    pose proof (changes_tables _ _ (table_or_internal (tbl_Name tbl)) _ _ Hf
                  (λ t' E, or_introl E)) as Hg.
    cbn [tbl_Name tbl_PrimaryKey].
    destruct (table_create s1 _ (tbl_Name tbl) _) as [s2 [[]|e]]; [exact Hg|].
    by destruct (Contains _ _). }
  intros s2 _. apply bind_r_changes; [apply once_changes; unfold internal; auto|]. intros s3 _.
  apply bind_r_changes; [apply insert_within; unfold internal; auto|]. intros s4 _. cbn [fst].
  etrans; [by apply (meta_changes _ s4 org db); auto|]. apply audited_changes; auto.
Qed.

Lemma list_infos_changes s org names :
  changes (λ d, HasPrefix d (org_prefix org) = true) internal (view s)
    (view (list_infos s org names).1).
Proof.
  revert s; induction names as [|n names IH]; intros s; [reflexivity|]. cbn [list_infos].
  destruct (HasPrefix n (org_prefix org)) eqn:En; [|apply IH].
  destruct (tb_get _ n "_info" "db") as [s1 got] eqn:Eg.
  assert (changes (λ d, HasPrefix d (org_prefix org) = true) internal (view s) (view s1)) as H1.
  { pose proof (get_view (table_create s n "_info" "id").1 n "_info" "db") as Hv.
    rewrite Eg in Hv. cbn [fst] in Hv. rewrite Hv.
    eapply (changes_mono (λ d, d = n) _ (λ t, t = "_info")); [by intros ? ->| |apply table_frame].
    intros ? ->. unfold internal. auto. }
  specialize (IH s1). destruct (list_infos s1 org names) as [s2 rest]. by etrans.
Qed.

End frames.

(** ** The manager as the server of its interface *)

(** The databases and the tables a request may change. *)
Definition call_dbs `{UnicodeCase} {X : Set} (c : mcall X) : string → Prop :=
  match c with
  | MListDatabases org => λ d, HasPrefix d (org_prefix org) = true
  | MCreateDatabase org db _ _ | MDeleteDatabase org db | MGetTables org db | MCreateTable org db _
  | MUpdateTableSchema org db _ _ _ | MInsertRows org db _ _ | MUpdateRow org db _ _ _
  | MDeleteRow org db _ _ => λ d, d = dbName org db
  | _ => nothing
  end.
Definition call_tables {X : Set} (c : mcall X) : string → Prop :=
  match c with
  | MDeleteDatabase _ _ => anything
  | MCreateTable _ _ t => table_or_internal (tbl_Name t)
  | MInsertRows _ _ table _ | MUpdateRow _ _ table _ _ | MDeleteRow _ _ table _ =>
      table_or_internal table
  | MListDatabases _ | MCreateDatabase _ _ _ _ | MGetTables _ _ | MUpdateTableSchema _ _ _ _ _ =>
      internal
  | _ => nothing
  end.

Section system.
Context `{UC : UnicodeCase} {σ : Type} `{R : Rethink σ} {V : RethinkView σ}.
Context {L : RethinkLaws σ} {Fr : RethinkFrame σ} `{CD : Codec} `{BD : Bodies}.

(** The clock at the n-th request, the number and the schema as values of an audit
    record, and whether the n-th request can connect. *)
Variable ck : nat → clock.
Variable num : Z → any.
Variable schema_value : list ColumnDef → any.
Variable connect : nat → bool.

Definition manager_do : server mcall (σ * nat) := λ X w c,
  let '(s, n) := w in
  match c in mcall Y return (σ * nat) * Y with
  | MConnect => ((s, S n), connect n)
  | MListDatabases org => let r := ListDatabases s org in ((r.1, S n), r.2)
  | MCreateDatabase org db name descr =>
      let r := CreateDatabase (ck n) s org db name descr in ((r.1, S n), r.2)
  | MGetDatabase org db => let r := GetDatabase s org db in ((r.1, S n), r.2)
  | MDeleteDatabase org db => let r := DeleteDatabase s org db in ((r.1, S n), r.2)
  | MGetTables org db => let r := GetTables s org db in ((r.1, S n), r.2)
  | MCreateTable org db t => let r := CreateTable (ck n) s org db t in ((r.1, S n), r.2)
  | MUpdateTableSchema org db t schema pk =>
      let r := UpdateTableSchema (ck n) s org db t schema pk (schema_value schema) in
      ((r.1, S n), r.2)
  | MQueryRows org db t orderBy limit cursor fwd =>
      let r := QueryRows s org db t orderBy limit cursor fwd in ((r.1, S n), r.2)
  | MInsertRows org db t rows => let r := InsertRows num (ck n) s org db t rows in ((r.1, S n), r.2)
  | MUpdateRow org db t id patch => let r := UpdateRow (ck n) s org db t id patch in ((r.1, S n), r.2)
  | MDeleteRow org db t id => let r := DeleteRow (ck n) s org db t id in ((r.1, S n), r.2)
  | MListAudit org db limit => let r := ListAudit s org db limit in ((r.1, S n), r.2)
  | MSubscribeTable org db t => let r := tb_changes s (dbName org db) t in ((r.1, S n), r.2)
  | MPing => let r := Ping s in ((r.1, S n), r.2)
  end.

(** Every request changes at most its footprint. *)
Lemma manager_changes {X : Set} (w : σ * nat) (c : mcall X) :
  changes (call_dbs c) (call_tables c) (view w.1) (view (manager_do X w c).1.1).
Proof.
  destruct w as [s n]. destruct c; cbn [manager_do fst call_dbs call_tables].
  - reflexivity.
  - unfold ListDatabases. apply bind_r_changes; [apply changes_eq, list_view|]. intros s1 dbs.
    pose proof (list_infos_changes s1 org dbs) as H. by destruct (list_infos s1 org dbs).
  - unfold CreateDatabase. cbv zeta. apply bind_r_changes; [by apply ensure_changes|].
    intros s1 _. apply bind_r_changes; [by apply meta_changes|]. intros s2 _.
    apply bind_r_changes; [|reflexivity]. apply attempts_changes. intros s3.
    apply bind_r_changes; [|reflexivity]. apply insert_within. unfold internal. auto.
  - unfold GetDatabase. apply bind_r_changes; [apply changes_eq, list_view|]. intros s1 names.
    destruct (existsb _ names); [|reflexivity]. pose proof (get_view s1 (dbName org db) "_info" "db") as H.
    destruct (tb_get s1 _ "_info" "db"). by apply changes_eq.
  - apply drop_frame.
  - unfold GetTables. apply bind_r_changes; [by apply ensure_changes|]. intros s1 _.
    apply bind_r_changes; [apply changes_eq, scan_view|reflexivity].
  - apply create_table_changes.
  - unfold UpdateTableSchema. cbv zeta. pose proof (get_view s (dbName org db) "_schemas" table) as Hv.
    destruct (tb_get s _ "_schemas" table) as [s1 got]. cbn [fst] in Hv. rewrite -Hv.
    apply bind_r_changes; [apply insert_within; unfold internal; auto|]. intros s2 _.
    apply audited_changes; auto.
  - unfold QueryRows. cbv zeta. apply bind_r_changes; [apply changes_eq, query_view|reflexivity].
  - unfold InsertRows. destruct rows as [|r0 rows]; [reflexivity|]. unfold table_or_internal.
    apply bind_r_changes; [apply insert_within; auto|]. intros s1 keys. apply audited_changes; auto.
  - unfold UpdateRow, table_or_internal. apply bind_r_changes; [apply update_within; auto|].
    intros s1 _. apply audited_changes; auto.
  - unfold DeleteRow, table_or_internal. apply bind_r_changes; [apply delete_within; auto|].
    intros s1 _. apply audited_changes; auto.
  - unfold ListAudit. cbv zeta. apply bind_r_changes; [apply changes_eq, latest_view|reflexivity].
  - apply changes_eq, feed_view.
  - unfold Ping. apply bind_r_changes; [apply changes_eq, list_view|reflexivity].
Qed.

(** ** Running programs against the manager *)

Definition within (D T : string → Prop) (e : gevent mcall) : Prop :=
  match e with Ev c _ => (∀ d, call_dbs c d → D d) ∧ (∀ t, call_tables c t → T t) end.

Lemma exec_changes {A} D T (p : prog A) w :
  issues_only (within D T) p → changes D T (view w.1) (view (exec manager_do p w).1.1).
Proof.
  revert w; induction p as [a|X c k IH]; intros w Hp; [reflexivity|]. cbn [exec].
  pose proof (manager_changes w c) as Hc. destruct (manager_do X w c) as [w' x].
  destruct (Hp x) as [[HD HT] Hk]. etrans; [|by apply IH].
  by apply (changes_mono (call_dbs c) D (call_tables c) T).
Qed.

(** The answers of a run satisfy [Q] when those to the requests it makes do, in
    states that satisfy an invariant. *)
Lemma exec_answers {A} (I : σ → Prop) (P Q : gevent mcall → Prop) (p : prog A) w :
  (∀ X (c : mcall X) w, I w.1 → P (Ev c (manager_do X w c).2) →
     I (manager_do X w c).1.1 ∧ Q (Ev c (manager_do X w c).2)) →
  issues_only P p → I w.1 → Forall Q (exec_trace manager_do p w).
Proof.
  intros Hstep. revert w; induction p as [a|X c k IH]; intros w Hp Hw; [constructor|].
  cbn [exec_trace]. pose proof (Hstep X c w Hw) as Hs.
  destruct (manager_do X w c) as [w' x]. destruct (Hp x) as [HP Hk].
  destruct (Hs HP) as [HI HQ]. constructor; [exact HQ|]. by apply IH.
Qed.

(** ** One organisation *)

(** The databases of an organisation: those it can name, and those whose names
    start like its own. *)
Definition owned (org d : string) : Prop :=
  HasPrefix d (org_prefix org) = true ∨ ∃ db, d = dbName org db.

Definition of_org (org : string) (e : gevent mcall) : Prop :=
  match e with
  | Ev c _ =>
      match c with
      | MListDatabases o | MCreateDatabase o _ _ _ | MGetDatabase o _ | MDeleteDatabase o _
      | MGetTables o _ | MCreateTable o _ _ | MUpdateTableSchema o _ _ _ _
      | MQueryRows o _ _ _ _ _ _ | MInsertRows o _ _ _ | MUpdateRow o _ _ _ _ | MDeleteRow o _ _ _
      | MListAudit o _ _ | MSubscribeTable o _ _ => o = org
      | MConnect | MPing => True
      end
  end.

Lemma of_org_within org e : of_org org e → within (owned org) anything e.
Proof.
  destruct e as [X c x]. unfold owned.
  destruct c; cbn [of_org within call_dbs call_tables]; try (intros ->);
    (split; [|done]); intros d Hd; try done; by [left|right; eauto].
Qed.

Lemma export_loop_org org dbID table role limit n cursor acc :
  issues_only (of_org org) (export_loop n org dbID table role limit cursor acc).
Proof.
  revert cursor acc; induction n as [|n IH]; intros cursor acc; cbn [export_loop];
    destruct (negb _); try done.
  intros [page|e]; split; try done. intros tbls. split; [done|]. destruct (_ || _); [done|apply IH].
Qed.

Lemma handleTables_org a r dbID rest :
  issues_only (of_org (api_OrgID a)) (handleTables a r dbID rest).
Proof.
  unfold handleTables. destruct (api_Manager a); [|done]. cbn [negb].
  destruct rest as [|table [|op more]].
  - unfold handle_table_list. handler_cases.
  - unfold handle_table_item. handler_cases.
  - destruct (String.eqb op "rows"); [unfold handleRows; destruct more; handler_cases|].
    destruct (String.eqb op "views"); [done|].
    destruct (String.eqb op "import");
      [unfold handleImport; prog_walk ltac:(idtac; lazymatch goal with |- of_org _ _ => done end)|].
    destruct (String.eqb op "export"); [|done].
    unfold handleExport. destruct (Allow _ _); [|done]. cbn [negb].
    apply issues_only_bind; [apply export_loop_org|done].
Qed.

Lemma route_path_org now a r : issues_only (of_org (api_OrgID a)) (route_path now a r).
Proof.
  unfold route_path. destruct (String.eqb _ ""); [done|].
  destruct (Split "/" _) as [|dbID rest]; [done|]. destruct (String.eqb dbID ""); [done|].
  destruct rest as [|sub more]; simpl.
  { unfold handle_database_item. handler_cases. }
  destruct (String.eqb sub "tables"); [apply handleTables_org|].
  destruct (String.eqb sub "audit"); [unfold handle_audit; handler_cases|].
  by destruct (String.eqb sub "permissions").
Qed.

Lemma ensureManager_org a :
  issues_only (of_org (api_OrgID a)) (ensureManager a)
  ∧ ends_in (λ b, api_OrgID b = api_OrgID a ∧ api_RBAC b = api_RBAC a) (ensureManager a).
Proof. unfold ensureManager. by destruct (api_Manager a). Qed.

Lemma serve_db_org now flush a r :
  issues_only (of_org (api_OrgID a)) (serve_db now flush a r).
Proof.
  destruct (ensureManager_org a) as [Hi He].
  unfold serve_db. destruct (mux_redirects _ _); [done|]. destruct (mux_match _ _) as [p|]; [|done].
  destruct (String.eqb p "/api/db").
  { unfold handleDatabases. eapply issues_only_bind_strong; [exact Hi|exact He|].
    intros b [<- _]. handler_cases. }
  destruct (String.eqb p "/api/db/health").
  { unfold handle_health. eapply issues_only_bind_strong; [exact Hi|exact He|].
    intros b [<- _]. handler_cases. }
  destruct (String.eqb p "/sse/db/"); [unfold handleChangefeed; handler_cases|].
  unfold handleDatabaseSubroutes. eapply issues_only_bind_strong; [exact Hi|exact He|].
  intros b [<- _]. apply route_path_org.
Qed.

(** No handler changes the organisation. *)
Definition same_org (a : dbapi) (x : dbapi * resp) : Prop := api_OrgID x.1 = api_OrgID a.

Lemma route_path_same now a r : ends_in (same_org a) (route_path now a r).
Proof.
  unfold route_path, route_database, handle_database_item, handleTables, handle_table_list,
    handle_table_item, handleRows, handleImport, handleExport, handle_audit, handlePermissions.
  prog_walk ltac:(idtac; lazymatch goal with |- same_org _ _ => repeat case_match; done end).
Qed.

Lemma serve_db_same now flush a r : ends_in (same_org a) (serve_db now flush a r).
Proof.
  destruct (ensureManager_org a) as [_ He].
  unfold serve_db. destruct (mux_redirects _ _); [done|]. destruct (mux_match _ _) as [p|]; [|done].
  destruct (String.eqb p "/api/db").
  { eapply ends_in_bind_strong; [exact He|]. intros b [Eb _]. unfold same_org. rewrite -Eb.
    prog_walk ltac:(idtac; lazymatch goal with |- _ = _ => repeat case_match; done end). }
  destruct (String.eqb p "/api/db/health").
  { eapply ends_in_bind_strong; [exact He|]. intros b [Eb _]. unfold same_org. rewrite -Eb.
    prog_walk ltac:(idtac; lazymatch goal with |- _ = _ => done end). }
  destruct (String.eqb p "/sse/db/").
  { unfold handleChangefeed, same_org.
    prog_walk ltac:(idtac; lazymatch goal with |- _ = _ => done end). }
  eapply ends_in_bind_strong; [exact He|]. intros b [Eb _].
  unfold same_org. rewrite -Eb. apply route_path_same.
Qed.

(** ** Serving a sequence of requests *)

Record arrival : Type := { ar_now : string; ar_flush : bool; ar_request : http_request }.

Definition serve_one (st : dbapi * (σ * nat)) (q : arrival) : dbapi * (σ * nat) :=
  let '(a, w) := st in
  let '(w', (a', _)) := exec manager_do (serve_db (ar_now q) (ar_flush q) a (ar_request q)) w in
  (a', w').
Definition serve_all (st : dbapi * (σ * nat)) (qs : list arrival) : dbapi * (σ * nat) :=
  foldl serve_one st qs.

Lemma serve_one_owned a w q :
  api_OrgID (serve_one (a, w) q).1 = api_OrgID a
  ∧ changes (owned (api_OrgID a)) anything (view w.1) (view (serve_one (a, w) q).2.1).
Proof.
  unfold serve_one. set (p := serve_db _ _ _ _).
  pose proof (exec_ends_in manager_do _ p w (serve_db_same _ _ _ _)) as He.
  assert (issues_only (within (owned (api_OrgID a)) anything) p) as Hi.
  { eapply issues_only_mono; [apply of_org_within|apply serve_db_org]. }
  pose proof (exec_changes _ _ p w Hi) as Hc.
  destruct (exec manager_do p w) as [w' [a' rsp]]. by split.
Qed.

Lemma serve_all_owned a w qs :
  changes (owned (api_OrgID a)) anything (view w.1) (view (serve_all (a, w) qs).2.1).
Proof.
  revert a w; induction qs as [|q qs IH]; intros a w; [reflexivity|]. cbn [serve_all foldl].
  destruct (serve_one_owned a w q) as [Ho Hc]. etrans; [exact Hc|].
  destruct (serve_one (a, w) q) as [a' w']. cbn [fst snd] in *. rewrite -Ho. apply IH.
Qed.

End system.

(** ** Names of organisations *)

Section names.
Context `{UC : UnicodeCase}.

(** Two normalised organisations without underscores share no database, and an
    organisation whose id extends another's by the separator does. *)
Definition plain_org (o : string) : Prop :=
  all_bytes db_char o = true ∧ o ≠ "" ∧ "_"%char ∉ s2b o.

Lemma plain_prefix o : plain_org o → org_prefix o = "org_" +:+ o +:+ "__".
Proof.
  intros (Ho & Hn & _). unfold org_prefix.
  rewrite (TrimSpace_id db_char); [|auto with gn..].
  by rewrite (ToLower_id db_char); [|auto with gn..].
Qed.

Lemma plain_dbName o db : plain_org o → ∃ t, dbName o db = "org_" +:+ o +:+ "__" +:+ t.
Proof.
  intros (Ho & Hn & _). unfold dbName. rewrite normal_id //. by eexists.
Qed.

Lemma owned_plain o d : plain_org o → owned o d → ∃ t, d = "org_" +:+ o +:+ "__" +:+ t.
Proof.
  intros Ho [Hp|[db ->]]; [|by apply plain_dbName].
  apply HasPrefix_spec in Hp as [t ->]. rewrite plain_prefix //. exists t. by rewrite !str_app_assoc.
Qed.

Lemma Cut_before (c : ascii) x y : c ∉ s2b x → Cut c (x +:+ String c y) = Some (x, y).
Proof.
  induction x as [|b x IH]; intros Hx.
  - cbn [String.append Cut]. by rewrite Ascii.eqb_refl.
  - apply not_elem_of_cons in Hx as [Hb Hx]. cbn [String.append Cut].
    destruct (Ascii.eqb_spec b c); [by subst|]. by rewrite IH.
Qed.

Lemma owned_disjoint o o' d : plain_org o → plain_org o' → owned o d → owned o' d → o = o'.
Proof.
  intros Ho Ho' H H'. destruct (owned_plain o d Ho H) as [t ->].
  destruct (owned_plain o' _ Ho' H') as [t' E]. apply str_app_inv_l in E.
  apply (f_equal (Cut "_")) in E. cbn [String.append] in E.
  rewrite (Cut_before _ o) in E; [|apply Ho]. rewrite (Cut_before _ o') in E; [|apply Ho'].
  by simplify_eq.
Qed.

End names.

(** C8: tenants are isolated.  Whatever requests the API of an organisation
    serves, with any bodies and whichever commands of the database fail, every
    database that the organisation cannot name and whose name does not start
    like its own stays exactly as it was.  The databases of two different
    organisations with normalised ids free of underscores are isolated from
    each other in this sense; those of an organisation whose id extends
    another's by a double underscore are not. *)
Theorem tenant_isolation `{UC : UnicodeCase} {σ : Type} `{R : Rethink σ} {V : RethinkView σ}
    {L : RethinkLaws σ} {Fr : RethinkFrame σ} `{CD : Codec} `{BD : Bodies}
    ck num schema_value connect a (w : σ * nat) qs :
  let after := view (serve_all ck num schema_value connect (a, w) qs).2.1 in
  (∀ d, ¬ owned (api_OrgID a) d → after !! d = view w.1 !! d)
  ∧ (∀ o d, plain_org (api_OrgID a) → plain_org o → o ≠ api_OrgID a → owned o d →
       after !! d = view w.1 !! d)
  ∧ (∀ b c, all_bytes db_char (api_OrgID a) = true → all_bytes db_char b = true →
       all_bytes db_char c = true → api_OrgID a ≠ "" → b ≠ "" → c ≠ "" →
       owned (api_OrgID a) (dbName (api_OrgID a +:+ "__" +:+ b) c)).
Proof.
  intros after. destruct (serve_all_owned ck num schema_value connect a w qs) as [Hd _].
  split; [exact Hd|]. split.
  - intros o d Ha Ho Hne Hod. apply Hd. intros Had. apply Hne.
    by apply (owned_disjoint o (api_OrgID a) d).
  - intros b c Ha Hb Hc Hna Hnb Hnc. right. exists (b +:+ "__" +:+ c).
    by apply dbName_tenants.
Qed.

(** ** Roles and stored tables *)

Definition no_drop (e : gevent mcall) : Prop :=
  match e with @Ev _ _ (MDeleteDatabase _ _) _ => False | _ => True end.

Lemma issues_only_and {E : Set → Type} (P Q : gevent E → Prop) {A} (p : gprog E A) :
  issues_only P p → issues_only Q p → issues_only (λ e, P e ∧ Q e) p.
Proof. induction p as [a|X c k IH]; simpl; [done|]. naive_solver. Qed.

(** The caller may change nothing through the tables of any database. *)
Definition read_only (a : dbapi) (who : string) : Prop :=
  ∀ t db act, act ∈ ["row.write"; "table.create"; "table.schema"] →
    Allow (roleFor a who t db) act = false.

(** A named caller all of whose bindings make it a viewer. *)
Definition views_only (a : dbapi) (who : string) : Prop :=
  TrimSpace who ≠ "" ∧ ∀ scope role, role_in (api_RBAC a) scope who = Some role → role = RoleViewer.

Lemma views_only_role a who t db :
  views_only a who → roleFor a who t db = RoleViewer ∨ roleFor a who t db = "".
Proof.
  intros [Hn Hv]. assert (∀ t db, RoleFor (api_RBAC a) who t db = RoleViewer
                                  ∨ RoleFor (api_RBAC a) who t db = "") as HR.
  { intros t' db'. unfold RoleFor. destruct (if String.eqb t' "" then _ else _) as [role|] eqn:Et.
    - destruct (String.eqb t' ""); [done|]. left. by eapply Hv.
    - destruct (if String.eqb db' "" then _ else _) as [role|] eqn:Ed; [|by right].
      destruct (String.eqb db' ""); [done|]. left. by eapply Hv. }
  unfold roleFor. rewrite (proj2 (String.eqb_neq _ _) Hn). by destruct (String.eqb _ "").
Qed.

Lemma views_only_read_only a who : views_only a who → read_only a who.
Proof.
  intros Hv t db act Hact. destruct (views_only_role a who t db Hv) as [-> | ->];
    repeat (apply elem_of_cons in Hact as [->|Hact]; [done|]); by apply elem_of_nil in Hact.
Qed.

Section roles.
Context `{UC : UnicodeCase} `{BD : Bodies}.

Lemma export_loop_no_drop org dbID table role limit n cursor acc :
  issues_only no_drop (export_loop n org dbID table role limit cursor acc).
Proof.
  revert cursor acc; induction n as [|n IH]; intros cursor acc; cbn [export_loop];
    destruct (negb _); try done.
  intros [page|e]; split; try done. intros tbls. split; [done|]. destruct (_ || _); [done|apply IH].
Qed.

Lemma route_no_drop now a r :
  hr_Method r ≠ "DELETE" → issues_only no_drop (route_path now a r).
Proof.
  intros Hm. apply String.eqb_neq in Hm.
  unfold route_path, route_database, handle_database_item, handleTables, handle_table_list,
    handle_table_item, handleRows, handleImport, handleExport, handle_audit. rewrite Hm.
  prog_walk ltac:(idtac; lazymatch goal with
    | |- no_drop _ => exact I
    | |- issues_only _ (export_loop _ _ _ _ _ _ _ _) => apply export_loop_no_drop
    end).
Qed.

Lemma subroutes_no_drop now a r :
  hr_Method r ≠ "DELETE" → issues_only no_drop (handleDatabaseSubroutes now a r).
Proof.
  intros Hm. unfold handleDatabaseSubroutes, ensureManager. destruct (api_Manager a);
    [by apply route_no_drop|]. intros ok. split; [done|]. by apply route_no_drop.
Qed.

(** A permitted request of such a caller changes internal tables only. *)
Lemma read_only_within a who e :
  read_only a who → authorized a who e → no_drop e → within anything internal e.
Proof.
  intros Hro. destruct e as [X c x]. unfold read_only in Hro.
  destruct c; cbn [authorized no_drop within call_dbs call_tables]; intros Ha Hd; try done;
    rewrite Hro in Ha; done || set_solver.
Qed.

End roles.

(** ** Exports of stored tables *)

(** The two halves of the contract an export relies on: the pages, which the
    manager keeps, and the table lists. *)
Definition pages_of (td : tdata) (e : gevent mcall) : Prop :=
  match e with
  | Ev c ans =>
      match c in mcall X return X → Prop with
      | MQueryRows _ _ _ orderBy limit cursor forward =>
          λ ans, match ans with
                 | Ok (rows, next) => page_contract td orderBy limit cursor forward rows next
                 | Err _ => True
                 end
      | _ => λ _, True
      end ans
  end.
Definition lists_give (table : string) (schema : list ColumnDef) (e : gevent mcall) : Prop :=
  match e with
  | Ev c ans =>
      match c in mcall X return X → Prop with
      | MGetTables _ _ => λ ans, schema_in ans table = schema
      | _ => λ _, True
      end ans
  end.

Lemma both_halves td table schema e :
  pages_of td e → lists_give table schema e → answers_from td table schema e.
Proof. by destruct e as [X [] x]. Qed.

(** The requests of an export. *)
Definition export_call (org dbID table : string) (e : gevent mcall) : Prop :=
  match e with
  | Ev c _ =>
      match c with
      | MQueryRows o d t orderBy limit _ _ =>
          o = org ∧ d = dbID ∧ t = table ∧ orderBy = "id" ∧ limit = 200
      | MGetTables o d => o = org ∧ d = dbID
      | _ => False
      end
  end.

Lemma export_loop_calls org dbID table role limit n cursor acc :
  issues_only (export_call org dbID table) (export_loop n org dbID table role limit cursor acc).
Proof.
  revert cursor acc; induction n as [|n IH]; intros cursor acc; cbn [export_loop];
    destruct (negb _); try done.
  intros [page|e]; split; try done. intros tbls. split; [done|]. destruct (_ || _); [done|apply IH].
Qed.

Lemma handleExport_calls `{BD : Bodies} a r dbID table :
  issues_only (export_call (api_OrgID a) dbID table) (handleExport a r dbID table).
Proof.
  unfold handleExport. destruct (negb _); [done|].
  apply issues_only_bind; [apply export_loop_calls|done].
Qed.

Lemma export_call_within `{UC : UnicodeCase} org dbID table e :
  export_call org dbID table e → within anything internal e.
Proof.
  destruct e as [X c x]. destruct c; cbn [export_call within call_dbs call_tables]; intros Hx;
    by destruct Hx.
Qed.

Section export_system.
Context `{UC : UnicodeCase} {σ : Type} `{R : Rethink σ} {V : RethinkView σ}.
Context {L : RethinkLaws σ} {Fr : RethinkFrame σ} `{CD : Codec} `{BD : Bodies}.
Context (ck : nat → clock) (num : Z → any) (schema_value : list ColumnDef → any)
  (connect : nat → bool).
Abbreviation run := (exec (manager_do ck num schema_value connect)).
Abbreviation trace := (exec_trace (manager_do ck num schema_value connect)).

(** A request of an export leaves the table as it is and its pages keep the
    contract. *)
Lemma export_call_step org dbID table td {X : Set} (c : mcall X) (w : σ * nat) :
  ¬ internal table → table_of (view w.1) (dbName org dbID) table = Some td →
  export_call org dbID table (Ev c (manager_do ck num schema_value connect X w c).2) →
  table_of (view (manager_do ck num schema_value connect X w c).1.1) (dbName org dbID) table
    = Some td
  ∧ pages_of td (Ev c (manager_do ck num schema_value connect X w c).2).
Proof.
  intros Hint Ht Hc. split.
  - rewrite -Ht. apply (manager_changes ck num schema_value connect w c).
    destruct c; try done; by intros [].
  - destruct w as [s n], c; try done.
    destruct Hc as (-> & -> & -> & -> & ->). cbn [manager_do pages_of].
    destruct (QueryRows s org dbID table "id" 200 cursor forward) as [s' [[rows next]|e]] eqn:Eq;
      [|done]. cbn [snd].
    apply QueryRows_contract in Eq as (td' & Ht' & _ & Hp); [|done|lia]. cbn [fst] in Ht.
    rewrite Ht' in Ht. by injection Ht as <-.
Qed.


End export_system.

(** ** A concrete database *)

Definition demo_codec : Codec :=
  {| enc_table t := list_to_map [("id", AStr (tbl_Name t)); ("pk", AStr (tbl_PrimaryKey t))];
     dec_table d :=
       Ok {| tbl_ID := str_field d "id"; tbl_DatabaseID := ""; tbl_Name := str_field d "id";
             tbl_PrimaryKey := str_field d "pk"; tbl_TTL := 0;
             tbl_Schema := if String.eqb (str_field d "mask") "v" then name_schema else [];
             tbl_CreatedAt := "" |};
     enc_audit e := {["id" := AStr (ae_ID e)]};
     dec_audit d := Err "unread" |}.

Definition demo_manager : server mcall (rdb * nat) :=
  @manager_do ascii_case rdb mem_rethink mem_view mem_frame demo_codec (λ _, demo_clock)
    (λ _, ANil) (λ _, ANil) (λ _, true).

(** C10: what roles allow to stored tables.  A caller whose bindings only make it a
    viewer changes no table of any user: whatever request it makes below
    /api/db/ with a method other than DELETE, every table but the manager's own
    is the same afterwards.  Reading can still write: a viewer that lists
    the tables of a database that does not exist creates it.  And an editor,
    who may not change schemas, may update the rows of the manager's own
    table of schemas, and with them which columns are masked. *)
Theorem roles_and_tables `{UC : UnicodeCase} {σ : Type} `{R : Rethink σ} {V : RethinkView σ}
    {L : RethinkLaws σ} {Fr : RethinkFrame σ} `{CD : Codec} `{BD : Bodies}
    ck num schema_value connect now a r (w : σ * nat) :
  (views_only a (principal_of r) → hr_Method r ≠ "DELETE" →
     ∀ d t, ¬ internal t →
       table_of (view (exec (manager_do ck num schema_value connect)
                         (handleDatabaseSubroutes now a r) w).1.1) d t = table_of (view w.1) d t)
  ∧ views_only demo_api "user:eve"
  ∧ is_Some ((exec demo_manager (@handleDatabaseSubroutes no_bodies now demo_api
                (demo_req "GET" "/api/db/new/tables" "user:eve")) (∅, O)).1.1
               !! "org_acme__new")
  ∧ (∀ dbID id patch,
       roleFor a (principal_of r) "_schemas" dbID = RoleEditor → hr_Method r = "PATCH" → id ≠ "" →
       body_map (hr_Body r) = Ok patch →
       Allow (roleFor a (principal_of r) "_schemas" dbID) "table.schema" = false
       ∧ runs (handleRows a r dbID "_schemas" [id])
           [Ev (MUpdateRow (api_OrgID a) dbID "_schemas" id patch) (Ok tt)]
           (a, RJson 200 (PUpdated id))).
Proof.
  split; [|split; [|split]].
  - intros Hv Hm d t Ht. pose proof (views_only_read_only _ _ Hv) as Hro.
    eapply (exec_changes ck num schema_value connect anything internal); [|exact Ht].
    eapply issues_only_mono;
      [|apply issues_only_and; [apply (subroutes_auth now a r)|by apply subroutes_no_drop]].
    intros e [Ha Hd]. by eapply read_only_within.
  - split; [by vm_compute|]. intros scope role. unfold role_in, demo_api, Grant. cbn [api_RBAC].
    rewrite scope_bindings_insert. case_decide; [by intros [= <-]|done].
  - vm_compute. eauto.
  - intros dbID id patch Hr Hm Hid Hb. rewrite Hr. split; [done|].
    unfold handleRows. rewrite Hr Hm Hb (proj2 (String.eqb_neq _ _) Hid). by exists (Ok tt), [].
Qed.

(** The list of schemas of the demo database marks the column name of people. *)
Definition mask_doc : doc := list_to_map [("id", AStr "people"); ("pk", AStr "id"); ("mask", AStr "v")].
Definition masked_rdb : rdb :=
  {[ "org_acme__crm" :=
       list_to_map [("people", demo_td); ("_schemas", {| td_pk := "id"; td_rows := [mask_doc] |})] ]}.


(** Two organisations with a database of the same id; the first one drops its own. *)
Definition two_orgs : rdb := <["org_beta__crm" := {["people" := demo_td]}]> demo_rdb.
Definition drop_crm : arrival :=
  {| ar_now := ""; ar_flush := true; ar_request := demo_req "DELETE" "/api/db/crm" "" |}.
Definition after_drop : rdb :=
  (@serve_all ascii_case rdb mem_rethink mem_view mem_frame demo_codec no_bodies (λ _, demo_clock)
     (λ _, ANil) (λ _, ANil) (λ _, true) (demo_api, (two_orgs, O)) [drop_crm]).2.1.

Lemma tenant_isolation_witness :
  after_drop !! "org_acme__crm" = None
  ∧ after_drop !! "org_beta__crm" = two_orgs !! "org_beta__crm"
  ∧ @owned ascii_case "beta" "org_beta__crm".
Proof.
  assert (Ho : @owned ascii_case "beta" "org_beta__crm") by (left; vm_compute; reflexivity).
  split; [vm_compute; reflexivity|]. split; [|exact Ho].
  destruct (@tenant_isolation ascii_case rdb mem_rethink mem_view mem_laws mem_frame demo_codec no_bodies
    (λ _, demo_clock) (λ _, ANil) (λ _, ANil) (λ _, true) demo_api (two_orgs, O) [drop_crm])
    as (_ & H & _).
  apply (H "beta" "org_beta__crm"); [| |discriminate|exact Ho];
    (split; [vm_compute; reflexivity|]; split; [discriminate|]; cbv; set_solver).
Defined.

Lemma roles_and_tables_witness :
  let r := demo_req "PATCH" "/api/db/crm/tables/people/rows/a" "user:eve" in
  views_only demo_api (principal_of r)
  ∧ table_of (exec demo_manager (@handleDatabaseSubroutes no_bodies "" demo_api r) (masked_rdb, O)).1.1
      "org_acme__crm" "people" = Some demo_td.
Proof.
  intros r.
  destruct (@roles_and_tables ascii_case rdb mem_rethink mem_view mem_laws mem_frame demo_codec no_bodies
    (λ _, demo_clock) (λ _, ANil) (λ _, ANil) (λ _, true) "" demo_api r (masked_rdb, O)) as (H & Hv & _).
  split; [exact Hv|].
  etransitivity; [apply (H Hv); [discriminate|vm_compute; intuition discriminate]|].
  vm_compute. reflexivity.
Defined.
