(* ===== verification/Registry.v ===== *)
(** * The cluster registry (internal/cluster/registry.go)

    One instance per normalised cluster id, created on demand; and the
    connection of an instance to its database, with its retries, its
    reconnecting monitor and the interleaving of concurrent callers. *)

From S2P Require Import Prelude GoStrings Values Names LocalDb Settings DbManager.

Local Open Scope Z_scope.

(** ** Instances and the registry *)

(** What the registry does to the outside: resolving a kubeconfig, opening a
    cluster's local store, building its clients. *)
Class ClusterEnv (σ : Type) := {
  resolver : option (string → result string);
  join_path : string → string → string;
  open_db : string → result σ;
  home_dir : option string;
  new_connector : string → string → string → string → bool;
  new_k8s : string → bool → option string;
  new_dynamic : string → bool
}.

(** An instance: its id and directory, its local store and whether it has a
    tailnet connector and a dynamic client. *)
Record Instance (σ : Type) : Type := {
  in_id : string;
  in_stateDir : string;
  in_DB : σ;
  in_TS : bool;
  in_Dyn : bool
}.
Arguments in_id {σ} _.
Arguments in_stateDir {σ} _.
Arguments in_DB {σ} _.
Arguments in_TS {σ} _.
Arguments in_Dyn {σ} _.

Record Registry (σ : Type) : Type := {
  rg_StateDir : string;
  rg_items : gmap string (Instance σ);
  rg_created : gmap string string
}.
Arguments rg_StateDir {σ} _.
Arguments rg_items {σ} _.
Arguments rg_created {σ} _.

Definition NewRegistry (σ : Type) (stateDir : string) : Registry σ :=
  {| rg_StateDir := stateDir; rg_items := ∅; rg_created := ∅ |}.

Record Status : Type := {
  st_ID : string; st_Started : bool; st_StateDir : string;
  st_HasDB : bool; st_HasK8s : bool; st_CreatedAt : string
}.

Section registry.
Context {σ : Type} `{SQL : Sql σ} `{UC : UnicodeCase} `{CE : ClusterEnv σ}.

(** The stored client key of a cluster. *)
Definition client_key (d : σ) (id : string) : string :=
  match LocalDb.Get d "credentials" ("cl:" +:+ id +:+ ":ts_client_auth") with
  | Ok cred => str_field cred "value"
  | Err _ => ""
  end.

Definition login_server (d : σ) (id : string) : string :=
  match GetCluster d id with Ok cs => cl_TSLoginServer cs | Err _ => "" end.

(** Whether a connector is configured and could be built. *)
Definition start_connector (d : σ) (id : string) : bool :=
  let login := login_server d id in
  let key := client_key d id in
  if String.eqb (TrimSpace login) "" && String.eqb (TrimSpace key) "" then false
  else
    let state := match home_dir with
                 | Some h => join_path h (".guildnet/tsnet/cluster-" +:+ id)
                 | None => ""
                 end in
    new_connector id login key state.

(** Building an instance; every failure leaves the registry alone. *)
Definition start_instance (stateDir id : string) : result (Instance σ) :=
  match resolver with
  | None => Err "cluster resolver not configured"
  | Some kubeconfig =>
      match kubeconfig id with
      | Err e => Err ("kubeconfig not found for cluster " +:+ id +:+ ": " +:+ e)
      | Ok kc =>
          if String.eqb kc "" then
            Err ("kubeconfig not found for cluster " +:+ id +:+ ": <nil>")
          else
            let clDir := join_path (if String.eqb stateDir "" then "." else stateDir) id in
            match open_db clDir with
            | Err e => Err ("open cluster db: " +:+ e)
            | Ok d =>
                let ts := start_connector d id in
                match new_k8s kc ts with
                | Some e => Err ("k8s client: " +:+ e)
                | None => Ok {| in_id := id; in_stateDir := clDir; in_DB := d; in_TS := ts;
                                in_Dyn := new_dynamic kc |}
                end
            end
      end
  end.

Definition Get (now : string) (r : Registry σ) (clusterID : string)
    : Registry σ * result (Instance σ) :=
  let id := NormalID clusterID in
  match rg_items r !! id with
  | Some inst => (r, Ok inst)
  | None =>
      match start_instance (rg_StateDir r) id with
      | Err e => (r, Err e)
      | Ok inst =>
          ({| rg_StateDir := rg_StateDir r; rg_items := <[id := inst]> (rg_items r);
              rg_created := <[id := now]> (rg_created r) |}, Ok inst)
      end
  end.

Definition Close (r : Registry σ) (clusterID : string) : Registry σ :=
  let id := NormalID clusterID in
  match rg_items r !! id with
  | None => r
  | Some _ => {| rg_StateDir := rg_StateDir r; rg_items := delete id (rg_items r);
                 rg_created := delete id (rg_created r) |}
  end.

Definition List_ (r : Registry σ) : list Status :=
  (λ kv, {| st_ID := kv.1; st_Started := true; st_StateDir := in_stateDir kv.2;
            st_HasDB := true; st_HasK8s := true;
            st_CreatedAt := default "" (rg_created r !! kv.1) |}) <$> map_to_list (rg_items r).

(** Operations, each one critical section of the registry's lock. *)
Inductive registry_op : Type :=
  | OpGet (now clusterID : string)
  | OpClose (clusterID : string).

Definition run_op (r : Registry σ) (o : registry_op) : Registry σ :=
  match o with
  | OpGet now id => (Get now r id).1
  | OpClose id => Close r id
  end.

Definition run_ops (stateDir : string) (ops : list registry_op) : Registry σ :=
  foldl run_op (NewRegistry σ stateDir) ops.

(** Keys are normalised and name their instance, and every instance has a
    creation time. *)
Definition registry_wf (r : Registry σ) : Prop :=
  dom (rg_created r) = dom (rg_items r)
  ∧ map_Forall (λ id inst, NormalID id = id ∧ in_id inst = id) (rg_items r).

Lemma NormalID_idemp s : NormalID (NormalID s) = NormalID s.
Proof. apply sanitizeID_fixed; [apply sanitizeID_char|apply sanitizeID_nonempty]. Qed.

Lemma start_instance_id stateDir id inst :
  start_instance stateDir id = Ok inst → in_id inst = id.
Proof.
  unfold start_instance. destruct resolver as [kubeconfig|]; [|done].
  destruct (kubeconfig id) as [kc|]; [|done]. destruct (String.eqb kc ""); [done|].
  destruct (open_db _); [|done]. destruct (new_k8s _ _); [done|]. by intros [= <-].
Qed.

Lemma run_op_wf r o : registry_wf r → registry_wf (run_op r o).
Proof.
  intros [Hd Hf]. destruct o as [now c|c]; simpl.
  - unfold Get. destruct (rg_items r !! NormalID c); [done|].
    destruct (start_instance _ _) as [inst|] eqn:E; [|done]. split; simpl.
    + rewrite !dom_insert_L Hd. done.
    + apply map_Forall_insert_2; [|done]. split; [apply NormalID_idemp|].
      by eapply start_instance_id.
  - unfold Close. destruct (rg_items r !! NormalID c); [|done]. split; simpl.
    + by rewrite !dom_delete_L Hd.
    + by apply map_Forall_delete.
Qed.

Lemma run_ops_wf stateDir ops : registry_wf (run_ops stateDir ops).
Proof.
  unfold run_ops. assert (Hi : registry_wf (NewRegistry σ stateDir)).
  { split; [set_solver|by apply map_Forall_empty]. }
  revert Hi. generalize (NewRegistry σ stateDir).
  induction ops as [|o ops IH]; intros r Hr; [done|]. by apply IH, run_op_wf.
Qed.

End registry.

(** ** Connecting an instance to its database *)

(** One caller of [EnsureRDB]: before the check, with attempts left, holding a
    fresh connection it has not stored yet, or finished. *)
Inductive phase : Type :=
  | PStart
  | PDial (left : nat)
  | PHold (h : nat)
  | PDone (ok : bool).

(** An instance's database field, the connections opened so far, the monitors
    started and the callers. *)
Record conn_state : Type := {
  cs_RDB : option nat;
  cs_opened : list nat;
  cs_monitors : nat;
  cs_callers : list phase
}.

Definition set_caller (s : conn_state) (i : nat) (p : phase) : conn_state :=
  {| cs_RDB := cs_RDB s; cs_opened := cs_opened s; cs_monitors := cs_monitors s;
     cs_callers := <[i := p]> (cs_callers s) |}.

(** The atomic steps of a caller: the check under the instance's lock, a dial
    outside it, and the store under it.  A failed dial may be followed by the
    caller's cancellation. *)
Inductive ensure_step : conn_state → conn_state → Prop :=
  | step_present s i h :
      cs_callers s !! i = Some PStart → cs_RDB s = Some h →
      ensure_step s (set_caller s i (PDone true))
  | step_absent s i :
      cs_callers s !! i = Some PStart → cs_RDB s = None →
      ensure_step s (set_caller s i (PDial 5))
  | step_dial s i n h :
      cs_callers s !! i = Some (PDial (S n)) → h ∉ cs_opened s →
      ensure_step s
        {| cs_RDB := cs_RDB s; cs_opened := h :: cs_opened s; cs_monitors := cs_monitors s;
           cs_callers := <[i := PHold h]> (cs_callers s) |}
  | step_fail s i n :
      cs_callers s !! i = Some (PDial (S n)) → ensure_step s (set_caller s i (PDial n))
  | step_cancel s i n :
      cs_callers s !! i = Some (PDial (S n)) → ensure_step s (set_caller s i (PDone false))
  | step_exhausted s i :
      cs_callers s !! i = Some (PDial 0) → ensure_step s (set_caller s i (PDone false))
  | step_store s i h :
      cs_callers s !! i = Some (PHold h) →
      ensure_step s
        {| cs_RDB := Some h; cs_opened := cs_opened s; cs_monitors := S (cs_monitors s);
           cs_callers := <[i := PDone true]> (cs_callers s) |}.

Definition no_conn (callers : nat) : conn_state :=
  {| cs_RDB := None; cs_opened := []; cs_monitors := 0; cs_callers := replicate callers PStart |}.

(** One tick of the monitor on a connected instance: ping, and on a transient
    error up to three dials.  [ping] and [dials] are what they return. *)
Fixpoint redial (n : nat) (dials : list (option nat)) : option nat :=
  match n, dials with
  | S n', Some h :: _ => Some h
  | S n', None :: r => redial n' r
  | _, _ => None
  end.

Definition monitor_tick `{UnicodeCase} (cur : nat) (ping : option string)
    (dials : list (option nat)) : nat :=
  match ping with
  | None => cur
  | Some e => if String.eqb (ClassifyError (Some e)) "transient"
              then default cur (redial 3 dials) else cur
  end.

(** Reachable states: attempts stay within five, the stored connection is an
    open one, and success means a connection is stored. *)
Definition conn_wf (s : conn_state) : Prop :=
  (∀ h, cs_RDB s = Some h → h ∈ cs_opened s ∧ (0 < cs_monitors s)%nat)
  ∧ ∀ i p, cs_callers s !! i = Some p →
      match p with
      | PStart => True
      | PDial n => (n <= 5)%nat
      | PHold h => h ∈ cs_opened s
      | PDone ok => ok = true → is_Some (cs_RDB s)
      end.

Lemma conn_wf_set s i p :
  conn_wf s →
  match p with
  | PStart => True
  | PDial n => (n <= 5)%nat
  | PHold h => h ∈ cs_opened s
  | PDone ok => ok = true → is_Some (cs_RDB s)
  end → conn_wf (set_caller s i p).
Proof.
  intros [H1 H2] Hp. split; [done|]. intros j q. simpl.
  rewrite list_lookup_insert_Some. intros [(-> & -> & _)|[_ Hq]]; [done|by apply (H2 j)].
Qed.

Lemma ensure_step_wf s s' : ensure_step s s' → conn_wf s → conn_wf s'.
Proof.
  intros Hstep Hwf. pose proof Hwf as [H1 H2]. destruct Hstep as
    [s i h Hi Hr|s i Hi Hr|s i n h Hi Hf|s i n Hi|s i n Hi|s i Hi|s i h Hi].
  - apply conn_wf_set; [done|]. rewrite Hr. eauto.
  - by apply conn_wf_set.
  - split; simpl.
    + intros h' Hh. destruct (H1 h' Hh). split; [by right|done].
    + intros j q. rewrite list_lookup_insert_Some.
      intros [(-> & <- & _)|[_ Hq]]; [by left|]. specialize (H2 j q Hq).
      destruct q; try done. by right.
  - apply conn_wf_set; [done|]. specialize (H2 i _ Hi). simpl in H2. lia.
  - by apply conn_wf_set.
  - by apply conn_wf_set.
  - specialize (H2 i _ Hi) as Hh. split; simpl.
    + intros h' [= <-]. split; [done|lia].
    + intros j q. rewrite list_lookup_insert_Some.
      intros [(-> & <- & _)|[_ Hq]]; [simpl; eauto|].
      specialize (H2 j q Hq). by destruct q.
Qed.

Lemma no_conn_wf n : conn_wf (no_conn n).
Proof.
  split; [done|]. intros i p Hp. simpl in Hp. apply lookup_replicate in Hp as [-> _]. done.
Qed.

Lemma reachable_wf n s : rtc ensure_step (no_conn n) s → conn_wf s.
Proof.
  intros Hr. assert (Hg : ∀ s0, conn_wf s0 → rtc ensure_step s0 s → conn_wf s).
  { clear. intros s0 H0 Hr. induction Hr as [|a b c Hab _ IH]; [done|].
    by apply IH, (ensure_step_wf a). }
  exact (Hg _ (no_conn_wf n) Hr).
Qed.

(** ** Properties *)

(** C12: the registry.  After any sequence of Get and Close calls the keys are
    normalised ids, each instance is stored under its own id and has a
    creation time; a Get that succeeds is repeated by every later Get of an id
    with the same normal form, without starting anything; and after a Close no
    instance with that id is left. *)
Theorem registry_invariant {σ : Type} `{SQL : Sql σ} `{UC : UnicodeCase} `{CE : ClusterEnv σ}
    stateDir ops now now' c c' inst :
  let r := run_ops stateDir ops in
  registry_wf r
  ∧ (∀ r', Get now r c = (r', Ok inst) → NormalID c' = NormalID c →
       Get now' r' c' = (r', Ok inst) ∧ in_id inst = NormalID c)
  ∧ rg_items (Close r c) !! NormalID c = None
  ∧ (∀ k, k ≠ NormalID c → rg_items (Close r c) !! k = rg_items r !! k).
Proof.
  intros r. pose proof (run_ops_wf stateDir ops) as Hwf. fold r in Hwf.
  split; [done|]. split; [|split].
  - intros r' Hg Hc. unfold Get in Hg |- *. rewrite Hc.
    destruct (rg_items r !! NormalID c) as [i0|] eqn:E.
    + simplify_eq. rewrite E. split; [done|]. by apply (map_Forall_lookup_1 _ _ _ _ (proj2 Hwf) E).
    + destruct (start_instance _ _) as [i0|] eqn:Es; [|done]. simplify_eq. simpl.
      rewrite lookup_insert_eq. split; [done|]. by eapply start_instance_id.
  - unfold Close. destruct (rg_items r !! NormalID c) eqn:E; [|done]. apply lookup_delete_eq.
  - intros k Hk. unfold Close. destruct (rg_items r !! NormalID c) eqn:E; [|done].
    by apply lookup_delete_ne.
Qed.

Definition demo_cluster_env : ClusterEnv mem_db :=
  {| resolver := Some (λ _, Ok "apiVersion: v1"); join_path := λ a b, a +:+ "/" +:+ b;
     open_db := λ _, Ok mem_empty; home_dir := None; new_connector := λ _ _ _ _, true;
     new_k8s := λ _ _, None; new_dynamic := λ _, true |}.

Definition demo_registry : Registry mem_db :=
  @run_ops mem_db mem_sql ascii_case demo_cluster_env "/state" [].

Lemma registry_invariant_witness :
  ∃ r' inst,
    @Get mem_db mem_sql ascii_case demo_cluster_env "t0" demo_registry "Prod_EU" = (r', Ok inst)
    ∧ @Get mem_db mem_sql ascii_case demo_cluster_env "t1" r' "prod.eu" = (r', Ok inst)
    ∧ in_id inst = NormalID "Prod_EU".
Proof.
  exists (@Get mem_db mem_sql ascii_case demo_cluster_env "t0" demo_registry "Prod_EU").1.
  eexists. split; [reflexivity|].
  apply (@registry_invariant mem_db mem_sql ascii_case demo_cluster_env "/state" []
           "t0" "t1" "Prod_EU" "prod.eu"); vm_compute; reflexivity.
Defined.

