(* ===== verification/Router.v ===== *)
(** * The HTTP router (internal/api/router.go)

    The handlers of the orchestration API as programs over the services they
    use: the local store, the settings and job packages, the registry of
    clusters, a cluster's API server, the database manager.  Answers are
    arbitrary.  This file holds the dispatch, the authorisation helper and the
    handlers for the host itself; [RouterCluster] holds those of a cluster. *)

From S2P Require Import Prelude GoStrings NetAddr Values LocalDb Settings Jobs Proxy Prog.
From S2P Require Import Mux DbManager DbHandlers.

Local Open Scope Z_scope.

(** ** Requests to services *)

(** [rest.Config]: where the API server is, and whether the TLS settings of
    the kubeconfig are kept. *)
Record kconfig : Type := { cfg_Host : string; cfg_TLS : bool }.

(** An error value: its text, and whether it is a [net.Error] that timed out. *)
Record go_error : Type := { err_Text : string; err_Timeout : bool }.

(** The parts of [cluster.Instance] the handlers look at. *)
Record inst_info : Type := {
  ii_Config : option kconfig;  (* K8s.Config(), when K8s is set *)
  ii_K : bool;                 (* the typed client is set *)
  ii_Dyn : bool;               (* the dynamic client is set *)
  ii_TS : bool;                (* the tailnet connector is set *)
  ii_PF : bool                 (* the port-forward manager is set *)
}.

(** The host's own store, or the store of a cluster's instance. *)
Inductive store_id : Type := HostStore | ClusterStore (id : string).

(** A pod as the proxy and the log endpoints see it. *)
Record pod_info : Type := { pod_Name : string; pod_Container : string; pod_Ready : bool }.

(** A service: its first port, if any, and its selector. *)
Record svc_info : Type := { svc_Port : option Z; svc_Selector : list (string * string) }.

Inductive rcall : Set → Type :=
  (* the host's local store *)
  | DbGet (c k : string) : rcall (result doc)
  | DbPut (c k : string) (v : list (string * any)) : rcall (result unit)
  | DbDelete (c k : string) : rcall (result unit)
  | DbList (c : string) : rcall (list doc)
  | DbReadLog (c k : string) : rcall bytes
  | DbListPublished : rcall (result (list PublishedService))
  | DbSavePublished (key : string) (ps : PublishedService) : rcall (result unit)
  | DbDeletePublished (key : string) : rcall (result unit)
  (* settings *)
  | SGetTailscale : rcall Tailscale
  | SPutTailscale (ts : Tailscale) : rcall (result unit)
  | SGetDatabase : rcall Database
  | SPutDatabase (db : Database) : rcall (result unit)
  | SGetGlobal : rcall Global
  | SPutGlobal (g : Global) : rcall (result unit)
  | SGetCluster (st : store_id) (id : string) : rcall Cluster
  | SPutCluster (st : store_id) (id : string) (cs : Cluster) : rcall (result unit)
  | OnSettingsChanged (kind : string) : rcall unit
  (* jobs *)
  | JSubmit (kind : string) (spec : list (string * any)) : rcall string
  | JList : rcall (list JobRecord)
  | JGet (id : string) : rcall (option JobRecord)
  | JCancel (id : string) : rcall unit
  | JStream (id : string) : rcall unit
  (* the registry *)
  | RegGet (id : string) : rcall (result inst_info)
  | RegRDBPresent (id : string) : rcall (result bool)
  | RegEnsureRDB (id : string) : rcall (result unit)
  (* a cluster's API server *)
  | ListNamespaces (id : string) : rcall (result unit)
  | Healthy (cfg : kconfig) : rcall (option go_error)
  | NewClient (cfg : kconfig) : rcall (result unit)
  | NewDynamic (cfg : kconfig) : rcall (result unit)
  | GetNamespace (id ns : string) : rcall unit
  | CfgMapGet (id ns name : string) : rcall bool
  | CfgMapUpdate (id ns name : string) (data : list (string * string)) : rcall unit
  | CfgMapCreate (id ns name : string) (data : list (string * string)) : rcall unit
  | WsList (id ns : string) : rcall (result (list doc))
  | WsGet (id ns name : string) : rcall (result doc)
  | WsCreate (id ns : string) (obj : list (string * any)) : rcall (result unit)
  | WsDelete (id ns name : string) : rcall (result unit)
  | SvcGet (id ns name : string) : rcall (result svc_info)
  | EndpointsReady (id ns name : string) : rcall bool
  | PodsOf (id ns : string) (selector : string) : rcall (result (list pod_info))
  | PodLog (id ns pod container : string) : rcall (result string)
  | PodLogStream (id ns pod container : string) : rcall (result unit)
  | TransportFor (cfg : kconfig) : rcall (result unit)
  | PFEnsure (id ns pod : string) (port : Z) : rcall (result Z)
  (* the tailnet *)
  | Publish (id service : string) (lp : Z) : rcall unit
  | Unpublish (key : string) : rcall bool
  (* the host *)
  | Dial (addr : string) : rcall (option string)
  | ReadCert : rcall (result string)
  | Encrypt (s : string) : rcall (result string)
  | NewUUID : rcall string
  | Now : rcall string
  (* the database manager of a cluster *)
  | Mgr {X : Set} (c : mcall X) : rcall X.

Abbreviation rprog := (gprog rcall).

(** ** Requests, responses and the environment *)

Record rq : Type := {
  q_Method : string;
  q_Path : string;
  q_RemoteAddr : string;
  q_Authorization : string;
  q_APIToken : string;         (* X-API-Token *)
  q_Principal : string;        (* X-Debug-Principal *)
  q_ContentType : string;
  q_FwdProto : string;         (* X-Forwarded-Proto *)
  q_Host : string;
  q_TLS : bool;
  q_Query : string → string;
  q_Body : string
}.

Record Deps : Type := {
  has_DB : bool; has_Secrets : bool; has_Registry : bool; has_Callback : bool;
  Token : string
}.

Record ClusterStatus : Type := {
  cst_ClusterID : string;
  cst_KubeconfigPresent : bool;
  cst_KubeconfigValid : bool;
  cst_K8sReachable : bool;
  cst_K8sError : string;
  cst_PFAvailable : bool;
  cst_TSAvailable : bool;
  cst_RecommendedAction : string
}.

Record server_info : Type := {
  sv_ID : string; sv_Name : string; sv_Image : string; sv_Status : string;
  sv_Ports : list (string * Z)
}.

Inductive rpayload : Type :=
  | VObj (v : list (string * any))
  | VDoc (d : doc)
  | VDocs (l : list doc)
  | VEmpty
  | VTailscale (ts : Tailscale)
  | VDatabase (db : Database)
  | VGlobal (g : Global)
  | VCluster (cs : Cluster)
  | VJobs (l : list JobRecord)
  | VJob (j : JobRecord)
  | VPublished (l : list PublishedService)
  | VStatus (st : ClusterStatus)
  | VServers (l : list server_info)
  | VLogs (l : list string).

(** [RespError] is a structured error, [RespText] a plain one; [RespPanic] a
    nil dereference or a slice out of range, which ends the request. *)
Inductive rresp : Type :=
  | RespJson (status : Z) (v : rpayload)
  | RespStatus (status : Z)
  | RespText (status : Z) (msg : string)
  | RespError (status : Z) (msg code : string)
  | RespRaw (contentType : string) (b : string)
  | RespRedirect
  | RespStream
  | RespProxied (o : outcome)
  | RespDb (r : resp)
  | RespPanic.

(** The bodies the handlers decode; a decoding error leaves the zero value or
    what was decoded before it, and is ignored. *)
Record bootstrap_body : Type := {
  bb_Tailscale : option Tailscale;
  bb_Cluster : option (string * Cluster)   (* kubeconfig and settings *)
}.

Class RouterEnv := {
  (** [fmt.Sprint] of values that are neither nil nor a string. *)
  sprint_other : any → string;
  decrypt : string → result string;
  kubeconfigFrom : string → result kconfig;
  (** [url.Parse]: scheme, host and path. *)
  parse_url : string → option (string * string * string);
  (** [url.Parse], then [String] with the scheme replaced by http. *)
  url_force_http : string → option string;
  (** [fmt.Sscanf(v, %d)]. *)
  sscanf_d : string → option Z;
  (** A number of an unstructured object with dynamic type int64, and one with
      dynamic type float64 converted to int. *)
  any_int64 : any → option Z;
  any_float64 : any → option Z;
  dec_bootstrap : string → bootstrap_body;
  dec_tailscale : string → Tailscale;
  dec_database : string → Database;
  dec_global : string → Global;
  dec_cluster : string → Cluster;
  dec_job : string → string * list (string * any);
  dec_object : string → list (string * any);
  dec_field : string → string → string;   (* one string field of the body *)
  kube_proxy_addr : string                (* KUBE_PROXY_ADDR *)
}.

(** [fmt.Sprint] of a map entry: a missing key is nil. *)
Definition Sprint `{RouterEnv} (v : option any) : string :=
  match v with
  | None | Some ANil => "<nil>"
  | Some (AStr s) => s
  | Some x => sprint_other x
  end.

Definition ok_body : rresp := RespJson 200 (VObj [("ok", ABool true)]).
Definition method_not_allowed : rresp := RespStatus 405.
Definition unavailable_db : rresp := RespJson 503 (VObj [("error", AStr "unavailable")]).

(** ** Authorisation *)

Section auth.
Context `{UnicodeCase}.

(** The client connects from a loopback address. *)
Definition loopback_client (r : rq) : bool :=
  let host := match SplitHostPort (q_RemoteAddr r) with Some (h, _) => h | None => "" end in
  match ParseIP host with
  | Some i => IsLoopback i || String.eqb host "127.0.0.1" || String.eqb host "::1"
  | None => false
  end.

(** The prefix test leaves at least seven bytes: every byte of [bearer] comes
    from a rune of the header. *)
Definition bearer_ok (tok authz : string) : bool :=
  HasPrefix (ToLower authz) "bearer " && String.eqb (TrimSpace (drop_str 7 authz)) tok.

Definition authOK (d : Deps) (r : rq) : bool :=
  if String.eqb (q_Method r) "GET" then true
  else if String.eqb (q_Method r) "OPTIONS" then true
  else
    let tok := TrimSpace (Token d) in
    if String.eqb tok "" then loopback_client r
    else bearer_ok tok (q_Authorization r) || String.eqb (q_APIToken r) tok.

(** The copy of the check in the workspace handlers. *)
Definition ws_authOK (d : Deps) (r : rq) : bool :=
  if negb (String.eqb (TrimSpace (Token d)) "")
  then bearer_ok (TrimSpace (Token d)) (q_Authorization r)
  else loopback_client r.

End auth.

Definition unauthorized : rresp := RespText 401 "unauthorized".

(** ** Helpers of the handlers *)

Section handlers.
Context `{UC : UnicodeCase} `{RE : RouterEnv}.

(** Calls on a nil store panic. *)
Definition need_db (d : Deps) (k : rprog rresp) : rprog rresp :=
  if has_DB d then k else Ret RespPanic.

(** The first eight bytes of a fresh UUID. *)
Definition short_uuid : rprog string := do u <- request NewUUID ; Ret (take_str 8 u).

(** [json] decoding of a kubeconfig credential: decrypt when marked, else try
    to decrypt and fall back to the text itself; valid kubeconfigs only. *)
Definition valid_kubeconfig (kc : string) : bool := is_ok (kubeconfigFrom kc).

Definition kubeconfig_of_cred (hasSecrets : bool) (cred : doc) : option string :=
  let val := Sprint (cred !! "value") in
  let decrypted :=
    if hasSecrets then
      match decrypt val with
      | Ok v => if valid_kubeconfig v then Some v else None
      | Err _ => None
      end
    else None in
  match cred !! "encrypted" with
  | Some (ABool true) => decrypted
  | _ =>
      match decrypted with
      | Some v => Some v
      | None => if valid_kubeconfig val then Some val else None
      end
  end.

Definition kubeconfig_key (id : string) : string := "cl:" +:+ id +:+ ":kubeconfig".

Definition readClusterKubeconfig (d : Deps) (id : string) : rprog (option string) :=
  if negb (has_DB d) then Ret None
  else
    do got <- request (DbGet "credentials" (kubeconfig_key id)) ;
    Ret (match got with
         | Err _ => None
         | Ok cred => kubeconfig_of_cred (has_Secrets d) cred
         end).

Definition with_default_port (scheme addr : string) : string :=
  if Contains addr ":" then addr
  else addr +:+ (if String.eqb scheme "https" then ":443" else ":80").

(** [None] in the result is a non-nil error. *)
Definition headscaleHealth (endpoint : string) : rprog (option string) :=
  if String.eqb endpoint "" then Ret (Some "unknown")
  else
    match parse_url endpoint with
    | None => Ret None
    | Some (scheme, host, _) =>
        do e <- request (Dial (with_default_port scheme host)) ;
        Ret (match e with None => Some "ok" | Some _ => None end)
    end.

Definition isTimeoutErr (e : go_error) : bool :=
  let msg := ToLower (err_Text e) in
  err_Timeout e || Contains msg "client.timeout exceeded"
  || Contains msg "context deadline exceeded" || Contains msg "i/o timeout".

(** A proxy address from the environment as a URL. *)
Definition proxy_url (v : string) : string :=
  if HasPrefix v "http://" || HasPrefix v "https://" then v else "http://" +:+ v.

Definition with_proxy (cs : Cluster) (url : string) : Cluster :=
  {| cl_Name := cl_Name cs; cl_Namespace := cl_Namespace cs; cl_APIProxyURL := url;
     cl_APIProxyForceHTTP := true; cl_DisableAPIProxy := cl_DisableAPIProxy cs;
     cl_PreferPodProxy := cl_PreferPodProxy cs; cl_UsePortForward := cl_UsePortForward cs;
     cl_IngressDomain := cl_IngressDomain cs; cl_IngressClassName := cl_IngressClassName cs;
     cl_WorkspaceTLSSecret := cl_WorkspaceTLSSecret cs;
     cl_CertManagerIssuer := cl_CertManagerIssuer cs; cl_IngressAuthURL := cl_IngressAuthURL cs;
     cl_IngressAuthSignin := cl_IngressAuthSignin cs; cl_ImagePullSecret := cl_ImagePullSecret cs;
     cl_WorkspaceLBEnabled := cl_WorkspaceLBEnabled cs; cl_OrgID := cl_OrgID cs;
     cl_TSLoginServer := cl_TSLoginServer cs; cl_TSClientAuthKey := cl_TSClientAuthKey cs;
     cl_TSRoutes := cl_TSRoutes cs; cl_TSStatePath := cl_TSStatePath cs;
     cl_HeadscaleNS := cl_HeadscaleNS cs |}.

(** The new settings, when the fallback is to be enabled. *)
Definition proxy_fallback (cs : Cluster) : option Cluster :=
  let v := TrimSpace kube_proxy_addr in
  if String.eqb v "" then None
  else if cl_DisableAPIProxy cs then None
  else if String.eqb (TrimSpace (cl_APIProxyURL cs)) "" then Some (with_proxy cs (proxy_url v))
  else None.

Definition ensureProxyFallbackOnTimeout (st : store_id) (id : string) : rprog bool :=
  if String.eqb (TrimSpace kube_proxy_addr) "" then Ret false
  else
    do cs <- request (SGetCluster st id) ;
    match proxy_fallback cs with
    | None => Ret false
    | Some cs' => do _ <- request (SPutCluster st id cs') ; Ret true
    end.

(** The host a configuration is sent to, and the effect on it. *)
Definition proxy_host (cs : Cluster) : string :=
  let host := TrimSpace (cl_APIProxyURL cs) in
  if String.eqb host "" && negb (cl_DisableAPIProxy cs) then
    let v := TrimSpace kube_proxy_addr in
    if String.eqb v "" then "" else proxy_url v
  else host.

Definition apply_proxy (cs : Cluster) (cfg : kconfig) : kconfig :=
  let host := proxy_host cs in
  let cfg1 :=
    if String.eqb host "" then cfg
    else {| cfg_Host := host;
            cfg_TLS := if HasPrefix (ToLower host) "http://" then false else cfg_TLS cfg |} in
  if cl_APIProxyForceHTTP cs then
    match url_force_http (cfg_Host cfg1) with
    | Some h => {| cfg_Host := h; cfg_TLS := cfg_TLS cfg1 |}
    | None => cfg1
    end
  else cfg1.

Definition applyClusterAPIProxy (cfg : kconfig) (st : store_id) (id : string) : rprog kconfig :=
  do cs <- request (SGetCluster st id) ; Ret (apply_proxy cs cfg).

(** ** Bootstrap *)

(** Undo the two records of a cluster whose connection failed. *)
Definition rollback (id : string) (msg code : string) : rprog rresp :=
  do _ <- request (DbDelete "clusters" id) ;
  do _ <- request (DbDelete "credentials" (kubeconfig_key id)) ;
  Ret (RespError 422 msg code).

(** The checks of a new cluster through the registry. *)
Definition prewarm (id : string) (k : rprog rresp) : rprog rresp :=
  do got <- request (RegGet id) ;
  match got with
  | Err _ => rollback id "cluster connect failed" "cluster_connect"
  | Ok inst =>
      if negb (bool_decide (is_Some (ii_Config inst)) && ii_K inst)
      then rollback id "cluster client initialization failed" "cluster_client"
      else
        do ns <- request (ListNamespaces id) ;
        match ns with
        | Err _ => rollback id "cluster connect failed" "cluster_connect"
        | Ok _ =>
            do rdb <- request (RegEnsureRDB id) ;
            match rdb with
            | Err _ => rollback id "cluster rdb connect failed" "cluster_rdb"
            | Ok _ => k
            end
        end
  end.

(** The settings copied from the body: those of the tailnet, the load balancer
    and headscale are not among its fields. *)
Definition bootstrap_settings (cs : Cluster) : Cluster :=
  {| cl_Name := cl_Name cs; cl_Namespace := cl_Namespace cs;
     cl_APIProxyURL := cl_APIProxyURL cs; cl_APIProxyForceHTTP := cl_APIProxyForceHTTP cs;
     cl_DisableAPIProxy := cl_DisableAPIProxy cs; cl_PreferPodProxy := cl_PreferPodProxy cs;
     cl_UsePortForward := cl_UsePortForward cs; cl_IngressDomain := cl_IngressDomain cs;
     cl_IngressClassName := cl_IngressClassName cs;
     cl_WorkspaceTLSSecret := cl_WorkspaceTLSSecret cs;
     cl_CertManagerIssuer := cl_CertManagerIssuer cs; cl_IngressAuthURL := cl_IngressAuthURL cs;
     cl_IngressAuthSignin := cl_IngressAuthSignin cs; cl_ImagePullSecret := cl_ImagePullSecret cs;
     cl_WorkspaceLBEnabled := false; cl_OrgID := cl_OrgID cs; cl_TSLoginServer := "";
     cl_TSClientAuthKey := ""; cl_TSRoutes := ""; cl_TSStatePath := ""; cl_HeadscaleNS := "" |}.

Definition bootstrap_cluster (d : Deps) (kc : string) (cs : Cluster) : rprog rresp :=
  do id <- request NewUUID ;
  let name := if String.eqb (TrimSpace (cl_Name cs)) "" then id else cl_Name cs in
  do _ <- request (DbPut "clusters" id
            [("id", AStr id); ("name", AStr name); ("state", AStr "imported")]) ;
  do _ <- request (DbPut "credentials" (kubeconfig_key id) [("value", AStr kc)]) ;
  let finish :=
    do _ <- request (SPutCluster HostStore id (bootstrap_settings cs)) ;
    Ret (RespJson 200 (VObj [("clusterId", AStr id)])) in
  if has_Registry d then prewarm id finish else finish.

Definition handleBootstrap (d : Deps) (r : rq) : rprog rresp :=
  if negb (String.eqb (q_Method r) "POST") then Ret method_not_allowed
  else
    let body := dec_bootstrap (q_Body r) in
    let rest :=
      match bb_Cluster body with
      | Some (kc, cs) =>
          if negb (String.eqb (TrimSpace kc) "") && has_DB d then bootstrap_cluster d kc cs
          else Ret ok_body
      | None => Ret ok_body
      end in
    match bb_Tailscale body with
    | None => rest
    | Some ts => need_db d (do _ <- request (SPutTailscale ts) ; rest)
    end.

(** ** Settings *)

Definition notify (d : Deps) (kind : string) (k : rprog rresp) : rprog rresp :=
  if has_Callback d then do _ <- request (OnSettingsChanged kind) ; k else k.

(** The three host settings differ in their record only. *)
Definition settings_handler {A : Set} (d : Deps) (r : rq) (kind : string) (get : rcall A)
    (show : A → rpayload) (put : string → rcall (result unit)) : rprog rresp :=
  if negb (has_DB d) then Ret unavailable_db
  else if String.eqb (q_Method r) "GET" then
    do v <- request get ; Ret (RespJson 200 (show v))
  else if String.eqb (q_Method r) "PUT" then
    do _ <- request (put (q_Body r)) ; notify d kind (Ret ok_body)
  else Ret method_not_allowed.

Definition handleSettingsTailscale (d : Deps) (r : rq) : rprog rresp :=
  settings_handler d r "tailscale" SGetTailscale VTailscale (λ b, SPutTailscale (dec_tailscale b)).
Definition handleSettingsDatabase (d : Deps) (r : rq) : rprog rresp :=
  settings_handler d r "database" SGetDatabase VDatabase (λ b, SPutDatabase (dec_database b)).
Definition handleSettingsGlobal (d : Deps) (r : rq) : rprog rresp :=
  settings_handler d r "global" SGetGlobal VGlobal (λ b, SPutGlobal (dec_global b)).

Definition settings_ns : string := "guildnet-system".
Definition settings_cm : string := "guildnet-cluster-settings".

(** The ConfigMap the operator polls. *)
Definition write_configmap (id : string) (cs : Cluster) (k : rprog rresp) : rprog rresp :=
  let data := [("workspace_lb_enabled", if cl_WorkspaceLBEnabled cs then "true" else "false")] in
  do _ <- request (GetNamespace id settings_ns) ;
  do present <- request (CfgMapGet id settings_ns settings_cm) ;
  do _ <- (if (present : bool) then request (CfgMapUpdate id settings_ns settings_cm data)
           else request (CfgMapCreate id settings_ns settings_cm data)) ;
  k.

Definition handleSettingsCluster (d : Deps) (r : rq) : rprog rresp :=
  if negb (has_DB d) then Ret unavailable_db
  else
    let id := TrimPrefix (q_Path r) "/api/settings/cluster/" in
    if String.eqb (TrimSpace id) "" then Ret (RespStatus 404)
    else if negb (has_Registry d) then
      Ret (RespError 503 "registry not available" "no_registry")
    else
      do got <- request (RegGet id) ;
      match got with
      | Err _ => Ret (RespError 404 "cluster not found" "no_cluster")
      | Ok inst =>
          if String.eqb (q_Method r) "GET" then
            do cs <- request (SGetCluster (ClusterStore id) id) ; Ret (RespJson 200 (VCluster cs))
          else if String.eqb (q_Method r) "PUT" then
            let cs := dec_cluster (q_Body r) in
            do _ <- request (SPutCluster (ClusterStore id) id cs) ;
            do _ <- request (SPutCluster (ClusterStore id) id cs) ;
            notify d ("cluster:" +:+ id)
              (if bool_decide (is_Some (ii_Config inst)) then write_configmap id cs (Ret ok_body)
               else Ret ok_body)
          else Ret method_not_allowed
      end.

(** ** Jobs *)

Definition submit (kind : string) (spec : list (string * any))
    (extra : list (string * any)) : rprog rresp :=
  do jobID <- request (JSubmit kind spec) ;
  Ret (RespJson 202 (VObj (extra ++ [("jobId", AStr jobID)]))).

Definition handleJobs (d : Deps) (r : rq) : rprog rresp :=
  if String.eqb (q_Method r) "GET" then
    do l <- request JList ; Ret (RespJson 200 (VJobs l))
  else if String.eqb (q_Method r) "POST" then
    if negb (authOK d r) then Ret unauthorized
    else
      let '(kind, spec) := dec_job (q_Body r) in
      if String.eqb (TrimSpace kind) "" then Ret (RespText 400 "missing kind")
      else submit kind spec []
  else Ret method_not_allowed.

Definition handleJob (d : Deps) (r : rq) : rprog rresp :=
  let id := TrimPrefix (q_Path r) "/api/jobs/" in
  if String.eqb id "" then Ret (RespStatus 404)
  else if String.eqb (q_Method r) "GET" then
    do rec <- request (JGet id) ;
    Ret (match rec with None => RespStatus 404 | Some j => RespJson 200 (VJob j) end)
  else if String.eqb (q_Method r) "POST" then
    if negb (authOK d r) then Ret unauthorized
    else if String.eqb (TrimSpace (q_Query r "action")) "cancel" then
      do _ <- request (JCancel id) ; Ret ok_body
    else Ret (RespStatus 400)
  else Ret method_not_allowed.

Definition handleJobLogs (d : Deps) (r : rq) : rprog rresp :=
  let id := TrimPrefix (q_Path r) "/api/jobs-logs/" in
  if String.eqb id "" || negb (has_DB d) then Ret (RespStatus 404)
  else do b <- request (DbReadLog "joblogs" id) ; Ret (RespRaw "application/x-ndjson" (b2s b)).

(** The WebSocket: subscribe and forward events until either side closes. *)
Definition handleJobStream (r : rq) : rprog rresp :=
  let id := q_Query r "id" in
  if String.eqb (TrimSpace id) "" then Ret (RespText 400 "missing id")
  else do _ <- request (JStream id) ; Ret RespStream.

Definition handleAudit (d : Deps) (r : rq) : rprog rresp :=
  if negb (String.eqb (q_Method r) "GET") then Ret method_not_allowed
  else if negb (has_DB d) then Ret (RespJson 200 VEmpty)
  else do l <- request (DbList "audit") ; Ret (RespJson 200 (VDocs l)).

(** ** Health summary *)

Fixpoint mapP {A B} (f : A → rprog B) (l : list A) : rprog (list B) :=
  match l with
  | [] => Ret []
  | x :: r => do y <- f x ; do ys <- mapP f r ; Ret (y :: ys)
  end.

Definition headscale_status (h : doc) : rprog any :=
  do s <- headscaleHealth (Sprint (h !! "endpoint")) ;
  Ret (AObj [("id", AStr (Sprint (h !! "id"))); ("status", AStr (default "unknown" s))]).

Definition status_obj (id name : string) (rest : list (string * any)) : any :=
  AObj ([("id", AStr id); ("name", AStr name)] ++ rest).

Definition st_ok : list (string * any) := [("status", AStr "ok")].
Definition st_error (code err : string) : list (string * any) :=
  [("status", AStr "error"); ("code", AStr code); ("error", AStr err)].

(** The direct check of a kubeconfig, with one retry through the local proxy
    when the first attempt timed out. *)
Definition direct_health (id kc : string) : rprog (list (string * any)) :=
  match kubeconfigFrom kc with
  | Err e => Ret (st_error "bad_kubeconfig" e)
  | Ok cfg =>
      do cfg <- applyClusterAPIProxy cfg HostStore id ;
      do h <- request (Healthy cfg) ;
      match h with
      | None => Ret st_ok
      | Some err =>
          do healed <- (if isTimeoutErr err then ensureProxyFallbackOnTimeout HostStore id
                        else Ret false) ;
          if (healed : bool) then
            do cfg <- applyClusterAPIProxy cfg HostStore id ;
            do h2 <- request (Healthy cfg) ;
            Ret (match h2 with
                 | None => st_ok ++ [("note", AStr "proxy_fallback_enabled")]
                 | Some err2 => st_error "cluster_unreachable" (err_Text err2)
                 end)
          else Ret (st_error "cluster_unreachable" (err_Text err))
      end
  end.

(** Health through the registry's client, when there is one. *)
Definition registry_health (d : Deps) (id : string) : rprog bool :=
  if negb (has_Registry d) then Ret false
  else
    do got <- request (RegGet id) ;
    match got with
    | Ok {| ii_Config := Some cfg |} =>
        do h <- request (Healthy cfg) ; Ret (bool_decide (h = None))
    | _ => Ret false
    end.

Definition cluster_status (d : Deps) (c : doc) : rprog any :=
  let id := Sprint (c !! "id") in
  let name := Sprint (c !! "name") in
  do kc <- readClusterKubeconfig d id ;
  match kc with
  | None => Ret (status_obj id name [("status", AStr "unknown"); ("code", AStr "no_kubeconfig")])
  | Some kc =>
      do used <- registry_health d id ;
      if (used : bool) then Ret (status_obj id name st_ok)
      else do st <- direct_health id kc ; Ret (status_obj id name st)
  end.

Definition handleHealth (d : Deps) (r : rq) : rprog rresp :=
  if negb (String.eqb (q_Method r) "GET") then Ret method_not_allowed
  else if negb (has_DB d) then
    Ret (RespJson 200 (VObj [("headscale", AArr []); ("clusters", AArr [])]))
  else
    do hs <- request (DbList "headscales") ;
    do arrHS <- mapP headscale_status hs ;
    do cls <- request (DbList "clusters") ;
    do arrCL <- mapP (cluster_status d) cls ;
    Ret (RespJson 200 (VObj [("headscale", AArr arrHS); ("clusters", AArr arrCL)])).

(** ** Headscale instances *)

(** Listing and creating records of a collection ([headscales], [clusters]). *)
Definition handle_collection (d : Deps) (r : rq) (coll prefix kind : string)
    (typ : list (string * any)) : rprog rresp :=
  if String.eqb (q_Method r) "GET" then
    if has_DB d then do l <- request (DbList coll) ; Ret (RespJson 200 (VDocs l))
    else Ret (RespJson 200 (VDocs []))
  else if String.eqb (q_Method r) "POST" then
    if negb (authOK d r) then Ret unauthorized
    else
      let req : doc := list_to_map (dec_object (q_Body r)) in
      let name := TrimSpace (Sprint (req !! "name")) in
      do name <- (if String.eqb name "" then do u <- short_uuid ; Ret (prefix +:+ u)
                  else Ret name) ;
      do id <- request NewUUID ;
      do now <- request Now ;
      let rec := [("id", AStr id); ("name", AStr name)] ++ typ
                 ++ [("state", AStr "creating"); ("createdAt", AStr now)] in
      do _ <- (if has_DB d then request (DbPut coll id rec) else Ret (Ok tt)) ;
      submit kind rec [("id", AStr id)]
  else Ret method_not_allowed.

Definition handleHeadscales (d : Deps) (r : rq) : rprog rresp :=
  handle_collection d r "headscales" "hs-" "headscale.create" [("type", AStr "managed")].

Definition handleClusters (d : Deps) (r : rq) : rprog rresp :=
  handle_collection d r "clusters" "cluster-" "cluster.create" [].

(** The action of a POST: from the query, else from the path after the id,
    which is always empty because the id is the whole rest of the path. *)
Definition action_of (r : rq) (base id : string) : string :=
  let action := TrimSpace (q_Query r "action") in
  if String.eqb action "" then TrimByte "/" (TrimPrefix (q_Path r) (base +:+ id)) else action.

Definition get_record (d : Deps) (coll id : string) (k : doc → rprog rresp) : rprog rresp :=
  if negb (has_DB d) then Ret (RespStatus 404)
  else do got <- request (DbGet coll id) ;
       match got with Err _ => Ret (RespStatus 404) | Ok rec => k rec end.

(** Reading and deleting one record. *)
Definition read_record (d : Deps) (coll id : string) : rprog rresp :=
  get_record d coll id (λ rec, Ret (RespJson 200 (VDoc rec))).

Definition delete_record (d : Deps) (r : rq) (coll id : string) : rprog rresp :=
  if negb (authOK d r) then Ret unauthorized
  else do _ <- (if has_DB d then request (DbDelete coll id) else Ret (Ok tt)) ;
       Ret (RespJson 200 (VObj [("deleted", AStr id)])).

(** Encrypt when possible. *)
Definition seal (d : Deps) (v : string) : rprog (string * bool) :=
  if has_Secrets d then
    do e <- request (Encrypt v) ;
    Ret (match e with Ok c => (c, true) | Err _ => (v, false) end)
  else Ret (v, false).

Definition headscale_endpoint (d : Deps) (r : rq) (id : string) : rprog rresp :=
  let endpoint := dec_field "endpoint" (q_Body r) in
  if String.eqb endpoint "" then Ret (RespText 400 "missing endpoint")
  else
    get_record d "headscales" id (λ rec,
      do now <- request Now ;
      do _ <- request (DbPut "headscales" id
                (map_to_list (<["updatedAt" := AStr now]> (<["endpoint" := AStr endpoint]> rec)))) ;
      Ret ok_body).

Definition headscale_preauth (d : Deps) (r : rq) (id : string) : rprog rresp :=
  let value := dec_field "value" (q_Body r) in
  if String.eqb (TrimSpace value) "" then Ret (RespText 400 "missing value")
  else
    do enc <- seal d value ;
    do cid <- request NewUUID ;
    do now <- request Now ;
    do _ <- (if has_DB d then
               request (DbPut "credentials" ("hs:" +:+ id +:+ ":preauth")
                 [("id", AStr cid); ("scopeType", AStr "headscale"); ("scopeId", AStr id);
                  ("kind", AStr "headscale.preauth"); ("value", AStr enc.1);
                  ("rotatedAt", AStr now)])
             else Ret (Ok tt)) ;
    Ret ok_body.

Definition headscale_health (d : Deps) (id : string) : rprog rresp :=
  get_record d "headscales" id (λ rec,
    match parse_url (Sprint (rec !! "endpoint")) with
    | Some (scheme, host, _) =>
        if String.eqb host "" then Ret (RespJson 200 (VObj [("status", AStr "unknown")]))
        else
          do e <- request (Dial (with_default_port scheme host)) ;
          Ret (RespJson 200 (VObj (match e with
                                   | None => [("status", AStr "ok")]
                                   | Some err => [("status", AStr "unknown"); ("error", AStr err)]
                                   end)))
    | None => Ret (RespJson 200 (VObj [("status", AStr "unknown")]))
    end).

Definition handleHeadscale (d : Deps) (r : rq) : rprog rresp :=
  let base := "/api/deploy/headscale/" in
  let id := TrimPrefix (q_Path r) base in
  if String.eqb id "" then Ret (RespStatus 404)
  else if String.eqb (q_Method r) "GET" then read_record d "headscales" id
  else if String.eqb (q_Method r) "DELETE" then delete_record d r "headscales" id
  else if String.eqb (q_Method r) "POST" then
    if negb (authOK d r) then Ret unauthorized
    else
      let action := action_of r base id in
      if String.eqb action "endpoint" then headscale_endpoint d r id
      else if String.eqb action "preauth-key" then headscale_preauth d r id
      else if String.eqb action "health" then headscale_health d id
      else submit ("headscale." +:+ action) [("id", AStr id)] []
  else Ret method_not_allowed.

(** ** Clusters *)

(** Mark the record ready, if there is one. *)
Definition mark_ready (id : string) (k : rprog rresp) : rprog rresp :=
  do got <- request (DbGet "clusters" id) ;
  match got with
  | Err _ => k
  | Ok rec =>
      do now <- request Now ;
      do _ <- request (DbPut "clusters" id
                (map_to_list (<["updatedAt" := AStr now]> (<["state" := AStr "ready"]> rec)))) ;
      k
  end.

(** The credential record of a kubeconfig. *)
Definition kubeconfig_cred (cid id value : string) (encrypted : bool) (now : string)
    : list (string * any) :=
  [("id", AStr cid); ("scopeType", AStr "cluster"); ("scopeId", AStr id);
   ("kind", AStr "cluster.kubeconfig"); ("value", AStr value);
   ("encrypted", ABool encrypted); ("rotatedAt", AStr now)].

Definition attach_kubeconfig (d : Deps) (r : rq) (id : string) : rprog rresp :=
  let kc := dec_field "kubeconfig" (q_Body r) in
  if String.eqb (TrimSpace kc) "" then
    Ret (RespError 400 "missing kubeconfig" "missing_kubeconfig")
  else
    match kubeconfigFrom kc with
    | Err _ => Ret (RespError 400 "invalid kubeconfig" "bad_kubeconfig")
    | Ok cfg =>
        do enc <- seal d kc ;
        do cid <- request NewUUID ;
        do now <- request Now ;
        do _ <- (if has_DB d then
                   request (DbPut "credentials" (kubeconfig_key id)
                     (kubeconfig_cred cid id enc.1 enc.2 now))
                 else Ret (Ok tt)) ;
        do h <- request (Healthy cfg) ;
        match h with
        | None => need_db d (mark_ready id (Ret ok_body))
        | Some _ => Ret ok_body
        end
    end.

(** A field of the join configuration that is left out when it is zero. *)
Definition opt_str (k v : string) : list (string * any) :=
  if String.eqb v "" then [] else [(k, AStr v)].
Definition opt_true (k : string) (b : bool) : list (string * any) :=
  if b then [(k, ABool true)] else [].

Definition join_cluster (kc : option string) (cs : Cluster) : list (string * any) :=
  [("name", AStr (cl_Name cs)); ("kubeconfig", AStr (default "" kc)); ("notes", AStr "")]
  ++ opt_str "namespace" (cl_Namespace cs) ++ opt_str "api_proxy_url" (cl_APIProxyURL cs)
  ++ opt_true "api_proxy_force_http" (cl_APIProxyForceHTTP cs)
  ++ opt_true "disable_api_proxy" (cl_DisableAPIProxy cs)
  ++ opt_true "prefer_pod_proxy" (cl_PreferPodProxy cs)
  ++ opt_true "use_port_forward" (cl_UsePortForward cs)
  ++ opt_str "ingress_domain" (cl_IngressDomain cs)
  ++ opt_str "ingress_class_name" (cl_IngressClassName cs)
  ++ opt_str "workspace_tls_secret" (cl_WorkspaceTLSSecret cs)
  ++ opt_str "cert_manager_issuer" (cl_CertManagerIssuer cs).

(** The client key of the cluster replaces the host's preauth key. *)
Definition join_preauth (d : Deps) (id : string) (ts : Tailscale) : rprog string :=
  if negb (has_DB d) then Ret (ts_PreauthKey ts)
  else
    do got <- request (DbGet "credentials" ("cl:" +:+ id +:+ ":ts_client_auth")) ;
    Ret (match got with
         | Ok cred => match cred !! "value" with
                      | Some (AStr v) => if String.eqb (TrimSpace v) "" then ts_PreauthKey ts else v
                      | _ => ts_PreauthKey ts
                      end
         | Err _ => ts_PreauthKey ts
         end).

Definition join_base_url (r : rq) : string :=
  let scheme := if q_TLS r || EqualFold (q_FwdProto r) "https" then "https" else "http" in
  let host := if String.eqb (q_Host r) "" then "127.0.0.1:8090" else q_Host r in
  scheme +:+ "://" +:+ host.

(** The number 2. *)
Definition float_two : SpecFloat.spec_float := SpecFloat.S754_finite false 4503599627370496 (-51).

Definition join_config (d : Deps) (r : rq) (id : string) : rprog rresp :=
  do now <- request Now ;
  do cert <- request ReadCert ;
  let ca := match cert with Ok pem => [("ca_pem", AStr pem)] | Err _ => [] end in
  do kc <- readClusterKubeconfig d id ;
  need_db d (
    do cs <- request (SGetCluster HostStore id) ;
    do ts <- request SGetTailscale ;
    do key <- join_preauth d id ts ;
    Ret (RespJson 200 (VObj
      [("version", ANum float_two); ("created_at", AStr now);
       ("creator", AObj [("host", AStr (q_Host r)); ("user", AStr "")]);
       ("ui", AObj (("vite_api_base", AStr (join_base_url r)) :: ca));
       ("hostapp", AObj (("url", AStr (join_base_url r)) :: ca));
       ("cluster", AObj (join_cluster kc cs));
       ("tailscale", AObj [("login_server", AStr (ts_LoginServer ts)); ("preauth_key", AStr key);
                           ("hostname", AStr (ts_Hostname ts))])]))).

(** The health action retries through the proxy on every failure, not only on
    timeouts. *)
Definition cluster_health (d : Deps) (id : string) : rprog rresp :=
  let answer l := Ret (RespJson 200 (VObj l)) in
  do kc <- readClusterKubeconfig d id ;
  match kc with
  | None => answer [("status", AStr "unknown"); ("code", AStr "no_kubeconfig")]
  | Some kc =>
      match kubeconfigFrom kc with
      | Err e => answer [("status", AStr "unknown"); ("code", AStr "bad_kubeconfig");
                         ("error", AStr e)]
      | Ok cfg =>
          do cfg <- applyClusterAPIProxy cfg HostStore id ;
          do h <- request (Healthy cfg) ;
          match h with
          | None => answer st_ok
          | Some _ =>
              do healed <- ensureProxyFallbackOnTimeout HostStore id ;
              if (healed : bool) then
                do cfg <- applyClusterAPIProxy cfg HostStore id ;
                do h2 <- request (Healthy cfg) ;
                match h2 with
                | None => answer (st_ok ++ [("note", AStr "proxy_fallback_enabled")])
                | Some e2 => answer (st_error "cluster_unreachable" (err_Text e2))
                end
              else answer [("status", AStr "error"); ("code", AStr "cluster_unreachable")]
          end
      end
  end.

Definition cluster_kubeconfig (d : Deps) (id : string) : rprog rresp :=
  do kc <- readClusterKubeconfig d id ;
  Ret (match kc with None => RespStatus 404 | Some kc => RespRaw "application/x-yaml" kc end).

Definition handleClusterRecord (d : Deps) (r : rq) : rprog rresp :=
  let base := "/api/deploy/clusters/" in
  let id := TrimPrefix (q_Path r) base in
  if String.eqb id "" then Ret (RespStatus 404)
  else if String.eqb (q_Method r) "GET" then read_record d "clusters" id
  else if String.eqb (q_Method r) "DELETE" then delete_record d r "clusters" id
  else if String.eqb (q_Method r) "POST" then
    if negb (authOK d r) then Ret unauthorized
    else
      let action := action_of r base id in
      if String.eqb action "attach-kubeconfig" then attach_kubeconfig d r id
      else if String.eqb action "join-config" then join_config d r id
      else if String.eqb action "health" then cluster_health d id
      else if String.eqb action "kubeconfig" then cluster_kubeconfig d id
      else submit ("cluster." +:+ action) [("id", AStr id)] []
  else Ret method_not_allowed.

Definition handleUIConfig (r : rq) : rprog rresp :=
  Ret (if String.eqb (q_Method r) "GET" then RespJson 200 (VObj []) else method_not_allowed).

End handlers.

(** ** The outcome of a bootstrap *)

Section bootstrap.
Context `{RE : RouterEnv}.

(** A run that wrote the two records of a cluster and checked it. *)
Definition imported (id name kc : string) : list (gevent rcall) → Prop :=
  λ t, ∃ a1 a2, t = [Ev (DbPut "clusters" id
                           [("id", AStr id); ("name", AStr name); ("state", AStr "imported")]) a1;
                     Ev (DbPut "credentials" (kubeconfig_key id) [("value", AStr kc)]) a2].

(** A failed check was followed by the removal of both records. *)
Definition removed (id : string) : list (gevent rcall) → Prop :=
  λ t, ∃ a1 a2, t = [Ev (DbDelete "clusters" id) a1;
                     Ev (DbDelete "credentials" (kubeconfig_key id)) a2].

Definition is_store_write (e : gevent rcall) : bool :=
  match e with
  | Ev (DbPut _ _ _) _ | Ev (DbDelete _ _) _ | Ev (SPutCluster _ _ _) _
  | Ev (SPutTailscale _) _ => true
  | _ => false
  end.

Lemma rollback_runs id msg code t res :
  runs (rollback id msg code) t res → removed id t ∧ res = RespError 422 msg code.
Proof.
  intros (a1 & t1 & -> & a2 & t2 & -> & -> & ->). split; [|done]. by exists a1, a2.
Qed.

(** Every run of the checks fails with both records removed, or continues. *)
Lemma prewarm_runs id k t res :
  runs (prewarm id k) t res →
  ∃ t1 t2, t = t1 ++ t2 ∧ Forall (λ e, is_store_write e = false) t1
    ∧ ((removed id t2 ∧ ∃ msg code, res = RespError 422 msg code)
       ∨ (∃ inst, Ev (RegGet id) (Ok inst) ∈ t1 ∧ Ev (ListNamespaces id) (Ok tt) ∈ t1
                  ∧ Ev (RegEnsureRDB id) (Ok tt) ∈ t1 ∧ ii_K inst = true) ∧ runs k t2 res).
Proof.
  intros ([inst|e] & t1 & -> & Hr)%runs_req_bind; cbv beta iota in Hr; last first.
  { apply rollback_runs in Hr as [? ->]. exists [Ev (RegGet id) (Err e)], t1.
    split; [done|]. split; [by constructor|]. left. eauto. }
  destruct (negb _) eqn:En.
  { apply rollback_runs in Hr as [? ->]. exists [Ev (RegGet id) (Ok inst)], t1.
    split; [done|]. split; [by constructor|]. left. eauto. }
  bool_props. apply runs_req_bind in Hr as ([[]|e] & t2 & -> & Hr); last first.
  { apply rollback_runs in Hr as [? ->].
    exists [Ev (RegGet id) (Ok inst); Ev (ListNamespaces id) (Err e)], t2.
    split; [done|]. split; [by repeat constructor|]. left. eauto. }
  apply runs_req_bind in Hr as ([[]|e] & t3 & -> & Hr); last first.
  { apply rollback_runs in Hr as [? ->].
    exists [Ev (RegGet id) (Ok inst); Ev (ListNamespaces id) (Ok tt); Ev (RegEnsureRDB id) (Err e)], t3.
    split; [done|]. split; [by repeat constructor|]. left. eauto. }
  exists [Ev (RegGet id) (Ok inst); Ev (ListNamespaces id) (Ok tt); Ev (RegEnsureRDB id) (Ok tt)], t3.
  split; [done|]. split; [by repeat constructor|]. right. split; [|done].
  exists inst. rewrite !list_elem_of_In. simpl. tauto.
Qed.

End bootstrap.

(** The outcome of importing a cluster. *)
Definition import_outcome `{RE : RouterEnv} (d : Deps) (kc : string) (cs : Cluster)
    (t : list (gevent rcall)) (res : rresp) : Prop :=
  ∃ id name t0 t1 t2, t = Ev NewUUID id :: t0 ++ t1 ++ t2 ∧ imported id name kc t0
    ∧ Forall (λ e, is_store_write e = false) t1
    ∧ ((res = RespJson 200 (VObj [("clusterId", AStr id)])
        ∧ (∃ a, t2 = [Ev (SPutCluster HostStore id (bootstrap_settings cs)) a])
        ∧ (has_Registry d = true →
           Ev (ListNamespaces id) (Ok tt) ∈ t1 ∧ Ev (RegEnsureRDB id) (Ok tt) ∈ t1))
       ∨ (has_Registry d = true ∧ (∃ msg code, res = RespError 422 msg code) ∧ removed id t2)).

Lemma bootstrap_cluster_runs `{RE : RouterEnv} d kc cs t res :
  runs (bootstrap_cluster d kc cs) t res → import_outcome d kc cs t res.
Proof.
  intros (id & t0 & -> & Hr)%runs_req_bind. cbv beta iota zeta in Hr.
  apply runs_req_bind in Hr as (a1 & t1 & -> & Hr).
  apply runs_req_bind in Hr as (a2 & t2 & -> & Hr).
  set (name := if String.eqb _ _ then id else _) in *.
  exists id, name,
    [Ev (DbPut "clusters" id
           [("id", AStr id); ("name", AStr name); ("state", AStr "imported")]) a1;
     Ev (DbPut "credentials" (kubeconfig_key id) [("value", AStr kc)]) a2].
  destruct (has_Registry d) eqn:Ereg.
  - apply prewarm_runs in Hr as (t3 & t4 & -> & Hw & [[Hrm Hres]|[(inst & ? & ? & ? & ?) Hr]]).
    + exists t3, t4. split; [done|]. split; [by exists a1, a2|]. eauto.
    + destruct Hr as (a & t5 & -> & -> & ->).
      exists t3, [Ev (SPutCluster HostStore id (bootstrap_settings cs)) a].
      split; [done|]. split; [by exists a1, a2|]. split; [done|]. left. eauto 10.
  - destruct Hr as (a & t5 & -> & -> & ->).
    exists [], [Ev (SPutCluster HostStore id (bootstrap_settings cs)) a].
    split; [done|]. split; [by exists a1, a2|]. split; [done|]. left.
    split; [done|]. split; [by exists a|done].
Qed.


(** ** An environment and a server to run the handlers with *)

(** Manager answers of an unreachable database. *)
Definition no_manager (X : Set) (c : mcall X) : X :=
  match c in mcall X return X with
  | MConnect => false
  | MListDatabases _ => Err "down" | MCreateDatabase _ _ _ _ => Err "down"
  | MGetDatabase _ _ => Err "down" | MDeleteDatabase _ _ => Err "down"
  | MGetTables _ _ => Err "down" | MCreateTable _ _ _ => Err "down"
  | MUpdateTableSchema _ _ _ _ _ => Err "down" | MQueryRows _ _ _ _ _ _ _ => Err "down"
  | MInsertRows _ _ _ _ => Err "down" | MUpdateRow _ _ _ _ _ => Err "down"
  | MDeleteRow _ _ _ _ => Err "down" | MListAudit _ _ _ => Err "down"
  | MSubscribeTable _ _ _ => Err "down" | MPing => Err "down"
  end.

Definition demo_cfg : kconfig := {| cfg_Host := "https://10.0.0.1:6443"; cfg_TLS := true |}.
Definition demo_inst : inst_info :=
  {| ii_Config := Some demo_cfg; ii_K := true; ii_Dyn := true; ii_TS := false; ii_PF := true |}.

Definition host_db : Type := gmap (string * string) (list (string * any)).

(** The store is a map, the clusters are reachable, encryption is a prefix,
    everything else is empty or absent. *)
Definition mem_router : server rcall host_db := λ X s c,
  match c in rcall X return host_db * X with
  | DbGet c k => (s, match s !! (c, k) with
                     | Some v => Ok (list_to_map v) | None => Err "not found" end)
  | DbPut c k v => (<[(c, k) := v]> s, Ok tt)
  | DbDelete c k => (delete (c, k) s, Ok tt)
  | DbList _ => (s, []) | DbReadLog _ _ => (s, [])
  | DbListPublished => (s, Ok []) | DbSavePublished _ _ => (s, Ok tt)
  | DbDeletePublished _ => (s, Ok tt)
  | SGetTailscale => (s, empty_Tailscale) | SPutTailscale _ => (s, Ok tt)
  | SGetDatabase => (s, empty_Database) | SPutDatabase _ => (s, Ok tt)
  | SGetGlobal => (s, empty_Global) | SPutGlobal _ => (s, Ok tt)
  | SGetCluster _ _ => (s, empty_Cluster) | SPutCluster _ _ _ => (s, Ok tt)
  | OnSettingsChanged _ => (s, tt)
  | JSubmit _ _ => (s, "job-1") | JList => (s, []) | JGet _ => (s, None)
  | JCancel _ => (s, tt) | JStream _ => (s, tt)
  | RegGet _ => (s, Ok demo_inst) | RegRDBPresent _ => (s, Ok true)
  | RegEnsureRDB _ => (s, Ok tt)
  | ListNamespaces _ => (s, Ok tt) | Healthy _ => (s, None)
  | NewClient _ => (s, Ok tt) | NewDynamic _ => (s, Ok tt)
  | GetNamespace _ _ => (s, tt) | CfgMapGet _ _ _ => (s, false)
  | CfgMapUpdate _ _ _ _ => (s, tt) | CfgMapCreate _ _ _ _ => (s, tt)
  | WsList _ _ => (s, Ok []) | WsGet _ _ _ => (s, Err "not found")
  | WsCreate _ _ _ => (s, Ok tt) | WsDelete _ _ _ => (s, Ok tt)
  | SvcGet _ _ _ => (s, Err "not found") | EndpointsReady _ _ _ => (s, true)
  | PodsOf _ _ _ => (s, Ok [{| pod_Name := "p"; pod_Container := "app"; pod_Ready := true |}])
  | PodLog _ _ _ _ => (s, Ok "hello") | PodLogStream _ _ _ _ => (s, Ok tt)
  | TransportFor _ => (s, Ok tt) | PFEnsure _ _ _ _ => (s, Ok 40000)
  | Publish _ _ _ => (s, tt) | Unpublish _ => (s, false)
  | Dial _ => (s, None) | ReadCert => (s, Err "no file")
  | Encrypt v => (s, Ok ("enc:" +:+ v))
  | NewUUID => (s, "0b1c2d3e-0000") | Now => (s, "2025-01-01T00:00:00Z")
  | Mgr c => (s, no_manager _ c)
  end.

(** Kubeconfigs are the texts that start with [apiVersion]; bodies are taken as
    a kubeconfig. *)
Definition demo_env : RouterEnv :=
  {| sprint_other := λ _, "0";
     decrypt := λ s, if HasPrefix s "enc:" then Ok (TrimPrefix s "enc:") else Err "bad";
     kubeconfigFrom := λ s, if HasPrefix s "apiVersion" then Ok demo_cfg else Err "bad";
     parse_url := λ s, Some ("https", "10.0.0.1:6443", "");
     url_force_http := λ s, Some s; sscanf_d := Atoi; any_int64 := λ _, None;
     any_float64 := λ _, None;
     dec_bootstrap := λ b, {| bb_Tailscale := None; bb_Cluster := Some (b, empty_Cluster) |};
     dec_tailscale := λ _, empty_Tailscale; dec_database := λ _, empty_Database;
     dec_global := λ _, empty_Global; dec_cluster := λ _, empty_Cluster;
     dec_job := λ _, ("", []); dec_object := λ _, []; dec_field := λ _ b, b;
     kube_proxy_addr := "" |}.

Definition demo_deps : Deps :=
  {| has_DB := true; has_Secrets := true; has_Registry := true; has_Callback := false;
     Token := "s3cret" |}.

Definition demo_rq (method path : string) : rq :=
  {| q_Method := method; q_Path := path; q_RemoteAddr := "192.168.1.5:50000";
     q_Authorization := ""; q_APIToken := ""; q_Principal := ""; q_ContentType := "";
     q_FwdProto := ""; q_Host := ""; q_TLS := false; q_Query := λ _, "";
     q_Body := "apiVersion: v1" |}.


(** ** Kubeconfigs survive storage *)

Section kubeconfigs.
Context `{UC : UnicodeCase} `{RE : RouterEnv}.

(** [seal] returns the cipher text, or the text itself when there is no
    working encryption. *)
Lemma seal_runs d v t c e :
  runs (seal d v) t (c, e) →
  (e = true ∧ has_Secrets d = true ∧ t = [Ev (Encrypt v) (Ok c)])
  ∨ (e = false ∧ c = v ∧ (has_Secrets d = false ∨ ∃ err, t = [Ev (Encrypt v) (Err err)])).
Proof.
  unfold seal. destruct (has_Secrets d).
  - intros ([c'|err] & t' & -> & -> & [= -> ->])%runs_req_bind; [by left|]. right. eauto.
  - intros [-> [= -> ->]]. right. auto.
Qed.

(** A stored credential of a valid kubeconfig reads back, sealed or not. *)
Lemma kubeconfig_of_cred_stored hasSecrets (cred : doc) kc c e :
  cred !! "value" = Some (AStr c) → cred !! "encrypted" = Some (ABool e) →
  valid_kubeconfig kc = true →
  (if e then hasSecrets = true ∧ decrypt c = Ok kc
   else c = kc ∧ (hasSecrets = true → ∀ v, decrypt kc = Ok v → valid_kubeconfig v = true → v = kc)) →
  kubeconfig_of_cred hasSecrets cred = Some kc.
Proof.
  intros Hv He Hk. unfold kubeconfig_of_cred. rewrite Hv He. simpl. destruct e.
  - intros [-> ->]. by rewrite Hk.
  - intros [-> Hd]. rewrite Hk. destruct hasSecrets; [|done].
    destruct (decrypt kc) as [v|]; [|done]. destruct (valid_kubeconfig v) eqn:Ev; [|done].
    f_equal. by apply Hd.
Qed.

(** An attached kubeconfig can be read back.  Every run of the
    attach-kubeconfig action that answers ok stored one credential under the
    cluster's key; if the text was encrypted, only the cipher text was stored;
    and any document with the stored fields is read by readClusterKubeconfig as
    the same kubeconfig, provided decryption inverts encryption and no valid
    kubeconfig hides in an unencrypted one. *)
Theorem attach_kubeconfig_readable d r id t :
  let kc := dec_field "kubeconfig" (q_Body r) in
  has_DB d = true →
  runs (attach_kubeconfig d r id) t ok_body →
  ∃ cid c e now a,
    Ev (DbPut "credentials" (kubeconfig_key id) (kubeconfig_cred cid id c e now)) a ∈ t
    ∧ (e = true → Ev (Encrypt kc) (Ok c) ∈ t) ∧ (has_Secrets d = false → e = false)
    ∧ ∀ cred : doc,
        (∀ k, cred !! k = assoc k (kubeconfig_cred cid id c e now)) →
        (∀ c, Ev (Encrypt kc) (Ok c) ∈ t → decrypt c = Ok kc) →
        (has_Secrets d = true → ∀ v, decrypt kc = Ok v → valid_kubeconfig v = true → v = kc) →
        kubeconfig_of_cred (has_Secrets d) cred = Some kc.
Proof.
  intros kc Hdb. unfold attach_kubeconfig. fold kc. rewrite Hdb.
  destruct (String.eqb (TrimSpace kc) ""); [by intros [_ ?]|].
  destruct (kubeconfigFrom kc) as [cfg|] eqn:Ekc; [|by intros [_ ?]].
  intros (t1 & t2 & [c e] & -> & Hs & Hr)%runs_bind.
  apply runs_req_bind in Hr as (cid & t3 & -> & Hr).
  apply runs_req_bind in Hr as (now & t4 & -> & Hr).
  apply runs_req_bind in Hr as (a & t5 & -> & Hr). clear Hr.
  assert (valid_kubeconfig kc = true) as Hk by (unfold valid_kubeconfig; by rewrite Ekc).
  exists cid, c, e, now, a. split.
  { rewrite list_elem_of_In. apply List.in_or_app. right. simpl. auto. }
  apply seal_runs in Hs as [(-> & Hsec & ->)|(-> & -> & Hsec)].
  - split; [intros _; left|]. split; [by rewrite Hsec|]. intros cred Hc Hd Hp.
    apply (kubeconfig_of_cred_stored _ _ _ c true); rewrite ?Hc //.
    split; [done|]. apply Hd. left.
  - split; [done|]. split; [done|]. intros cred Hc Hd Hp.
    by apply (kubeconfig_of_cred_stored _ _ _ kc false); rewrite ?Hc.
Qed.

End kubeconfigs.

Lemma attach_kubeconfig_readable_witness :
  let p := @attach_kubeconfig demo_env demo_deps (demo_rq "POST" "/api/deploy/clusters/c1") "c1" in
  let t := exec_trace mem_router p ∅ in
  (exec mem_router p ∅).2 = ok_body
  ∧ (exec mem_router (do _ <- p ; @readClusterKubeconfig demo_env demo_deps "c1") ∅).2
    = Some "apiVersion: v1"
  ∧ ∃ cid c e now a,
      Ev (DbPut "credentials" (kubeconfig_key "c1") (kubeconfig_cred cid "c1" c e now)) a ∈ t.
Proof.
  intros p t. do 2 (split; [vm_compute; reflexivity|]).
  destruct (@attach_kubeconfig_readable demo_env demo_deps (demo_rq "POST" "/api/deploy/clusters/c1")
              "c1" t eq_refl (exec_runs mem_router p ∅)) as (cid & c & e & now & a & H & _).
  by exists cid, c, e, now, a.
Defined.

(** ** The proxy fallback *)

Lemma TrimSpace_cons c s :
  (bz c <? 0x80) = true → IsSpace (bz c) = false → s ≠ "" → TrimSpace s = s →
  TrimSpace (String c s) = String c s.
Proof.
  intros Hc Hsp Hne Hs. pose proof (segs_TrimSpace s) as Hseg. rewrite Hs in Hseg.
  unfold TrimSpace. rewrite segs_cons_ascii //. unfold trim_by. simpl. rewrite Hsp.
  set (l := segs (s2b s)) in *. set (p := λ rb : Z * bytes, IsSpace rb.1) in *.
  assert (drop_while p (reverse l) = reverse l) as Hd
    by (rewrite Hseg; apply trim_by_last).
  assert (l ≠ []) as Hl.
  { intros E. apply Hne. pose proof (segs_join (s2b s)) as Hj. fold l in Hj. rewrite E in Hj.
    rewrite -(b2s_s2b s) -Hj. done. }
  assert (drop_while p (reverse ((bz c, [c]) :: l)) = reverse ((bz c, [c]) :: l)) as ->.
  { rewrite reverse_cons. pose proof (drop_while_head p (reverse l)) as Hh. rewrite Hd in Hh.
    destruct (reverse l) as [|x rl] eqn:Er.
    - apply (f_equal reverse) in Er. by rewrite reverse_involutive in Er.
    - simpl. by rewrite Hh. }
  rewrite reverse_involutive. simpl. unfold l. rewrite segs_join. by rewrite b2s_s2b.
Qed.

Lemma TrimSpace_scheme v : v ≠ "" → TrimSpace v = v → TrimSpace ("http://" +:+ v) = "http://" +:+ v.
Proof. intros Hne Hv. simpl. by do 7 (apply TrimSpace_cons; [done..|]). Qed.

Section proxy.
Context `{UC : UnicodeCase} `{RE : RouterEnv}.

Lemma proxy_url_trimmed v :
  v ≠ "" → TrimSpace v = v → TrimSpace (proxy_url v) = proxy_url v ∧ proxy_url v ≠ "".
Proof.
  intros Hne Hv. unfold proxy_url. destruct (_ || _); [done|].
  split; [by apply TrimSpace_scheme|done].
Qed.

(** The automatic fallback to a local proxy.  When it is enabled for a
    cluster, the new settings keep everything but the proxy address and the
    http switch, it is not enabled a second time, and requests go to the address
    of KUBE_PROXY_ADDR.  They went there before as well: the settings that let
    the fallback be enabled already sent every request to that address, so the
    retry differs from the failed attempt in the forced scheme only. *)
Theorem proxy_fallback_once cs cs' :
  proxy_fallback cs = Some cs' →
  proxy_fallback cs' = None
  ∧ cl_DisableAPIProxy cs' = false ∧ cl_APIProxyForceHTTP cs' = true
  ∧ proxy_host cs' = proxy_url (TrimSpace kube_proxy_addr)
  ∧ proxy_host cs = proxy_host cs'
  ∧ ∀ cfg h, cl_APIProxyForceHTTP cs = false → url_force_http (proxy_host cs) = Some h →
             cfg_Host (apply_proxy cs cfg) = proxy_host cs
             ∧ cfg_Host (apply_proxy cs' (apply_proxy cs cfg)) = h.
Proof.
  unfold proxy_fallback. destruct (String.eqb_spec (TrimSpace kube_proxy_addr) "") as [|Hv]; [done|].
  destruct (cl_DisableAPIProxy cs) eqn:Ed; [done|].
  destruct (String.eqb_spec (TrimSpace (cl_APIProxyURL cs)) "") as [Eu|]; [|done].
  intros [= <-]. destruct (proxy_url_trimmed _ Hv (TrimSpace_idemp _)) as [Ht Hn].
  assert (proxy_host (with_proxy cs (proxy_url (TrimSpace kube_proxy_addr)))
          = proxy_url (TrimSpace kube_proxy_addr)) as Hh'.
  { unfold proxy_host. cbn [with_proxy cl_APIProxyURL].
    by rewrite Ht (proj2 (String.eqb_neq _ _) Hn). }
  assert (proxy_host cs = proxy_url (TrimSpace kube_proxy_addr)) as Hh.
  { unfold proxy_host. rewrite Eu Ed. cbn [String.eqb andb negb].
    by rewrite (proj2 (String.eqb_neq _ _) Hv). }
  cbn [with_proxy cl_APIProxyURL cl_DisableAPIProxy cl_APIProxyForceHTTP].
  split; [by rewrite Ed Ht (proj2 (String.eqb_neq _ _) Hn)|]. split; [done|]. split; [done|].
  split; [done|]. split; [by rewrite Hh|]. intros cfg h Hf Hu.
  unfold apply_proxy. rewrite Hh' Hf Hh (proj2 (String.eqb_neq _ _) Hn).
  cbn [cfg_Host with_proxy cl_APIProxyForceHTTP]. rewrite Hh in Hu. by rewrite Hu.
Qed.

End proxy.

(** An environment with a local proxy. *)
Definition proxy_env : RouterEnv :=
  {| sprint_other := λ _, "0"; decrypt := λ _, Err "bad"; kubeconfigFrom := λ _, Ok demo_cfg;
     parse_url := λ s, None; url_force_http := λ s, Some s; sscanf_d := Atoi;
     any_int64 := λ _, None; any_float64 := λ _, None;
     dec_bootstrap := λ b, {| bb_Tailscale := None; bb_Cluster := None |};
     dec_tailscale := λ _, empty_Tailscale; dec_database := λ _, empty_Database;
     dec_global := λ _, empty_Global; dec_cluster := λ _, empty_Cluster;
     dec_job := λ _, ("", []); dec_object := λ _, []; dec_field := λ _ b, b;
     kube_proxy_addr := " 127.0.0.1:8001" |}.

Lemma proxy_fallback_once_witness :
  ∃ cs', @proxy_fallback proxy_env empty_Cluster = Some cs'
         ∧ @proxy_host proxy_env cs' = "http://127.0.0.1:8001"
         ∧ @proxy_fallback proxy_env cs' = None.
Proof.
  eexists. split; [reflexivity|]. split; [vm_compute; reflexivity|].
  apply (@proxy_fallback_once ascii_case proxy_env empty_Cluster). reflexivity.
Defined.
