(* ===== verification/RouterCluster.v ===== *)
(** * The routes of one cluster (internal/api/router.go, cluster_status.go)

    Everything below /api/cluster/:id and /sse/cluster/:id: finding a client
    for the cluster, the service proxy, workspaces and their logs, published
    services, and the database API of the cluster. *)

From S2P Require Import Prelude GoStrings NetAddr Values LocalDb Settings Jobs Proxy Prog.
From S2P Require Import Mux Rbac DbManager DbHandlers Router.

Local Open Scope Z_scope.

(** ** url.PathEscape *)

Definition hex_digit (z : Z) : ascii := zb (if z <? 10 then 48 + z else 55 + z).

(** The bytes a path segment keeps: unreserved characters and [$&+=:@]. *)
Definition segment_char (c : ascii) : bool :=
  let z := bz c in
  in_range 48 57 z || in_range 65 90 z || in_range 97 122 z
  || existsb (Ascii.eqb c) ["-"; "_"; "."; "~"; "$"; "&"; "+"; "="; ":"; "@"]%char.

Fixpoint PathEscape (s : string) : string :=
  match s with
  | EmptyString => EmptyString
  | String c r =>
      if segment_char c then String c (PathEscape r)
      else String "%" (String (hex_digit (bz c / 16)) (String (hex_digit (bz c mod 16))
             (PathEscape r)))
  end.

Section cluster.
Context `{UC : UnicodeCase} `{RE : RouterEnv} `{BD : Bodies}.

(** ** Status of a cluster (cluster_status.go) *)

Definition status_no_kubeconfig (id : string) (present : bool) : ClusterStatus :=
  {| cst_ClusterID := id; cst_KubeconfigPresent := present; cst_KubeconfigValid := false;
     cst_K8sReachable := false; cst_K8sError := ""; cst_PFAvailable := false;
     cst_TSAvailable := false; cst_RecommendedAction := "attach_kubeconfig" |}.

(** The outcome of the reachability check. *)
Definition status_reach (id : string) (pf ts : bool) (h : option go_error) : ClusterStatus :=
  {| cst_ClusterID := id; cst_KubeconfigPresent := true; cst_KubeconfigValid := true;
     cst_K8sReachable := bool_decide (h = None);
     cst_K8sError := match h with None => "" | Some e => err_Text e end;
     cst_PFAvailable := pf; cst_TSAvailable := ts;
     cst_RecommendedAction := match h with None => "" | Some _ => "check_cluster_network" end |}.

Definition clusterLocalStatus (d : Deps) (id : string) : rprog ClusterStatus :=
  if negb (has_DB d) then Ret (status_no_kubeconfig id false)
  else
    do kc <- readClusterKubeconfig d id ;
    match kc with
    | None => Ret (status_no_kubeconfig id false)
    | Some kc =>
        if String.eqb kc "" then Ret (status_no_kubeconfig id false)
        else
          match kubeconfigFrom kc with
          | Err _ => Ret (status_no_kubeconfig id true)
          | Ok cfg =>
              let direct := do h <- request (Healthy cfg) ; Ret (status_reach id false false h) in
              if negb (has_Registry d) then direct
              else
                do got <- request (RegGet id) ;
                match got with
                | Err _ => direct
                | Ok inst =>
                    do h <- request (Healthy (default cfg (ii_Config inst))) ;
                    Ret (status_reach id (ii_PF inst) (ii_TS inst) h)
                end
          end
    end.

(** ** Clients of a cluster *)

(** What the later handlers use: the configuration (nil when the clients were
    built from the host's copy of the kubeconfig), the settings store, and the
    registry's instance. *)
Record clients : Type := {
  c_cfg : option kconfig; c_store : store_id; c_inst : option inst_info
}.

Inductive resolved : Type :=
  | Clients (c : clients)
  | NoClients
  | Stopped (r : rresp).

(** Writing through a nil configuration panics. *)
Definition apply_proxy_opt (cs : Cluster) (cfg : option kconfig) : option (option kconfig) :=
  match cfg with
  | Some c => Some (Some (apply_proxy cs c))
  | None => if negb (String.eqb (proxy_host cs) "") || cl_APIProxyForceHTTP cs then None
            else Some None
  end.

(** A cached client, or a new one from the configuration. *)
Definition client_or_new (cached : bool) (cfg : option kconfig)
    (mk : kconfig → rcall (result unit)) : rprog (option (result unit)) :=
  if cached then Ret (Some (Ok tt))
  else match cfg with
       | None => Ret None
       | Some c => do r <- request (mk c) ; Ret (Some r)
       end.

Definition registry_clients (id : string) (inst : inst_info) : rprog resolved :=
  let st := ClusterStore id in
  do cs <- request (SGetCluster st id) ;
  match apply_proxy_opt cs (ii_Config inst) with
  | None => Ret (Stopped RespPanic)
  | Some cfg =>
      do cli <- client_or_new (bool_decide (is_Some (ii_Config inst)) && ii_K inst) cfg NewClient ;
      match cli with
      | None => Ret (Stopped RespPanic)
      | Some (Err _) => Ret (Stopped (RespError 500 "k8s client error" "k8s_client"))
      | Some (Ok _) =>
          do dyn <- client_or_new (ii_Dyn inst) cfg NewDynamic ;
          match dyn with
          | None => Ret (Stopped RespPanic)
          | Some (Err _) => Ret (Stopped (RespError 500 "dynamic client error" "dyn_client"))
          | Some (Ok _) => Ret (Clients {| c_cfg := cfg; c_store := st; c_inst := Some inst |})
          end
      end
  end.

(** Where a local kubectl proxy would listen. *)
Definition local_proxy_addr : string :=
  let v := TrimSpace kube_proxy_addr in
  if String.eqb v "" then "127.0.0.1:8001"
  else if HasPrefix v "http://" || HasPrefix v "https://" then
    match parse_url v with Some (_, host, _) => host | None => v end
  else v.

Definition isLocalKubeProxyAvailable : rprog bool :=
  do e <- request (Dial local_proxy_addr) ; Ret (bool_decide (e = None)).

(** Build both clients; [have] says which exist already. *)
Definition build_clients (cfg : kconfig) (have : bool * bool) : rprog (bool * bool) :=
  do c <- request (NewClient cfg) ;
  do y <- request (NewDynamic cfg) ;
  Ret (is_ok c || have.1, is_ok y || have.2).

Definition fallback_clients (d : Deps) (id : string) : rprog resolved :=
  let st := HostStore in
  let answer (have : bool * bool) :=
    Ret (if have.1 && have.2 then Clients {| c_cfg := None; c_store := st; c_inst := None |}
         else NoClients) in
  if negb (has_DB d) then Ret NoClients
  else
    do kc <- readClusterKubeconfig d id ;
    match kc with
    | None => Ret NoClients
    | Some kc =>
        match kubeconfigFrom kc with
        | Err _ => Ret NoClients
        | Ok cfg =>
            do cfg <- applyClusterAPIProxy cfg st id ;
            do have <- build_clients cfg (false, false) ;
            if have.1 && have.2 then answer have
            else
              do up <- isLocalKubeProxyAvailable ;
              if negb up then answer have
              else
                do healed <- ensureProxyFallbackOnTimeout st id ;
                if negb healed then answer have
                else
                  do cfg <- applyClusterAPIProxy cfg st id ;
                  do have <- build_clients cfg have ;
                  answer have
        end
    end.

Definition resolve_clients (d : Deps) (id : string) : rprog resolved :=
  if has_Registry d then
    do got <- request (RegGet id) ;
    match got with
    | Ok inst => registry_clients id inst
    | Err _ => fallback_clients d id
    end
  else fallback_clients d id.

(** ** The service proxy *)

(** [map] iteration order is the order of the list. *)
Definition selector_of (svc : result svc_info) (name : string) : string :=
  let sel := match svc with
             | Ok s => Join "," ((λ kv, kv.1 +:+ "=" +:+ kv.2) <$> svc_Selector s)
             | Err _ => ""
             end in
  if String.eqb sel "" then "app=" +:+ name else sel.

Definition service_port (svc : result svc_info) : Z :=
  match svc with
  | Ok {| svc_Port := Some p |} => if p =? 0 then 80 else p
  | _ => 80
  end.

(** The last ready pod, or the first one: the inner loop's break does not end
    the outer loop. *)
Definition pick_pod (pods : list pod_info) : string :=
  match pods with
  | [] => ""
  | p0 :: _ => foldl (λ acc p, if pod_Ready p then pod_Name p else acc) (pod_Name p0) pods
  end.

(** The request handed to the reverse proxy: the client's query with a new
    path. *)
Definition proxied (r : rq) (path : string) : proxy_request :=
  {| pr_to := q_Query r "to"; pr_path := q_Query r "path"; pr_scheme := q_Query r "scheme";
     pr_URLPath := path |}.

Definition service_path (ns name : string) (port : Z) (sub : string) : string :=
  "/api/v1/namespaces/" +:+ ns +:+ "/services/http:" +:+ name +:+ ":" +:+ fmt_d port
  +:+ "/proxy" +:+ sub.

Definition api_proxy_opts (ns name : string) (port : Z) : proxy_opts :=
  {| ResolveServer := Some (λ _ sub, Ok ("http", "", service_path ns name port sub));
     HasAPIProxy := true |}.

Definition direct_opts : proxy_opts := {| ResolveServer := None; HasAPIProxy := false |}.

(** A forwarded API request needs the parsed host of the configuration. *)
Definition api_forward (cfg : kconfig) (o : outcome) : rresp :=
  match o with
  | Forward _ _ _ id =>
      if String.eqb id "" then RespProxied o
      else match parse_url (cfg_Host cfg) with
           | Some _ => RespProxied o
           | None => RespPanic
           end
  | Reject _ _ => RespProxied o
  end.

(** Port-forward to a pod, publish the port on the tailnet, and serve from it;
    [None] when no forward could be set up. *)
Definition port_forward (id ns name : string) (port : Z) (cfg : kconfig) (inst : inst_info)
    (r : rq) : rprog (option rresp) :=
  do _ <- (if ii_TS inst then
             let h := TrimPrefix (TrimPrefix (cfg_Host cfg) "https://") "http://" in
             let h := match Cut "/" h with Some (a, _) => a | None => h end in
             request (Dial h)
           else Ret None) ;
  do svc <- request (SvcGet id ns name) ;
  do pods <- request (PodsOf id ns (selector_of svc name)) ;
  match pods with
  | Ok ((_ :: _) as l) =>
      do lp <- request (PFEnsure id ns (pick_pod l) port) ;
      match lp with
      | Ok lp =>
          if 0 <? lp then
            do _ <- (if ii_TS inst then request (Publish id name lp) else Ret tt) ;
            Ret (Some (RespProxied (ServeHTTP direct_opts (proxied r "/"))))
          else Ret None
      | Err _ => Ret None
      end
  | _ => Ret None
  end.

Definition handleProxy (id ns name sub : string) (cs : Cluster) (c : clients) (r : rq)
    : rprog rresp :=
  do svc <- request (SvcGet id ns name) ;
  let port := service_port svc in
  let preferPF := cl_PreferPodProxy cs || cl_UsePortForward cs in
  do missing <- (if preferPF then Ret false
                 else do ready <- request (EndpointsReady id ns name) ; Ret (negb ready)) ;
  match c_cfg c with
  | None => Ret RespPanic
  | Some cfg =>
      do rt <- request (TransportFor cfg) ;
      match rt with
      | Err _ => Ret (RespError 500 "k8s transport error" "k8s_transport")
      | Ok _ =>
          do pf <- (match c_inst c with
                    | Some inst => if (preferPF || missing) && ii_PF inst
                                   then port_forward id ns name port cfg inst r else Ret None
                    | None => Ret None
                    end) ;
          match pf with
          | Some resp => Ret resp
          | None =>
              Ret (api_forward cfg (ServeHTTP (api_proxy_opts ns name port)
                     (proxied r ("/proxy/server/" +:+ PathEscape name +:+ sub))))
          end
      end
  end.

(** ** Workspaces *)

Definition int64_field (v : option any) : Z := default 0 (v ≫= any_int64).

Definition port_number (v : option any) : Z :=
  match v ≫= any_int64 with
  | Some n => n
  | None => default 0 (v ≫= any_float64)
  end.

Definition server_ports (spec : doc) : list (string * Z) :=
  match spec !! "ports" with
  | Some (AArr raw) =>
      omap (λ rp, match as_obj rp with
                  | Some pm =>
                      let n := port_number (pm !! "containerPort") in
                      if 0 <? n then Some (TrimSpace (Sprint (pm !! "name")), n) else None
                  | None => None
                  end) raw
  | _ => []
  end.

Definition server_status (phase : string) (ready : Z) : string :=
  if String.eqb phase "Running" && (0 <? ready) then "running"
  else if String.eqb phase "Failed" then "failed" else "pending".

(** A missing metadata or spec object is a failed type assertion. *)
Definition server_of (item : doc) : option server_info :=
  match item !! "metadata", item !! "spec" with
  | Some (AObj m), Some (AObj sp) =>
      let meta : doc := list_to_map m in
      let spec : doc := list_to_map sp in
      let status : doc := match item !! "status" with
                          | Some (AObj st) => list_to_map st
                          | _ => ∅
                          end in
      let name := Sprint (meta !! "name") in
      Some {| sv_ID := name; sv_Name := name; sv_Image := Sprint (spec !! "image");
              sv_Status := server_status (str_field status "phase")
                             (int64_field (status !! "readyReplicas"));
              sv_Ports := server_ports spec |}
  | _, _ => None
  end.

Definition list_servers (id ns : string) : rprog rresp :=
  do lst <- request (WsList id ns) ;
  Ret (match lst with
       | Err _ => RespJson 200 VEmpty
       | Ok items => match mapM server_of items with
                     | Some l => RespJson 200 (VServers l)
                     | None => RespPanic
                     end
       end).

Definition workspace_name (spec : doc) : string :=
  match spec !! "name" with
  | None | Some ANil => ""
  | Some (AStr s) => TrimSpace s
  | v => TrimSpace (Sprint v)
  end.

Definition workspace_object (name : string) (spec : doc) : list (string * any) :=
  let f k := (k, default ANil (spec !! k)) in
  [("apiVersion", AStr "guildnet.io/v1alpha1"); ("kind", AStr "Workspace");
   ("metadata", AObj [("name", AStr name)]);
   ("spec", AObj [f "image"; f "env"; f "ports"; f "args"; f "resources"; f "labels"])].

Definition create_workspace (d : Deps) (r : rq) (id ns : string) : rprog rresp :=
  if negb (ws_authOK d r) then Ret unauthorized
  else
    let spec : doc := list_to_map (dec_object (q_Body r)) in
    let name := workspace_name spec in
    do name <- (if String.eqb name "" then do u <- short_uuid ; Ret ("ws-" +:+ u) else Ret name) ;
    do res <- request (WsCreate id ns (workspace_object name spec)) ;
    Ret (match res with
         | Err _ => RespError 500 "workspace create failed" "create_failed"
         | Ok _ => RespJson 202 (VObj [("id", AStr name); ("status", AStr "pending")])
         end).

Definition delete_workspace (d : Deps) (r : rq) (id ns name : string) : rprog rresp :=
  if negb (ws_authOK d r) then Ret unauthorized
  else
    do res <- request (WsDelete id ns name) ;
    Ret (match res with
         | Err _ => RespError 404 "workspace not found" "not_found"
         | Ok _ => RespJson 200 (VObj [("deleted", AStr name)])
         end).

Definition workspace_selector (name : string) : string := "guildnet.io/workspace=" +:+ name.

Definition newline_char : ascii := "010"%char.

(** The lines of one pod's log, prefixed with the pod. *)
Definition pod_lines (pod data : string) : list string :=
  (λ ln, "[" +:+ pod +:+ "] " +:+ ln)
    <$> List.filter (λ ln, negb (String.eqb ln "")) (Split newline_char (TrimSpace data)).

Fixpoint collect_logs (id ns : string) (pods : list pod_info) : rprog (list string) :=
  match pods with
  | [] => Ret []
  | p :: rest =>
      do data <- request (PodLog id ns (pod_Name p) (pod_Container p)) ;
      do more <- collect_logs id ns rest ;
      Ret (match data with Ok s => pod_lines (pod_Name p) s | Err _ => [] end ++ more)
  end.

Definition log_limit (v : string) : Z :=
  if String.eqb v "" then 200 else default 200 (sscanf_d v).

(** [out[len(out)-limit:]] when there are more than [limit] lines. *)
Definition last_lines (limit : Z) (out : list string) : option (list string) :=
  let n := Z.of_nat (length out) in
  if limit <? n then
    if n <? n - limit then None else Some (drop (Z.to_nat (n - limit)) out)
  else Some out.

Definition workspace_logs (r : rq) (id ns name : string) : rprog rresp :=
  do pods <- request (PodsOf id ns (workspace_selector name)) ;
  match pods with
  | Ok ((_ :: _) as l) =>
      do out <- collect_logs id ns l ;
      Ret (match last_lines (log_limit (q_Query r "limit")) out with
           | Some lines => RespJson 200 (VLogs lines)
           | None => RespPanic
           end)
  | _ => Ret (RespError 404 "no pods for workspace" "no_pods")
  end.

Definition stream_logs (id ns name : string) : rprog rresp :=
  do pods <- request (PodsOf id ns (workspace_selector name)) ;
  match pods with
  | Ok (p :: _) =>
      do s <- request (PodLogStream id ns (pod_Name p) (pod_Container p)) ;
      Ret (match s with Ok _ => RespStream | Err _ => RespText 500 "log stream error" end)
  | _ => Ret (RespText 404 "no pods")
  end.

(** The cases below [workspaces]; [None] falls through to the routes after
    them.  The health case tests for a second segment that is both
    [workspaces] and [health], so it is never taken. *)
Definition workspaces_route (d : Deps) (r : rq) (id ns : string) (parts : list string)
    : option (rprog rresp) :=
  let m := q_Method r in
  match parts with
  | [_; _] => if String.eqb m "POST" then Some (create_workspace d r id ns) else None
  | [_; _; name] =>
      if String.eqb m "GET" then
        Some (do ws <- request (WsGet id ns name) ;
              Ret (match ws with
                   | Err _ => RespError 404 "workspace not found" "not_found"
                   | Ok o => RespJson 200 (VDoc o)
                   end))
      else if String.eqb m "DELETE" then Some (delete_workspace d r id ns name) else None
  | [_; _; name; l] =>
      if String.eqb l "logs" && String.eqb m "GET" then Some (workspace_logs r id ns name) else None
  | [_; _; name; l; s] =>
      if String.eqb l "logs" && String.eqb s "stream" && String.eqb m "GET"
      then Some (stream_logs id ns name) else None
  | _ => None
  end.

(** ** The database API of a cluster *)

(** Only a manager that is already connected is used. *)
Definition cluster_manager (d : Deps) (id : string) : rprog bool :=
  if negb (has_Registry d) then Ret false
  else
    do present <- request (RegRDBPresent id) ;
    match present with
    | Ok true => do got <- request (RegGet id) ; Ret (is_ok got)
    | _ => Ret false
    end.

Definition db_request (r : rq) (path : string) : http_request :=
  {| hr_Method := q_Method r; hr_Path := path; hr_Principal := q_Principal r;
     hr_ContentType := q_ContentType r; hr_Query := q_Query r; hr_Body := q_Body r |}.

(** Each request gets a database API with no bindings. *)
Definition cluster_db (d : Deps) (r : rq) (id path : string) : rprog rresp :=
  do mgr <- cluster_manager d id ;
  do now <- request Now ;
  let api := {| api_Manager := mgr; api_OrgID := id; api_RBAC := NewRBACStore |} in
  do res <- translate (@Mgr) (serve_db now true api (db_request r path)) ;
  Ret (RespDb res.2).

(** ** Published services *)

Definition handlePublished (d : Deps) (r : rq) (id : string) (parts : list string)
    : rprog rresp :=
  if String.eqb (q_Method r) "GET" && (length parts =? 2)%nat then
    if has_DB d then
      do l <- request DbListPublished ;
      Ret (match l with
           | Err _ => RespError 500 "db_error" "list_published"
           | Ok l => RespJson 200 (VPublished
                       (List.filter (λ p, String.eqb (ps_ClusterID p) id) l))
           end)
    else Ret (RespJson 200 (VPublished []))
  else
    match String.eqb (q_Method r) "DELETE", parts with
    | true, _ :: _ :: service :: _ =>
        let key := id +:+ ":" +:+ service in
        do closed <- request (Unpublish key) ;
        if (closed : bool) then Ret (RespStatus 200)
        else if has_DB d then
          do res <- request (DbDeletePublished key) ;
          Ret (match res with
               | Err _ => RespError 500 "db_error" "delete_published"
               | Ok _ => RespStatus 200
               end)
        else Ret (RespStatus 200)
    | _, _ => Ret method_not_allowed
    end.

(** ** Dispatch *)

(** The routes that need clients. *)
Definition client_routes (d : Deps) (r : rq) (id : string) (parts : list string) (c : clients)
    : rprog rresp :=
  do cs <- request (SGetCluster (c_store c) id) ;
  let ns := TrimSpace (cl_Namespace cs) in
  let ns := if String.eqb ns "" then "default" else ns in
  let seg n := default "" (parts !! n) in
  let after :=
    if String.eqb (seg 1%nat) "db" then
      cluster_db d r id (match drop 2 parts with
                         | [] => "/api/db"
                         | rest => "/api/db/" +:+ Join "/" rest
                         end)
    else Ret (RespStatus 404) in
  if (3 <=? length parts)%nat && String.eqb (seg 1%nat) "proxy" && String.eqb (seg 2%nat) "server"
  then
    match drop 3 parts with
    | [] => Ret (RespStatus 400)
    | name :: rest =>
        handleProxy id ns name ("/" +:+ Join "/" rest) cs c r
    end
  else if (length parts =? 2)%nat && String.eqb (seg 1%nat) "servers" then
    if String.eqb (q_Method r) "GET" then list_servers id ns else Ret method_not_allowed
  else if String.eqb (seg 1%nat) "workspaces" then
    match workspaces_route d r id ns parts with Some p => p | None => after end
  else after.

Definition handleCluster (d : Deps) (r : rq) : rprog rresp :=
  let parts := Split "/" (TrimByte "/" (TrimPrefix (q_Path r) "/api/cluster/")) in
  match parts with
  | [] => Ret (RespStatus 404)
  | id :: rest =>
      if String.eqb id "" then Ret (RespStatus 404)
      else
        let seg1 := default "" (head rest) in
        if String.eqb seg1 "published-services" then handlePublished d r id parts
        else if String.eqb seg1 "status" && String.eqb (q_Method r) "GET" then
          do st <- clusterLocalStatus d id ; Ret (RespJson 200 (VStatus st))
        else
          do res <- resolve_clients d id ;
          match res with
          | Stopped resp => Ret resp
          | NoClients =>
              Ret (if String.eqb (q_Method r) "GET" then RespJson 200 VEmpty
                   else RespError 503 "kubernetes clients not available for cluster; attach kubeconfig or wait for cluster initialization" "no_k8s_clients")
          | Clients c => client_routes d r id parts c
          end
  end.

Definition handleClusterSSE (d : Deps) (r : rq) : rprog rresp :=
  match Split "/" (TrimByte "/" (TrimPrefix (q_Path r) "/sse/cluster/")) with
  | id :: sub :: rest =>
      if String.eqb sub "db" then cluster_db d r id ("/sse/db/" +:+ Join "/" rest)
      else Ret (RespStatus 404)
  | _ => Ret (RespStatus 404)
  end.

(** The route table. *)
Definition router_table : list (string * (Deps → rq → rprog rresp)) :=
  [("/bootstrap", handleBootstrap);
   ("/settings/tailscale", handleSettingsTailscale);
   ("/settings/database", handleSettingsDatabase);
   ("/settings/global", handleSettingsGlobal);
   ("/api/settings/cluster/", handleSettingsCluster);
   ("/api/jobs", handleJobs);
   ("/api/jobs/", handleJob);
   ("/api/jobs-logs/", handleJobLogs);
   ("/ws/jobs", λ _, handleJobStream);
   ("/api/audit", handleAudit);
   ("/api/health", handleHealth);
   ("/api/deploy/headscale", handleHeadscales);
   ("/api/deploy/headscale/", handleHeadscale);
   ("/api/deploy/clusters", handleClusters);
   ("/api/deploy/clusters/", handleClusterRecord);
   ("/ui-config", λ _, handleUIConfig);
   ("/api/cluster/", handleCluster);
   ("/sse/cluster/", handleClusterSSE)].

Definition router_patterns : list string := router_table.*1.

Definition handler_of (pat : string) : option (Deps → rq → rprog rresp) :=
  snd <$> find_first (λ kv, String.eqb kv.1 pat) router_table.

(** [Router(deps).ServeHTTP]. *)
Definition Router (d : Deps) (r : rq) : rprog rresp :=
  if mux_redirects router_patterns (q_Path r) then Ret RespRedirect
  else
    match mux_match router_patterns (q_Path r) with
    | None => Ret (RespStatus 404)
    | Some pat => match handler_of pat with
                  | Some h => h d r
                  | None => Ret (RespStatus 404)
                  end
    end.

End cluster.

(** ** Lemmas: escaping *)

Lemma hex_val_digit z : 0 ≤ z < 16 → hex_val (hex_digit z) = Some z.
Proof.
  intros Hz. unfold hex_val, hex_digit.
  destruct (Z.ltb_spec z 10); rewrite bz_zb; try lia; unfold in_range;
    repeat (case_match; bool_props; try lia; try (f_equal; lia)).
Qed.

Lemma hex_digit_neq z c : 0 ≤ z < 16 → hex_val c = None → hex_digit z ≠ c.
Proof. intros Hz Hc <-. by rewrite hex_val_digit in Hc. Qed.

Lemma PathUnescape_PathEscape s : PathUnescape (PathEscape s) = Some s.
Proof.
  induction s as [|c s IH]; [done|]. pose proof (bz_range c) as Hc. simpl.
  destruct (segment_char c) eqn:Es.
  - simpl. destruct (Ascii.eqb_spec c "%") as [->|]; [done|]. by rewrite IH.
  - assert (0 ≤ bz c / 16 < 16) as Hq
      by (split; [apply Z.div_pos; lia|apply Z.div_lt_upper_bound; lia]).
    assert (0 ≤ bz c mod 16 < 16) as Hm by (apply Z.mod_pos_bound; lia).
    simpl. rewrite (hex_val_digit _ Hq) (hex_val_digit _ Hm) /= IH /=.
    rewrite -(Z.div_mod (bz c) 16) // zb_bz. done.
Qed.

Lemma PathEscape_no_slash s : "/"%char ∉ s2b (PathEscape s).
Proof.
  induction s as [|c s IH]; [set_solver|]. pose proof (bz_range c) as Hc. simpl.
  destruct (segment_char c) eqn:Es; unfold s2b in *; simpl; rewrite !elem_of_cons.
  - intros [<-|Hin]; [done|auto].
  - intros [Hx|[Hx|[Hx|Hin]]]; [done| | |auto]; symmetry in Hx; revert Hx;
      apply hex_digit_neq; try done;
      (split; [apply Z.div_pos; lia|apply Z.div_lt_upper_bound; lia])
      || (apply Z.mod_pos_bound; lia).
Qed.

Lemma Cut_app sep a b : sep ∉ s2b a → Cut sep (a +:+ String sep b) = Some (a, b).
Proof.
  induction a as [|c a IH]; simpl.
  - intros _. by rewrite Ascii.eqb_refl.
  - unfold s2b in *. simpl. intros Hn. destruct (Ascii.eqb_spec c sep) as [->|_]; [set_solver|].
    rewrite IH; [done|set_solver].
Qed.

(** ** Where the service proxy sends a request *)

(** A client that names a target itself gets it, whatever the path says. *)
Lemma ServeHTTP_query_target o r p :
  q_Query r "to" ≠ "" → q_Query r "path" ≠ "" →
  ServeHTTP o (proxied r p) = ServeHTTP direct_opts (proxied r "/").
Proof.
  intros Ht Hp. unfold ServeHTTP, select_target. simpl.
  by rewrite (proj2 (String.eqb_neq _ _) Ht) (proj2 (String.eqb_neq _ _) Hp).
Qed.

Lemma ServeHTTP_direct r :
  q_Query r "to" = "" ∨ q_Query r "path" = "" →
  ServeHTTP direct_opts (proxied r "/") = Reject 400 "missing or invalid to/path".
Proof.
  intros Hq. unfold ServeHTTP, select_target. simpl. rewrite andb_false_r. simpl.
  destruct Hq as [->| ->]; [|done]. simpl. by rewrite orb_true_r.
Qed.

Lemma ServeHTTP_service r ns name port x :
  name ≠ "" → q_Query r "to" = "" ∨ q_Query r "path" = "" →
  ServeHTTP (api_proxy_opts ns name port)
    (proxied r ("/proxy/server/" +:+ PathEscape name +:+ "/" +:+ x))
  = Forward "http" "" (service_path ns name port ("/" +:+ x)) name.
Proof.
  intros Hn Hq. unfold ServeHTTP, select_target. simpl pr_to. simpl pr_path. simpl pr_URLPath.
  assert (String.eqb (q_Query r "to") "" || String.eqb (q_Query r "path") "" = true) as ->
    by (destruct Hq as [->| ->]; by rewrite ?orb_true_r).
  rewrite (HasPrefix_app "/proxy/" ("server/" +:+ PathEscape name +:+ "/" +:+ x)).
  rewrite (TrimPrefix_app "/proxy/" ("server/" +:+ PathEscape name +:+ "/" +:+ x)).
  cbn [andb]. simpl ResolveServer. cbv iota beta.
  rewrite (HasPrefix_app "server/") (TrimPrefix_app "server/").
  unfold split_rest. rewrite (Cut_app "/" (PathEscape name) x (PathEscape_no_slash name)).
  unfold unescape_or_same. rewrite PathUnescape_PathEscape. simpl.
  by rewrite (proj2 (String.eqb_neq _ _) Hn).
Qed.

Section cluster_lemmas.
Context `{UC : UnicodeCase} `{RE : RouterEnv} `{BD : Bodies}.

(** A port forward that was set up answers from the direct proxy. *)
Lemma port_forward_runs id ns name port cfg inst r t res :
  runs (port_forward id ns name port cfg inst r) t (Some res) →
  res = RespProxied (ServeHTTP direct_opts (proxied r "/"))
  ∧ ∃ pod lp, Ev (PFEnsure id ns pod port) (Ok lp) ∈ t ∧ 0 < lp.
Proof.
  unfold port_forward.
  intros (t0 & t1 & a & -> & _ & (svc & t2 & -> & Hr)%runs_req_bind)%runs_bind.
  apply runs_req_bind in Hr as ([[|p pods]|e] & t3 & -> & Hr); cbv beta iota in Hr;
    try by destruct Hr.
  apply runs_req_bind in Hr as ([lp|e] & t4 & -> & Hr); cbv beta iota in Hr; [|by destruct Hr].
  destruct (0 <? lp) eqn:El; [|by destruct Hr]. bool_props.
  apply runs_bind in Hr as (t5 & t6 & [] & -> & _ & [-> [= ->]]).
  split; [done|]. exists (pick_pod (p :: pods)), lp. split; [|done].
  rewrite list_elem_of_In. apply List.in_or_app. right. simpl. auto.
Qed.

(** The run of the proxy route after its configuration was found. *)
Lemma handleProxy_runs id ns name sub cs c r t res :
  runs (handleProxy id ns name sub cs c r) t res →
  ∃ svc t', t = Ev (SvcGet id ns name) svc :: t'
    ∧ ((c_cfg c = None ∧ res = RespPanic)
       ∨ (∃ cfg, c_cfg c = Some cfg
          ∧ (res = RespError 500 "k8s transport error" "k8s_transport"
             ∨ (res = RespProxied (ServeHTTP direct_opts (proxied r "/"))
                ∧ ∃ pod lp, Ev (PFEnsure id ns pod (service_port svc)) (Ok lp) ∈ t' ∧ 0 < lp)
             ∨ res = api_forward cfg (ServeHTTP (api_proxy_opts ns name (service_port svc))
                       (proxied r ("/proxy/server/" +:+ PathEscape name +:+ sub)))))).
Proof.
  unfold handleProxy. intros (svc & t1 & -> & Hr)%runs_req_bind. cbv zeta in Hr.
  exists svc, t1. split; [done|].
  apply runs_bind in Hr as (t2 & t3 & missing & -> & _ & Hr).
  destruct (c_cfg c) as [cfg|]; [|left; by destruct Hr].
  right. exists cfg. split; [done|].
  apply runs_req_bind in Hr as ([[]|e] & t4 & -> & Hr); cbv beta iota in Hr;
    [|left; by destruct Hr].
  right. apply runs_bind in Hr as (t5 & t6 & [resp|] & -> & Hpf & [-> ->]); [left|by right].
  destruct (c_inst c) as [inst|]; [|by destruct Hpf].
  destruct (_ && ii_PF inst); [|by destruct Hpf].
  apply port_forward_runs in Hpf as (-> & pod & lp & Hin & Hlp). split; [done|].
  exists pod, lp. split; [|done]. rewrite !list_elem_of_In in Hin |- *.
  apply List.in_or_app. right. right. apply List.in_or_app. by left.
Qed.

(** The target of the cluster's service proxy.  Unless the client supplies
    both [to] and [path] in its query, a proxied request goes to the API path
    of exactly the service it names, at the service's port, with the rest of
    the path; when a port forward was set up instead, it is refused with status
    400, because the forwarded request carries no target.  A panic means that
    the cluster's clients did not come from the registry or that the API host
    does not parse.  A client that supplies [to] and [path] is sent to that
    target whatever the service is. *)
Theorem cluster_proxy_target id ns name x cs c r t res :
  name ≠ "" → runs (handleProxy id ns name ("/" +:+ x) cs c r) t res →
  ∃ svc, Ev (SvcGet id ns name) svc ∈ t
    ∧ (res = RespPanic → c_cfg c = None
                         ∨ ∃ cfg, c_cfg c = Some cfg ∧ parse_url (cfg_Host cfg) = None)
    ∧ ∀ o, res = RespProxied o →
      (q_Query r "to" = "" ∨ q_Query r "path" = "" →
       o = Forward "http" "" (service_path ns name (service_port svc) ("/" +:+ x)) name
       ∨ (o = Reject 400 "missing or invalid to/path"
          ∧ ∃ pod lp, Ev (PFEnsure id ns pod (service_port svc)) (Ok lp) ∈ t ∧ 0 < lp))
      ∧ (q_Query r "to" ≠ "" → q_Query r "path" ≠ "" →
         o = ServeHTTP direct_opts (proxied r "/")).
Proof.
  intros Hn (svc & t' & -> & Hr)%handleProxy_runs. exists svc. split; [left|].
  destruct Hr as [[Hc ->]|(cfg & Hc & [->|[[-> (pod & lp & Hin & Hlp)]| ->]])].
  - split; [by left|done].
  - done.
  - split; [done|]. intros o [= <-]. split; [|done]. intros Hq. right.
    split; [by apply ServeHTTP_direct|]. exists pod, lp. split; [by right|done].
  - unfold api_forward. split.
    + destruct (ServeHTTP _ _) as [|a b p sid]; [done|]. destruct (String.eqb sid ""); [done|].
      destruct (parse_url (cfg_Host cfg)) eqn:Ep; [done|]. eauto.
    + intros o Ho. assert (ServeHTTP (api_proxy_opts ns name (service_port svc))
        (proxied r ("/proxy/server/" +:+ PathEscape name +:+ "/" +:+ x)) = o) as <-.
      { destruct (ServeHTTP _ _) as [|a b p sid]; [by simplify_eq|].
        destruct (String.eqb sid ""); [by simplify_eq|]. destruct (parse_url _); by simplify_eq. }
      split; [intros Hq; left; by apply ServeHTTP_service|]. apply ServeHTTP_query_target.
Qed.

(** ** Workspace logs *)

(** The log lines among the answers of a run, in order. *)
Definition log_lines (t : list (gevent rcall)) : list string :=
  t ≫= (λ e : gevent rcall, let 'Ev c a := e in
        match c in rcall X return X → list string with
        | PodLog _ _ pod _ => λ a, match a with Ok data => pod_lines pod data | Err _ => [] end
        | _ => λ _, []
        end a).

Lemma collect_logs_runs id ns pods t out :
  runs (collect_logs id ns pods) t out → out = log_lines t.
Proof.
  revert t out; induction pods as [|p pods IH]; intros t out; simpl; [by intros [-> ->]|].
  intros (data & t1 & -> & Hr). apply runs_bind in Hr as (t2 & t3 & more & -> & Hm & [-> ->]).
  apply IH in Hm as ->. rewrite app_nil_r. unfold log_lines. by destruct data.
Qed.

Lemma last_lines_spec limit out :
  last_lines limit out =
  if limit <? 0 then None else Some (drop (length out - Z.to_nat limit) out).
Proof.
  unfold last_lines. destruct (Z.ltb_spec limit 0).
  - destruct (Z.ltb_spec limit (Z.of_nat (length out))); [|lia].
    destruct (Z.ltb_spec (Z.of_nat (length out)) (Z.of_nat (length out) - limit)); [done|lia].
  - destruct (Z.ltb_spec limit (Z.of_nat (length out))).
    + destruct (Z.ltb_spec (Z.of_nat (length out)) (Z.of_nat (length out) - limit)); [lia|].
      do 2 f_equal. lia.
    + replace (length out - Z.to_nat limit)%nat with 0%nat by lia. done.
Qed.

(** The log endpoint.  It answers not found, or the last [limit] of the lines
    of all pods whose log could be read, in order and at most [limit] of them;
    with a negative limit in the query it panics instead, whatever the logs
    hold. *)
Theorem workspace_logs_tail r id ns name t res :
  let limit := log_limit (q_Query r "limit") in
  runs (workspace_logs r id ns name) t res →
  res = RespError 404 "no pods for workspace" "no_pods"
  ∨ (limit < 0 ∧ res = RespPanic)
  ∨ (0 ≤ limit ∧ ∃ older lines, res = RespJson 200 (VLogs lines)
     ∧ log_lines t = older ++ lines
     ∧ length lines = Nat.min (Z.to_nat limit) (length (log_lines t))).
Proof.
  intros limit. unfold workspace_logs.
  intros ([[|p pods]|e] & t1 & -> & Hr)%runs_req_bind; cbv beta iota in Hr;
    [left; by destruct Hr| |left; by destruct Hr].
  right. apply runs_bind in Hr as (t2 & t3 & out & -> & Ho & [-> Hres]).
  apply collect_logs_runs in Ho as Eo. fold limit in Hres. rewrite app_nil_r.
  change (log_lines (Ev (PodsOf id ns (workspace_selector name)) (Ok (p :: pods)) :: t2))
    with (log_lines t2). rewrite -Eo. rewrite last_lines_spec in Hres.
  destruct (Z.ltb_spec limit 0); [by left|]. right. split; [done|].
  exists (take (length out - Z.to_nat limit) out), (drop (length out - Z.to_nat limit) out).
  split; [done|]. split; [by rewrite take_drop|]. rewrite length_drop. lia.
Qed.

(** ** The health route of a cluster *)

(** What finding clients can end with. *)
Lemma registry_clients_stop id inst t resp :
  runs (registry_clients id inst) t (Stopped resp) →
  resp = RespPanic ∨ ∃ m code, resp = RespError 500 m code.
Proof.
  unfold registry_clients. intros (cs & t1 & -> & Hr)%runs_req_bind.
  destruct (apply_proxy_opt cs (ii_Config inst)) as [cfg|]; [|left; by destruct Hr as [_ [= ->]]].
  apply runs_bind in Hr as (t2 & t3 & [[[]|e]|] & -> & _ & Hr);
    [|right; destruct Hr as [_ [= ->]]; eauto|left; by destruct Hr as [_ [= ->]]].
  apply runs_bind in Hr as (t4 & t5 & [[[]|e]|] & -> & _ & Hr);
    [by destruct Hr|right; destruct Hr as [_ [= ->]]; eauto|left; by destruct Hr as [_ [= ->]]].
Qed.

(** The requests a health check would make. *)
Definition is_probe (e : gevent rcall) : Prop :=
  match e with Ev (ListNamespaces _) _ | Ev (RegRDBPresent _) _ => True | _ => False end.

Lemma readClusterKubeconfig_quiet d id :
  issues_only (λ e, ¬ is_probe e) (readClusterKubeconfig d id).
Proof. unfold readClusterKubeconfig. prog_walk ltac:(simpl; tauto). Qed.

Lemma resolve_clients_quiet d id : issues_only (λ e, ¬ is_probe e) (resolve_clients d id).
Proof.
  unfold resolve_clients, registry_clients, fallback_clients, client_or_new, build_clients,
    applyClusterAPIProxy, ensureProxyFallbackOnTimeout, isLocalKubeProxyAvailable.
  prog_walk ltac:(first [apply readClusterKubeconfig_quiet | simpl; tauto]).
Qed.

Lemma fallback_clients_end d id :
  ends_in (λ x, match x with Stopped _ => False | _ => True end) (fallback_clients d id).
Proof. unfold fallback_clients. prog_walk ltac:(simpl; by repeat case_match). Qed.

(** The health route of a cluster does not exist.  A GET of
    /api/cluster/:id/health never checks the API server or the database: it
    answers 404 when the cluster's clients are available and the empty list when
    they are not; other answers are failures to build the clients. *)
Theorem cluster_health_unreachable d r id t res :
  Split "/" (TrimByte "/" (TrimPrefix (q_Path r) "/api/cluster/")) = [id; "health"] →
  id ≠ "" → q_Method r = "GET" →
  runs (handleCluster d r) t res →
  Forall (λ e, ¬ is_probe e) t
  ∧ (res = RespStatus 404 ∨ res = RespJson 200 VEmpty ∨ res = RespPanic
     ∨ ∃ m code, res = RespError 500 m code).
Proof.
  intros Hp Hid Hm. unfold handleCluster. rewrite Hp (proj2 (String.eqb_neq _ _) Hid) Hm.
  cbn [head default String.eqb andb]. simpl.
  intros (t1 & t2 & got & -> & Hr & Hk)%runs_bind. split.
  - apply Forall_app. split; [by eapply issues_only_runs; [apply resolve_clients_quiet|]|].
    destruct got as [c| |resp]; [|by destruct Hk as [-> _]..].
    destruct Hk as (cs & t' & -> & Hk). destruct Hk as [-> _].
    constructor; [by intros []|constructor].
  - destruct got as [c| |resp].
    + destruct Hk as (cs & t' & -> & [_ ->]). by left.
    + destruct Hk as [_ ->]. auto.
    + destruct Hk as [_ ->]. right. right.
      unfold resolve_clients in Hr. destruct (has_Registry d).
      * apply runs_req_bind in Hr as ([inst|e] & t' & -> & Hr); cbv beta iota in Hr.
        -- by eapply registry_clients_stop.
        -- by apply (ends_in_runs _ _ _ _ (fallback_clients_end d id)) in Hr.
      * by apply (ends_in_runs _ _ _ _ (fallback_clients_end d id)) in Hr.
Qed.

End cluster_lemmas.

(** ** The database API of a cluster has no bindings *)

Section cluster_db.
Context `{UC : UnicodeCase} `{RE : RouterEnv} `{BD : Bodies}.

(** The manager requests that need a role. *)
Definition needs_role {X : Set} (c : mcall X) : bool :=
  match c with
  | MCreateDatabase _ _ _ _ | MCreateTable _ _ _ | MUpdateTableSchema _ _ _ _ _
  | MQueryRows _ _ _ _ _ _ _ | MInsertRows _ _ _ _ | MUpdateRow _ _ _ _ _
  | MDeleteRow _ _ _ _ => true
  | _ => false
  end.

Definition no_role_needed (e : gevent mcall) : Prop :=
  match e with Ev c _ => needs_role c = false end.

Lemma RoleFor_empty p t db : RoleFor NewRBACStore p t db = "".
Proof. unfold RoleFor, role_in. by repeat case_match. Qed.

Lemma roleFor_empty a p t db :
  api_RBAC a = NewRBACStore → TrimSpace p ≠ "" → roleFor a p t db = "".
Proof.
  intros Ha Hp. unfold roleFor. by rewrite (proj2 (String.eqb_neq _ _) Hp) Ha !RoleFor_empty.
Qed.

Lemma principal_named r : TrimSpace (hr_Principal r) ≠ "" → principal_of r = hr_Principal r.
Proof.
  intros Hp. unfold principal_of, PrincipalFromRequest.
  by rewrite (proj2 (String.eqb_neq _ _) Hp).
Qed.

Lemma named_authorized a r e :
  api_RBAC a = NewRBACStore → TrimSpace (hr_Principal r) ≠ "" →
  authorized a (principal_of r) e → no_role_needed e.
Proof.
  intros Ha Hp. rewrite (principal_named r Hp). destruct e as [X c ans].
  destruct c; simpl; try done; by rewrite roleFor_empty.
Qed.

Lemma ensureManager_keeps a :
  ends_in (λ b, api_RBAC b = api_RBAC a ∧ api_OrgID b = api_OrgID a) (ensureManager a).
Proof. unfold ensureManager. by destruct (api_Manager a). Qed.

Lemma ensureManager_needs a : issues_only no_role_needed (ensureManager a).
Proof. unfold ensureManager. by destruct (api_Manager a). Qed.

(** Follow the request for a manager, keeping the bindings. *)
Lemma after_manager (P : gevent mcall → Prop) {A} a (f : dbapi → gprog mcall A) :
  issues_only P (ensureManager a) →
  (∀ b, api_RBAC b = api_RBAC a → api_OrgID b = api_OrgID a → issues_only P (f b)) →
  issues_only P (bind (ensureManager a) f).
Proof.
  unfold ensureManager. destruct (api_Manager a); simpl; [auto|].
  intros HP Hf ok. split; [apply HP|]. by apply Hf.
Qed.

Lemma handleDatabases_named now a r :
  api_RBAC a = NewRBACStore → TrimSpace (hr_Principal r) ≠ "" →
  issues_only no_role_needed (handleDatabases now a r).
Proof.
  intros Ha Hp. unfold handleDatabases. apply after_manager; [apply ensureManager_needs|].
  intros b Hb _. rewrite (principal_named r Hp). cbv zeta.
  assert (String.eqb (hr_Principal r) "" = false) as ->.
  { apply String.eqb_neq. intros E. by rewrite E in Hp. }
  rewrite Hb Ha RoleFor_empty. simpl.
  prog_walk ltac:(done).
Qed.

Lemma serve_db_named now b a r :
  api_RBAC a = NewRBACStore → TrimSpace (hr_Principal r) ≠ "" →
  issues_only no_role_needed (serve_db now b a r).
Proof.
  intros Ha Hp. unfold serve_db. destruct (mux_redirects _ _); [done|].
  destruct (mux_match _ _) as [p|]; [|done].
  destruct (String.eqb p "/api/db"); [by apply handleDatabases_named|].
  destruct (String.eqb p "/api/db/health").
  { unfold handle_health. apply after_manager; [apply ensureManager_needs|].
    intros a' _ _. prog_walk ltac:(done). }
  destruct (String.eqb p "/sse/db/"); [unfold handleChangefeed; prog_walk ltac:(done)|].
  eapply issues_only_mono; [|apply subroutes_auth]. intros e. by apply named_authorized.
Qed.

(** No response lists a binding. *)
Definition lists_none (x : dbapi * resp) : Prop :=
  ∀ s l, x.2 = RJson s (PBindings l) → l = [].

Ltac lists_walk :=
  prog_walk ltac:(idtac; lazymatch goal with
    | |- ends_in _ (Ret _) =>
        cbn [ends_in]; intros ? ?; cbn [snd];
        repeat match goal with |- context [match ?x with _ => _ end] => destruct x end;
        discriminate
    end).

Lemma handleRows_lists a r dbID table rest : ends_in lists_none (handleRows a r dbID table rest).
Proof. unfold handleRows. lists_walk. Qed.

Lemma parse_import_error ct body e :
  parse_import ct body = inl e → ∃ s m c, e = RError s m c.
Proof. unfold parse_import. intros. repeat case_match; simplify_eq; eauto. Qed.

Lemma handleImport_lists a r dbID table : ends_in lists_none (handleImport a r dbID table).
Proof.
  unfold handleImport. lists_walk. intros s l Hl. simpl in Hl. subst.
  by apply parse_import_error in Heqs as (? & ? & ? & ?).
Qed.

Lemma handleExport_lists a r dbID table : ends_in lists_none (handleExport a r dbID table).
Proof.
  unfold handleExport. lists_walk. intros s l. unfold csv_of. simpl.
  by repeat case_match.
Qed.

Lemma handleTables_lists a r dbID rest : ends_in lists_none (handleTables a r dbID rest).
Proof.
  unfold handleTables. destruct (negb _); [done|]. destruct rest as [|table [|op more]].
  - unfold handle_table_list. lists_walk.
  - unfold handle_table_item. lists_walk.
  - destruct (String.eqb op "rows"); [apply handleRows_lists|].
    destruct (String.eqb op "views"); [done|].
    destruct (String.eqb op "import"); [apply handleImport_lists|].
    destruct (String.eqb op "export"); [apply handleExport_lists|done].
Qed.

Lemma handlePermissions_lists now a r dbID :
  api_RBAC a = NewRBACStore → lists_none (handlePermissions now a r dbID).
Proof.
  intros Ha. unfold handlePermissions, lists_none. rewrite Ha. intros s l.
  cbv zeta. destruct (String.eqb _ "GET").
  { intros [= <- <-]. unfold NewRBACStore. simpl. by rewrite map_to_list_empty. }
  repeat case_match; discriminate.
Qed.

Lemma route_path_lists now a r :
  api_RBAC a = NewRBACStore → ends_in lists_none (route_path now a r).
Proof.
  intros Ha. unfold route_path. destruct (String.eqb _ ""); [done|].
  destruct (Split "/" _) as [|dbID rest]; [done|]. destruct (String.eqb dbID ""); [done|].
  destruct rest as [|sub more]; simpl; [unfold handle_database_item; lists_walk|].
  destruct (String.eqb sub "tables"); [apply handleTables_lists|].
  destruct (String.eqb sub "audit"); [unfold handle_audit; lists_walk|].
  destruct (String.eqb sub "permissions"); [by apply handlePermissions_lists|done].
Qed.

Lemma serve_db_lists now b a r :
  api_RBAC a = NewRBACStore → ends_in lists_none (serve_db now b a r).
Proof.
  intros Ha. pose proof (ensureManager_keeps a) as Hb. rewrite Ha in Hb.
  unfold serve_db. destruct (mux_redirects _ _); [done|].
  destruct (mux_match _ _) as [p|]; [|done].
  destruct (String.eqb p "/api/db"); [unfold handleDatabases; lists_walk|].
  destruct (String.eqb p "/api/db/health"); [unfold handle_health; lists_walk|].
  destruct (String.eqb p "/sse/db/"); [unfold handleChangefeed; lists_walk|].
  unfold handleDatabaseSubroutes. eapply ends_in_bind_strong; [exact Hb|].
  intros a' [Ha' _]. by apply route_path_lists.
Qed.

(** Requests to the manager on behalf of a request that has no role. *)
Definition mgr_no_role (e : gevent rcall) : Prop :=
  match e with Ev (Mgr c) _ => needs_role c = false | _ => True end.

(** The database API of a cluster is served without role bindings.  Every
    request gets a new, empty store: a caller that names itself has no role, so
    none of its requests queries or changes rows, creates tables or databases
    or changes a schema; a caller that does not is an administrator; and no
    response ever lists a binding, also not after one was granted. *)
Theorem cluster_db_no_bindings d r id path t res :
  runs (cluster_db d r id path) t res →
  (TrimSpace (q_Principal r) ≠ "" → Forall mgr_no_role t)
  ∧ (∀ s l, res = RespDb (RJson s (PBindings l)) → l = [])
  ∧ (TrimSpace (q_Principal r) = "" → ∀ mgr table db,
       roleFor {| api_Manager := mgr; api_OrgID := id; api_RBAC := NewRBACStore |}
         (principal_of (db_request r path)) table db = RoleAdmin).
Proof.
  intros Hr. split; [|split].
  - intros Hp. revert Hr. apply issues_only_runs. unfold cluster_db, cluster_manager.
    prog_walk ltac:(first [exact I | apply issues_only_translate;
      eapply issues_only_mono; [|by apply serve_db_named]; by intros [X c ans]]).
  - intros s l ->. revert Hr. unfold cluster_db.
    intros (t1 & t2 & mgr & -> & _ & Hr)%runs_bind.
    apply runs_req_bind in Hr as (now & t3 & -> & Hr).
    apply runs_bind in Hr as (t4 & t5 & [a' rs] & -> & Hs & [-> [= Hrs]]).
    eapply ends_in_runs in Hs; [|apply ends_in_translate, serve_db_lists; done].
    by eapply (Hs s).
  - intros Hp mgr table db. unfold principal_of, PrincipalFromRequest, roleFor.
    cbn [db_request hr_Principal]. by rewrite Hp.
Qed.

End cluster_db.

Definition named_rq (method path : string) : rq :=
  {| q_Method := method; q_Path := path; q_RemoteAddr := "192.168.1.5:50000";
     q_Authorization := ""; q_APIToken := ""; q_Principal := "user:eve"; q_ContentType := "";
     q_FwdProto := ""; q_Host := ""; q_TLS := false; q_Query := λ _, "";
     q_Body := "{}" |}.

Lemma cluster_db_no_bindings_witness :
  let r := named_rq "GET" "/api/cluster/c1/db/crm/permissions" in
  let p := @cluster_db no_bodies demo_deps r "c1" "/api/db/crm/permissions" in
  (exec mem_router p ∅).2 = RespDb (RJson 200 (PBindings []))
  ∧ Forall mgr_no_role (exec_trace mem_router p ∅).
Proof.
  intros r p. split; [vm_compute; reflexivity|].
  destruct (@cluster_db_no_bindings no_bodies demo_deps r "c1" "/api/db/crm/permissions"
              _ _ (exec_runs mem_router p ∅)) as [H _].
  apply H. vm_compute. discriminate.
Defined.

Lemma cluster_proxy_target_witness :
  let c := {| c_cfg := Some demo_cfg; c_store := HostStore; c_inst := None |} in
  let p := @handleProxy demo_env "c1" "default" "web" "/index.html" empty_Cluster c
             (demo_rq "GET" "/x") in
  let res := (exec mem_router p ∅).2 in
  res = RespProxied (Forward "http" "" "/api/v1/namespaces/default/services/http:web:80/proxy/index.html" "web")
  ∧ ∃ svc, Ev (SvcGet "c1" "default" "web") svc ∈ exec_trace mem_router p ∅.
Proof.
  intros c p res. split; [vm_compute; reflexivity|].
  destruct (@cluster_proxy_target demo_env "c1" "default" "web" "index.html" empty_Cluster c
              (demo_rq "GET" "/x") _ _ ltac:(discriminate) (exec_runs mem_router p ∅))
    as (svc & Hin & _). by exists svc.
Defined.

Lemma workspace_logs_tail_witness :
  let p := @workspace_logs demo_env (demo_rq "GET" "/x") "c1" "default" "web" in
  let res := (exec mem_router p ∅).2 in
  res = RespJson 200 (VLogs ["[p] hello"])
  ∧ (res = RespError 404 "no pods for workspace" "no_pods"
     ∨ (200 < 0 ∧ res = RespPanic)
     ∨ (0 ≤ 200 ∧ ∃ older lines, res = RespJson 200 (VLogs lines)
        ∧ log_lines (exec_trace mem_router p ∅) = older ++ lines
        ∧ length lines = Nat.min (Z.to_nat 200) (length (log_lines (exec_trace mem_router p ∅))))).
Proof.
  intros p res. split; [vm_compute; reflexivity|].
  exact (@workspace_logs_tail demo_env (demo_rq "GET" "/x") "c1" "default" "web" _ _
           (exec_runs mem_router p ∅)).
Defined.

Lemma cluster_health_unreachable_witness :
  let p := @handleCluster ascii_case demo_env no_bodies demo_deps
             (demo_rq "GET" "/api/cluster/c1/health") in
  (exec mem_router p ∅).2 = RespStatus 404
  ∧ Forall (λ e, ¬ is_probe e) (exec_trace mem_router p ∅).
Proof.
  intros p. split; [vm_compute; reflexivity|].
  refine (proj1 (@cluster_health_unreachable ascii_case demo_env no_bodies demo_deps
           (demo_rq "GET" "/api/cluster/c1/health") "c1" _ _ _ _ _ (exec_runs mem_router p ∅)));
    [vm_compute; reflexivity|discriminate|reflexivity].
Defined.
