(* ===== verification/RouterSafety.v ===== *)
(** * Who may change what through the router

    The effects of a request, the credentials a caller can show, and which
    effects each route allows to a caller without them. *)

From S2P Require Import Prelude GoStrings NetAddr Values LocalDb Settings Jobs Proxy Prog.
From S2P Require Import Mux Rbac DbManager DbHandlers Router RouterCluster.

(** ** Effects *)

Definition mgr_mutates {X : Set} (c : mcall X) : bool :=
  match c with
  | MCreateDatabase _ _ _ _ | MDeleteDatabase _ _ | MCreateTable _ _ _
  | MUpdateTableSchema _ _ _ _ _ | MInsertRows _ _ _ _ | MUpdateRow _ _ _ _ _
  | MDeleteRow _ _ _ _ => true
  | _ => false
  end.

(** Requests that change the host's stores, its jobs, a cluster, the tailnet
    or a database. *)
Definition mutates {X : Set} (c : rcall X) : bool :=
  match c with
  | DbPut _ _ _ | DbDelete _ _ | DbSavePublished _ _ | DbDeletePublished _
  | SPutTailscale _ | SPutDatabase _ | SPutGlobal _ | SPutCluster _ _ _ | OnSettingsChanged _
  | JSubmit _ _ | JCancel _ | RegEnsureRDB _ | CfgMapUpdate _ _ _ _ | CfgMapCreate _ _ _ _
  | WsCreate _ _ _ | WsDelete _ _ _ | PFEnsure _ _ _ _ | Publish _ _ _ | Unpublish _ => true
  | Mgr c => mgr_mutates c
  | _ => false
  end.

(** ** Credentials *)

Section credentials.
Context `{UC : UnicodeCase} `{RE : RouterEnv} `{BD : Bodies}.

(** The token, as a bearer token or in X-API-Token; without a configured
    token, a connection from the host itself. *)
Definition credentialed (d : Deps) (r : rq) : bool :=
  let tok := TrimSpace (Token d) in
  if String.eqb tok "" then loopback_client r
  else bearer_ok tok (q_Authorization r) || String.eqb (q_APIToken r) tok.

(** The effects a route grants to every caller. *)
Definition unguarded (path : string) {X : Set} (c : rcall X) : bool :=
  let at_ := String.eqb path in
  let below := HasPrefix path in
  match c with
  | DbPut _ _ _ | DbDelete _ _ | RegEnsureRDB _ => at_ "/bootstrap"
  | SPutTailscale _ => at_ "/bootstrap" || at_ "/settings/tailscale"
  | SPutDatabase _ => at_ "/settings/database"
  | SPutGlobal _ => at_ "/settings/global"
  | SPutCluster _ _ _ => at_ "/bootstrap" || at_ "/api/health" || below "/api/settings/cluster/"
                         || below "/api/cluster/"
  | OnSettingsChanged _ => at_ "/settings/tailscale" || at_ "/settings/database"
                           || at_ "/settings/global" || below "/api/settings/cluster/"
  | CfgMapUpdate _ _ _ _ | CfgMapCreate _ _ _ _ => below "/api/settings/cluster/"
  | PFEnsure _ _ _ _ | Publish _ _ _ | Unpublish _ | DbDeletePublished _ => below "/api/cluster/"
  | Mgr _ => below "/api/cluster/" || below "/sse/cluster/"
  | _ => false
  end.

(** The effects of routes that check credentials. *)
Definition guarded {X : Set} (c : rcall X) : bool :=
  match c with
  | DbPut _ _ _ | DbDelete _ _ | SPutCluster _ _ _ | JSubmit _ _ | JCancel _ | WsCreate _ _ _
  | WsDelete _ _ _ => true
  | _ => false
  end.

Section request.
Variables (d : Deps) (r : rq).

Definition permitted (e : gevent rcall) : Prop :=
  match e with
  | Ev c _ => mutates c = true →
              (credentialed d r = true ∧ guarded c = true) ∨ unguarded (q_Path r) c = true
  end.

Lemma authOK_credentialed m :
  authOK d r = true → String.eqb (q_Method r) m = true → m ≠ "GET" → m ≠ "OPTIONS" →
  credentialed d r = true.
Proof.
  intros Ha Hm Hg Ho. apply String.eqb_eq in Hm. revert Ha. unfold authOK, credentialed.
  by rewrite Hm (proj2 (String.eqb_neq _ _) Hg) (proj2 (String.eqb_neq _ _) Ho).
Qed.

(** The workspace handlers accept fewer callers. *)
Lemma ws_authOK_credentialed : ws_authOK d r = true → credentialed d r = true.
Proof.
  unfold ws_authOK, credentialed. destruct (String.eqb _ ""); simpl; [done|]. by intros ->.
Qed.

(** The caller passed a check on the way. *)
Ltac cred :=
  match goal with
  | H : negb (authOK d r) = false |- _ =>
      apply negb_false_iff in H;
      match goal with
      | Hm : String.eqb (q_Method r) _ = true |- _ => by apply (authOK_credentialed _ H Hm)
      end
  | H : negb (ws_authOK d r) = false |- _ =>
      apply negb_false_iff in H; by apply ws_authOK_credentialed
  end.

(** Close the goal about one request: it changes nothing, the route is open
    (a hypothesis knows the path), or the caller passed a check. *)
Ltac req_permitted :=
  idtac; match goal with
  | |- permitted _ =>
      unfold permitted; first
        [ cbn [mutates mgr_mutates]; discriminate
        | intros _; right; cbn [unguarded];
          match goal with
          | H : q_Path r = _ |- _ => rewrite H; reflexivity
          | H : HasPrefix (q_Path r) _ = true |- _ => rewrite H; by rewrite ?orb_true_r
          end
        | intros _; left; split; [cred|reflexivity] ]
  end.

Lemma readClusterKubeconfig_permitted id : issues_only permitted (readClusterKubeconfig d id).
Proof. unfold readClusterKubeconfig. prog_walk req_permitted. Qed.

Lemma fallback_permitted st id :
  q_Path r = "/api/health" ∨ HasPrefix (q_Path r) "/api/cluster/" = true
  ∨ credentialed d r = true →
  issues_only permitted (ensureProxyFallbackOnTimeout st id).
Proof.
  intros Hp. unfold ensureProxyFallbackOnTimeout.
  prog_walk req_permitted. intros _.
  destruct Hp as [Hp|[Hp|Hp]]; [right|right|by left]; cbn [unguarded].
  - by rewrite Hp.
  - by rewrite Hp !orb_true_r.
Qed.

Lemma applyClusterAPIProxy_permitted cfg st id :
  issues_only permitted (applyClusterAPIProxy cfg st id).
Proof. unfold applyClusterAPIProxy. prog_walk req_permitted. Qed.

(** Walk through a handler. *)
Ltac walk :=
  prog_walk ltac:(first
    [ req_permitted
    | apply readClusterKubeconfig_permitted
    | apply applyClusterAPIProxy_permitted
    | apply fallback_permitted; first [by left | by right; left | right; right; cred] ]).

(** ** The handlers *)

Lemma handleBootstrap_permitted :
  q_Path r = "/bootstrap" → issues_only permitted (handleBootstrap d r).
Proof.
  intros Hp. unfold handleBootstrap, need_db, bootstrap_cluster, prewarm, rollback. walk.
Qed.

Lemma settings_permitted {A : Set} kind (get : rcall A) show (put : string → rcall (result unit)) :
  (∀ a, permitted (Ev get a)) → (∀ b a, permitted (Ev (put b) a)) →
  (∀ a, permitted (Ev (OnSettingsChanged kind) a)) →
  issues_only permitted (settings_handler d r kind get show put).
Proof.
  intros Hg Hput Hn. unfold settings_handler, notify. prog_walk ltac:(auto).
Qed.

Lemma handleSettingsCluster_permitted :
  HasPrefix (q_Path r) "/api/settings/cluster/" = true →
  issues_only permitted (handleSettingsCluster d r).
Proof. intros Hp. unfold handleSettingsCluster, notify, write_configmap. walk. Qed.

Lemma handleJobs_permitted : issues_only permitted (handleJobs d r).
Proof. unfold handleJobs, submit. walk. Qed.

Lemma handleJob_permitted : issues_only permitted (handleJob d r).
Proof. unfold handleJob. walk. Qed.

Lemma mapP_permitted {A B} (f : A → rprog B) l :
  (∀ x, issues_only permitted (f x)) → issues_only permitted (mapP f l).
Proof.
  intros Hf. induction l as [|x l IH]; simpl; [done|].
  apply issues_only_bind; [done|]. intros y. by apply issues_only_bind.
Qed.

Lemma cluster_status_permitted c :
  q_Path r = "/api/health" → issues_only permitted (cluster_status d c).
Proof. intros Hp. unfold cluster_status, registry_health, direct_health. walk. Qed.

Lemma handleHealth_permitted :
  q_Path r = "/api/health" → issues_only permitted (handleHealth d r).
Proof.
  intros Hp. unfold handleHealth.
  prog_walk ltac:(first [req_permitted | apply mapP_permitted; intros ?;
    first [by apply cluster_status_permitted
          | unfold headscale_status, headscaleHealth; prog_walk req_permitted]]).
Qed.

Lemma handle_collection_permitted coll prefix kind typ :
  issues_only permitted (handle_collection d r coll prefix kind typ).
Proof. unfold handle_collection, short_uuid, submit. walk. Qed.

Lemma handleHeadscale_permitted : issues_only permitted (handleHeadscale d r).
Proof.
  unfold handleHeadscale, read_record, delete_record, headscale_endpoint, headscale_preauth,
    headscale_health, get_record, seal, submit. walk.
Qed.

Lemma handleClusterRecord_permitted : issues_only permitted (handleClusterRecord d r).
Proof.
  unfold handleClusterRecord, read_record, delete_record, attach_kubeconfig, join_config,
    join_preauth, cluster_health, cluster_kubeconfig, get_record, mark_ready, need_db, seal, submit.
  walk.
Qed.

(** ** The routes of a cluster *)

Lemma Mgr_permitted {X : Set} (c : mcall X) a :
  HasPrefix (q_Path r) "/api/cluster/" = true ∨ HasPrefix (q_Path r) "/sse/cluster/" = true →
  permitted (Ev (Mgr c) a).
Proof. intros Hp _. right. cbn [unguarded]. destruct Hp as [-> | ->]; by rewrite ?orb_true_r. Qed.

Lemma cluster_db_permitted id path :
  HasPrefix (q_Path r) "/api/cluster/" = true ∨ HasPrefix (q_Path r) "/sse/cluster/" = true →
  issues_only permitted (cluster_db d r id path).
Proof.
  intros Hp. unfold cluster_db, cluster_manager.
  prog_walk ltac:(first [req_permitted | apply issues_only_translate, issues_only_all;
    intros [? ? ?]; apply Mgr_permitted, Hp]).
Qed.

Lemma clusterLocalStatus_permitted id : issues_only permitted (clusterLocalStatus d id).
Proof. unfold clusterLocalStatus. walk. Qed.

Lemma handlePublished_permitted id parts :
  HasPrefix (q_Path r) "/api/cluster/" = true →
  issues_only permitted (handlePublished d r id parts).
Proof. intros Hp. unfold handlePublished. walk. Qed.

Lemma resolve_clients_permitted id :
  HasPrefix (q_Path r) "/api/cluster/" = true → issues_only permitted (resolve_clients d id).
Proof.
  intros Hp. unfold resolve_clients, registry_clients, fallback_clients, client_or_new,
    build_clients, isLocalKubeProxyAvailable.
  walk.
Qed.

Lemma handleProxy_permitted id ns name sub cs c :
  HasPrefix (q_Path r) "/api/cluster/" = true →
  issues_only permitted (handleProxy id ns name sub cs c r).
Proof. intros Hp. unfold handleProxy, port_forward. walk. Qed.

Lemma collect_logs_permitted id ns pods : issues_only permitted (collect_logs id ns pods).
Proof.
  induction pods as [|p pods IH]; [done|]. cbn [collect_logs].
  prog_walk ltac:(first [exact IH | req_permitted]).
Qed.

Lemma workspaces_permitted id ns parts p :
  workspaces_route d r id ns parts = Some p → issues_only permitted p.
Proof.
  unfold workspaces_route. intros Hw. repeat case_match; simplify_eq;
    unfold create_workspace, delete_workspace, workspace_logs, stream_logs, short_uuid;
    prog_walk ltac:(first [req_permitted | apply collect_logs_permitted]).
Qed.

Lemma client_routes_permitted id parts c :
  HasPrefix (q_Path r) "/api/cluster/" = true →
  issues_only permitted (client_routes d r id parts c).
Proof.
  intros Hp. unfold client_routes, list_servers.
  prog_walk ltac:(first
    [ req_permitted | by apply handleProxy_permitted | by eapply workspaces_permitted
    | by apply cluster_db_permitted; left ]).
Qed.

Lemma handleCluster_permitted :
  HasPrefix (q_Path r) "/api/cluster/" = true → issues_only permitted (handleCluster d r).
Proof.
  intros Hp. unfold handleCluster.
  prog_walk ltac:(first
    [ req_permitted | by apply handlePublished_permitted | apply clusterLocalStatus_permitted
    | by apply resolve_clients_permitted | by apply client_routes_permitted ]).
Qed.

Lemma handleClusterSSE_permitted :
  HasPrefix (q_Path r) "/sse/cluster/" = true → issues_only permitted (handleClusterSSE d r).
Proof.
  intros Hp. unfold handleClusterSSE.
  prog_walk ltac:(first [req_permitted | by apply cluster_db_permitted; right]).
Qed.

(** ** Dispatch *)

Lemma handler_permitted pat h :
  (pat, h) ∈ router_table → pattern_matches pat (q_Path r) = true →
  issues_only permitted (h d r).
Proof.
  unfold router_table. rewrite !elem_of_cons elem_of_nil.
  intros Hin Hm.
  repeat (destruct Hin as [[= -> ->]|Hin];
    [first [apply pattern_exact in Hm; [|reflexivity] | apply pattern_subtree in Hm; [|reflexivity]]|]);
    [..|done];
    first
      [ by apply handleBootstrap_permitted | by apply handleSettingsCluster_permitted
      | apply handleJobs_permitted | apply handleJob_permitted
      | by apply handleHealth_permitted | apply handle_collection_permitted
      | apply handleHeadscale_permitted | apply handleClusterRecord_permitted
      | by apply handleCluster_permitted | by apply handleClusterSSE_permitted
      | unfold handleSettingsTailscale, handleSettingsDatabase, handleSettingsGlobal;
        apply settings_permitted; intros; req_permitted
      | unfold handleJobLogs, handleJobStream, handleAudit, handleUIConfig; walk ].
Qed.

Lemma Router_permitted : issues_only permitted (Router d r).
Proof.
  unfold Router. destruct (mux_redirects _ _); [done|].
  destruct (mux_match _ _) as [pat|] eqn:Em; [|done].
  destruct (handler_of pat) as [h|] eqn:Eh; [|done].
  apply mux_match_Some in Em as [_ Hm].
  apply (handler_permitted pat); [|done].
  unfold handler_of in Eh. apply fmap_Some in Eh as ([k h'] & Ef & ->).
  apply find_first_Some in Ef as [Hin Hk]. simpl in Hk. apply String.eqb_eq in Hk as <-. done.
Qed.

Lemma Router_tailscale :
  q_Path r = "/settings/tailscale" → Router d r = handleSettingsTailscale d r.
Proof.
  intros Hp. unfold Router. rewrite Hp.
  assert (mux_redirects router_patterns "/settings/tailscale" = false) as ->
    by (vm_compute; reflexivity).
  assert (mux_match router_patterns "/settings/tailscale" = Some "/settings/tailscale") as ->
    by (vm_compute; reflexivity).
  reflexivity.
Qed.

(** An update of the tailscale settings is carried out. *)
Lemma Router_put_tailscale t res :
  q_Path r = "/settings/tailscale" → q_Method r = "PUT" → has_DB d = true →
  runs (Router d r) t res → ∃ a, Ev (SPutTailscale (dec_tailscale (q_Body r))) a ∈ t.
Proof.
  intros Hp Hm Hdb. rewrite (Router_tailscale Hp).
  unfold handleSettingsTailscale, settings_handler. rewrite Hdb Hm. simpl.
  intros (a & t' & -> & _). exists a. left.
Qed.

End request.


End credentials.

(** A request with the API token, and the same one without it. *)
Definition token_rq (token method path : string) : rq :=
  {| q_Method := method; q_Path := path; q_RemoteAddr := "192.168.1.5:50000";
     q_Authorization := ""; q_APIToken := token; q_Principal := ""; q_ContentType := "";
     q_FwdProto := ""; q_Host := ""; q_TLS := false; q_Query := λ _, ""; q_Body := "{}" |}.

