(* ===== verification/Published.v ===== *)
(** * Published services (internal/api/router.go)

    A service that was port-forwarded is published on the tailnet by a
    listener with a goroutine that accepts on it.  Handlers, accept loops and
    the restore at start-up share the table of listeners, guarded by a mutex,
    and the records in the host's store, which are not.  Each critical section
    and each store operation is one step; the steps of all goroutines
    interleave. *)

From S2P Require Import Prelude.

(** ** State *)

(** An accept loop serves until [Accept] fails; its deferred function then
    closes the listener, removes the table entry and deletes the record. *)
Inductive phase : Type := Serving | Closing.

Record pstate : Type := mkP {
  publishedMap : gmap string nat;          (* key to listener *)
  open_ln : gset nat;                      (* listeners that accept *)
  records : gmap string string;            (* key to address, in the store *)
  loops : gmap nat (string * phase);       (* accept loops, by listener *)
  forgets : list string;                   (* record deletions about to run *)
  todo : list (string * string);           (* records still to be restored *)
  checked : option (string * string);      (* restored key found absent *)
  fresh_ln : nat;
  leftover : gset string                   (* ghost: records of an earlier process
                                              and failed deletions *)
}.

(** The state of a process that starts with the records [r]. *)
Definition start (r : gmap string string) : pstate :=
  mkP ∅ ∅ r ∅ [] [] None 0 (dom r).

(** ** Operations *)

Section operations.
Variable hasDB : bool.

(** A new listener in the table, with its accept loop. *)
Definition add_listener (key : string) (s : pstate) : pstate :=
  let n := fresh_ln s in
  mkP (<[key := n]> (publishedMap s)) ({[n]} ∪ open_ln s) (records s)
      (<[n := (key, Serving)]> (loops s)) (forgets s) (todo s) (checked s) (S n) (leftover s).

Definition save_record (key addr : string) (s : pstate) : pstate :=
  mkP (publishedMap s) (open_ln s) (<[key := addr]> (records s)) (loops s) (forgets s)
      (todo s) (checked s) (fresh_ln s) (leftover s).

Definition forget_later (key : string) (s : pstate) : pstate :=
  if hasDB then
    mkP (publishedMap s) (open_ln s) (records s) (loops s) (key :: forgets s) (todo s)
        (checked s) (fresh_ln s) (leftover s)
  else s.

(** The proxy route: reuse the entry of the service or listen; [ln] is the
    address of the new listener, [saved] whether the record could be written. *)
Definition publish (key : string) (ln : option string) (saved : bool) (s : pstate) : pstate :=
  match publishedMap s !! key, ln with
  | None, Some addr =>
      let s' := add_listener key s in
      if hasDB && saved then save_record key addr s' else s'
  | _, _ => s
  end.

Definition close_ln (n : nat) (s : pstate) : pstate :=
  mkP (publishedMap s) (open_ln s ∖ {[n]}) (records s) (loops s) (forgets s) (todo s)
      (checked s) (fresh_ln s) (leftover s).

(** DELETE: close the listener and leave the rest to its accept loop, or
    delete the record. *)
Definition unpublish (key : string) (s : pstate) : pstate :=
  match publishedMap s !! key with
  | Some n => close_ln n s
  | None => forget_later key s
  end.

(** [Accept] failed: the deferred function closes the listener. *)
Definition accept_error (n : nat) (s : pstate) : pstate :=
  match loops s !! n with
  | Some (key, Serving) =>
      let s' := close_ln n s in
      mkP (publishedMap s') (open_ln s') (records s') (<[n := (key, Closing)]> (loops s'))
          (forgets s') (todo s') (checked s') (fresh_ln s') (leftover s')
  | _ => s
  end.

(** It then removes the entry of its key and goes on to the record. *)
Definition unmap (n : nat) (s : pstate) : pstate :=
  match loops s !! n with
  | Some (key, Closing) =>
      forget_later key
        (mkP (delete key (publishedMap s)) (open_ln s) (records s) (delete n (loops s))
             (forgets s) (todo s) (checked s) (fresh_ln s) (leftover s))
  | _ => s
  end.

Fixpoint remove_key (key : string) (l : list string) : list string :=
  match l with
  | [] => []
  | x :: r => if String.eqb x key then r else x :: remove_key key r
  end.

(** A pending deletion runs; a failure is logged. *)
Definition forget (key : string) (deleted : bool) (s : pstate) : pstate :=
  if existsb (String.eqb key) (forgets s) then
    mkP (publishedMap s) (open_ln s) (if deleted then delete key (records s) else records s)
        (loops s) (remove_key key (forgets s)) (todo s) (checked s) (fresh_ln s)
        (if deleted then leftover s else {[key]} ∪ leftover s)
  else s.

(** [RestorePublishedMappings]: list the records once, *)
Definition restore_begin (s : pstate) : pstate :=
  if hasDB then
    mkP (publishedMap s) (open_ln s) (records s) (loops s) (forgets s)
        (map_to_list (records s)) None (fresh_ln s) (leftover s)
  else s.

(** skip the services that are published or whose cluster has no connector, *)
Definition restore_check (usable : bool) (s : pstate) : pstate :=
  match todo s, checked s with
  | p :: rest, None =>
      mkP (publishedMap s) (open_ln s) (records s) (loops s) (forgets s) rest
          (if usable && bool_decide (publishedMap s !! p.1 = None) then Some p else None)
          (fresh_ln s) (leftover s)
  | _, _ => s
  end.

(** and listen for the others, after the mutex was released. *)
Definition restore_store (listens : bool) (s : pstate) : pstate :=
  match checked s with
  | Some p =>
      let s' := if listens then add_listener p.1 s else s in
      mkP (publishedMap s') (open_ln s') (records s') (loops s') (forgets s') (todo s') None
          (fresh_ln s') (leftover s')
  | None => s
  end.

(** ** Interleavings *)

(** [restores] says whether the restore runs at all. *)
Inductive pstep (restores : bool) : pstate → pstate → Prop :=
  | P_publish key ln saved s : pstep restores s (publish key ln saved s)
  | P_unpublish key s : pstep restores s (unpublish key s)
  | P_accept_error n s : pstep restores s (accept_error n s)
  | P_unmap n s : pstep restores s (unmap n s)
  | P_forget key deleted s : pstep restores s (forget key deleted s)
  | P_restore_begin s : restores = true → pstep restores s (restore_begin s)
  | P_restore_check usable s : restores = true → pstep restores s (restore_check usable s)
  | P_restore_store listens s : restores = true → pstep restores s (restore_store listens s).

Definition reachable (restores : bool) (r : gmap string string) (s : pstate) : Prop :=
  rtc (pstep restores) (start r) s.

End operations.

(** ** What always holds *)

(** Table entries have an accept loop, open listeners are served, listeners
    are numbered, and a record without an entry is about to be deleted. *)
Record pinv (hasDB : bool) (s : pstate) : Prop := {
  inv_loop : ∀ key n, publishedMap s !! key = Some n → ∃ ph, loops s !! n = Some (key, ph);
  inv_open : ∀ n, n ∈ open_ln s → ∃ key, loops s !! n = Some (key, Serving);
  inv_fresh : ∀ n x, loops s !! n = Some x → (n < fresh_ln s)%nat;
  inv_record : hasDB = true → ∀ key, is_Some (records s !! key) →
    is_Some (publishedMap s !! key) ∨ key ∈ forgets s ∨ key ∈ leftover s
}.

(** Without a restore, every accept loop owns the entry of its key. *)
Definition owned (s : pstate) : Prop :=
  ∀ n key ph, loops s !! n = Some (key, ph) → publishedMap s !! key = Some n.

Lemma remove_key_elem key k l : k ∈ l → k ≠ key → k ∈ remove_key key l.
Proof.
  induction l as [|x l IH]; simpl; [done|]. rewrite elem_of_cons. intros [->|Hin] Hne.
  - rewrite (proj2 (String.eqb_neq _ _) Hne). left.
  - destruct (String.eqb x key); [done|]. right. auto.
Qed.

Section invariant.
Variable hasDB : bool.
Abbreviation inv := (pinv hasDB).

Lemma pinv_start r : inv (start r).
Proof.
  split; simpl; [intros ?? H; by rewrite lookup_empty in H|set_solver| |].
  - intros ?? H. by rewrite lookup_empty in H.
  - intros _ key Hk. right. right. by apply elem_of_dom.
Qed.

Lemma add_listener_inv key s : inv s → inv (add_listener key s).
Proof.
  intros [H1 H2 H3 H4].
  assert (∀ n x, loops s !! n = Some x → n ≠ fresh_ln s) as Hf
    by (intros n x Hx ->; apply H3 in Hx; lia).
  split; simpl.
  - intros k n [[-> <-]|[? Hk]]%lookup_insert_Some; [rewrite lookup_insert_eq; eauto|].
    apply H1 in Hk as [ph Hk]. rewrite lookup_insert_ne; [eauto|]. intros <-. by eapply Hf.
  - intros n [->%elem_of_singleton|Hn]%elem_of_union; [rewrite lookup_insert_eq; eauto|].
    apply H2 in Hn as [k Hn]. rewrite lookup_insert_ne; [eauto|]. intros <-. by eapply Hf.
  - intros n x [[<- _]|[_ Hx]]%lookup_insert_Some; [lia|]. apply H3 in Hx. lia.
  - intros Hdb k Hk. destruct (decide (k = key)) as [->|?].
    + left. by rewrite lookup_insert_eq.
    + rewrite lookup_insert_ne; auto.
Qed.

Lemma add_listener_owned key s :
  inv s → owned s → publishedMap s !! key = None → owned (add_listener key s).
Proof.
  intros Hi Ho Hn n k ph. simpl. intros [[<- [= -> _]]|[_ Hx]]%lookup_insert_Some.
  - by rewrite lookup_insert_eq.
  - apply Ho in Hx. rewrite lookup_insert_ne; [done|]. congruence.
Qed.

Lemma forget_later_inv key s : inv s → inv (forget_later hasDB key s).
Proof.
  unfold forget_later. destruct hasDB eqn:Edb; [|done]. intros [H1 H2 H3 H4].
  split; try done. simpl. intros _ k Hk.
  destruct (H4 eq_refl k Hk) as [?|[?|?]]; auto. right. left. by right.
Qed.

Lemma close_ln_inv n s : inv s → inv (close_ln n s).
Proof. intros [H1 H2 H3 H4]. split; try done. simpl. set_solver. Qed.

Lemma publish_pinv key ln saved s : inv s → inv (publish hasDB key ln saved s).
Proof.
  intros Hi. unfold publish. destruct (publishedMap s !! key) eqn:E; [done|].
  destruct ln as [addr|]; [|done]. pose proof (add_listener_inv key s Hi) as Ha.
  destruct (hasDB && saved); [|done]. destruct Ha as [H1 H2 H3 H4].
  split; [done|done|done|]. intros Hdb k. simpl. destruct (decide (k = key)) as [->|?].
  - intros _. left. by rewrite lookup_insert_eq.
  - rewrite lookup_insert_ne //. by apply H4.
Qed.

Lemma accept_error_inv n s : inv s → inv (accept_error n s).
Proof.
  intros Hi. unfold accept_error. destruct (loops s !! n) as [[key []]|] eqn:E; [|done..].
  destruct Hi as [H1 H2 H3 H4]. split; simpl; [| | |done].
  - intros k m Hk. apply H1 in Hk as [ph Hk]. destruct (decide (m = n)) as [->|?].
    + rewrite lookup_insert_eq. simplify_eq. eauto.
    + rewrite lookup_insert_ne; eauto.
  - intros m [Hm Hne]%elem_of_difference. rewrite lookup_insert_ne; [auto|set_solver].
  - intros m x [[<- _]|[_ Hx]]%lookup_insert_Some; eauto.
Qed.

(** Removing the entry of a key leaves its record to the deletion that
    follows. *)
Lemma unmap_inv n s : inv s → inv (unmap hasDB n s).
Proof.
  intros Hi. unfold unmap. destruct (loops s !! n) as [[key []]|] eqn:E; [done| |done].
  destruct Hi as [H1 H2 H3 H4]. unfold forget_later. destruct hasDB eqn:Edb; (split; simpl; [| | |]).
  1,5: intros k m [Hne Hk]%lookup_delete_Some; apply H1 in Hk as [ph Hk];
    rewrite lookup_delete_ne; [by eauto|]; intros ->; by simplify_eq.
  1,4: intros m Hm; apply H2 in Hm as [k Hm]; rewrite lookup_delete_ne; [by eauto|];
    intros ->; by simplify_eq.
  1,3: intros m x [_ Hx]%lookup_delete_Some; by eauto.
  - intros _ k Hk. destruct (decide (k = key)) as [->|?]; [right; left; left|].
    rewrite lookup_delete_ne //. destruct (H4 eq_refl k Hk) as [?|[?|?]]; auto.
    right. left. by right.
  - done.
Qed.

Lemma forget_inv key deleted s : inv s → inv (forget key deleted s).
Proof.
  intros Hi. unfold forget. destruct (existsb _ _); [|done].
  destruct Hi as [H1 H2 H3 H4]. split; [done|done|done|]. simpl. intros Hdb k Hk.
  destruct (decide (k = key)) as [->|Hne].
  { destruct deleted; [by rewrite lookup_delete_eq in Hk; destruct Hk|set_solver]. }
  assert (is_Some (records s !! k)) as Hr.
  { destruct deleted; [by rewrite lookup_delete_ne in Hk|done]. }
  destruct (H4 Hdb k Hr) as [?|[?|?]]; [by left| |].
  - right. left. by apply remove_key_elem.
  - right. right. destruct deleted; set_solver.
Qed.

Lemma pstep_inv restores s s' : pstep hasDB restores s s' → inv s → inv s'.
Proof.
  intros [] Hi.
  - by apply publish_pinv.
  - unfold unpublish. case_match; [by apply close_ln_inv|by apply forget_later_inv].
  - by apply accept_error_inv.
  - by apply unmap_inv.
  - by apply forget_inv.
  - unfold restore_begin. destruct hasDB; [|done]. by destruct Hi.
  - unfold restore_check. repeat case_match; try done; by destruct Hi.
  - unfold restore_store. destruct (checked _) as [p|]; [|done].
    destruct listens; [apply (add_listener_inv p.1) in Hi|]; by destruct Hi.
Qed.

Lemma pstep_owned s s' : pstep hasDB false s s' → inv s → owned s → owned s'.
Proof.
  intros [key ln saved|key|n|n|key deleted| | |]  Hi Ho; try done.
  - unfold publish. destruct (publishedMap _ !! key) eqn:E; [done|]. destruct ln as [a|]; [|done].
    destruct (hasDB && saved); by apply add_listener_owned.
  - unfold unpublish, forget_later. by repeat case_match.
  - unfold accept_error. destruct (loops _ !! n) as [[key []]|] eqn:E; [|done..].
    intros m k ph. simpl. intros [[<- [= <- _]]|[_ Hx]]%lookup_insert_Some; eauto.
  - unfold unmap, forget_later. destruct (loops _ !! n) as [[key []]|] eqn:E; [done| |done].
    assert (∀ m k ph, delete n (loops s0) !! m = Some (k, ph) →
                      delete key (publishedMap s0) !! k = Some m) as Hd.
    { intros m k ph [Hne Hx]%lookup_delete_Some. apply Ho in Hx as Hk, E.
      rewrite lookup_delete_ne; congruence. }
    by destruct hasDB.
  - unfold forget. by case_match.
Qed.

Lemma reachable_inv restores r s : reachable hasDB restores r s → inv s.
Proof.
  unfold reachable. intros Hr. pose proof (pinv_start r) as Hi.
  induction Hr as [|x y z Hs _ IH]; [done|]. apply IH. by eapply pstep_inv.
Qed.

Lemma reachable_owned r s : reachable hasDB false r s → owned s.
Proof.
  unfold reachable. intros Hr. pose proof (pinv_start r) as Hi.
  assert (owned (start r)) as Ho by (intros n k ph H; by rewrite lookup_empty in H).
  induction Hr as [|x y z Hs _ IH]; [done|].
  apply IH; [by eapply pstep_inv|by eapply pstep_owned].
Qed.

End invariant.



(** ** What the interleavings allow *)

(** Run a list of operations. *)
Definition run_ops (l : list (pstate → pstate)) (s : pstate) : pstate := foldl (λ s f, f s) s l.

(** Publish, unpublish and publish again; the second publication comes
    between the two halves of the first one's clean-up. *)
Definition republish (key addr : string) : list (pstate → pstate) :=
  [publish true key (Some addr) true; unpublish true key; accept_error 0; unmap true 0;
   publish true key (Some addr) true; forget key true].

(** A restore that lists the record of a service published while it runs; the
    first listener's clean-up then removes the second one's entry. *)
Definition restore_race (key addr : string) : list (pstate → pstate) :=
  [restore_begin true; restore_check true; publish true key (Some addr) true; restore_store true;
   accept_error 0; unmap true 0; forget key true].

Lemma run_reachable hasDB restores r l s :
  reachable hasDB restores r s →
  Forall (λ f, ∀ x, pstep hasDB restores x (f x)) l → reachable hasDB restores r (run_ops l s).
Proof.
  intros Hs Hl. revert s Hs. induction Hl as [|f l Hf _ IH]; intros s Hs; simpl; [done|].
  apply IH. by eapply rtc_r.
Qed.

Lemma run_cons f l s : run_ops (f :: l) s = run_ops l (f s).
Proof. done. Qed.

(** One operation at a time on a known state. *)
Lemma publish_new key addr s :
  publishedMap s !! key = None →
  publish true key (Some addr) true s = save_record key addr (add_listener key s).
Proof. unfold publish. by intros ->. Qed.

Lemma publish_reuse key n ln saved s :
  publishedMap s !! key = Some n → publish true key ln saved s = s.
Proof. unfold publish. by intros ->. Qed.

Lemma unpublish_open key n s :
  publishedMap s !! key = Some n → unpublish true key s = close_ln n s.
Proof. unfold unpublish. by intros ->. Qed.

Lemma unpublish_absent key s :
  publishedMap s !! key = None → unpublish true key s = forget_later true key s.
Proof. unfold unpublish. by intros ->. Qed.

Lemma accept_error_serving n key s :
  loops s !! n = Some (key, Serving) →
  accept_error n s
  = mkP (publishedMap s) (open_ln s ∖ {[n]}) (records s) (<[n := (key, Closing)]> (loops s))
        (forgets s) (todo s) (checked s) (fresh_ln s) (leftover s).
Proof. unfold accept_error. by intros ->. Qed.

Lemma unmap_closing n key s :
  loops s !! n = Some (key, Closing) →
  unmap true n s
  = mkP (delete key (publishedMap s)) (open_ln s) (records s) (delete n (loops s))
        (key :: forgets s) (todo s) (checked s) (fresh_ln s) (leftover s).
Proof. unfold unmap. by intros ->. Qed.

Lemma forget_head key s l :
  forgets s = key :: l →
  forget key true s
  = mkP (publishedMap s) (open_ln s) (delete key (records s)) (loops s) l (todo s) (checked s)
        (fresh_ln s) (leftover s).
Proof. unfold forget. intros ->. simpl. by rewrite String.eqb_refl. Qed.

Lemma restore_check_absent key addr s rest :
  todo s = (key, addr) :: rest → checked s = None → publishedMap s !! key = None →
  restore_check true s
  = mkP (publishedMap s) (open_ln s) (records s) (loops s) (forgets s) rest
        (Some (key, addr)) (fresh_ln s) (leftover s).
Proof. unfold restore_check. intros -> -> Hn. simpl. by rewrite bool_decide_eq_true_2. Qed.

Lemma restore_store_listens key addr s :
  checked s = Some (key, addr) →
  restore_store true s
  = (let s' := add_listener key s in
     mkP (publishedMap s') (open_ln s') (records s') (loops s') (forgets s') (todo s') None
         (fresh_ln s') (leftover s')).
Proof. unfold restore_store. by intros ->. Qed.

Ltac side := cbn; by simplify_map_eq.

(** Evaluate the operations of a run. *)
Ltac run_op :=
  rewrite run_cons; first
    [ erewrite publish_new by side | erewrite unpublish_open by side
    | erewrite accept_error_serving by side | erewrite unmap_closing by side
    | erewrite forget_head by reflexivity | erewrite restore_check_absent by side
    | erewrite restore_store_listens by reflexivity ].

(** What goes wrong when the steps of two goroutines interleave, with
    every store operation succeeding.  First, a service that is unpublished
    and published again can lose its record to the clean-up of its first
    listener: it is served but not restored after a restart.  Second, a
    request that arrives right after DELETE reuses the closed listener.
    Third, a service published while its record is being restored gets two
    listeners, and afterwards one of them is open without an entry: DELETE
    cannot close it. *)
Theorem published_races key addr :
  (∃ s, reachable true false ∅ s ∧ publishedMap s !! key = Some 1%nat ∧ 1%nat ∈ open_ln s
        ∧ loops s !! 1%nat = Some (key, Serving) ∧ loops s !! 0%nat = None
        ∧ forgets s = [] ∧ records s !! key = None)
  ∧ (∃ s n, reachable true false ∅ s ∧ publish true key (Some addr) true s = s
        ∧ publishedMap s !! key = Some n ∧ n ∉ open_ln s)
  ∧ (∃ s, reachable true true {[key := addr]} s ∧ 1%nat ∈ open_ln s
        ∧ loops s !! 1%nat = Some (key, Serving) ∧ publishedMap s !! key = None
        ∧ records s !! key = None ∧ 1%nat ∈ open_ln (unpublish true key s)).
Proof.
  split; [|split].
  - exists (run_ops (republish key addr) (start ∅)). split.
    { apply run_reachable; [apply rtc_refl|]. repeat constructor. }
    unfold republish. repeat run_op. cbn.
    split_and!; simplify_map_eq; try done; set_solver.
  - exists (run_ops [publish true key (Some addr) true; unpublish true key] (start ∅)), 0%nat. split.
    { apply run_reachable; [apply rtc_refl|]. repeat constructor. }
    assert (run_ops [publish true key (Some addr) true; unpublish true key] (start ∅)
      = close_ln 0 (save_record key addr (add_listener key (start ∅)))) as ->
      by (repeat run_op; done).
    split; [apply (publish_reuse _ 0); side|]. cbn. split; [by simplify_map_eq|set_solver].
  - exists (run_ops (restore_race key addr) (start {[key := addr]})). split.
    { apply run_reachable; [apply rtc_refl|]. repeat constructor. }
    unfold restore_race. rewrite run_cons.
    assert (restore_begin true (start {[key := addr]})
      = mkP ∅ ∅ {[key := addr]} ∅ [] [(key, addr)] None 0 {[key]}) as ->.
    { unfold restore_begin. cbn. by rewrite map_to_list_singleton dom_singleton_L. }
    repeat run_op. rewrite unpublish_absent; [|side]. cbn.
    split_and!; simplify_map_eq; try done; set_solver.
Qed.
