(* ===== verification/Store.v ===== *)
(** * The in-memory store (internal/store/store.go)

    Servers with their log lines and subscribers, and the registry of agents.
    Every operation holds the store's lock, except that a cancelled
    subscription closes its channel after releasing it. *)

From S2P Require Import Prelude GoStrings Values.

Local Open Scope Z_scope.

(** ** State *)

Record perServerLogs : Type := {
  pl_Info : list LogLine; pl_Debug : list LogLine; pl_Error : list LogLine
}.

Definition no_logs : perServerLogs := {| pl_Info := []; pl_Debug := []; pl_Error := [] |}.

(** Channels are numbered; [st_topic] is the key a channel was subscribed
    under and [st_closing] the channels whose cancel function has released the
    lock and is about to close them. *)
Record Store : Type := mkStore {
  st_servers : gmap string Server;
  st_logs : gmap string perServerLogs;
  st_subs : gmap string (gset nat);
  st_chans : gmap nat (list LogLine);
  st_topic : gmap nat string;
  st_closing : gset nat;
  st_closed : gset nat;
  st_agents : gmap string AgentRecord
}.

Definition NewStore : Store := mkStore ∅ ∅ ∅ ∅ ∅ ∅ ∅ ∅.

(** [time.Parse(time.RFC3339, _)], as seconds. *)
Class TimeParse := parse_time : string → option Z.

(** ** Servers *)

Definition or_else (s d : string) : string := if String.eqb s "" then d else s.

(** The fields the store fills in. *)
Definition stamped (now : string) (srv : Server) : Server :=
  {| srv_ID := srv_ID srv; srv_Name := srv_Name srv; srv_Image := srv_Image srv;
     srv_Status := or_else (srv_Status srv) "running"; srv_Node := srv_Node srv;
     srv_CreatedAt := or_else (srv_CreatedAt srv) now; srv_UpdatedAt := now;
     srv_Ports := srv_Ports srv; srv_Resources := srv_Resources srv; srv_Args := srv_Args srv;
     srv_Env := srv_Env srv; srv_Events := srv_Events srv; srv_URL := srv_URL srv |}.

Definition UpsertServer (now : string) (srv : Server) (s : Store) : Store :=
  mkStore (<[srv_ID srv := stamped now srv]> (st_servers s))
    (match st_logs s !! srv_ID srv with
     | Some _ => st_logs s
     | None => <[srv_ID srv := no_logs]> (st_logs s)
     end)
    (st_subs s) (st_chans s) (st_topic s) (st_closing s) (st_closed s) (st_agents s).

Definition GetServers (s : Store) : list Server := (map_to_list (st_servers s)).*2.
Definition GetServer (id : string) (s : Store) : option Server := st_servers s !! id.

(** ** Logs *)

Definition log_key (id level : string) : string := id +:+ "|" +:+ level.

(** Unknown levels are kept with the info lines. *)
Definition add_line (l : perServerLogs) (level : string) (x : LogLine) : perServerLogs :=
  if String.eqb level "debug" then
    {| pl_Info := pl_Info l; pl_Debug := pl_Debug l ++ [x]; pl_Error := pl_Error l |}
  else if String.eqb level "error" then
    {| pl_Info := pl_Info l; pl_Debug := pl_Debug l; pl_Error := pl_Error l ++ [x] |}
  else {| pl_Info := pl_Info l ++ [x]; pl_Debug := pl_Debug l; pl_Error := pl_Error l |}.

Definition lines_of (l : perServerLogs) (level : string) : list LogLine :=
  if String.eqb level "debug" then pl_Debug l
  else if String.eqb level "error" then pl_Error l else pl_Info l.

Definition sub_cap : nat := 64.

(** A send that does not block: dropped when the buffer is full. *)
Definition send_line (x : LogLine) (ch : nat) (cs : gmap nat (list LogLine))
    : gmap nat (list LogLine) :=
  match cs !! ch with
  | Some b => if (length b <? sub_cap)%nat then <[ch := b ++ [x]]> cs else cs
  | None => cs
  end.

(** [None] is a panic: a send on a closed channel. *)
Definition AppendLog (now id level msg : string) (s : Store) : option (Store * result LogLine) :=
  match st_logs s !! id with
  | None => Some (s, Err "unknown server")
  | Some l =>
      let line := {| ll_T := now; ll_LVL := level; ll_MSG := msg |} in
      let to := default ∅ (st_subs s !! log_key id level) in
      if bool_decide (to ∩ st_closed s = ∅) then
        Some (mkStore (st_servers s) (<[id := add_line l level line]> (st_logs s)) (st_subs s)
                (set_fold (send_line line) (st_chans s) to) (st_topic s) (st_closing s)
                (st_closed s) (st_agents s), Ok line)
      else None
  end.

Definition GetLogs (id level : string) (limit : Z) (s : Store) : result (list LogLine) :=
  match st_logs s !! id with
  | None => Err "unknown server"
  | Some l =>
      let src := lines_of l level in
      let n := Z.of_nat (length src) in
      if (limit <=? 0) || (n <=? limit) then Ok src else Ok (drop (Z.to_nat (n - limit)) src)
  end.

Definition SubscribeLogs (id level : string) (s : Store) : Store * nat :=
  let ch := fresh (dom (st_chans s)) in
  let k := log_key id level in
  (mkStore (st_servers s) (st_logs s) (<[k := {[ch]} ∪ default ∅ (st_subs s !! k)]> (st_subs s))
     (<[ch := []]> (st_chans s)) (<[ch := k]> (st_topic s)) (st_closing s) (st_closed s)
     (st_agents s), ch).

(** The cancel function under the lock, *)
Definition unsubscribe (ch : nat) (s : Store) : Store :=
  match st_topic s !! ch with
  | Some k =>
      mkStore (st_servers s) (st_logs s) (<[k := default ∅ (st_subs s !! k) ∖ {[ch]}]> (st_subs s))
        (st_chans s) (st_topic s) ({[ch]} ∪ st_closing s) (st_closed s) (st_agents s)
  | None => s
  end.

(** and after it; [sync.Once] makes a second call do nothing. *)
Definition close_sub (ch : nat) (s : Store) : Store :=
  if bool_decide (ch ∈ st_closing s) then
    mkStore (st_servers s) (st_logs s) (st_subs s) (st_chans s) (st_topic s) (st_closing s)
      ({[ch]} ∪ st_closed s) (st_agents s)
  else s.

(** ** Agents *)

Definition agentKey (org id : string) : string := org +:+ "|" +:+ id.

Definition with_agents (s : Store) (m : gmap string AgentRecord) : Store :=
  mkStore (st_servers s) (st_logs s) (st_subs s) (st_chans s) (st_topic s) (st_closing s)
    (st_closed s) m.

Definition seen (now : string) (a : AgentRecord) : AgentRecord :=
  {| ag_ID := ag_ID a; ag_Org := ag_Org a; ag_Hostname := ag_Hostname a; ag_IP := ag_IP a;
     ag_Ports := ag_Ports a; ag_Capabilities := ag_Capabilities a; ag_Version := ag_Version a;
     ag_LastSeen := or_else (ag_LastSeen a) now |}.

Definition UpsertAgent (now : string) (a : AgentRecord) (s : Store) : Store :=
  with_agents s (<[agentKey (ag_Org a) (ag_ID a) := seen now a]> (st_agents s)).

Definition GetAgent (org id : string) (s : Store) : option AgentRecord :=
  st_agents s !! agentKey org id.

(** An empty organisation lists every agent. *)
Definition ListAgents (org : string) (s : Store) : list AgentRecord :=
  (List.filter (λ kv, String.eqb org "" || HasPrefix kv.1 (org +:+ "|"))
     (map_to_list (st_agents s))).*2.

(** Seen before the cut-off; an unreadable time is never pruned. *)
Definition stale `{TimeParse} (cutoff : Z) (a : AgentRecord) : bool :=
  match parse_time (ag_LastSeen a) with Some t => t <? cutoff | None => false end.

Definition PruneAgents `{TimeParse} (cutoff : Z) (s : Store) : Store * nat :=
  let old := filter (λ kv : string * AgentRecord, stale cutoff kv.2 = true) (st_agents s) in
  (with_agents s (filter (λ kv : string * AgentRecord, stale cutoff kv.2 = false) (st_agents s)),
   size old).

(** ** Steps *)

Inductive store_step : Store → Store → Prop :=
  | S_server now srv s : store_step s (UpsertServer now srv s)
  | S_log now id level msg s s' r :
      AppendLog now id level msg s = Some (s', r) → store_step s s'
  | S_subscribe id level s : store_step s (SubscribeLogs id level s).1
  | S_unsubscribe ch s : store_step s (unsubscribe ch s)
  | S_close ch s : store_step s (close_sub ch s)
  | S_agent now a s : store_step s (UpsertAgent now a s)
  | S_prune `{TimeParse} cutoff s : store_step s (PruneAgents cutoff s).1.

Definition store_reachable (s : Store) : Prop := rtc store_step NewStore s.

(** ** Subscriptions *)

Record subs_inv (s : Store) : Prop := {
  si_open : ∀ k ch, ch ∈ default ∅ (st_subs s !! k) →
              st_topic s !! ch = Some k ∧ ch ∉ st_closing s;
  si_topic : dom (st_topic s) = dom (st_chans s);
  si_closed : st_closed s ⊆ st_closing s;
  si_closing : st_closing s ⊆ dom (st_chans s);
  si_buf : map_Forall (λ _ b, (length b ≤ sub_cap)%nat) (st_chans s);
  si_logs : dom (st_servers s) ⊆ dom (st_logs s)
}.

(** Sending keeps the channels and their bounds. *)
Definition same_chans (a b : gmap nat (list LogLine)) : Prop :=
  dom a = dom b ∧ map_Forall (λ _ l, (length l ≤ sub_cap)%nat) b.

Lemma send_line_bounds x ch cs :
  map_Forall (λ _ l, (length l ≤ sub_cap)%nat) cs → same_chans cs (send_line x ch cs).
Proof.
  intros Hb. unfold send_line. destruct (cs !! ch) as [b|] eqn:E; [|done].
  destruct (Nat.ltb_spec (length b) sub_cap); [|done]. split.
  - rewrite dom_insert_L. apply elem_of_dom_2 in E. set_solver.
  - apply map_Forall_insert_2; [|done]. rewrite length_app. simpl. lia.
Qed.

Lemma sends_bounds x (to : gset nat) cs :
  map_Forall (λ _ l, (length l ≤ sub_cap)%nat) cs →
  same_chans cs (set_fold (send_line x) cs to).
Proof.
  intros Hb. apply (set_fold_ind_L (λ r _, same_chans cs r)); [done|].
  intros ch X r _ [Hd Hr]. destruct (send_line_bounds x ch r Hr) as [Hd' Hr'].
  split; [congruence|done].
Qed.

Lemma NewStore_inv : subs_inv NewStore.
Proof.
  split; simpl; [|set_solver|set_solver|set_solver|apply map_Forall_empty|set_solver].
  intros k ch. rewrite lookup_empty. simpl. set_solver.
Qed.

Lemma UpsertServer_inv now srv s : subs_inv s → subs_inv (UpsertServer now srv s).
Proof.
  intros [H1 H2 H3 H4 H5 H6]. split; try done. simpl. rewrite dom_insert_L.
  destruct (st_logs s !! srv_ID srv) eqn:E; [apply elem_of_dom_2 in E|rewrite dom_insert_L];
    set_solver.
Qed.

Lemma AppendLog_inv now id level msg s s' r :
  AppendLog now id level msg s = Some (s', r) → subs_inv s → subs_inv s'.
Proof.
  unfold AppendLog. intros Ha [H1 H2 H3 H4 H5 H6]. destruct (st_logs s !! id) as [l|] eqn:E.
  - destruct (bool_decide _); simplify_eq. set (x := Build_LogLine _ _ _).
    destruct (sends_bounds x (default ∅ (st_subs s !! log_key id level)) _ H5) as [Hd Hb].
    split; simpl; rewrite -?Hd; try done. rewrite dom_insert_L. set_solver.
  - by simplify_eq.
Qed.

Lemma SubscribeLogs_subs id level s : subs_inv s → subs_inv (SubscribeLogs id level s).1.
Proof.
  intros [H1 H2 H3 H4 H5 H6]. unfold SubscribeLogs. cbv zeta.
  set (ch := fresh (dom (st_chans s))).
  assert (ch ∉ dom (st_chans s)) as Hf by apply is_fresh.
  split; simpl; rewrite ?dom_insert_L; [| |done| | |done].
  - intros k c Hc. destruct (decide (k = log_key id level)) as [->|Hk].
    + rewrite lookup_insert_eq in Hc. simpl in Hc.
      apply elem_of_union in Hc as [->%elem_of_singleton|Hc].
      * rewrite lookup_insert_eq. split; [done|set_solver].
      * apply H1 in Hc as [Ht Hc]. rewrite lookup_insert_ne; [done|].
        intros ->. apply Hf. rewrite -H2. by eapply elem_of_dom_2.
    + rewrite lookup_insert_ne in Hc; [|done]. apply H1 in Hc as [Ht Hc].
      rewrite lookup_insert_ne; [done|].
      intros ->. apply Hf. rewrite -H2. by eapply elem_of_dom_2.
  - by rewrite H2.
  - set_solver.
  - apply map_Forall_insert_2; [simpl; lia|done].
Qed.

Lemma unsubscribe_inv ch s : subs_inv s → subs_inv (unsubscribe ch s).
Proof.
  intros [H1 H2 H3 H4 H5 H6]. unfold unsubscribe.
  destruct (st_topic s !! ch) as [k|] eqn:E; [|done].
  apply elem_of_dom_2 in E as Hch. split; simpl; [|done|set_solver|set_solver|done|done].
  intros k' c Hc. destruct (decide (k' = k)) as [->|Hk].
  - rewrite lookup_insert_eq in Hc. simpl in Hc. apply elem_of_difference in Hc as [Hc Hne].
    apply H1 in Hc. set_solver.
  - rewrite lookup_insert_ne in Hc; [|done]. apply H1 in Hc as [Ht Hc]. split; [done|].
    intros [->%elem_of_singleton|?]%elem_of_union; [congruence|done].
Qed.

Lemma close_sub_inv ch s : subs_inv s → subs_inv (close_sub ch s).
Proof.
  intros [H1 H2 H3 H4 H5 H6]. unfold close_sub. case_bool_decide; [|done].
  split; simpl; try done. set_solver.
Qed.

Lemma store_step_inv s s' : store_step s s' → subs_inv s → subs_inv s'.
Proof.
  intros [] Hi; [by apply UpsertServer_inv|by eapply AppendLog_inv|by apply SubscribeLogs_subs
    |by apply unsubscribe_inv|by apply close_sub_inv|by destruct Hi..].
Qed.

Lemma store_reachable_inv s : store_reachable s → subs_inv s.
Proof.
  intros Hr. pose proof NewStore_inv as Hi. unfold store_reachable in Hr.
  induction Hr as [|x y z Hs _ IH]; [done|]. apply IH. by eapply store_step_inv.
Qed.

(** ** Log lines *)

Lemma lines_of_add_same l level x : lines_of (add_line l level x) level = lines_of l level ++ [x].
Proof. unfold lines_of, add_line. by repeat (case_match; simpl). Qed.

Lemma GetLogs_tail id level limit s l :
  st_logs s !! id = Some l → 0 < limit →
  ∃ older, ∃ lines, GetLogs id level limit s = Ok lines ∧ lines_of l level = older ++ lines
    ∧ length lines = Nat.min (Z.to_nat limit) (length (lines_of l level)).
Proof.
  intros Hl Hlim. unfold GetLogs. rewrite Hl. cbv zeta. set (src := lines_of l level).
  destruct (Z.leb_spec limit 0); [lia|]. simpl.
  destruct (Z.leb_spec (Z.of_nat (length src)) limit).
  - exists [], src. split; [done|]. split; [done|]. lia.
  - set (k := Z.to_nat (Z.of_nat (length src) - limit)).
    exists (take k src), (drop k src). split; [done|]. split; [by rewrite take_drop|].
    rewrite length_drop. lia.
Qed.

(** Logs of a server.  In every reachable state of the store, appending a
    line never sends on a closed channel and no subscriber's buffer exceeds its
    64 lines.  For a known server the append succeeds, the lines before it are
    kept, and a query with a positive limit returns that many of the last lines
    of the level, the new one last. *)
Theorem store_logs s :
  store_reachable s →
  map_Forall (λ _ b, (length b ≤ sub_cap)%nat) (st_chans s)
  ∧ ∀ now id level msg, ∃ s' r, AppendLog now id level msg s = Some (s', r)
      ∧ (is_Some (GetServer id s) →
         ∃ line old, r = Ok line ∧ ll_MSG line = msg ∧ ll_LVL line = level
           ∧ GetLogs id level 0 s = Ok old ∧ GetLogs id level 0 s' = Ok (old ++ [line])
           ∧ ∀ limit, 0 < limit →
               ∃ older lines, GetLogs id level limit s' = Ok (lines ++ [line])
                 ∧ old = older ++ lines
                 ∧ S (length lines) = Nat.min (Z.to_nat limit) (S (length old))).
Proof.
  intros [H1 _ H3 _ H5 H6]%store_reachable_inv. split; [done|]. intros now id level msg.
  unfold AppendLog. destruct (st_logs s !! id) as [l|] eqn:E.
  - rewrite bool_decide_eq_true_2; [|].
    + eexists _, _. split; [done|]. intros _. set (line := Build_LogLine _ _ _).
      set (s' := mkStore _ _ _ _ _ _ _ _).
      assert (st_logs s' !! id = Some (add_line l level line)) as Hs' by apply lookup_insert_eq.
      exists line, (lines_of l level). do 3 (split; [done|]).
      assert (∀ s0 l', st_logs s0 !! id = Some l' → GetLogs id level 0 s0 = Ok (lines_of l' level))
        as Hz by (intros s0 l' Hl; unfold GetLogs; by rewrite Hl).
      split; [by apply Hz|]. split.
      { by rewrite (Hz _ _ Hs') lines_of_add_same. }
      intros limit Hlim.
      destruct (GetLogs_tail id level limit s' _ Hs' Hlim) as (older & lines & Hg & Hsrc & Hlen).
      rewrite lines_of_add_same in Hsrc. rewrite lines_of_add_same length_app /= in Hlen.
      destruct lines as [|x lines _] using rev_ind; [simpl in Hlen; lia|].
      rewrite app_assoc in Hsrc. apply app_inj_tail in Hsrc as [Hold <-].
      exists older, lines. split; [exact Hg|]. split; [done|].
      rewrite length_app /= in Hlen. lia.
    + apply set_eq. intros ch. split; [|set_solver].
      intros [Hin Hc]%elem_of_intersection. apply H1 in Hin as [_ Hin]. set_solver.
  - eexists _, _. split; [done|]. intros [srv Hs]. unfold GetServer in Hs.
    apply elem_of_dom_2 in Hs. apply H6, elem_of_dom in Hs as [? Hs]. congruence.
Qed.

Definition demo_server : Server :=
  {| srv_ID := "demo-1"; srv_Name := "Agent"; srv_Image := "img"; srv_Status := "";
     srv_Node := ""; srv_CreatedAt := ""; srv_UpdatedAt := ""; srv_Ports := [];
     srv_Resources := None; srv_Args := []; srv_Env := ∅; srv_Events := []; srv_URL := "" |}.

Lemma store_logs_witness :
  let s := UpsertServer "t0" demo_server NewStore in
  srv_Status <$> GetServer "demo-1" s = Some "running"
  ∧ ∃ s' r, AppendLog "t1" "demo-1" "debug" "hello" s = Some (s', r).
Proof.
  intros s. split; [vm_compute; reflexivity|].
  destruct (store_logs s) as [_ H]; [eapply rtc_l; [apply S_server|apply rtc_refl]|].
  destruct (H "t1" "demo-1" "debug" "hello") as (s' & r & E & _). by exists s', r.
Defined.

(** ** Agents *)

(** Records are stored under their own key. *)
Definition agents_inv (s : Store) : Prop :=
  map_Forall (λ k a, k = agentKey (ag_Org a) (ag_ID a)) (st_agents s).

Lemma store_step_agents s s' : store_step s s' → agents_inv s → agents_inv s'.
Proof.
  intros [|? ? ? ? ? ? ? Ha| | | | |] Hi; try done.
  - revert Ha. unfold AppendLog. repeat case_match; intros; by simplify_eq.
  - unfold unsubscribe, agents_inv. by case_match.
  - unfold close_sub, agents_inv. by case_match.
  - unfold agents_inv. simpl. by apply map_Forall_insert_2.
  - unfold agents_inv. simpl. intros k a Hk. apply map_lookup_filter_Some in Hk as [Hk _]. eauto.
Qed.

Lemma store_reachable_agents s : store_reachable s → agents_inv s.
Proof.
  intros Hr. assert (agents_inv NewStore) as Hi by apply map_Forall_empty.
  unfold store_reachable in Hr.
  induction Hr as [|x y z Hs _ IH]; [done|]. apply IH. by eapply store_step_agents.
Qed.

Lemma agentKey_inj org org' id id' :
  "|"%char ∉ s2b org → "|"%char ∉ s2b org' → agentKey org id = agentKey org' id' →
  org = org' ∧ id = id'.
Proof.
  unfold agentKey. revert org'. induction org as [|c org IH]; intros [|c' org'] H H'; simpl.
  - by intros [= ->].
  - intros [= <- _]. exfalso. apply H'. unfold s2b. simpl. left.
  - intros [= -> _]. exfalso. apply H. unfold s2b. simpl. left.
  - intros [= <- E]. unfold s2b in *. simpl in *.
    destruct (IH org') as [-> ->]; [set_solver|set_solver|done|done].
Qed.

Lemma elem_of_ListAgents org s a :
  a ∈ ListAgents org s ↔
  ∃ k, st_agents s !! k = Some a ∧ (org = "" ∨ HasPrefix k (org +:+ "|") = true).
Proof.
  unfold ListAgents. rewrite list_elem_of_fmap. split.
  - intros ([k x] & -> & Hin). apply list_elem_of_In, List.filter_In in Hin as [Hin Hp].
    apply list_elem_of_In, elem_of_map_to_list in Hin. exists k. split; [done|]. simpl in Hp.
    apply orb_true_iff in Hp as [Hp|Hp]; [left; by apply String.eqb_eq|by right].
  - intros (k & Hk & Hp). exists (k, a). split; [done|].
    apply list_elem_of_In, List.filter_In. split; [by apply list_elem_of_In, elem_of_map_to_list|].
    simpl. apply orb_true_iff. destruct Hp as [->|Hp]; [by left|by right].
Qed.

Lemma agentKey_prefix org org' id :
  "|"%char ∉ s2b org → "|"%char ∉ s2b org' →
  HasPrefix (agentKey org' id) (org +:+ "|") = true → org' = org.
Proof.
  intros H H' [t Ht]%HasPrefix_spec. rewrite str_app_assoc in Ht.
  by apply (agentKey_inj org' org id t) in Ht as [? _].
Qed.

(** The registry of agents, for every reachable store.  A registered agent
    is found under its organisation and id, and registering it changes no other
    agent; an organisation lists exactly its own agents; pruning removes exactly
    the agents last seen before the cut-off and counts them.  Isolation needs
    organisations without the separator: an agent of the organisation a|b is
    listed for a and shares its key with the agent b|x of a. *)
Theorem agent_registry `{TP : TimeParse} s :
  store_reachable s →
  (∀ now a, GetAgent (ag_Org a) (ag_ID a) (UpsertAgent now a s) = Some (seen now a)
     ∧ ∀ org id, "|"%char ∉ s2b (ag_Org a) → "|"%char ∉ s2b org →
         (org, id) ≠ (ag_Org a, ag_ID a) → GetAgent org id (UpsertAgent now a s) = GetAgent org id s)
  ∧ (∀ org, org ≠ "" → "|"%char ∉ s2b org →
       (∀ k a, st_agents s !! k = Some a → "|"%char ∉ s2b (ag_Org a)) →
       ∀ a, a ∈ ListAgents org s ↔ ag_Org a = org ∧ GetAgent org (ag_ID a) s = Some a)
  ∧ (∀ cutoff org id, GetAgent org id (PruneAgents cutoff s).1
       = match GetAgent org id s with
         | Some a => if stale cutoff a then None else Some a
         | None => None
         end)
  ∧ (∀ cutoff, (size (st_agents (PruneAgents cutoff s).1) + (PruneAgents cutoff s).2
                = size (st_agents s))%nat)
  ∧ (∀ now a o1 o2, ag_Org a = o1 +:+ "|" +:+ o2 →
       seen now a ∈ ListAgents o1 (UpsertAgent now a s)
       ∧ GetAgent o1 (o2 +:+ "|" +:+ ag_ID a) (UpsertAgent now a s) = Some (seen now a)).
Proof.
  intros Hr%store_reachable_agents. split; [|split; [|split; [|split]]].
  - intros now a. split; [apply lookup_insert_eq|]. intros org id Ha Ho Hne.
    apply lookup_insert_ne. intros E. apply Hne.
    by destruct (agentKey_inj _ _ _ _ Ha Ho E) as [-> ->].
  - intros org Hn Ho Hall a. rewrite elem_of_ListAgents. split.
    + intros (k & Hk & [?|Hp]); [done|]. pose proof (Hr k a Hk) as ->.
      apply (agentKey_prefix org (ag_Org a)) in Hp as Eo; [|done|by eapply Hall].
      split; [done|]. unfold GetAgent. by rewrite -{1}Eo.
    + intros [Eo Hk]. exists (agentKey org (ag_ID a)). split; [done|]. right.
      unfold agentKey. apply HasPrefix_spec. exists (ag_ID a). by rewrite str_app_assoc.
  - intros cutoff org id. unfold GetAgent, PruneAgents. simpl. rewrite map_lookup_filter.
    destruct (st_agents s !! agentKey org id) as [a|]; simpl; [|done].
    case_guard; by destruct (stale cutoff a).
  - intros cutoff. unfold PruneAgents. simpl.
    rewrite -{3}(map_filter_union_complement
                   (λ kv : string * AgentRecord, stale cutoff kv.2 = true) (st_agents s)).
    rewrite map_size_disj_union; [|apply map_disjoint_filter_complement].
    rewrite Nat.add_comm. f_equal. f_equal. apply map_filter_ext.
    intros k a _. simpl. by destruct (stale cutoff a).
  - intros now a o1 o2 E.
    assert (agentKey (ag_Org a) (ag_ID a) = o1 +:+ "|" +:+ o2 +:+ "|" +:+ ag_ID a) as Ek
      by (unfold agentKey; by rewrite E !str_app_assoc).
    split.
    + apply elem_of_ListAgents. exists (agentKey (ag_Org a) (ag_ID a)).
      split; [apply lookup_insert_eq|]. right. apply HasPrefix_spec.
      exists (o2 +:+ "|" +:+ ag_ID a). by rewrite Ek str_app_assoc.
    + unfold GetAgent, UpsertAgent. simpl. rewrite -[agentKey o1 _]/(o1 +:+ "|" +:+ o2 +:+ "|" +:+ ag_ID a).
      rewrite -Ek. apply lookup_insert_eq.
Qed.

Definition demo_agent (org id : string) : AgentRecord :=
  {| ag_ID := id; ag_Org := org; ag_Hostname := ""; ag_IP := "100.64.0.2"; ag_Ports := ∅;
     ag_Capabilities := []; ag_Version := ""; ag_LastSeen := "" |}.

Lemma agent_registry_witness :
  let s := UpsertAgent "t0" (demo_agent "acme" "n1") NewStore in
  GetAgent "acme" "n1" s = Some (seen "t0" (demo_agent "acme" "n1"))
  ∧ ∀ a, a ∈ ListAgents "acme" s ↔ ag_Org a = "acme" ∧ GetAgent "acme" (ag_ID a) s = Some a.
Proof.
  intros s. split; [vm_compute; reflexivity|].
  destruct (@agent_registry (λ _, None) s) as (_ & H & _);
    [eapply rtc_l; [apply S_agent|apply rtc_refl]|].
  apply H; [discriminate|apply (bool_decide_unpack _); vm_compute; exact I|].
  intros k a Hk. unfold s, UpsertAgent in Hk. cbn [st_agents with_agents NewStore] in Hk.
  apply lookup_insert_Some in Hk as [[_ <-]|[_ Hk]]; [apply (bool_decide_unpack _); vm_compute; exact I|].
  by rewrite lookup_empty in Hk.
Defined.
