(* ===== verification/Metrics.v ===== *)
(** * Operation counters (internal/metrics/metrics.go)

    The counters are a copy-on-write map in an atomic cell: an increment loads
    the map, copies it with one entry changed and stores the copy.  Load and
    store are atomic, the increment is not. *)

From S2P Require Import Prelude GoStrings.

Local Open Scope Z_scope.

(** ** Counters *)

(** [key]: organisation, table, operation; [keyC] adds the cluster. *)
Record mkey : Type := { mk_org : string; mk_table : string; mk_op : string }.

Global Instance mkey_eq_dec : EqDecision mkey.
Proof. solve_decision. Defined.

Global Instance mkey_countable : Countable mkey.
Proof.
  refine (inj_countable' (λ k, (mk_org k, mk_table k, mk_op k))
            (λ x, {| mk_org := x.1.1; mk_table := x.1.2; mk_op := x.2 |}) _).
  by intros [].
Defined.

Definition keyC : Type := string * mkey.

(** [uint64] addition. *)
Definition add64 (a b : Z) : Z := (a + b) mod 2 ^ 64.

Section counters.
Context {K : Type} `{Countable K}.

Definition count (m : gmap K Z) (k : K) : Z := default 0 (m !! k).

(** A delta of zero counts as one. *)
Definition delta_or_one (delta : Z) : Z := if delta =? 0 then 1 else delta.

(** The copy an increment stores, from the map it loaded. *)
Definition bumped (k : K) (delta : Z) (cur : gmap K Z) : gmap K Z :=
  <[k := add64 (count cur k) (delta_or_one delta)]> cur.

(** ** Interleavings *)

(** The cell, and the increments that have loaded it and not yet stored. *)
Record counters : Type := {
  cell : gmap K Z;
  pending : list (K * Z * gmap K Z)
}.

(** Every increment that began, with its delta: what the counters should
    add up to. *)
Definition requested (l : list (K * Z)) (k : K) : Z :=
  foldr (λ x acc, (if decide (x.1 = k) then delta_or_one x.2 else 0) + acc) 0 l.

Inductive count_step : list (K * Z) * counters → list (K * Z) * counters → Prop :=
  | C_load k delta log c :
      0 ≤ delta →
      count_step (log, c)
        ((k, delta) :: log, {| cell := cell c; pending := (k, delta, cell c) :: pending c |})
  | C_store k delta snap p1 p2 log c :
      pending c = p1 ++ (k, delta, snap) :: p2 →
      count_step (log, c) (log, {| cell := bumped k delta snap; pending := p1 ++ p2 |}).

Definition count_reachable : list (K * Z) * counters → Prop :=
  rtc count_step ([], {| cell := ∅; pending := [] |}).

(** ** Lemmas *)

Lemma requested_nonneg l k : Forall (λ x, 0 ≤ x.2) l → 0 ≤ requested l k.
Proof.
  induction 1 as [|x l Hx _ IH]; simpl; [lia|]. unfold delta_or_one.
  case_decide; [|lia]. case_match; lia.
Qed.

Lemma count_bumped k delta m k' :
  count (bumped k delta m) k'
  = if decide (k' = k) then add64 (count m k) (delta_or_one delta) else count m k'.
Proof.
  unfold count at 1, bumped. case_decide as E; [subst; by rewrite lookup_insert_eq|].
  by rewrite lookup_insert_ne.
Qed.

(** A map that counts at most the increments of [l], and each of its values
    comes from somewhere. *)
Definition below (l : list (K * Z)) (m : gmap K Z) : Prop :=
  ∀ k, 0 ≤ count m k ≤ requested l k.

(** A pending increment counts at most the others and itself. *)
Definition pending_ok (l : list (K * Z)) (x : K * Z * gmap K Z) : Prop :=
  0 ≤ x.1.2 ∧ ∀ k, 0 ≤ count x.2 k
    ∧ count x.2 k + (if decide (k = x.1.1) then delta_or_one x.1.2 else 0) ≤ requested l k.

Definition count_inv (s : list (K * Z) * counters) : Prop :=
  Forall (λ x, 0 ≤ x.2) s.1 ∧ below s.1 (cell s.2) ∧ Forall (pending_ok s.1) (pending s.2).

Lemma delta_or_one_nonneg d : 0 ≤ d → 0 ≤ delta_or_one d.
Proof. unfold delta_or_one. case_match; lia. Qed.

Lemma requested_cons l k d k' :
  0 ≤ d → requested l k' ≤ requested ((k, d) :: l) k'.
Proof.
  intros Hd. simpl. pose proof (delta_or_one_nonneg d Hd). case_decide; lia.
Qed.

Lemma count_step_inv s s' :
  (∀ k, requested s'.1 k < 2 ^ 64) → count_step s s' → count_inv s → count_inv s'.
Proof.
  intros Hb Hs (Hn & Hc & Hp). destruct Hs as [k d log c Hd|k d snap p1 p2 log c E]; simpl in *.
  - split; [by constructor|]. split.
    + intros k'. destruct (Hc k'). pose proof (requested_cons log k d k' Hd). simpl in *. lia.
    + constructor.
      * split; [done|]. intros k'. simpl. destruct (Hc k') as [? ?]. split; [done|].
        pose proof (delta_or_one_nonneg d Hd).
        repeat case_decide; simplify_eq; lia.
      * eapply Forall_impl; [exact Hp|]. intros [[k1 d1] m] [Hd1 Hm]. split; [done|].
        intros k'. destruct (Hm k'). pose proof (requested_cons log k d k' Hd). simpl in *.
        split; [done|lia].
  - rewrite E in Hp. apply Forall_app in Hp as [Hp1 [Hk Hp2]%Forall_cons].
    split; [done|]. split; [|by apply Forall_app].
    destruct Hk as [Hd Hm]. intros k'. simpl in Hm. rewrite count_bumped.
    destruct (Hm k') as [H0 H1]. simpl. repeat case_decide; simplify_eq; [|lia].
    pose proof (delta_or_one_nonneg d Hd). specialize (Hb k). unfold add64.
    rewrite Z.mod_small; lia.
Qed.

Lemma count_step_mono s s' k : count_step s s' → requested s.1 k ≤ requested s'.1 k.
Proof. intros []; simpl; [by apply (requested_cons log k0 delta k)|lia]. Qed.

Lemma count_reachable_inv s :
  (∀ k, requested s.1 k < 2 ^ 64) → count_reachable s → count_inv s.
Proof.
  intros Hb Hr. unfold count_reachable in Hr.
  assert (count_inv ([], {| cell := ∅; pending := [] |})) as Hi.
  { split; [done|]. split; [|done]. intros k. unfold count. simpl. by rewrite lookup_empty. }
  assert (∀ x y k, rtc count_step x y → requested x.1 k ≤ requested y.1 k) as Hm.
  { induction 1 as [|x y z Hs _ IH]; [lia|]. pose proof (count_step_mono _ _ k Hs). lia. }
  induction Hr as [|x y z Hs Hr IH]; [done|]. apply IH; [done|].
  eapply count_step_inv; [|exact Hs|exact Hi]. intros k.
  pose proof (Hm y z k Hr). specialize (Hb k). lia.
Qed.

(** One increment after the other. *)
Definition inc_all (l : list (K * Z)) : gmap K Z :=
  foldr (λ x m, bumped x.1 x.2 m) ∅ l.

Lemma inc_all_count l k : count (inc_all l) k = requested l k mod 2 ^ 64.
Proof.
  induction l as [|x l IH]; simpl; [unfold count; by rewrite lookup_empty|].
  rewrite count_bumped. unfold add64.
  destruct (decide (k = x.1)) as [->|?], (decide (x.1 = x.1)); try congruence; simplify_eq.
  - rewrite IH Zplus_mod_idemp_l. f_equal. lia.
  - case_decide; [congruence|]. rewrite IH. f_equal.
Qed.

End counters.

Arguments counters K {_ _}.

(** [IncOp] and [IncOpCluster] on a map nobody else is changing. *)
Definition IncOp (org table op : string) (delta : Z) (m : gmap mkey Z) : gmap mkey Z :=
  bumped {| mk_org := org; mk_table := table; mk_op := op |} delta m.

Definition IncOpCluster (cluster org table op : string) (delta : Z) (m : gmap keyC Z)
    : gmap keyC Z :=
  bumped (cluster, {| mk_org := org; mk_table := table; mk_op := op |}) delta m.

(** ** Export *)

Definition flat_key (k : mkey) : string := mk_org k +:+ "/" +:+ mk_table k +:+ "/" +:+ mk_op k.
Definition flat_keyC (k : keyC) : string := "cluster/" +:+ k.1 +:+ "/" +:+ flat_key k.2.

(** The entries are written in the order of the two iterations, the counters
    with a cluster last; of two entries with one name the later one stays. *)
Definition Export (ops : list (mkey * Z)) (opsC : list (keyC * Z)) : gmap string Z :=
  foldl (λ m kv, <[flat_keyC kv.1 := kv.2]> m)
    (foldl (λ m kv, <[flat_key kv.1 := kv.2]> m) ∅ ops) opsC.

(** Two counters whose names flatten to the same text share an entry. *)
Lemma Export_collides a b c op v v' :
  Export [({| mk_org := a +:+ "/" +:+ b; mk_table := c; mk_op := op |}, v);
          ({| mk_org := a; mk_table := b +:+ "/" +:+ c; mk_op := op |}, v')] []
  = {[a +:+ "/" +:+ b +:+ "/" +:+ c +:+ "/" +:+ op := v']}.
Proof.
  unfold Export, flat_key. cbn [foldl fst snd mk_org mk_table mk_op]. rewrite !str_app_assoc.
  by rewrite insert_insert_eq insert_empty.
Qed.

(** The operation counters.  One after the other, increments add up to
    exactly what was requested, modulo 2^64, a delta of zero counting as one.
    In every interleaving a counter is never above what was requested, as long
    as that fits 64 bits; but it can stay below: an increment that overlaps
    another one undoes it, also when they count different operations.  *)
Theorem counters_bounded {K : Type} `{Countable K} (log : list (K * Z)) (c : counters K) :
  count_reachable (log, c) → (∀ k, requested log k < 2 ^ 64) →
  (∀ k, 0 ≤ count (cell c) k ≤ requested log k)
  ∧ (∀ (l : list (K * Z)) k, count (inc_all l) k = requested l k mod 2 ^ 64)
  ∧ (∀ k1 k2 : K, k1 ≠ k2 →
       ∃ c', count_reachable ([(k2, 1); (k1, 1)], c') ∧ pending c' = []
         ∧ count (cell c') k1 = 0 ∧ count (cell c') k2 = 1).
Proof.
  intros Hr Hb. split; [|split].
  - destruct (count_reachable_inv (log, c) Hb Hr) as (_ & Hc & _). exact Hc.
  - apply inc_all_count.
  - intros k1 k2 Hne. eexists. split.
    { eapply rtc_l; [apply (C_load k1 1); lia|]. eapply rtc_l; [apply (C_load k2 1); lia|].
      eapply rtc_l; [apply (C_store k1 1 ∅ [(k2, 1, ∅)] []); reflexivity|].
      eapply rtc_l; [apply (C_store k2 1 ∅ [] []); reflexivity|]. apply rtc_refl. }
    split; [done|]. simpl. rewrite !count_bumped. rewrite decide_False // decide_True //.
Qed.

Lemma counters_bounded_witness :
  let k := {| mk_org := "acme"; mk_table := "people"; mk_op := "insert" |} in
  let c := {| cell := IncOp "acme" "people" "insert" 0 ∅; pending := [] |} in
  count (cell c) k = 1 ∧ ∀ k', 0 ≤ count (cell c) k' ≤ requested [(k, 0)] k'.
Proof.
  intros k c. split; [vm_compute; reflexivity|].
  apply (counters_bounded [(k, 0)] c).
  - eapply rtc_l; [apply (C_load k 0); lia|].
    eapply rtc_l; [apply (C_store k 0 ∅ [] []); reflexivity|]. apply rtc_refl.
  - intros k'. simpl. case_decide; reflexivity.
Defined.
