(* ===== verification/Permission.v ===== *)
(** * The capability cache (internal/permission/permission.go)

    Capabilities are listed from the API server at most once per interval; an
    action is allowed when a cached capability names it and selects the
    workspace, or when there are no capabilities at all. *)

From S2P Require Import Prelude GoStrings Values.

Local Open Scope Z_scope.

(** ** State *)

(** [None] selects everything. *)
Record CapabilityEntry : Type := {
  ce_Name : string;
  ce_Actions : gset string;
  ce_Selector : option (gmap string string)
}.

(** [lastSync] is [None] until the first successful listing. *)
Record Cache : Type := {
  ca_caps : list CapabilityEntry;
  ca_lastSync : option Z;
  ca_syncEvery : Z
}.

Definition NewCache (refresh : Z) : Cache :=
  {| ca_caps := []; ca_lastSync := None; ca_syncEvery := refresh |}.

(** [labels.SelectorFromSet(sel).Matches(lbls)]. *)
Class Labels := selector_matches : gmap string string → gmap string string → bool.

(** ** Reading a capability *)

(** The strings of an array of actions. *)
Definition actions_of (spec : doc) : gset string :=
  match spec !! "actions" with
  | Some (AArr l) => list_to_set (omap (λ a, match a with AStr s => Some s | _ => None end) l)
  | _ => ∅
  end.

(** The string entries of [selector.matchLabels]. *)
Definition match_labels (ml : list (string * any)) : gmap string string :=
  list_to_map (omap (λ kv, match kv.2 with AStr v => Some (kv.1, v) | _ => None end) ml).

Definition selector_of_spec (spec : doc) : option (gmap string string) :=
  match spec !! "selector" with
  | Some (AObj sel) =>
      match (list_to_map sel : doc) !! "matchLabels" with
      | Some (AObj ml) => Some (match_labels ml)
      | _ => None
      end
  | _ => None
  end.

(** An object without a spec is skipped. *)
Definition capability_of (item : string * doc) : option CapabilityEntry :=
  match item.2 !! "spec" with
  | Some (AObj sp) =>
      let spec : doc := list_to_map sp in
      Some {| ce_Name := item.1; ce_Actions := actions_of spec;
              ce_Selector := selector_of_spec spec |}
  | _ => None
  end.

(** ** Operations *)

(** [time.Since(lastSync) < syncEvery]; the zero time is always stale. *)
Definition fresh_enough (c : Cache) (now : Z) : bool :=
  match ca_lastSync c with
  | None => false
  | Some t => now - t <? ca_syncEvery c
  end.

(** [listing] is the answer of the API server if it is asked; [done_at] the
    time after it. *)
Definition sync (c : Cache) (now : Z) (listing : result (list (string * doc))) (done_at : Z)
    : Cache :=
  if fresh_enough c now then c
  else match listing with
       | Err _ => c
       | Ok items => {| ca_caps := omap capability_of items; ca_lastSync := Some done_at;
                        ca_syncEvery := ca_syncEvery c |}
       end.

Definition grants `{Labels} (action : string) (lbls : gmap string string) (e : CapabilityEntry)
    : bool :=
  bool_decide (action ∈ ce_Actions e)
  && match ce_Selector e with None => true | Some sel => selector_matches sel lbls end.

Definition allowed_by `{Labels} (caps : list CapabilityEntry) (action : string)
    (lbls : gmap string string) : bool :=
  match caps with [] => true | _ => existsb (grants action lbls) caps end.

Definition Allow `{Labels} (c : Cache) (now : Z) (listing : result (list (string * doc)))
    (done_at : Z) (action : string) (lbls : gmap string string) : Cache * bool :=
  let c' := sync c now listing done_at in
  (c', allowed_by (ca_caps c') action lbls).

(** ** Lemmas *)

(** The documented meaning of an equality selector. *)
Definition labels_law `{Labels} : Prop :=
  ∀ sel lbls, selector_matches sel lbls = true ↔ sel ⊆ lbls.

(** An entry grants an action on a workspace. *)
Definition granted (e : CapabilityEntry) (action : string) (lbls : gmap string string) : Prop :=
  action ∈ ce_Actions e ∧ ∀ sel, ce_Selector e = Some sel → sel ⊆ lbls.

Lemma grants_spec `{Labels} action lbls e :
  labels_law → grants action lbls e = true ↔ granted e action lbls.
Proof.
  intros HL. unfold grants, granted. rewrite andb_true_iff bool_decide_eq_true.
  destruct (ce_Selector e) as [sel|]; [rewrite HL|]; naive_solver.
Qed.

Lemma allowed_by_spec `{Labels} caps action lbls :
  labels_law →
  allowed_by caps action lbls = true ↔ caps = [] ∨ ∃ e, e ∈ caps ∧ granted e action lbls.
Proof.
  intros HL. unfold allowed_by. destruct caps as [|e0 caps]; [naive_solver|].
  rewrite List.existsb_exists. setoid_rewrite <-list_elem_of_In.
  setoid_rewrite grants_spec; [|done]. split; [by right|]. by intros [?|?].
Qed.

Lemma sync_fresh c now listing done_at : fresh_enough c now = true → sync c now listing done_at = c.
Proof. unfold sync. by intros ->. Qed.

(** C29: decisions of the capability cache.  When the cache is stale and the
    listing succeeds, an action is allowed exactly if no listed object is a
    capability, or one of them names the action and its labels are among the
    workspace's; for the refresh interval after that the same question has the
    same answer whatever the API server says.  When the listing fails the
    previous capabilities keep deciding, and a cache that never listed
    successfully allows everything. *)
Theorem capability_decision `{Labels} (c : Cache) now items e done_at action lbls :
  labels_law → fresh_enough c now = false →
  let r := Allow c now (Ok items) done_at action lbls in
  (r.2 = true ↔
     (∀ it, it ∈ items → capability_of it = None)
     ∨ ∃ it cap, it ∈ items ∧ capability_of it = Some cap ∧ granted cap action lbls)
  ∧ (∀ now' listing' done', now' - done_at < ca_syncEvery c →
       Allow r.1 now' listing' done' action lbls = r)
  ∧ Allow c now (Err e) done_at action lbls = (c, allowed_by (ca_caps c) action lbls)
  ∧ (Allow (NewCache (ca_syncEvery c)) now (Err e) done_at action lbls).2 = true.
Proof.
  intros HL Hf r. split; [|split; [|split]].
  - unfold r, Allow, sync. rewrite Hf. cbn [snd ca_caps]. rewrite allowed_by_spec //. split.
    + intros [Hn|(cap & Hin & Hg)]; [left|right].
      * intros it Hit. destruct (capability_of it) as [cap|] eqn:E; [|done]. exfalso.
        assert (cap ∈ omap capability_of items) as Hc by (apply list_elem_of_omap; eauto).
        rewrite Hn in Hc. by apply not_elem_of_nil in Hc.
      * apply list_elem_of_omap in Hin as (it & Hit & E). eauto.
    + intros [Hn|(it & cap & Hit & E & Hg)].
      * left. clear -Hn. induction items as [|x l IH]; [done|]. simpl.
        rewrite Hn; [|left]. apply IH. intros it Hit. apply Hn. by right.
      * right. exists cap. split; [|done]. apply list_elem_of_omap. eauto.
  - intros now' listing' done' Hnow. unfold r, Allow at 2 3. cbn [fst snd].
    set (c' := sync c now (Ok items) done_at). unfold Allow. rewrite sync_fresh; [done|].
    unfold c', sync, fresh_enough. fold (fresh_enough c now). rewrite Hf. simpl. lia.
  - unfold Allow, sync. by rewrite Hf.
  - done.
Qed.

(** Label maps as in the API machinery. *)
Definition sub_labels : Labels := λ sel lbls, bool_decide (sel ⊆ lbls).

Definition demo_capability : string * doc :=
  ("ops", {[ "spec" := AObj [("actions", AArr [AStr "stopAll"]);
               ("selector", AObj [("matchLabels", AObj [("team", AStr "ops")])])] ]}).

Lemma capability_decision_witness :
  let allow l := (@Allow sub_labels (NewCache 10) 0 (Ok [demo_capability]) 1 "stopAll" l).2 in
  allow {[ "team" := "ops" ]} = true ∧ allow ∅ = false
  ∧ (allow ∅ = true ↔
     (∀ it, it ∈ [demo_capability] → capability_of it = None)
     ∨ ∃ it cap, it ∈ [demo_capability] ∧ capability_of it = Some cap ∧ granted cap "stopAll" ∅).
Proof.
  intros allow. do 2 (split; [vm_compute; reflexivity|]).
  refine (proj1 (@capability_decision sub_labels (NewCache 10) 0 [demo_capability] "" 1 "stopAll" ∅
                   _ _)); [|reflexivity].
  intros sel lbls. apply bool_decide_eq_true.
Defined.
