(* ===== verification/HostApp.v ===== *)
(** * The host application (cmd/hostapp/main.go)

    The endpoints the host serves itself: agents, workspaces of the default
    cluster, their logs, the stop-all action, shutdown, and where its proxy
    sends a request; and the helpers of start-up.  Handlers are programs over
    the services they use, as in the router. *)

From S2P Require Import Prelude GoStrings NetAddr Values Names LocalDb Settings Proxy Prog.
From S2P Require Import K8s Jobs DbManager DbHandlers Router RouterCluster.

Local Open Scope Z_scope.

(** ** Requests to services *)

(** The error of a failed create. *)
Record ws_error : Type := { we_Exists : bool; we_Text : string }.

(** A pod of a workspace: its first container, and whether it is ready and
    running. *)
Record hpod : Type := {
  hp_Name : string; hp_Container : string; hp_Ready : bool; hp_Running : bool
}.

Inductive hcall : Set → Type :=
  (* a request of the orchestration API *)
  | HRoute {X : Set} (c : rcall X) : hcall X
  (* the process *)
  | HStop : hcall unit
  | HNow : hcall string
  | HRandom : hcall (option string)          (* three random bytes in hexadecimal *)
  | HExport : hcall unit                     (* a snapshot of the counters *)
  (* the registry of agents *)
  | HUpsertAgent (a : AgentRecord) : hcall unit
  | HGetAgent (org id : string) : hcall (option AgentRecord)
  | HListAgents (org : string) : hcall (list AgentRecord)
  (* the tailnet *)
  | HDial (addr : string) : hcall (option string)
  (* the default cluster *)
  | HWsList : hcall (result (list doc))
  | HWsGet (name : string) : hcall (result doc)
  | HWsCreate (obj : list (string * any)) : hcall (option ws_error)
  | HWsDelete (name : string) : hcall (result unit)
  | HServer (name : string) : hcall (result unit)
  | HPods (selector : string) : hcall (result (list hpod))
  | HPodLog (pod container : string) (tail : Z) : hcall (result string)
  | HService (name : string) : hcall (result svc_info)
  | HSvcAddr (name : string) : hcall (result (string * Z * bool))
  | HPFEnsure (pod : string) (port : Z) : hcall (result Z)
  (* the capability cache *)
  | HAllow (action : string) : hcall bool.

Abbreviation hprog := (gprog hcall).

(** The clients that could be built at start-up, and the default namespace;
    the capability cache exists exactly when the dynamic client does. *)
Record host : Type := { h_dyn : bool; h_kcli : bool; h_pf : bool; h_ns : string; h_name : string }.

Inductive hpayload : Type :=
  | HMap (kvs : list (string * any))
  | HStrings (kvs : list (string * string))
  | HResolved (ip : string) (ports : gmap string Z)
  | HAgentList (l : list AgentRecord)
  | HSnapshot
  | HImages (l : list (string * string))
  | HDefaults (ports : list Port) (env : list (string * string))
  | HServers (l : list Server)
  | HServerOf (s : Server)
  | HLogs (l : list LogLine)
  | HDeleted (l : list string)
  | HEmptyList.

(** [HPanic] is a nil dereference, a failed type assertion or a slice out of
    range. *)
Inductive hresp : Type :=
  | HJson (status : Z) (v : hpayload)
  | HJsonError (status : Z) (msg code : string)
  | HStatus (status : Z)
  | HText (status : Z) (msg : string)
  | HStream (tail : list LogLine)
  | HFile (path : string) (cache : string)
  | HNotFound
  | HRouter (r : rresp)
  | HRedirect
  | HProxy (o : outcome)
  | HPanic.

(** Bodies: a decoding error is [None]. *)
Class HostEnv := {
  dec_agent : string → option AgentRecord;
  dec_jobspec : string → option JobSpec
}.

Section host.
Context `{UC : UnicodeCase} `{RE : RouterEnv} `{HE : HostEnv}.

Definition not_allowed : hresp := HStatus 405.

(** ** Shutdown and the registry of agents *)

Definition handleShutdown (r : rq) : hprog hresp :=
  if negb (String.eqb (q_Method r) "POST") then Ret not_allowed
  else
    let host := match SplitHostPort (q_RemoteAddr r) with Some (h, _) => h | None => "" end in
    if negb (String.eqb host "127.0.0.1") && negb (String.eqb host "::1")
       && negb (String.eqb host "localhost")
    then Ret (HJsonError 403 "shutdown allowed from localhost only" "forbidden")
    else do _ <- request HStop ; Ret (HJson 200 (HMap [("status", AStr "shutting down")])).

(** The record with a new time. *)
Definition seen_at (now : string) (a : AgentRecord) : AgentRecord :=
  {| ag_ID := ag_ID a; ag_Org := ag_Org a; ag_Hostname := ag_Hostname a; ag_IP := ag_IP a;
     ag_Ports := ag_Ports a; ag_Capabilities := ag_Capabilities a; ag_Version := ag_Version a;
     ag_LastSeen := now |}.

Definition handleRegister (r : rq) : hprog hresp :=
  if negb (String.eqb (q_Method r) "POST") then Ret not_allowed
  else
    match dec_agent (q_Body r) with
    | None => Ret (HJson 400 (HStrings [("error", "invalid json")]))
    | Some a =>
        if String.eqb (TrimSpace (ag_ID a)) "" || String.eqb (TrimSpace (ag_IP a)) "" then
          Ret (HJson 400 (HStrings [("error", "id and ip required")]))
        else
          do now <- request HNow ;
          do _ <- request (HUpsertAgent (seen_at now a)) ;
          Ret (HJson 200 (HStrings [("status", "ok")]))
    end.

Definition handleResolve (r : rq) : hprog hresp :=
  if negb (String.eqb (q_Method r) "GET") then Ret not_allowed
  else
    let id := TrimSpace (q_Query r "id") in
    let org := TrimSpace (q_Query r "org") in
    if String.eqb id "" then Ret (HJson 400 (HStrings [("error", "id required")]))
    else
      do a <- request (HGetAgent org id) ;
      Ret (match a with
           | Some a => HJson 200 (HResolved (ag_IP a) (ag_Ports a))
           | None => HJson 404 (HStrings [("error", "not found")])
           end).

Definition handleAgents (r : rq) : hprog hresp :=
  if negb (String.eqb (q_Method r) "GET") then Ret not_allowed
  else do l <- request (HListAgents (TrimSpace (q_Query r "org"))) ;
       Ret (HJson 200 (HAgentList l)).

Definition handleSmokeDial (r : rq) : hprog hresp :=
  let id := TrimSpace (q_Query r "id") in
  let port := TrimSpace (q_Query r "port") in
  if String.eqb id "" || String.eqb port "" then
    Ret (HJson 400 (HStrings [("error", "id and port required")]))
  else
    do a <- request (HGetAgent "" id) ;
    match a with
    | None => Ret (HJson 404 (HStrings [("error", "id not found")]))
    | Some a =>
        let addr := ag_IP a +:+ ":" +:+ port in
        do e <- request (HDial addr) ;
        Ret (match e with
             | Some err => HJson 502 (HStrings [("error", err)])
             | None => HJson 200 (HStrings [("ok", addr)])
             end)
    end.

Definition handleMetrics : hprog hresp :=
  do _ <- request HExport ; Ret (HJson 200 HSnapshot).

Definition handleHostUIConfig (h : host) : hprog hresp :=
  Ret (HJson 200 (HMap [("name", AStr (h_name h))])).

(** ** Images *)

Definition preset_images : list (string * string) :=
  [("VS Code (code-server)", "codercom/code-server:4.90.3")].

Definition handleImages (r : rq) : hprog hresp :=
  Ret (if String.eqb (q_Method r) "GET" then HJson 200 (HImages preset_images) else not_allowed).

Definition http_port : Port := {| port_Port := 8080; port_Name := "http" |}.
Definition https_port : Port := {| port_Port := 8443; port_Name := "https" |}.

Definition handleImageDefaults (r : rq) : hprog hresp :=
  if negb (String.eqb (q_Method r) "GET") then Ret not_allowed
  else
    let img := TrimSpace (q_Query r "image") in
    Ret (HJson 200
      (if Contains img "guildnet/agent" then HDefaults [http_port; https_port] [("AGENT_HOST", "")]
       else if Contains img "codercom/code-server" || Contains img "ghcr.io/coder/code-server"
       then HDefaults [http_port] [("AGENT_HOST", "")]
       else HMap [])).

(** ** Workspaces as servers *)

(** Byte index of the last occurrence. *)
Fixpoint LastIndexByte (c : ascii) (s : string) : option nat :=
  match s with
  | EmptyString => None
  | String d s' =>
      match LastIndexByte c s' with
      | Some i => Some (S i)
      | None => if Ascii.eqb d c then Some 0%nat else None
      end
  end.

(** The port at the end of a proxy target, when the workspace names none. *)
Definition target_port (pt : string) : list Port :=
  match LastIndexByte ":" pt with
  | Some (S i) =>
      let n := default 0 (sscanf_d (drop_str (S (S i)) pt)) in
      if 0 <? n then [{| port_Port := n; port_Name := "main" |}] else []
  | _ => []
  end.

Definition host_ports (spec status : doc) : list Port :=
  match spec !! "ports" with
  | Some (AArr _) => (λ p, {| port_Port := p.2; port_Name := p.1 |}) <$> server_ports spec
  | _ => let pt := str_field status "proxyTarget" in
         if String.eqb pt "" then [] else target_port pt
  end.

Definition host_status (status : doc) : string :=
  server_status (str_field status "phase") (int32_of (int64_field (status !! "readyReplicas"))).

(** [None] is a failed type assertion. *)
Definition host_server (name : option string) (item : doc) : option Server :=
  match item !! "spec" with
  | Some (AObj sp) =>
      let spec : doc := list_to_map sp in
      let status : doc := match item !! "status" with
                          | Some (AObj st) => list_to_map st
                          | _ => ∅
                          end in
      n ← name;
      Some {| srv_ID := n; srv_Name := n; srv_Image := str_field spec "image";
              srv_Status := host_status status; srv_Node := ""; srv_CreatedAt := "";
              srv_UpdatedAt := ""; srv_Ports := host_ports spec status; srv_Resources := None;
              srv_Args := []; srv_Env := ∅; srv_Events := []; srv_URL := "" |}
  | _ => None
  end.

(** The name of a listed object must be a string. *)
Definition item_name (item : doc) : option string :=
  match item !! "metadata" with
  | Some (AObj m) => match (list_to_map m : doc) !! "name" with
                     | Some (AStr s) => Some s
                     | _ => None
                     end
  | _ => None
  end.

Definition dyn_unavailable : hresp :=
  HJsonError 500 "dynamic client unavailable" "dyn_unavailable".

Definition handleServers (h : host) (r : rq) : hprog hresp :=
  if negb (String.eqb (q_Method r) "GET") then Ret not_allowed
  else if negb (h_dyn h) then Ret dyn_unavailable
  else
    do lst <- request HWsList ;
    Ret (match lst with
         | Err _ => HJson 200 HEmptyList
         | Ok items => match mapM (λ it, host_server (item_name it) it) items with
                       | Some l => HJson 200 (HServers l)
                       | None => HPanic
                       end
         end).

(** ** Logs of a workspace *)

(** Ready pods first, at most five. *)
Definition log_pods (pods : list hpod) : list hpod :=
  take 5 (List.filter hp_Ready pods ++ List.filter (λ p, negb (hp_Ready p)) pods).

(** Integer division truncates toward zero. *)
Definition tail_per_pod (limit : Z) (n : nat) : Z :=
  let tail := Z.quot limit (Z.of_nat n) in
  if tail <? 10 then limit else tail.

Definition log_line (now level pod line : string) : LogLine :=
  {| ll_T := now; ll_LVL := level; ll_MSG := "[" +:+ pod +:+ "] " +:+ line |}.

(** The clock is read once per pod here and once per line in the code. *)
Fixpoint pod_log_lines (level : string) (tail : Z) (pods : list hpod) : hprog (list LogLine) :=
  match pods with
  | [] => Ret []
  | p :: rest =>
      do data <- request (HPodLog (hp_Name p) (hp_Container p) tail) ;
      do now <- request HNow ;
      do more <- pod_log_lines level tail rest ;
      Ret (match data with
           | Ok s => log_line now level (hp_Name p)
                       <$> List.filter (λ ln, negb (String.eqb ln ""))
                             (Split newline_char (TrimSpace s))
           | Err _ => []
           end ++ more)
  end.

(** [out[len(out)-limit:]] when there are more lines than the limit. *)
Definition last_log_lines (limit : Z) (out : list LogLine) : option (list LogLine) :=
  let n := Z.of_nat (length out) in
  if limit <? n then
    if limit <? 0 then None else Some (drop (Z.to_nat (n - limit)) out)
  else Some out.

Definition level_of (v : string) : string := if String.eqb v "" then "info" else v.

Definition server_logs (h : host) (r : rq) (id : string) : hprog hresp :=
  if negb (h_kcli h) then Ret HPanic
  else
    do pods <- request (HPods (workspace_selector id)) ;
    match pods with
    | Ok ((_ :: _) as l) =>
        let limit := log_limit (q_Query r "limit") in
        let chosen := log_pods l in
        do out <- pod_log_lines (level_of (q_Query r "level"))
                    (tail_per_pod limit (length chosen)) chosen ;
        Ret (match last_log_lines limit out with
             | Some lines => HJson 200 (HLogs lines)
             | None => HPanic
             end)
    | _ => Ret (HJsonError 404 "no pods for workspace" "no_pods")
    end.

Definition handleServer (h : host) (r : rq) : hprog hresp :=
  let path := TrimPrefix (q_Path r) "/api/servers/" in
  if String.eqb path "" then Ret (HStatus 404)
  else
    let parts := Split "/" path in
    let id := default "" (head parts) in
    if negb (h_dyn h) then Ret dyn_unavailable
    else
      match parts with
      | [_] =>
          if String.eqb (q_Method r) "DELETE" then
            do res <- request (HWsDelete id) ;
            Ret (match res with
                 | Err _ => HJsonError 404 "workspace not found" "not_found"
                 | Ok _ => HJson 200 (HMap [("deleted", AStr id)])
                 end)
          else if String.eqb (q_Method r) "GET" then
            do ws <- request (HWsGet id) ;
            Ret (match ws with
                 | Err _ => HJsonError 404 "workspace not found" "not_found"
                 | Ok o => match host_server (Some id) o with
                           | Some s => HJson 200 (HServerOf s)
                           | None => HPanic
                           end
                 end)
          else Ret (HStatus 404)
      | [_; l] =>
          if String.eqb l "logs" && String.eqb (q_Method r) "GET" then server_logs h r id
          else Ret (HStatus 404)
      | _ => Ret (HStatus 404)
      end.

(** The event stream: the last lines, then heartbeats.  A panic before the
    stream starts is answered with 500; one while the last lines are read is
    swallowed. *)
Definition handleSSELogs (h : host) (r : rq) : hprog hresp :=
  let id := q_Query r "target" in
  let tail := log_limit (q_Query r "tail") in
  if String.eqb (TrimSpace id) "" then Ret (HJsonError 400 "missing target" "missing_target")
  else
    do known <- (if h_dyn h then do ws <- request (HWsGet id) ; Ret (Some (is_ok ws))
                 else if h_kcli h then do sv <- request (HServer id) ; Ret (Some (is_ok sv))
                 else Ret None) ;
    match known with
    | None => Ret (HText 500 "internal error")
    | Some false => Ret (HJsonError 404 "unknown target" "not_found")
    | Some true =>
        if negb (h_kcli h) then Ret (HStream [])
        else
          do pods <- request (HPods (workspace_selector id)) ;
          match pods with
          | Ok ((_ :: _) as l) =>
              let chosen := log_pods l in
              let per := Z.quot tail (Z.of_nat (length chosen)) in
              let tailPer := if ((1 <? length chosen)%nat) && (10 <=? per) then per else tail in
              do out <- pod_log_lines (level_of (q_Query r "level")) tailPer chosen ;
              Ret (HStream out)
          | _ => Ret (HStream [])
          end
    end.

(** ** Launching a workspace *)

(** The host's copy of [dns1123Name] can return the empty name. *)
Definition host_dns1123Name (s : string) : string :=
  let s := ToLower (TrimSpace s) in
  let b := (foldl dns_step ([], false) (runes s)).1 in
  let res := s2b (TrimByte "-" (b2s b)) in
  b2s (collapse (length res) res).

(** The last path segment of an image, without its tag. *)
Definition image_base (img : string) : string :=
  let last_seg := match LastIndexByte "/" img with
                  | Some i => if (S i <? String.length img)%nat then drop_str (S i) img else img
                  | None => img
                  end in
  match Cut ":" last_seg with Some (a, _) => a | None => last_seg end.

Definition deriveAgentHost (spec : JobSpec) : string :=
  let base := TrimSpace (js_Name spec) in
  let base := if String.eqb base "" then image_base (js_Image spec) else base in
  let base := if String.eqb base "" then "workload" else base in
  let name := host_dns1123Name base in
  if String.eqb name "" then "workload" else name.

Definition first_name (spec : JobSpec) : string :=
  if String.eqb (js_Name spec) "" then host_dns1123Name (deriveAgentHost spec) else js_Name spec.

Definition suffixed (base hex : string) : string := base +:+ "-" +:+ take_str 5 hex.

(** Up to ten names are probed; every one after the first has a random suffix
    unless no random bytes are available. *)
Fixpoint name_loop (fuel : nat) (first : bool) (base wsName : string) : hprog string :=
  match fuel with
  | O => Ret wsName
  | S n =>
      do candidate <- (if first then Ret wsName
                       else do rnd <- request HRandom ;
                            Ret (match rnd with Some x => suffixed base x | None => wsName end)) ;
      let wsName := take_str 63 candidate in
      do got <- request (HWsGet wsName) ;
      match got with
      | Err _ => Ret wsName
      | Ok _ => name_loop n false base wsName
      end
  end.

(** The environment, in the order of the map's iteration. *)
Definition job_env (spec : JobSpec) : list any :=
  omap (λ kv, let k := TrimSpace kv.1 in
              if String.eqb k "" || String.eqb (TrimSpace kv.2) "" then None
              else Some (AObj [("name", AStr k); ("value", AStr kv.2)]))
    (map_to_list (js_Env spec)).

Definition num (z : Z) : any := ANum (SpecFloat.binary_normalize 53 1024 z 0 false).

Definition job_ports (spec : JobSpec) : list any :=
  omap (λ p, if 0 <? port_Port p
             then Some (AObj [("containerPort", num (port_Port p)); ("name", AStr (port_Name p))])
             else None) (js_Expose spec).

Definition opt_list (k : string) (l : list any) : list (string * any) :=
  match l with [] => [] | _ => [(k, AArr l)] end.

(** The object of a workspace, with its environment or without. *)
Definition job_object (spec : JobSpec) (with_env : bool) (name : string) : list (string * any) :=
  [("apiVersion", AStr "guildnet.io/v1alpha1"); ("kind", AStr "Workspace");
   ("metadata", AObj [("name", AStr name)]);
   ("spec", AObj ([("image", AStr (js_Image spec))]
                  ++ (if with_env then opt_list "env" (job_env spec) else [])
                  ++ opt_list "ports" (job_ports spec)))].

Definition accepted (name : string) : hresp :=
  HJson 202 (HMap [("id", AStr name); ("status", AStr "pending")]).

Definition env_rejected (e : ws_error) : bool :=
  Contains (we_Text e) "env[0].name" || Contains (we_Text e) "env[0].value".

(** After a failed create: once more under another name when the name is
    taken, and once more without the environment when it was rejected.  The
    second retry keeps the name of the first but answers the original one. *)
Definition retry_create (spec : JobSpec) (base wsName : string) (e : ws_error) : hprog hresp :=
  let failed := Ret (HJsonError 500 "workspace create failed" "create_failed") in
  let without_env name :=
    if env_rejected e && negb (bool_decide (job_env spec = [])) then
      do e3 <- request (HWsCreate (job_object spec false name)) ;
      match e3 with None => Ret (accepted wsName) | Some _ => failed end
    else failed in
  if we_Exists e then
    do rnd <- request HRandom ;
    match rnd with
    | None => without_env wsName
    | Some x =>
        let alt := suffixed base x in
        do e2 <- request (HWsCreate (job_object spec true alt)) ;
        match e2 with None => Ret (accepted alt) | Some _ => without_env alt end
    end
  else without_env wsName.

Definition handleWorkspaceJobs (h : host) (r : rq) : hprog hresp :=
  if negb (String.eqb (q_Method r) "POST") then Ret not_allowed
  else
    match dec_jobspec (q_Body r) with
    | None => Ret (HJsonError 400 "invalid job spec" "invalid_spec")
    | Some spec =>
        if String.eqb (js_Image spec) "" then
          Ret (HJsonError 400 "invalid job spec" "invalid_spec")
        else if negb (h_dyn h) then Ret dyn_unavailable
        else
          let wsName := first_name spec in
          let base := if String.eqb wsName "" then "workspace" else wsName in
          do name <- name_loop 10 true base wsName ;
          do e <- request (HWsCreate (job_object spec true name)) ;
          match e with
          | None => Ret (accepted name)
          | Some e => retry_create spec base name e
          end
    end.

(** ** Stop all *)

Fixpoint delete_all (names : list string) : hprog (list string) :=
  match names with
  | [] => Ret []
  | n :: rest =>
      do res <- request (HWsDelete n) ;
      do more <- delete_all rest ;
      Ret (match res with Ok _ => n :: more | Err _ => more end)
  end.

(** [item.GetName()] is empty when there is no name. *)
Definition adminStopAll (h : host) (r : rq) : hprog hresp :=
  if negb (String.eqb (q_Method r) "POST") then Ret not_allowed
  else
    do ok <- (if h_dyn h then request (HAllow "stopAll") else Ret true) ;
    if negb ok then Ret (HJsonError 403 "permission denied" "forbidden")
    else if negb (h_dyn h) then Ret dyn_unavailable
    else
      do lst <- request HWsList ;
      match lst with
      | Err _ => Ret (HJsonError 500 "list workspaces failed" "list_failed")
      | Ok items =>
          do l <- delete_all (List.map (λ it, default "" (item_name it)) items) ;
          Ret (HJson 200 (HDeleted l))
      end.

Definition handleAdmin (h : host) (r : rq) : hprog hresp :=
  let rest := TrimPrefix (q_Path r) "/api/admin/" in
  if String.eqb rest "stop-all" || String.eqb rest "stop-all/" then adminStopAll h r
  else Ret (HStatus 404).

Definition handleProxyDebug (r : rq) : hprog hresp :=
  Ret (HJson 200 (HMap [("server", AStr (q_Query r "server"));
                        ("path", AStr (if String.eqb (q_Query r "path") "" then "/"
                                       else q_Query r "path"))])).

(** ** The user interface *)

(** [filepath.Clean] on slash-separated paths: process the segments with a
    stack; [..] at the root of a rooted path disappears. *)
Fixpoint clean_segs (rooted : bool) (acc : list string) (l : list string) : list string :=
  match l with
  | [] => reverse acc
  | s :: r =>
      if String.eqb s "" || String.eqb s "." then clean_segs rooted acc r
      else if String.eqb s ".." then
        match acc with
        | x :: acc' => if String.eqb x ".." then clean_segs rooted (".." :: acc) r
                       else clean_segs rooted acc' r
        | [] => if rooted then clean_segs rooted [] r else clean_segs rooted [".."] r
        end
      else clean_segs rooted (s :: acc) r
  end.

Definition Clean (p : string) : string :=
  let rooted := HasPrefix p "/" in
  let body := Join "/" (clean_segs rooted [] (Split "/" p)) in
  if rooted then "/" +:+ body else if String.eqb body "" then "." else body.

(** [filepath.Join] of two non-empty elements. *)
Definition path_join (a b : string) : string := Clean (a +:+ "/" +:+ b).

Definition base_of (p : string) : string := default "" (last (Split "/" p)).

Definition dist : string := "ui/dist".
Definition index_path : string := path_join dist "index.html".
Definition no_cache : string := "no-cache, no-store, must-revalidate".
Definition immutable : string := "public, max-age=31536000, immutable".

(** [is_file] says which paths are existing files. *)
Definition handleUI (is_file : string → bool) (path : string) : hresp :=
  if String.eqb path "" || String.eqb path "/" then HFile index_path no_cache
  else
    let cleanPath := Clean (TrimPrefix path "/") in
    let full := path_join dist cleanPath in
    if negb (HasPrefix full (dist +:+ "/")) && negb (String.eqb full dist) then HNotFound
    else if is_file full then
      HFile full (if HasPrefix cleanPath "assets/" then immutable else "")
    else if negb (Contains (base_of cleanPath) ".") then HFile index_path no_cache
    else HNotFound.

(** ** The proxy of the host *)

(** [ResolveServer]: the target the workspace reports, else the address of
    its service.  [pt[:i]] and [pt[i+3:]] around the first [://]. *)
Definition split_target (pt : string) : option (string * string) :=
  match Index pt "://" with
  | Some (S i) => Some (take_str (S i) pt, drop_str (S i + 3) pt)
  | _ => None
  end.

Definition proxy_target (ws : doc) : option (string * string) :=
  match ws !! "status" with
  | Some (AObj st) => let pt := str_field (list_to_map st) "proxyTarget" in
                      if String.eqb pt "" then None else split_target pt
  | _ => None
  end.

(** [None] is a nil dereference: there is no client. *)
Definition resolveServer (h : host) (id sub : string)
    : hprog (option (result (string * string * string))) :=
  do found <- (if h_dyn h then do ws <- request (HWsGet id) ;
                               Ret (match ws with Ok o => proxy_target o | Err _ => None end)
               else Ret None) ;
  match found with
  | Some (sch, hostport) => Ret (Some (Ok (sch, hostport, sub)))
  | None =>
      if negb (h_kcli h) then Ret None
      else
        do a <- request (HSvcAddr id) ;
        Ret (Some (match a with
                   | Err e => Err e
                   | Ok (ip, port, https) =>
                       Ok (if (https : bool) then "https" else "http", ip +:+ ":" +:+ fmt_d port, sub)
                   end))
  end.

(** Where a request goes: scheme, host and path. *)
Record target : Type := { tg_Scheme : string; tg_Host : string; tg_Path : string }.

(** The request headers the director looks at. *)
Record director_in : Type := {
  di_sid : string;        (* X-Guild-Server-ID, trimmed *)
  di_preferPod : bool;
  di_usePF : bool;
  di_scheme : string;
  di_hostport : string;
  di_sub : string
}.

(** The text after the last colon, when the address does not parse. *)
Definition loose_port (hostport : string) : string :=
  match Split ":" hostport with
  | (_ :: _ :: _) as l => default "" (last l)
  | _ => "80"
  end.

Definition port_of (hostport : string) : string :=
  match SplitHostPort hostport with
  | Some (_, p) => if String.eqb p "" then loose_port hostport else p
  | None => loose_port hostport
  end.

(** A ready running pod, else a running one, else the first. *)
Definition pick_running (pods : list hpod) : string :=
  match find_first (λ p, hp_Running p && hp_Ready p) pods with
  | Some p => hp_Name p
  | None => match find_first hp_Running pods with
            | Some p => hp_Name p
            | None => match pods with p :: _ => hp_Name p | [] => "" end
            end
  end.

Definition director_pod (sid : string) : hprog string :=
  do svc <- request (HService sid) ;
  match svc with
  | Ok {| svc_Selector := (_ :: _) as sel |} =>
      do pods <- request (HPods (Join "," (List.map (λ kv, kv.1 +:+ "=" +:+ kv.2) sel))) ;
      Ret (match pods with Ok l => pick_running l | Err _ => "" end)
  | _ => Ret ""
  end.

Definition pf_port (s : string) : Z := default 8080 (sscanf_d s).

Definition service_proxy_path (ns scheme sid port : string) : string :=
  "/api/v1/namespaces/" +:+ ns +:+ "/services/"
  +:+ (if EqualFold scheme "https" then "https:" else "http:") +:+ sid +:+ ":" +:+ port +:+ "/proxy".

Definition pod_proxy_path (ns scheme pod port : string) : string :=
  "/api/v1/namespaces/" +:+ ns +:+ "/pods/"
  +:+ (if EqualFold scheme "https" then "https:" else "http:") +:+ pod +:+ ":" +:+ port +:+ "/proxy".

Definition TrimSuffix (s suf : string) : string :=
  if HasSuffix s suf then take_str (String.length s - String.length suf) s else s.

(** Without a port forward: the address of the service when one was asked
    for, else the API server's proxy to the pod. *)
Definition director_direct (h : host) (api : string * string * string) (i : director_in)
    (port pod : string) (fallback : option (string * string)) : hprog target :=
  let '(scheme0, host0, path0) := api in
  let through_pod :=
    {| tg_Scheme := scheme0; tg_Host := host0;
       tg_Path := singleJoiningSlash ""
                    (singleJoiningSlash (TrimSuffix path0 "/")
                       (pod_proxy_path (h_ns h) (di_scheme i) pod port)) +:+ di_sub i |} in
  Ret (match fallback with
       | Some (sch, hp) =>
           if di_usePF i then {| tg_Scheme := sch; tg_Host := hp;
                                 tg_Path := singleJoiningSlash "" (di_sub i) |}
           else through_pod
       | None => through_pod
       end).

(** The director of the API proxy; [api] is the parsed host of the cluster
    (scheme, host and path).  Requests arrive without a host in their URL, so
    the check for a loopback host at its beginning never applies. *)
Definition apiDirector (h : host) (api : string * string * string) (i : director_in)
    : hprog target :=
  let '(scheme0, host0, path0) := api in
  let scheme0 := if String.eqb scheme0 "" then "https" else scheme0 in
  let port := port_of (di_hostport i) in
  do fallback <- (if String.eqb (di_sid i) "" then Ret None
                  else do a <- request (HSvcAddr (di_sid i)) ;
                       Ret (match a with
                            | Ok (ip, p, https) =>
                                Some (if (https : bool) then "https" else "http",
                                      ip +:+ ":" +:+ fmt_d p)
                            | Err _ => None
                            end)) ;
  do pod <- (if di_preferPod i && negb (String.eqb (di_sid i) "") then director_pod (di_sid i)
             else Ret "") ;
  let service :=
    Ret {| tg_Scheme := scheme0; tg_Host := host0;
           tg_Path := singleJoiningSlash "" (service_proxy_path (h_ns h) (di_scheme i) (di_sid i) port)
                      +:+ di_sub i |} in
  if String.eqb pod "" then service
  else
    do lp <- (if di_usePF i && h_pf h then request (HPFEnsure pod (pf_port port)) else Ret (Err "")) ;
    match lp with
    | Ok lp =>
        if 0 <? lp then
          Ret {| tg_Scheme := "http"; tg_Host := "127.0.0.1:" +:+ fmt_d lp;
                 tg_Path := singleJoiningSlash "" (di_sub i) |}
        else director_direct h (scheme0, host0, path0) i port pod fallback
    | Err _ => director_direct h (scheme0, host0, path0) i port pod fallback
    end.

(** ** Start-up *)

(** [kubeconfigResolver.KubeconfigYAML] on the stored credential. *)
Definition resolver_kubeconfig (hasDB hasSecrets : bool) (cred : result doc) : result string :=
  if negb hasDB then Err "no db"
  else
    match cred with
    | Err e => Err e
    | Ok c =>
        let val := Sprint (c !! "value") in
        match c !! "encrypted" with
        | Some (ABool true) =>
            if hasSecrets then decrypt val else Err "encrypted but no secrets manager"
        | _ => Ok val
        end
    end.

(** The tailscale settings to start with, and whether to write them. *)
Definition seed_tailscale (ts : Tailscale) (cfg : Tailscale) : Tailscale * bool :=
  if String.eqb (TrimSpace (ts_LoginServer ts)) "" then (cfg, true) else (ts, false).

Definition seed_field (v d : string) : string := if String.eqb (TrimSpace v) "" then d else v.

Definition seed_global (g : Global) (listen : string) : Global * bool :=
  let g' := {| g_OrgID := g_OrgID g; g_DefaultNamespace := seed_field (g_DefaultNamespace g) "default";
               g_EmbedOperator := g_EmbedOperator g;
               g_FrontendOrigin := seed_field (g_FrontendOrigin g) "https://127.0.0.1:8090";
               g_ListenLocal := seed_field (g_ListenLocal g) listen |} in
  (g', String.eqb (TrimSpace (g_DefaultNamespace g)) "" || String.eqb (TrimSpace (g_ListenLocal g)) ""
       || String.eqb (TrimSpace (g_FrontendOrigin g)) "").

Definition default_namespace (g : Global) : string :=
  let ns := TrimSpace (g_DefaultNamespace g) in if String.eqb ns "" then "default" else ns.

Definition listen_addr (env : string) (g : Global) : string :=
  let a := TrimSpace env in
  let a := if String.eqb a "" then TrimSpace (g_ListenLocal g) else a in
  if String.eqb a "" then "127.0.0.1:8090" else a.

(** [net.JoinHostPort]. *)
Definition JoinHostPort (host port : string) : string :=
  if Contains host ":" then "[" +:+ host +:+ "]:" +:+ port else host +:+ ":" +:+ port.

Definition cors_origin (g : Global) (listen : string) : string :=
  let o := TrimSpace (g_FrontendOrigin g) in
  if negb (String.eqb o "") then o
  else match SplitHostPort listen with
       | Some (host, port) =>
           "https://" +:+ JoinHostPort (if String.eqb host "" then "127.0.0.1" else host) port
       | None => "https://127.0.0.1:8090"
       end.

End host.

(** ** The user interface stays below its directory *)

(** No segment of a cleaned path is empty or a dot, and parent segments come
    first. *)
Definition plain (s : string) : Prop := s ≠ "" ∧ s ≠ "." ∧ s ≠ ".." ∧ "/"%char ∉ s2b s.

Definition cleaned (l : list string) : Prop :=
  ∃ k segs, l = replicate k ".." ++ segs ∧ Forall plain segs.

Lemma clean_segs_spec rooted acc l :
  cleaned (reverse acc) → Forall (λ s, "/"%char ∉ s2b s) l → cleaned (clean_segs rooted acc l).
Proof.
  intros Hacc Hl. revert acc Hacc. induction Hl as [|s l Hs _ IH]; intros acc Hacc; simpl; [done|].
  destruct (String.eqb_spec s "") as [->|He]; [by apply IH|].
  destruct (String.eqb_spec s ".") as [->|Hd]; [by apply IH|]. simpl.
  destruct (String.eqb_spec s "..") as [->|Hdd].
  - destruct acc as [|x acc].
    + destruct rooted; apply IH; [done|]. by exists 1%nat, [].
    + rewrite reverse_cons in Hacc. destruct Hacc as (k & segs & E & Hp).
      destruct (String.eqb_spec x "..") as [->|Hx].
      * apply IH. rewrite !reverse_cons E.
        destruct segs as [|y segs _] using rev_ind.
        -- exists (S k), []. split; [|done]. rewrite app_nil_r -replicate_S_end.
           by rewrite app_nil_r.
        -- rewrite app_assoc in E. apply app_inj_tail in E as [_ <-].
           apply Forall_app in Hp as [_ [[_ [_ [? _]]] _]%Forall_cons]. done.
      * apply IH. destruct segs as [|y segs _] using rev_ind.
        -- rewrite app_nil_r in E. destruct k as [|k].
           { by apply (f_equal length) in E; rewrite length_app /= in E; lia. }
           rewrite replicate_S_end in E. apply app_inj_tail in E as [E ->]. done.
        -- rewrite app_assoc in E. apply app_inj_tail in E as [E ->].
           apply Forall_app in Hp as [Hp _]. by exists k, segs.
  - apply IH. rewrite reverse_cons. destruct Hacc as (k & segs & -> & Hp).
    exists k, (segs ++ [s]). rewrite app_assoc. split; [done|].
    apply Forall_app. split; [done|]. by repeat constructor.
Qed.

Lemma Clean_relative p :
  HasPrefix p "/" = false →
  Clean p = "." ∨ ∃ segs, Clean p = Join "/" segs ∧ segs ≠ [] ∧ cleaned segs.
Proof.
  intros Hp. unfold Clean. rewrite Hp.
  assert (cleaned (clean_segs false [] (Split "/" p))) as Hc.
  { apply clean_segs_spec; [by exists 0%nat, []|apply Split_no_sep]. }
  destruct (clean_segs false [] (Split "/" p)) as [|x l]; [by left|].
  destruct (String.eqb _ ""); [by left|]. right. exists (x :: l). done.
Qed.

Lemma cleaned_no_slash l : cleaned l → Forall (λ s, "/"%char ∉ s2b s) l.
Proof.
  intros (k & segs & -> & Hp). apply Forall_app. split.
  - apply Forall_replicate. unfold s2b. set_solver.
  - eapply Forall_impl; [exact Hp|]. by intros s (_ & _ & _ & ?).
Qed.

(** A cleaned path that starts with a name has no parent segments. *)
Lemma cleaned_head x l : cleaned (x :: l) → x ≠ ".." → Forall plain (x :: l).
Proof.
  intros (k & segs & E & Hp) Hx. destruct k as [|k]; simpl in E; [by rewrite E|].
  by injection E as -> _.
Qed.

(** The user interface serves nothing outside its directory.  Whatever the
    path of a request, the file that is sent is the index page or an existing
    file whose path is ui/dist or lies below ui/dist/, and none of its segments
    is a parent segment. *)
Theorem ui_confined is_file path f cache :
  handleUI is_file path = HFile f cache →
  f = "ui/dist/index.html"
  ∨ (is_file f = true ∧ (f = dist ∨ HasPrefix f (dist +:+ "/") = true)
     ∧ Forall plain (Split "/" f)).
Proof.
  assert (index_path = "ui/dist/index.html") as Hidx by (vm_compute; reflexivity).
  unfold handleUI. destruct (_ || _); [intros [= <- _]; by left|]. cbv zeta.
  set (cleanPath := Clean _). set (full := path_join dist cleanPath).
  destruct (negb _ && negb _) eqn:Ep; [done|].
  destruct (is_file full) eqn:Ef.
  - intros [= <- _]. right. split; [done|].
    apply andb_false_iff in Ep.
    assert (full = dist ∨ HasPrefix full (dist +:+ "/") = true) as Hfull.
    { destruct Ep as [Ep|Ep]; apply negb_false_iff in Ep; [by right|left; by apply String.eqb_eq]. }
    split; [done|].
    destruct (Clean_relative (dist +:+ "/" +:+ cleanPath) eq_refl) as [Hdot|(segs & Hj & Hne & Hc)].
    { exfalso. unfold full, path_join in Hfull. rewrite Hdot in Hfull. by destruct Hfull. }
    assert (Split "/" full = segs) as ->.
    { unfold full, path_join. rewrite Hj. apply (Split_Join "/"); [done|]. by apply cleaned_no_slash. }
    destruct segs as [|x l]; [done|]. apply cleaned_head; [done|]. intros ->.
    unfold full, path_join in Hfull. rewrite Hj in Hfull.
    destruct l as [|y l]; destruct Hfull as [Hf|Hf]; by vm_compute in Hf.
  - destruct (Contains (base_of cleanPath) "."); [done|]. intros [= <- _]. by left.
Qed.

Lemma ui_confined_witness :
  handleUI (λ _, true) "/assets/app.js" = HFile "ui/dist/assets/app.js" immutable
  ∧ handleUI (λ _, true) "/../../etc/passwd" = HNotFound
  ∧ ("ui/dist/assets/app.js" = "ui/dist/index.html"
     ∨ (true = true ∧ ("ui/dist/assets/app.js" = dist
                       ∨ HasPrefix "ui/dist/assets/app.js" (dist +:+ "/") = true)
        ∧ Forall plain (Split "/" "ui/dist/assets/app.js"))).
Proof.
  do 2 (split; [vm_compute; reflexivity|]).
  exact (ui_confined (λ _, true) "/assets/app.js" _ immutable ltac:(vm_compute; reflexivity)).
Defined.

(** ** Launching a workspace *)

(** The object a request created. *)
Definition created (e : gevent hcall) : option (list (string * any)) :=
  match e with
  | Ev c r =>
      match c in hcall X return X → option (list (string * any)) with
      | HWsCreate obj => λ a, match a with None => Some obj | Some _ => None end
      | _ => λ _, None
      end r
  end.

(** The name a request probed. *)
Definition probed (e : gevent hcall) : option string :=
  match e with Ev (HWsGet n) _ => Some n | _ => None end.

Lemma length_take_str n s : (String.length (take_str n s) ≤ n)%nat.
Proof. revert s; induction n as [|n IH]; intros [|c s]; simpl; try lia. specialize (IH s). lia. Qed.

Lemma take_str_app_long n a b :
  (n ≤ String.length a)%nat → take_str n (a +:+ b) = take_str n a.
Proof.
  revert a; induction n as [|n IH]; intros [|c a] H; simpl in *; try lia; [done|done|].
  f_equal. apply IH. lia.
Qed.

Lemma take_str_idemp n s : take_str n (take_str n s) = take_str n s.
Proof. revert s; induction n as [|n IH]; intros [|c s]; simpl; [done..|]. by rewrite IH. Qed.

Lemma created_probe n a t : omap created (Ev (HWsGet n) a :: t) = omap created t.
Proof. done. Qed.

Lemma probed_probe n a t : omap probed (Ev (HWsGet n) a :: t) = n :: omap probed t.
Proof. done. Qed.

(** What the search for a name does. *)
Definition searched (base : string) (fuel : nat) (t : list (gevent hcall)) : Prop :=
  omap created t = [] ∧ (length (omap probed t) ≤ fuel)%nat
  ∧ Forall (λ n, (String.length n ≤ 63)%nat) (omap probed t)
  ∧ ((63 ≤ String.length base)%nat → Forall (eq (take_str 63 base)) (omap probed t)).

Lemma name_loop_runs fuel first base ws t name :
  ((63 ≤ String.length base)%nat → ws = base ∨ ws = take_str 63 base) →
  runs (name_loop fuel first base ws) t name →
  searched base fuel t
  ∧ ((0 < fuel)%nat ∨ (String.length ws ≤ 63)%nat → (String.length name ≤ 63)%nat).
Proof.
  revert first ws t; induction fuel as [|n IH]; intros first ws t Hws; cbn [name_loop].
  { intros [-> ->]. split; [|intros [?|?]; [lia|done]].
    unfold searched. simpl. split_and!; auto. }
  intros (t1 & t2 & cand & -> & Hc & Hr)%runs_bind.
  assert (omap created t1 = [] ∧ omap probed t1 = []
          ∧ ((63 ≤ String.length base)%nat → take_str 63 cand = take_str 63 base))
    as (E1 & E2 & Hcand).
  { destruct first.
    - destruct Hc as [-> ->]. repeat split. intros Hb.
      destruct (Hws Hb) as [-> | ->]; [done|apply take_str_idemp].
    - apply runs_req_bind in Hc as ([x|] & t' & -> & -> & ->); repeat split; intros Hb.
      + by apply take_str_app_long.
      + destruct (Hws Hb) as [-> | ->]; [done|apply take_str_idemp]. }
  cbv zeta in Hr. apply runs_req_bind in Hr as ([o|e] & t' & -> & Hr); cbv beta iota in Hr.
  - apply IH in Hr as [(Hc1 & Hl & Hf & Hb) Hlen]; [|intros Hb; right; by apply Hcand].
    assert (searched base (S n) (t1 ++ Ev (HWsGet (take_str 63 cand)) (Ok o) :: t')) as Hs.
    { unfold searched. rewrite !omap_app E1 E2 created_probe probed_probe !app_nil_l.
      split_and!; [done|rewrite length_cons; lia| |].
      - constructor; [apply length_take_str|done].
      - intros Hlong. constructor; [by rewrite Hcand|auto]. }
    split; [done|]. intros _. apply Hlen. right. apply length_take_str.
  - destruct Hr as [-> ->]. split; [|intros _; apply length_take_str].
    unfold searched. rewrite !omap_app E1 E2 created_probe probed_probe !app_nil_l.
    split_and!; [done|simpl; lia| |].
    + constructor; [apply length_take_str|done].
    + intros Hlong. constructor; [by rewrite Hcand|done].
Qed.

(** One workspace was created and its name answered, or none was. *)
Definition launched (spec : JobSpec) (ws : string) (e : ws_error) (objs : list (list (string * any)))
    (res : hresp) : Prop :=
  (∃ n env nm, res = accepted n ∧ objs = [job_object spec env nm]
     ∧ (nm = n ∨ (n = ws ∧ we_Exists e = true ∧ env_rejected e = true)))
  ∨ (res = HJsonError 500 "workspace create failed" "create_failed" ∧ objs = []).

(** The retry without the environment. *)
Lemma without_env_runs spec ws nm e t res :
  runs (if env_rejected e && negb (bool_decide (job_env spec = [])) then
          do e3 <- request (HWsCreate (job_object spec false nm)) ;
          match e3 with
          | None => Ret (accepted ws)
          | Some _ => Ret (HJsonError 500 "workspace create failed" "create_failed")
          end
        else Ret (HJsonError 500 "workspace create failed" "create_failed")) t res →
  (nm = ws ∨ we_Exists e = true) →
  launched spec ws e (omap created t) res ∧ omap probed t = [].
Proof.
  intros Hr Hnm. destruct (env_rejected e && _) eqn:Ee.
  - apply andb_true_iff in Ee as [Ee _].
    apply runs_req_bind in Hr as ([e3|] & t' & -> & -> & ->); (split; [|done]).
    + by right.
    + left. exists ws, false, nm. split; [done|]. split; [done|]. destruct Hnm; auto.
  - destruct Hr as [-> ->]. split; [by right|done].
Qed.

Lemma retry_create_runs spec base ws e t res :
  runs (retry_create spec base ws e) t res →
  launched spec ws e (omap created t) res ∧ omap probed t = [].
Proof.
  unfold retry_create. cbv zeta. destruct (we_Exists e) eqn:Ex.
  - intros ([x|] & t1 & -> & Hr)%runs_req_bind; cbv beta iota in Hr.
    + apply runs_req_bind in Hr as ([e2|] & t2 & -> & Hr); cbv beta iota in Hr.
      * apply without_env_runs in Hr; [exact Hr|by right].
      * destruct Hr as [-> ->]. split; [|done]. left.
        exists (suffixed base x), true, (suffixed base x). auto.
    + apply without_env_runs in Hr; [exact Hr|by left].
  - intros Hr. apply without_env_runs in Hr; [exact Hr|by left].
Qed.


(** ** A host to run the handlers with *)

(** Workspaces are a list of names; random bytes are always the same. *)
Definition mem_host : server hcall (list string) := λ X s c,
  match c in hcall X return list string * X with
  | HRoute c => (s, (mem_router _ ∅ c).2)
  | HStop => (s, tt) | HNow => (s, "2025-01-01T00:00:00Z") | HRandom => (s, Some "0a1b2c")
  | HExport => (s, tt)
  | HUpsertAgent _ => (s, tt) | HGetAgent _ _ => (s, None) | HListAgents _ => (s, [])
  | HDial _ => (s, None)
  | HWsList => (s, Ok [])
  | HWsGet n => (s, if existsb (String.eqb n) s then Ok ∅ else Err "not found")
  | HWsCreate obj =>
      match assoc "metadata" obj with
      | Some (AObj [(_, AStr n)]) => (n :: s, None)
      | _ => (s, Some {| we_Exists := false; we_Text := "invalid" |})
      end
  | HWsDelete n => (List.filter (λ x, negb (String.eqb x n)) s, Ok tt)
  | HServer _ => (s, Err "not found")
  | HPods _ => (s, Ok []) | HPodLog _ _ _ => (s, Err "none")
  | HService _ => (s, Err "not found") | HSvcAddr _ => (s, Ok ("10.1.2.3", 8080, false))
  | HPFEnsure _ _ => (s, Err "none")
  | HAllow _ => (s, true)
  end.

Definition demo_host : host :=
  {| h_dyn := true; h_kcli := true; h_pf := true; h_ns := "default"; h_name := "host" |}.

(** Bodies name the image. *)
Definition demo_job (img : string) : JobSpec :=
  {| js_Name := ""; js_Image := img; js_Args := []; js_Env := ∅; js_Resources := None;
     js_Labels := ∅; js_Expose := [] |}.
Definition demo_host_env : HostEnv :=
  {| dec_agent := λ _, None; dec_jobspec := λ b, Some (demo_job b) |}.


(** ** Where the proxy of the host sends a request *)

Section director.
Context `{UC : UnicodeCase} `{RE : RouterEnv}.

(** Through the API server to the service. *)
Definition to_service (h : host) (scheme0 host0 : string) (i : director_in) : target :=
  {| tg_Scheme := scheme0; tg_Host := host0;
     tg_Path := service_proxy_path (h_ns h) (di_scheme i) (di_sid i) (port_of (di_hostport i))
                +:+ di_sub i |}.

(** The other targets need a pod of the named server. *)
Definition to_pod (h : host) (host0 : string) (i : director_in) (t : list (gevent hcall))
    (tg : target) : Prop :=
  di_sid i ≠ "" ∧ di_preferPod i = true ∧ ∃ pod, pod ≠ ""
  ∧ ((∃ lp, di_usePF i = true ∧ 0 < lp
        ∧ Ev (HPFEnsure pod (pf_port (port_of (di_hostport i)))) (Ok lp) ∈ t
        ∧ tg_Host tg = "127.0.0.1:" +:+ fmt_d lp)
     ∨ (∃ ip p https, di_usePF i = true ∧ Ev (HSvcAddr (di_sid i)) (Ok (ip, p, https)) ∈ t
        ∧ tg_Host tg = ip +:+ ":" +:+ fmt_d p)
     ∨ (tg_Host tg = host0
        ∧ ∃ base, tg_Path tg = base +:+ pod_proxy_path (h_ns h) (di_scheme i) pod
                                          (port_of (di_hostport i)) +:+ di_sub i)).

Lemma join_rooted p : HasPrefix p "/" = true → singleJoiningSlash "" p = p.
Proof. unfold singleJoiningSlash. by intros ->. Qed.

Lemma join_root p : ∃ base, singleJoiningSlash "" p = base +:+ p.
Proof.
  unfold singleJoiningSlash. destruct (HasPrefix p "/"); [by exists ""|by exists "/"].
Qed.

Lemma join_after a p :
  HasPrefix p "/" = true → ∃ base, singleJoiningSlash a p = base +:+ p.
Proof.
  intros Hp. unfold singleJoiningSlash. rewrite Hp. destruct (HasSuffix a "/") eqn:Ea.
  - unfold HasSuffix in Ea. apply andb_true_iff in Ea as [Hlen Ha]. apply String.eqb_eq in Ha.
    apply HasPrefix_spec in Hp as [q ->]. simpl.
    exists (take_str (String.length a - 1) a).
    rewrite -{1}(take_drop_str (String.length a - 1) a).
    change (String.length "/") with 1%nat in Ha. by rewrite Ha str_app_assoc.
  - by exists a.
Qed.

(** A path through the API server ends in the pod's proxy path. *)
Lemma through_pod_path path0 ns scheme pod port sub :
  ∃ base, singleJoiningSlash "" (singleJoiningSlash (TrimSuffix path0 "/")
            (pod_proxy_path ns scheme pod port)) +:+ sub
          = base +:+ pod_proxy_path ns scheme pod port +:+ sub.
Proof.
  destruct (join_after (TrimSuffix path0 "/") (pod_proxy_path ns scheme pod port) eq_refl)
    as [b1 ->].
  destruct (join_root (b1 +:+ pod_proxy_path ns scheme pod port)) as [b2 ->].
  exists (b2 +:+ b1). by rewrite !str_app_assoc.
Qed.

(** Without a port forward a request goes to the fallback address, when one was
    asked for and found, or through the API server to the pod. *)
Lemma director_direct_target h sch host0 path0 i port pod fb t tg :
  runs (director_direct h (sch, host0, path0) i port pod fb) t tg →
  (∃ fsch hp, fb = Some (fsch, hp) ∧ di_usePF i = true ∧ tg_Host tg = hp)
  ∨ (tg_Host tg = host0
     ∧ ∃ base, tg_Path tg = base +:+ pod_proxy_path (h_ns h) (di_scheme i) pod port +:+ di_sub i).
Proof.
  unfold director_direct. intros [_ ->].
  destruct fb as [[fsch hp]|]; [destruct (di_usePF i)|];
    [left; by exists fsch, hp|right; split; [done|apply through_pod_path]..].
Qed.

(** Where the host's proxy sends a request.  Either through the API server
    to the service whose id came with the request, on the port of the resolved
    address; or, only when the request names a server and asks for a pod, to
    the local end of a port forward to a pod, to the service's own address, or
    through the API server to the pod.  A request without a server id is sent
    to the API server, to a service with an empty name, whatever host it
    named. *)
Theorem director_target h scheme0 host0 path0 i t tg :
  runs (apiDirector h (scheme0, host0, path0) i) t tg →
  (tg = to_service h (if String.eqb scheme0 "" then "https" else scheme0) host0 i
   ∨ to_pod h host0 i t tg)
  ∧ (di_sid i = "" → t = []
     ∧ tg_Host tg = host0
     ∧ tg_Path tg = service_proxy_path (h_ns h) (di_scheme i) "" (port_of (di_hostport i))
                    +:+ di_sub i).
Proof.
  unfold apiDirector. cbv zeta. set (sch := if String.eqb scheme0 "" then _ else _).
  set (port := port_of (di_hostport i)).
  intros (t1 & t2 & fb & -> & Hfb & Hr)%runs_bind.
  apply runs_bind in Hr as (t3 & t4 & pod & -> & Hpod & Hr).
  destruct (String.eqb_spec pod "") as [->|Hne].
  { destruct Hr as [-> ->]. rewrite join_rooted; [|done]. split; [by left|].
    intros Es. rewrite Es in Hfb, Hpod. rewrite andb_false_r in Hpod.
    destruct Hfb as [-> _], Hpod as [-> _]. unfold port. by rewrite Es. }
  assert (di_sid i ≠ "" ∧ di_preferPod i = true) as [Hsid Hpp].
  { destruct (di_preferPod i); [|by destruct Hpod].
    destruct (String.eqb_spec (di_sid i) ""); [by destruct Hpod|done]. }
  split; [|done]. right. split; [done|]. split; [done|]. exists pod. split; [done|].
  apply runs_bind in Hr as (t5 & t6 & lp & -> & Hlp & Hr).
  assert (runs (director_direct h (sch, host0, path0) i port pod fb) t6 tg →
    (∃ ip p https, di_usePF i = true
        ∧ Ev (HSvcAddr (di_sid i)) (Ok (ip, p, https)) ∈ t1 ++ t3 ++ t5 ++ t6
        ∧ tg_Host tg = ip +:+ ":" +:+ fmt_d p)
    ∨ (tg_Host tg = host0
        ∧ ∃ base, tg_Path tg = base +:+ pod_proxy_path (h_ns h) (di_scheme i) pod port
                                  +:+ di_sub i)) as Hdirect.
  { intros [(fsch & hp & -> & Hpf & Hhp)|]%director_direct_target; [left|by right].
    rewrite (proj2 (String.eqb_neq _ _) Hsid) in Hfb.
    apply runs_req_bind in Hfb as ([[[ip p] https]|] & t' & -> & -> & [= -> ->]).
    exists ip, p, https. split; [done|]. split; [left|done]. }
  destruct lp as [lp|e]; [|right; by apply Hdirect].
  destruct (0 <? lp) eqn:El; [|right; by apply Hdirect].
  destruct Hr as [-> ->]. left. exists lp.
  destruct (di_usePF i), (h_pf h); simpl in Hlp; try by destruct Hlp.
  apply runs_request in Hlp as ->. split; [done|]. split; [lia|].
  split; [|done]. rewrite list_elem_of_In !List.in_app_iff. simpl. tauto.
Qed.

(** The registry and the router read the same kubeconfig.  Whenever the
    router reads a kubeconfig from a stored credential, the resolver of the
    registry returns the same text, except for a credential that is encrypted
    without saying so: there the resolver returns the cipher text. *)
Theorem resolver_agrees hasSecrets (cred : doc) kc :
  kubeconfig_of_cred hasSecrets cred = Some kc →
  resolver_kubeconfig true hasSecrets (Ok cred) = Ok kc
  ∨ (cred !! "encrypted" ≠ Some (ABool true) ∧ decrypt (Sprint (cred !! "value")) = Ok kc
     ∧ resolver_kubeconfig true hasSecrets (Ok cred) = Ok (Sprint (cred !! "value"))).
Proof.
  unfold kubeconfig_of_cred, resolver_kubeconfig. cbn [negb].
  set (val := Sprint (cred !! "value")).
  assert (∀ d : option string, d = (if hasSecrets then
             match decrypt val with
             | Ok v => if valid_kubeconfig v then Some v else None
             | Err _ => None
             end else None) → ∀ v, d = Some v → decrypt val = Ok v) as Hdec.
  { intros d -> v. destruct hasSecrets; [|done]. destruct (decrypt val); [|done].
    destruct (valid_kubeconfig _); [|done]. by intros [= ->]. }
  set (d := if hasSecrets then _ else _) in *. specialize (Hdec d eq_refl).
  destruct (cred !! "encrypted") as [[| [] | | | |]|]; try (
    destruct d as [v|] eqn:Ed;
    [intros [= ->]; right; split; [done|]; split; [by apply Hdec|done]
    |destruct (valid_kubeconfig val); [intros [= <-]; by left|done]]).
  intros Hd. left. destruct hasSecrets; [by apply Hdec|done].
Qed.

End director.

Definition demo_director (sid : string) : director_in :=
  {| di_sid := sid; di_preferPod := false; di_usePF := false; di_scheme := "http";
     di_hostport := "10.9.8.7:3000"; di_sub := "/x" |}.

Lemma director_target_witness :
  let p := @apiDirector ascii_case demo_env demo_host ("https", "10.0.0.1:6443", "")
             (demo_director "") in
  let tg := (exec mem_host p []).2 in
  tg = {| tg_Scheme := "https"; tg_Host := "10.0.0.1:6443";
          tg_Path := "/api/v1/namespaces/default/services/http::3000/proxy/x" |}
  ∧ tg_Host tg = "10.0.0.1:6443".
Proof.
  intros p tg. split; [vm_compute; reflexivity|].
  exact (proj1 (proj2 (proj2 (@director_target ascii_case demo_env demo_host "https"
           "10.0.0.1:6443" "" (demo_director "") _ tg (exec_runs mem_host p [])) eq_refl))).
Defined.

Lemma resolver_agrees_witness :
  let cred : doc := list_to_map (kubeconfig_cred "x" "c1" "enc:apiVersion: v1" true "t") in
  @kubeconfig_of_cred demo_env true cred = Some "apiVersion: v1"
  ∧ (@resolver_kubeconfig demo_env true true (Ok cred) = Ok "apiVersion: v1"
     ∨ (cred !! "encrypted" ≠ Some (ABool true)
        ∧ @decrypt demo_env (@Sprint demo_env (cred !! "value")) = Ok "apiVersion: v1"
        ∧ @resolver_kubeconfig demo_env true true (Ok cred)
          = Ok (@Sprint demo_env (cred !! "value")))).
Proof.
  intros cred. split; [vm_compute; reflexivity|].
  apply (@resolver_agrees demo_env true cred "apiVersion: v1"). vm_compute. reflexivity.
Defined.
