(* ===== verification/HostMount.v ===== *)
(** * The routes of the host (cmd/hostapp/main.go, internal/httpx/middleware.go)

    How the host mounts the orchestration API among its own endpoints, the
    middleware around them, and what the two route tables mean together. *)

From S2P Require Import Prelude GoStrings NetAddr Values LocalDb Settings Jobs Proxy Prog.
From S2P Require Import Mux Rbac DbManager DbHandlers Router RouterCluster RouterSafety HostApp.

Local Open Scope Z_scope.

(** ** The orchestration API inside the host *)

(** The callback for changed settings stops the host. *)
Definition host_call (X : Set) (c : rcall X) : hcall X :=
  match c in rcall X return hcall X with
  | OnSettingsChanged _ => HStop
  | c => HRoute c
  end.

Definition with_path (r : rq) (p : string) : rq :=
  {| q_Method := q_Method r; q_Path := p; q_RemoteAddr := q_RemoteAddr r;
     q_Authorization := q_Authorization r; q_APIToken := q_APIToken r;
     q_Principal := q_Principal r; q_ContentType := q_ContentType r;
     q_FwdProto := q_FwdProto r; q_Host := q_Host r; q_TLS := q_TLS r;
     q_Query := q_Query r; q_Body := q_Body r |}.

Section mount.
Context `{UC : UnicodeCase} `{RE : RouterEnv} `{BD : Bodies} `{HE : HostEnv}.

(** What the orchestration API depends on, as the host wires it: no token is
    ever set. *)
Definition host_deps (hasSecrets : bool) : Deps :=
  {| has_DB := true; has_Secrets := hasSecrets; has_Registry := true; has_Callback := true;
     Token := "" |}.

Definition route (d : Deps) (r : rq) : hprog hresp :=
  do x <- translate host_call (Router d r) ; Ret (HRouter x).

(** [http.StripPrefix("/api", apiMux)]. *)
Definition route_stripped (d : Deps) (r : rq) : hprog hresp :=
  route d (with_path r (TrimPrefix (q_Path r) "/api")).

(** ** The proxy of the host *)

Definition host_proxy_request (r : rq) : proxy_request :=
  {| pr_to := q_Query r "to"; pr_path := q_Query r "path"; pr_scheme := q_Query r "scheme";
     pr_URLPath := q_Path r |}.

(** The server and rest of the path the resolver is asked for, if it is. *)
Definition server_asked (p : proxy_request) : option (string * string) :=
  if (String.eqb (pr_to p) "" || String.eqb (pr_path p) "")
     && HasPrefix (pr_URLPath p) "/proxy/server/"
  then let '(id, rest) := split_rest (TrimPrefix (pr_URLPath p) "/proxy/server/") in
       Some (unescape_or_same id, rest)
  else None.

Definition resolved_opts (a : result (string * string * string)) : proxy_opts :=
  {| ResolveServer := Some (λ _ _, a); HasAPIProxy := true |}.

(** A forwarded request needs the API client. *)
Definition proxy_answer (h : host) (o : outcome) : hresp :=
  match o with
  | Forward _ _ _ _ => if h_kcli h then HProxy o else HPanic
  | Reject _ _ => HProxy o
  end.

Definition handleHostProxy (h : host) (r : rq) : hprog hresp :=
  let p := host_proxy_request r in
  match server_asked p with
  | None => Ret (proxy_answer h (ServeHTTP (resolved_opts (Err "")) p))
  | Some (id, sub) =>
      do a <- resolveServer h id sub ;
      Ret (match a with
           | None => HPanic
           | Some a => proxy_answer h (ServeHTTP (resolved_opts a) p)
           end)
  end.

(** ** Route table and middleware *)

Abbreviation handler := (host → Deps → rq → hprog hresp).

Definition host_table : list (string * handler) :=
  [("/api/deploy/", λ _, route); ("/api/jobs", λ _, route); ("/api/jobs/", λ _, route);
   ("/api/jobs-logs/", λ _, route); ("/ws/jobs", λ _, route);
   ("/api/", λ _, route_stripped);
   ("/api/cluster/", λ _, route); ("/sse/cluster/", λ _, route); ("/api/health", λ _, route);
   ("/healthz", λ _ _ _, Ret (HText 200 "ok"));
   ("/internal/shutdown", λ _ _, handleShutdown);
   ("/api/v1/agents/register", λ _ _, handleRegister);
   ("/api/v1/resolve", λ _ _, handleResolve);
   ("/api/v1/agents", λ _ _, handleAgents);
   ("/api/metrics", λ _ _ _, handleMetrics);
   ("/api/ui-config", λ h _ _, handleHostUIConfig h);
   ("/api/v1/smoke-dial", λ _ _, handleSmokeDial);
   ("/api/images", λ _ _, handleImages);
   ("/api/image-defaults", λ _ _, handleImageDefaults);
   ("/api/servers", λ h _, handleServers h);
   ("/api/servers/", λ h _, handleServer h);
   ("/api/workspace-jobs", λ h _, handleWorkspaceJobs h);
   ("/api/admin/stop-all", λ h _, adminStopAll h); ("/api/admin/stop-all/", λ h _, adminStopAll h);
   ("/api/stop-all", λ h _, adminStopAll h); ("/api/stop-all/", λ h _, adminStopAll h);
   ("/api/admin/", λ h _, handleAdmin h);
   ("/sse/logs", λ h _, handleSSELogs h);
   ("/api/proxy-debug", λ _ _, handleProxyDebug);
   ("/proxy", λ h _, handleHostProxy h); ("/proxy/", λ h _, handleHostProxy h)].

(** The user interface is served when its directory exists. *)
Definition ui_table (ui : option (string → bool)) : list (string * handler) :=
  match ui with
  | None => []
  | Some is_file =>
      [("/favicon.ico", λ _ _ _, Ret (let fav := path_join dist "favicon.ico" in
                                      if is_file fav then HFile fav "" else HStatus 204));
       ("/", λ _ _ r, Ret (handleUI is_file (q_Path r)))]
  end.

Definition serve_table (tbl : list (string * handler)) (h : host) (d : Deps) (r : rq)
    : hprog hresp :=
  let pats := tbl.*1 in
  if mux_redirects pats (q_Path r) then Ret HRedirect
  else
    match mux_match pats (q_Path r) ≫= λ p, find_first (λ kv, String.eqb kv.1 p) tbl with
    | Some (_, f) => f h d r
    | None => Ret HNotFound
    end.

(** The CORS headers of a response. *)
Definition cors_headers (allowed origin : string) : list (string * string) :=
  if negb (String.eqb origin "") && (String.eqb allowed "*" || String.eqb origin allowed) then
    [("Access-Control-Allow-Origin", origin); ("Vary", "Origin");
     ("Access-Control-Allow-Credentials", "true");
     ("Access-Control-Allow-Methods", "GET, POST, PUT, PATCH, DELETE, OPTIONS");
     ("Access-Control-Allow-Headers",
      "Content-Type, Authorization, X-Requested-With, Accept, X-Request-Id")]
  else [].

(** [CORS] answers preflight requests itself. *)
Definition Host (ui : option (string → bool)) (h : host) (d : Deps) (r : rq) : hprog hresp :=
  if String.eqb (q_Method r) "OPTIONS" then Ret (HStatus 204)
  else serve_table (host_table ++ ui_table ui) h d r.

(** [RequestID] keeps the id of the client or makes one. *)
Definition request_id (given fresh_id : string) : string :=
  if String.eqb given "" then fresh_id else given.

End mount.

(** ** Lemmas: what the two route tables serve together *)

Section routes.
Context `{UC : UnicodeCase} `{RE : RouterEnv} `{BD : Bodies} `{HE : HostEnv}.

(** The paths of the host's settings. *)
Definition settings_paths : list string :=
  ["/api/settings/tailscale"; "/api/settings/database"; "/api/settings/global"].

Lemma dispatched (tbl : list (string * (host → Deps → rq → hprog hresp))) h d r :
  serve_table tbl h d r = Ret HRedirect ∨ serve_table tbl h d r = Ret HNotFound
  ∨ ∃ pat f, (pat, f) ∈ tbl ∧ pattern_matches pat (q_Path r) = true
             ∧ serve_table tbl h d r = f h d r.
Proof.
  unfold serve_table. destruct (mux_redirects _ _); [by left|right].
  destruct (mux_match _ _) as [p|] eqn:Em; [|by left]. simpl.
  destruct (find_first _ tbl) as [[pat f]|] eqn:Ef; [|by left]. right.
  apply mux_match_Some in Em as [_ Hm]. apply find_first_Some in Ef as [Hin Hk].
  simpl in Hk. apply String.eqb_eq in Hk as ->. by exists p, f.
Qed.

(** ** Stopping the host *)

(** Who may stop the host: a local caller of the shutdown endpoint, and
    whoever changes settings. *)
Definition may_stop (r : rq) : Prop :=
  (q_Path r = "/internal/shutdown" ∧ q_Method r = "POST"
   ∧ ∃ host port, SplitHostPort (q_RemoteAddr r) = Some (host, port)
                  ∧ host ∈ ["127.0.0.1"; "::1"; "localhost"])
  ∨ q_Path r ∈ settings_paths ∨ HasPrefix (q_Path r) "/api/api/settings/cluster/" = true.

Definition stop_allowed (r : rq) (e : gevent hcall) : Prop :=
  match e with Ev HStop _ => may_stop r | _ => True end.

Lemma handleShutdown_stops r :
  q_Path r = "/internal/shutdown" → issues_only (stop_allowed r) (handleShutdown r).
Proof.
  intros Hp. unfold handleShutdown.
  destruct (String.eqb_spec (q_Method r) "POST") as [Hm|]; [|exact I].
  destruct (SplitHostPort (q_RemoteAddr r)) as [[host port]|] eqn:Es; [|exact I].
  cbn [negb].
  destruct (negb (String.eqb host "127.0.0.1") && _ && _) eqn:Eh; [exact I|].
  intros ?. split; [|exact I]. left. do 2 (split; [done|]). exists host, port. split; [done|].
  rewrite !elem_of_cons. apply andb_false_iff in Eh as [[Eh|Eh]%andb_false_iff|Eh];
    apply negb_false_iff, String.eqb_eq in Eh; auto.
Qed.

(** A request of the orchestration API stops the host on its settings routes
    only. *)
Lemma route_stops d r r0 :
  (q_Path r ∈ ["/settings/tailscale"; "/settings/database"; "/settings/global"] → may_stop r0) →
  (HasPrefix (q_Path r) "/api/settings/cluster/" = true → may_stop r0) →
  issues_only (stop_allowed r0) (route d r).
Proof.
  intros Hs Hc. unfold route. apply issues_only_bind; [|done].
  apply issues_only_translate. eapply issues_only_mono; [|apply Router_permitted].
  intros [X c a]. destruct c; try done. cbn [permitted translate_event host_call stop_allowed].
  intros [[_ Hg]|Hu]; [done|done|]. cbn [unguarded] in Hu.
  apply orb_true_iff in Hu as [Hu|Hu]; [|by apply Hc].
  apply Hs. rewrite !elem_of_cons. repeat (apply orb_true_iff in Hu as [Hu|Hu]);
    apply String.eqb_eq in Hu; auto.
Qed.

(** Below these patterns the API is mounted under its own paths. *)
Lemma route_mounted d r pat :
  pattern_matches pat (q_Path r) = true →
  pat ∈ ["/api/deploy/"; "/api/jobs"; "/api/jobs/"; "/api/jobs-logs/"; "/ws/jobs";
         "/api/cluster/"; "/sse/cluster/"; "/api/health"] →
  issues_only (stop_allowed r) (route d r).
Proof.
  intros Hm Hin.
  assert ((q_Path r ∉ ["/settings/tailscale"; "/settings/database"; "/settings/global"])
          ∧ HasPrefix (q_Path r) "/api/settings/cluster/" = false) as [Hs Hc].
  { rewrite !elem_of_cons elem_of_nil in Hin.
    repeat (destruct Hin as [-> | Hin];
      [first [apply pattern_exact in Hm; [|reflexivity]
             | apply pattern_subtree, HasPrefix_spec in Hm as [t Hm]; [|reflexivity]];
       rewrite Hm; split; [rewrite !elem_of_cons elem_of_nil; naive_solver|reflexivity]|]).
    done. }
  apply route_stops; [done|]. by rewrite Hc.
Qed.

Lemma route_stripped_stops d r :
  HasPrefix (q_Path r) "/api/" = true → issues_only (stop_allowed r) (route_stripped d r).
Proof.
  intros [t Hp]%HasPrefix_spec. unfold route_stripped.
  assert (TrimPrefix (q_Path r) "/api" = "/" +:+ t) as -> by by rewrite Hp.
  apply route_stops; cbn [with_path q_Path]; intros Hs; right; rewrite Hp.
  - left. unfold settings_paths. rewrite !elem_of_cons in Hs |- *.
    destruct Hs as [Hs|[Hs|[Hs|Hs]]]; [injection Hs as ->..|by apply elem_of_nil in Hs]; auto.
  - right. apply HasPrefix_spec in Hs as [u Hs]. injection Hs as ->. reflexivity.
Qed.

(** Close the goal about one request that is not a stop. *)
Ltac no_stop := idtac; match goal with |- stop_allowed _ _ => exact I end.

Lemma pod_log_lines_stops r level tail pods :
  issues_only (stop_allowed r) (pod_log_lines level tail pods).
Proof.
  induction pods as [|p pods IH]; [exact I|]. cbn [pod_log_lines].
  prog_walk ltac:(first [no_stop | exact IH]).
Qed.

Lemma name_loop_stops r n first base name :
  issues_only (stop_allowed r) (name_loop n first base name).
Proof.
  revert first name; induction n as [|n IH]; intros first name; [exact I|]. cbn [name_loop].
  prog_walk ltac:(first [no_stop | apply IH]).
Qed.

Lemma delete_all_stops r names : issues_only (stop_allowed r) (delete_all names).
Proof.
  induction names as [|n names IH]; [exact I|]. cbn [delete_all].
  prog_walk ltac:(first [no_stop | exact IH]).
Qed.

(** The endpoints of the host itself never stop it. *)
Lemma own_handler_stops h d r pat f :
  (pat, f) ∈ drop 11 host_table → issues_only (stop_allowed r) (f h d r).
Proof.
  cbn [drop host_table]. rewrite !elem_of_cons elem_of_nil. intros Hin.
  repeat (destruct Hin as [[= _ ->]|Hin]; [shelve|]). done.
  Unshelve.
  all: cbv beta; unfold handleRegister, handleResolve, handleAgents, handleMetrics,
    handleHostUIConfig, handleSmokeDial, handleImages, handleImageDefaults, handleServers,
    handleServer, server_logs, handleWorkspaceJobs, retry_create, handleAdmin, adminStopAll,
    handleSSELogs, handleProxyDebug, handleHostProxy, resolveServer.
  all: prog_walk ltac:(first
    [ no_stop | apply pod_log_lines_stops | apply name_loop_stops | apply delete_all_stops ]).
Qed.

Lemma handler_stops ui h d r pat f :
  (pat, f) ∈ host_table ++ ui_table ui → pattern_matches pat (q_Path r) = true →
  issues_only (stop_allowed r) (f h d r).
Proof.
  rewrite elem_of_app. intros [Hin|Hin] Hm.
  - rewrite -(take_drop 11 host_table) elem_of_app in Hin.
    destruct Hin as [Hin|Hin]; [|exact (own_handler_stops h d r _ _ Hin)].
    cbn [take host_table] in Hin. rewrite !elem_of_cons elem_of_nil in Hin.
    repeat (destruct Hin as [[= -> ->]|Hin];
      [first
        [ apply (route_mounted d r _ Hm); rewrite !elem_of_cons; by auto 10
        | by apply route_stripped_stops, pattern_subtree
        | by apply handleShutdown_stops, pattern_exact
        | exact I ]|]).
    done.
  - destruct ui as [is_file|]; cbn [ui_table] in Hin; rewrite ?elem_of_cons elem_of_nil in Hin;
      [|done].
    by destruct Hin as [[= _ ->]|[[= _ ->]|[]]].
Qed.

Lemma Host_stops ui h d r : issues_only (stop_allowed r) (Host ui h d r).
Proof.
  unfold Host. destruct (String.eqb _ _); [exact I|].
  destruct (dispatched (host_table ++ ui_table ui) h d r)
    as [-> | [-> | (pat & f & Hin & Hm & ->)]]; [exact I..|].
  by apply (handler_stops ui h d r pat).
Qed.

(** A request for a concrete path reaches its handler. *)
Lemma route_put_tailscale d r t res :
  q_Path r = "/settings/tailscale" → q_Method r = "PUT" → has_DB d = true →
  has_Callback d = true → runs (route d r) t res →
  ∃ a, t = [Ev (HRoute (SPutTailscale (dec_tailscale (q_Body r)))) a; Ev HStop tt]
       ∧ res = HRouter ok_body.
Proof.
  intros Hp Hm Hdb Hcb. unfold route. rewrite runs_bind. intros (t1 & t2 & x & -> & Ht & -> & ->).
  apply translate_runs in Ht as (t' & -> & Ht).
  rewrite (Router_tailscale d r Hp) in Ht. revert Ht.
  unfold handleSettingsTailscale, settings_handler, notify. rewrite Hdb Hm Hcb.
  intros (a & t3 & -> & [] & t4 & -> & -> & ->). by exists a.
Qed.

Lemma Host_api ui h d r :
  q_Method r ≠ "OPTIONS" → mux_redirects (host_table ++ ui_table ui).*1 (q_Path r) = false →
  mux_match (host_table ++ ui_table ui).*1 (q_Path r) = Some "/api/" →
  Host ui h d r = route_stripped d r.
Proof.
  intros Hm Hr Hp. unfold Host, serve_table.
  rewrite (proj2 (String.eqb_neq _ _) Hm) Hr Hp. reflexivity.
Qed.

(** C5: what stops the host.  On every run of every request, the host is told
    to stop only by a POST to /internal/shutdown from a local address or by a
    request for the settings; and as the host sets no token and no check guards
    the settings, a PUT of the tailscale settings from any address stops it on
    every run, even when the settings could not be written. *)
Theorem host_stop ui h d r t res :
  runs (Host ui h d r) t res →
  (∀ a, Ev HStop a ∈ t → may_stop r)
  ∧ (q_Path r = "/api/settings/tailscale" → q_Method r = "PUT" → (∃ s, d = host_deps s) →
     ∃ a, t = [Ev (HRoute (SPutTailscale (dec_tailscale (q_Body r)))) a; Ev HStop tt]
          ∧ res = HRouter ok_body).
Proof.
  intros Hr. split.
  - intros a Ha. pose proof (issues_only_runs _ _ _ _ (Host_stops ui h d r) Hr) as Hall.
    exact (proj1 (Forall_forall _ _) Hall _ Ha).
  - intros Hp Hm [s ->]. rewrite Host_api in Hr.
    + apply (route_put_tailscale (host_deps s) (with_path r "/settings/tailscale")); [done..|].
      by unfold route_stripped in Hr; rewrite Hp in Hr.
    + by rewrite Hm.
    + rewrite Hp. destruct ui; vm_compute; reflexivity.
    + rewrite Hp. destruct ui; vm_compute; reflexivity.
Qed.

(** ** Routes that the mounting hides *)

Definition not_served (x : hresp) : Prop :=
  x = HRedirect ∨ x = HRouter RespRedirect ∨ x = HRouter (RespStatus 404).

Lemma hidden_route ui h d r q :
  q_Method r ≠ "OPTIONS" → mux_match (host_table ++ ui_table ui).*1 (q_Path r) = Some "/api/" →
  TrimPrefix (q_Path r) "/api" = q → mux_match router_patterns q = None →
  ∃ x, Host ui h d r = Ret x ∧ not_served x.
Proof.
  intros Hm Hp Hq Hn.
  destruct (mux_redirects (host_table ++ ui_table ui).*1 (q_Path r)) eqn:Er.
  - exists HRedirect. split; [|by left]. unfold Host, serve_table.
    by rewrite (proj2 (String.eqb_neq _ _) Hm) Er.
  - rewrite Host_api //. unfold route_stripped, route, Router. cbn [with_path q_Path].
    rewrite Hq Hn. destruct (mux_redirects router_patterns q); eexists; split;
      [reflexivity|by right; left|reflexivity|by right; right].
Qed.

(** Two routes of the orchestration API cannot be reached.  The settings of
    a cluster and the audit log are registered below /api/ and mounted with
    that prefix stripped, so that every request for
    /api/settings/cluster/{id} or /api/audit is answered 404 or redirected,
    whatever the id, the caller and the configuration, and changes nothing;
    with the prefix doubled the settings are served. *)
Theorem mounted_twice ui h d r :
  q_Method r ≠ "OPTIONS" →
  ((∃ id, q_Path r = "/api/settings/cluster/" +:+ id) ∨ q_Path r = "/api/audit" →
   ∃ x, Host ui h d r = Ret x ∧ not_served x)
  ∧ (q_Path r = "/api/api/settings/cluster/c1" →
     Host ui h d r = do x <- translate host_call
                               (handleSettingsCluster d (with_path r "/api/settings/cluster/c1")) ;
                     Ret (HRouter x)).
Proof.
  intros Hm. split; [intros [[id Hp]|Hp]|intros Hp].
  - apply (hidden_route _ _ _ _ ("/settings/cluster/" +:+ id) Hm); rewrite ?Hp;
      [destruct ui; reflexivity|reflexivity..].
  - apply (hidden_route _ _ _ _ "/audit" Hm); rewrite ?Hp; [destruct ui; reflexivity|reflexivity..].
  - rewrite Host_api; [|done|rewrite Hp; destruct ui; reflexivity..].
    unfold route_stripped. rewrite Hp. reflexivity.
Qed.

End routes.

(** ** Deleting workspaces *)

Section deleting.
Context `{UC : UnicodeCase} `{RE : RouterEnv} `{BD : Bodies} `{HE : HostEnv}.

(** The requests that delete workspaces, with their answers. *)
Definition deletions (l : list (string * result unit)) : list (gevent hcall) :=
  (λ x, Ev (HWsDelete x.1) x.2) <$> l.

Definition succeeded (l : list (string * result unit)) : list string :=
  omap (λ x, match x.2 with Ok _ => Some x.1 | Err _ => None end) l.

Lemma delete_all_runs names t out :
  runs (delete_all names) t out →
  ∃ l, l.*1 = names ∧ t = deletions l ∧ out = succeeded l.
Proof.
  revert t out; induction names as [|n names IH]; intros t out.
  { intros [-> ->]. by exists []. }
  cbn [delete_all]. intros (a & t' & -> & Hr)%runs_req_bind.
  apply runs_bind in Hr as (t1 & t2 & more & -> & H1 & -> & ->).
  apply IH in H1 as (l & <- & -> & ->). exists ((n, a) :: l).
  rewrite app_nil_r. repeat split. by destruct a.
Qed.

(** The names of the workspaces of a list. *)
Definition listed (items : list doc) : list string :=
  List.map (λ it, default "" (item_name it)) items.

(** Stopping everything.  A POST asks the capability cache first; when it
    refuses, or when the list cannot be read, nothing is deleted; otherwise
    every workspace of the list is deleted once, in the order of the list, also
    after a deletion that failed, and the response names exactly the ones that
    were deleted.  A host without a client answers 500 to everybody and a
    request of another method is refused, both without a request.  In contrast
    a DELETE of a single workspace is not checked at all. *)
Theorem stop_all_outcome h r t res :
  runs (adminStopAll h r) t res →
  (q_Method r ≠ "POST" → t = [] ∧ res = HStatus 405)
  ∧ (q_Method r = "POST" → h_dyn h = false → t = [] ∧ res = dyn_unavailable)
  ∧ (q_Method r = "POST" → h_dyn h = true →
     (t = [Ev (HAllow "stopAll") false]
      ∧ res = HJsonError 403 "permission denied" "forbidden")
     ∨ (∃ e, t = [Ev (HAllow "stopAll") true; Ev HWsList (Err e)]
             ∧ res = HJsonError 500 "list workspaces failed" "list_failed")
     ∨ ∃ items l, l.*1 = listed items
         ∧ t = Ev (HAllow "stopAll") true :: Ev HWsList (Ok items) :: deletions l
         ∧ res = HJson 200 (HDeleted (succeeded l)))
  ∧ (∀ r' id t' res', h_dyn h = true → q_Method r' = "DELETE" →
       q_Path r' = "/api/servers/" +:+ id → id ≠ "" → "/"%char ∉ s2b id →
       runs (handleServer h r') t' res' → ∃ a, t' = [Ev (HWsDelete id) a]).
Proof.
  intros Hr. unfold adminStopAll in Hr.
  split; [|split; [|split]].
  - intros Hm. rewrite (proj2 (String.eqb_neq _ _) Hm) in Hr. exact Hr.
  - intros Hm Hd. rewrite Hm Hd in Hr. exact Hr.
  - intros Hm Hd. rewrite Hm Hd in Hr. cbn [negb String.eqb] in Hr.
    apply runs_req_bind in Hr as ([] & t1 & -> & Hr); cbn [negb] in Hr; [right|left].
    + apply runs_req_bind in Hr as ([items|e] & t2 & -> & Hr); [right|left].
      * apply runs_bind in Hr as (t3 & t4 & out & -> & H3 & -> & ->).
        apply delete_all_runs in H3 as (l & Hl & -> & ->).
        exists items, l. by rewrite app_nil_r.
      * destruct Hr as [-> ->]. by exists e.
    + by destruct Hr as [-> ->].
  - intros r' id t' res' Hd Hm Hp Hne Hid. unfold handleServer.
    rewrite Hp TrimPrefix_app (proj2 (String.eqb_neq _ _) Hne) Hd Hm Split_single //.
    cbn [negb]. intros (a & t1 & -> & Hr')%runs_req_bind. exists a. by destruct Hr' as [-> _].
Qed.

End deleting.

(** ** Running the host *)

Definition host_rq (method path : string) : rq := token_rq "" method path.

Lemma host_stop_witness :
  let r := host_rq "PUT" "/api/settings/tailscale" in
  let p := @Host ascii_case demo_env no_bodies demo_host_env None demo_host (host_deps true) r in
  loopback_client r = false
  ∧ exec_trace mem_host p [] = [Ev (HRoute (SPutTailscale empty_Tailscale)) (Ok tt); Ev HStop tt]
  ∧ may_stop r.
Proof.
  intros r p.
  destruct (@host_stop ascii_case demo_env no_bodies demo_host_env None demo_host (host_deps true) r
              _ _ (exec_runs mem_host p [])) as [Ha Hb].
  split; [vm_compute; reflexivity|]. split; [vm_compute; reflexivity|].
  apply (Ha tt). destruct Hb as (a & -> & _); [reflexivity|reflexivity|by exists true|].
  right. left.
Defined.

Lemma mounted_twice_witness :
  ∃ x, @Host ascii_case demo_env no_bodies demo_host_env None demo_host (host_deps true)
         (host_rq "PUT" "/api/settings/cluster/c1") = Ret x ∧ not_served x.
Proof.
  apply (@mounted_twice ascii_case demo_env no_bodies demo_host_env None demo_host
           (host_deps true) (host_rq "PUT" "/api/settings/cluster/c1")); [discriminate|].
  left. by exists "c1".
Defined.

Lemma stop_all_outcome_witness :
  let p := @adminStopAll demo_host (host_rq "POST" "/api/admin/stop-all") in
  exec_trace mem_host p ["ws"] = [Ev (HAllow "stopAll") true; Ev HWsList (Ok [])]
  ∧ (∃ a, exec_trace mem_host (@handleServer demo_env demo_host (host_rq "DELETE" "/api/servers/ws"))
            ["ws"] = [Ev (HWsDelete "ws") a]).
Proof.
  intros p.
  destruct (@stop_all_outcome demo_env demo_host (host_rq "POST" "/api/admin/stop-all")
              _ _ (exec_runs mem_host p ["ws"])) as (_ & _ & _ & H).
  split; [reflexivity|].
  apply (H (host_rq "DELETE" "/api/servers/ws") "ws" _ (exec mem_host (@handleServer demo_env demo_host
                                      (host_rq "DELETE" "/api/servers/ws")) ["ws"]).2);
    [reflexivity..|discriminate| |apply exec_runs].
  cbn. rewrite !elem_of_cons elem_of_nil. naive_solver.
Defined.
