(* ===== verification/Orch.v ===== *)
(** * Orchestration jobs (internal/orch, internal/headscale, internal/audit)

    The handlers of the job kinds the router submits: the life cycle of
    headscales and clusters, as programs over the local store; what they write,
    and how the runner records their outcome. *)

From S2P Require Import Prelude GoStrings Values LocalDb Jobs Prog.
From S2P Require Import NetAddr Settings Proxy Rbac DbManager DbHandlers Router.

(** ** Requests *)

(** [OGet] into a nil map; a stored [null] leaves it nil ([Ok None]). *)
Inductive ocall : Set → Type :=
  | OGet (coll key : string) : ocall (result (option doc))
  | OPut (coll key : string) (v : any) : ocall (result unit)
  | ODelete (coll key : string) : ocall (result unit)
  | ONow : ocall string                  (* RFC3339 *)
  | ONowNano : ocall string              (* RFC3339Nano *)
  | OUuid : ocall string
  | OLog (step msg : string) (kv : list (string * any)) : ocall unit.

Abbreviation oprog := (gprog ocall).

(** How a handler ends: it returned, with the progress set to one or left as
    it was, or it wrote to a nil map. *)
Inductive ended : Type := Returned (progress : bool) | Panicked.

(** The specification of a job, decoded; errors leave a nil map. *)
Class SpecDec := dec_spec : string → doc.

(** ** Audit *)

Definition audit_doc (id actor action entityType entityID diff ts : string) : any :=
  AObj [("id", AStr id); ("actor", AStr actor); ("action", AStr action);
        ("entityType", AStr entityType); ("entityId", AStr entityID);
        ("diffJSON", AStr diff); ("ts", AStr ts)].

Definition Append (hasDB : bool) (actor action entityType entityID diff : string) : oprog unit :=
  if negb hasDB then Ret tt
  else
    do id <- request OUuid ;
    do ts <- request ONowNano ;
    do _ <- request (OPut "audit" id (audit_doc id actor action entityType entityID diff ts)) ;
    Ret tt.

(** [orch.AppendAudit] is a copy of it. *)
Definition AppendAudit := Append.

(** ** Headscales *)

(** The answer of a manager operation; [None] is a panic. *)
Abbreviation mres := (option (result unit)).

Definition at_state (rec : doc) (state now : string) : doc :=
  <["updatedAt" := AStr now]> (<["state" := AStr state]> rec).

(** [Create], [Start] and [Stop] differ in their texts and the new state. *)
Definition set_state (hasDB : bool) (action msg state id : string) : oprog mres :=
  if negb hasDB then Ret (Some (Err "no db"))
  else
    do g <- request (OGet "headscales" id) ;
    match g with
    | Err e => Ret (Some (Err e))
    | Ok m =>
        do _ <- request (OLog action msg [("id", AStr id)]) ;
        match m with
        | None => Ret None
        | Some rec =>
            do now <- request ONow ;
            do _ <- request (OPut "headscales" id (obj_of (at_state rec state now))) ;
            do _ <- Append hasDB "system" action "headscale" id "" ;
            Ret (Some (Ok tt))
        end
    end.

Definition Create (hasDB : bool) (id : string) : oprog mres :=
  set_state hasDB "create" "ensure headscale resources in cluster" "ready" id.
Definition Start (hasDB : bool) (id : string) : oprog mres :=
  set_state hasDB "start" "start headscale in cluster" "ready" id.
Definition Stop (hasDB : bool) (id : string) : oprog mres :=
  set_state hasDB "stop" "stop headscale in cluster" "stopped" id.

Definition Destroy (hasDB : bool) (id : string) : oprog mres :=
  if negb hasDB then Ret (Some (Err "no db"))
  else
    do _ <- request (OLog "destroy" "destroy headscale from cluster" [("id", AStr id)]) ;
    do _ <- request (ODelete "headscales" id) ;
    do _ <- Append hasDB "system" "destroy" "headscale" id "" ;
    Ret (Some (Ok tt)).

(** ** Handlers *)

Section handlers.
Context `{RE : RouterEnv} `{SD : SpecDec}.

(** The id of the specification: [fmt.Sprint] of a missing id is [<nil>]. *)
Definition spec_id (j : JobRecord) : string := Sprint (dec_spec (r_SpecJSON j) !! "id").

(** The error of the manager is dropped. *)
Definition headscale_job (op : bool → string → oprog mres) (hasDB : bool) (j : JobRecord)
    : oprog ended :=
  let id := spec_id j in
  if String.eqb id "" then Ret (Returned false)
  else
    do res <- op hasDB id ;
    Ret (match res with Some _ => Returned true | None => Panicked end).

(** Read, change and write back the record of a cluster, when it can be read. *)
Definition touch_cluster (hasDB : bool) (id : string) (state : option string) : oprog ended :=
  if negb hasDB then Ret (Returned true)
  else
    do g <- request (OGet "clusters" id) ;
    match g with
    | Err _ => Ret (Returned true)
    | Ok None => Ret Panicked
    | Ok (Some rec) =>
        do now <- request ONow ;
        let rec := match state with Some s => <["state" := AStr s]> rec | None => rec end in
        do _ <- request (OPut "clusters" id (obj_of (<["updatedAt" := AStr now]> rec))) ;
        Ret (Returned true)
    end.

Definition cluster_create (hasDB : bool) (j : JobRecord) : oprog ended :=
  let id := spec_id j in
  if String.eqb id "" then Ret (Returned false)
  else
    do _ <- request (OLog "create" "registering cluster"
              [("id", AStr id); ("name", AStr (Sprint (dec_spec (r_SpecJSON j) !! "name")))]) ;
    touch_cluster hasDB id (Some "ready").

Definition cluster_change (action : string) (hasDB : bool) (j : JobRecord) : oprog ended :=
  let id := spec_id j in
  if String.eqb id "" then Ret (Returned false)
  else
    do _ <- request (OLog "op" (action +:+ " cluster") [("id", AStr id)]) ;
    touch_cluster hasDB id None.

Definition cluster_destroy (hasDB : bool) (j : JobRecord) : oprog ended :=
  let id := spec_id j in
  if String.eqb id "" then Ret (Returned false)
  else
    do _ <- request (OLog "op" "destroy cluster" [("id", AStr id)]) ;
    do _ <- (if hasDB then request (ODelete "clusters" id) else Ret (Ok tt)) ;
    Ret (Returned true).

Definition noop_job (kind : string) : oprog ended :=
  do _ <- request (OLog "noop" "unhandled job kind" [("kind", AStr kind)]) ;
  Ret (Returned true).

Definition HandlerFor (kind : string) (hasDB : bool) (j : JobRecord) : oprog ended :=
  if String.eqb kind "headscale.create" then headscale_job Create hasDB j
  else if String.eqb kind "headscale.start" then headscale_job Start hasDB j
  else if String.eqb kind "headscale.stop" then headscale_job Stop hasDB j
  else if String.eqb kind "headscale.destroy" then headscale_job Destroy hasDB j
  else if String.eqb kind "cluster.create" then cluster_create hasDB j
  else if String.eqb kind "cluster.scale" then cluster_change "scale" hasDB j
  else if String.eqb kind "cluster.upgrade" then cluster_change "upgrade" hasDB j
  else if String.eqb kind "cluster.destroy" then cluster_destroy hasDB j
  else noop_job kind.

(** What the runner sees of a run: its log entries, then the progress or the
    panic. *)
Definition logged (e : gevent ocall) : option haction :=
  match e with
  | Ev (OLog step msg kv) _ => Some (Jobs.HLog step msg (list_to_map kv))
  | _ => None
  end.

Definition actions_of_run (t : list (gevent ocall)) (res : ended) : list haction :=
  omap logged t
  ++ match res with
     | Returned true => [HProgress float_one]
     | Returned false => []
     | Panicked => [Jobs.HPanic "assignment to entry in nil map"]
     end.

End handlers.

(** ** Lemmas *)

Section outcome.
Context `{RE : RouterEnv} `{SD : SpecDec}.

(** Only a stored [null] makes a handler panic. *)
Definition read_null (e : gevent ocall) : Prop :=
  match e with Ev (OGet _ _) (Ok None) => True | _ => False end.

(** The results of the runs of a program that meet no [null]. *)
Fixpoint ends_unless_null {A} (Q : A → Prop) (p : oprog A) : Prop :=
  match p with
  | Ret a => Q a
  | Vis c k => ∀ r, read_null (Ev c r) ∨ ends_unless_null Q (k r)
  end.

Lemma ends_unless_null_runs {A} (Q : A → Prop) (p : oprog A) t a :
  ends_unless_null Q p → runs p t a → Exists read_null t ∨ Q a.
Proof.
  revert t; induction p as [b|X c k IH]; intros t; simpl; [by intros HQ [_ ->]; right|].
  intros HQ (r & t' & -> & Hk). destruct (HQ r) as [Hn|Hq]; [by left; left|].
  destruct (IH r t' Hq Hk); [by left; right|by right].
Qed.

Lemma ends_unless_null_bind {A B} (P : A → Prop) (Q : B → Prop) (p : oprog A) (f : A → oprog B) :
  ends_unless_null P p → (∀ a, P a → ends_unless_null Q (f a)) → ends_unless_null Q (bind p f).
Proof.
  intros HP Hf. induction p as [b|X c k IH]; simpl in *; [auto|].
  intros r. destruct (HP r); [by left|right; auto].
Qed.

Lemma Append_unless_null hasDB a b c d e (Q : unit → Prop) :
  Q tt → ends_unless_null Q (Append hasDB a b c d e).
Proof. intros HQ. unfold Append. destruct hasDB; simpl; [|done]. by do 3 (intros ?; right). Qed.

Lemma set_state_unless_null hasDB action msg state id :
  ends_unless_null is_Some (set_state hasDB action msg state id).
Proof.
  unfold set_state. destruct hasDB; cbn [negb]; [|by eexists].
  intros [[rec|]|e]; [right|by left|by right; eexists]. intros ?. right.
  intros now. right. intros ?. right. cbn [bind].
  apply (ends_unless_null_bind (λ _, True)); [exact (Append_unless_null _ _ _ _ _ _ (λ _, True) I)|]. by eexists.
Qed.

Lemma Destroy_unless_null hasDB id : ends_unless_null is_Some (Destroy hasDB id).
Proof.
  unfold Destroy. destruct hasDB; cbn [negb]; [|by eexists]. do 2 (intros ?; right). cbn [bind].
  apply (ends_unless_null_bind (λ _, True)); [exact (Append_unless_null _ _ _ _ _ _ (λ _, True) I)|]. by eexists.
Qed.

(** The handler returned; the progress is complete unless the id was empty. *)
Definition finished (j : JobRecord) (e : ended) : Prop :=
  ∃ p, e = Returned p ∧ (p = false → spec_id j = "").

Lemma finished_true j : finished j (Returned true).
Proof. by exists true. Qed.

Lemma headscale_job_unless_null op hasDB j :
  (∀ id, ends_unless_null is_Some (op hasDB id)) →
  ends_unless_null (finished j) (headscale_job op hasDB j).
Proof.
  intros Hop. unfold headscale_job. destruct (String.eqb_spec (spec_id j) ""); [by exists false|].
  eapply ends_unless_null_bind; [apply Hop|]. intros ? [? ->]. apply finished_true.
Qed.

Lemma touch_cluster_unless_null hasDB id state j :
  ends_unless_null (finished j) (touch_cluster hasDB id state).
Proof.
  unfold touch_cluster. destruct hasDB; [|apply finished_true]. simpl.
  intros [[rec|]|e]; [right|by left|right; apply finished_true]. simpl.
  do 2 (intros ?; right). apply finished_true.
Qed.

Lemma HandlerFor_unless_null kind hasDB j :
  ends_unless_null (finished j) (HandlerFor kind hasDB j).
Proof.
  unfold HandlerFor, Create, Start, Stop.
  repeat (destruct (String.eqb kind _);
    [first [by apply headscale_job_unless_null; intros; apply set_state_unless_null
           | by apply headscale_job_unless_null; intros; apply Destroy_unless_null
           | unfold cluster_create, cluster_change, cluster_destroy;
             destruct (String.eqb_spec (spec_id j) ""); [by exists false|]; intros ?; right;
             first [apply touch_cluster_unless_null
                   | destruct hasDB; [intros ?; right|]; apply finished_true]]|]).
  intros ?. right. apply finished_true.
Qed.

(** Log entries and progress do not fail a job. *)
Lemma actions_of_run_fails t res :
  existsb fails (actions_of_run t res) = match res with Panicked => true | _ => false end.
Proof.
  unfold actions_of_run. rewrite existsb_app.
  assert (existsb fails (omap logged t) = false) as ->.
  { induction t as [|e t IH]; [done|]. cbn. destruct e as [X c r]. by destruct c. }
  by destruct res as [[]|].
Qed.

End outcome.

(** ** Handlers on the local store *)

Section on_localdb.
Context {σ : Type} `{SL : SqlLaws σ} `{RE : RouterEnv} `{SD : SpecDec}.
Variables (uuid now now_nano : string).

(** [Get] into a nil map. *)
Definition get_nil (d : σ) (c k : string) : result (option doc) :=
  match kv_select d c k with
  | Err e => Err e
  | Ok None => Err "not found"
  | Ok (Some ANil) => Ok None
  | Ok (Some v) => match unmarshal_map v with Ok m => Ok (Some m) | Err e => Err e end
  end.

Definition stored (d : σ) (r : result σ) : σ * result unit :=
  match r with Ok d' => (d', Ok tt) | Err e => (d, Err e) end.

Definition local_server : server ocall σ := λ X d c,
  match c in ocall X return σ * X with
  | OGet c k => (d, get_nil d c k)
  | OPut c k v => stored d (Put d c k v)
  | ODelete c k => stored d (Delete d c k)
  | ONow => (d, now)
  | ONowNano => (d, now_nano)
  | OUuid => (d, uuid)
  | OLog _ _ _ => (d, tt)
  end.

(** A request that leaves the document under a key alone. *)
Definition spares (c k : string) (e : gevent ocall) : Prop :=
  match e with
  | Ev (OPut c' k' _) _ | Ev (ODelete c' k') _ => (c', k') ≠ (c, k)
  | _ => True
  end.

Lemma exec_spares {A} (p : oprog A) d c k :
  issues_only (spares c k) p → Get (exec local_server p d).1 c k = Get d c k.
Proof.
  revert d; induction p as [a|X call kont IH]; intros d; simpl; [done|].
  intros Hp. destruct call; simpl.
  1,4-7: exact (IH _ d (proj2 (Hp _))).
  - destruct (Put d coll key v) as [d'|e] eqn:E; simpl; [|exact (IH _ d (proj2 (Hp _)))].
    rewrite (IH _ d' (proj2 (Hp _))). exact (Get_Put_other _ _ _ _ _ _ _ E (proj1 (Hp (Ok tt)))).
  - destruct (Delete d coll key) as [d'|e] eqn:E; simpl; [|exact (IH _ d (proj2 (Hp _)))].
    rewrite (IH _ d' (proj2 (Hp _))) (Get_Delete _ _ _ _ _ _ E).
    rewrite decide_False //. exact (proj1 (Hp (Ok tt))).
Qed.

(** The collection a job works on. *)
Definition collection_of (kind : string) : string :=
  if HasPrefix kind "headscale." then "headscales" else "clusters".

Lemma HandlerFor_spares kind hasDB j c k :
  c ≠ "audit" → (c, k) ≠ (collection_of kind, spec_id j) →
  issues_only (spares c k) (HandlerFor kind hasDB j).
Proof.
  intros Ha Hk. unfold HandlerFor, headscale_job, Create, Start, Stop, Destroy, set_state,
    cluster_create, cluster_change, cluster_destroy, touch_cluster, noop_job, Append.
  prog_walk ltac:(idtac; match goal with
    | |- spares _ _ _ =>
        cbn [spares]; first
          [ exact I
          | intros [=]; match goal with
            | H : String.eqb kind _ = true |- _ =>
                apply String.eqb_eq in H; rewrite H in Hk; cbn in Hk; congruence
            end ]
    end).
Qed.

(** A run of a headscale action on a record that can be read. *)
Lemma set_state_exec action msg state id d rec d1 d2 :
  get_nil d "headscales" id = Ok (Some rec) →
  Put d "headscales" id (obj_of (at_state rec state now)) = Ok d1 →
  Put d1 "audit" uuid (audit_doc uuid "system" action "headscale" id "" now_nano) = Ok d2 →
  exec local_server (set_state true action msg state id) d = (d2, Some (Ok tt)).
Proof.
  intros Hg H1 H2. unfold set_state, Append. cbn [negb bind request exec local_server].
  rewrite Hg. cbn [bind exec local_server]. rewrite H1. cbn [stored bind exec]. by rewrite H2.
Qed.

(** The state a headscale action leads to. *)
Definition action_state (action : string) : string :=
  if String.eqb action "stop" then "stopped" else "ready".

(** C37: what a job changes in the local store.  Running the handler of any job
    kind changes no document but the one of the job's own headscale or cluster
    and the audit log, whichever writes fail.  A headscale action sets the
    state and the time of the record, keeps its other fields and leaves an
    audit record.  Destroying a cluster removes its record and, as nothing else
    changes, leaves its kubeconfig and its settings behind. *)
Theorem job_effects kind hasDB j (d : σ) :
  let d' := (exec local_server (HandlerFor kind hasDB j) d).1 in
  let id := spec_id j in
  (∀ c k, c ≠ "audit" → (c, k) ≠ (collection_of kind, id) → Get d' c k = Get d c k)
  ∧ (∀ action rec d1 d2, hasDB = true → kind = "headscale." +:+ action →
       action ∈ ["create"; "start"; "stop"] → id ≠ "" → get_nil d "headscales" id = Ok (Some rec) →
       Put d "headscales" id (obj_of (at_state rec (action_state action) now)) = Ok d1 →
       Put d1 "audit" uuid (audit_doc uuid "system" action "headscale" id "" now_nano) = Ok d2 →
       d' = d2)
  ∧ (∀ d1, hasDB = true → kind = "cluster.destroy" → id ≠ "" → Delete d "clusters" id = Ok d1 →
       Get d' "clusters" id = Err "not found"
       ∧ Get d' "credentials" ("cl:" +:+ id +:+ ":kubeconfig")
         = Get d "credentials" ("cl:" +:+ id +:+ ":kubeconfig")).
Proof.
  intros d' id. split; [|split].
  - intros c k Ha Hk. by apply exec_spares, HandlerFor_spares.
  - intros action rec d1 d2 -> -> Hin Hid Hg H1 H2. subst d'.
    rewrite !elem_of_cons elem_of_nil in Hin.
    destruct Hin as [-> |[-> |[-> |[]]]];
      unfold HandlerFor; cbn [String.append String.eqb Ascii.eqb Bool.eqb];
      unfold headscale_job; fold id; rewrite (proj2 (String.eqb_neq _ _) Hid) exec_bind;
      unfold Create, Start, Stop; by rewrite (set_state_exec _ _ _ _ _ _ _ _ Hg H1 H2).
  - intros d1 -> -> Hid Hd. subst d'. split.
    + unfold HandlerFor, cluster_destroy. cbn [String.eqb Ascii.eqb Bool.eqb]. fold id.
      rewrite (proj2 (String.eqb_neq _ _) Hid). cbn. rewrite Hd. cbn.
      rewrite (Get_Delete _ _ _ _ _ _ Hd). by rewrite decide_True.
    + apply exec_spares, HandlerFor_spares; [done|]. by intros [=].
Qed.

End on_localdb.

(** Jobs report success whatever happened.  Whatever the store answers to
    the requests of a job (the record is missing, a read or write fails, there
    is no store at all, the kind is unknown), the runner records the job as
    succeeded; it fails only when a stored document is null.  A specification
    without an id is not rejected: the handler works on the id [<nil>]. *)
Theorem job_outcome `{RE : RouterEnv} `{SD : SpecDec} {π} `{Persist π} kind hasDB rec t res
    (r : Runner π) now :
  runs (HandlerFor kind hasDB (set_status rec Running now)) t res →
  (∃ rc, jobs (runOne (λ _, actions_of_run t res) r rec now) !! r_ID rec = Some rc
         ∧ (r_Status rc = Succeeded ∨ (r_Status rc = Failed ∧ Exists read_null t)))
  ∧ (dec_spec (r_SpecJSON rec) !! "id" = None → spec_id rec = "<nil>").
Proof.
  intros Hr. split; [|by unfold spec_id; intros ->].
  destruct (runOne_status (λ _, actions_of_run t res) r rec now) as (rc & Hrc & Hst).
  exists rc. split; [done|]. rewrite actions_of_run_fails in Hst.
  destruct (ends_unless_null_runs _ _ _ _ (HandlerFor_unless_null kind hasDB _) Hr)
    as [Hn|(p & -> & _)]; [|by left].
  destruct res; [by left|by right].
Qed.

(** ** Running jobs *)

(** A specification is its id. *)
Definition demo_spec : SpecDec := λ s, {[ "id" := AStr s ]}.

Definition demo_orch_job (kind id : string) : JobRecord :=
  {| r_ID := "job-1"; r_Kind := kind; r_SpecJSON := id; r_Status := Queued;
     r_Progress := float_zero; r_Created := 0; r_Updated := 0; r_Result := ""; r_Error := "" |}.

(** A cluster with its credential. *)
Definition demo_clusters : mem_db :=
  {| mem_kv := {[ ("clusters", "c1") := AObj [("state", AStr "ready")];
                  ("credentials", "cl:c1:kubeconfig") := AObj [("value", AStr "apiVersion: v1")];
                  ("headscales", "h1") := AObj [("name", AStr "main")] ]};
     mem_logs := ∅ |}.

Lemma job_effects_witness :
  let run kind id := exec (local_server "u1" "T1" "T2")
        (@HandlerFor demo_env demo_spec kind true (demo_orch_job kind id)) demo_clusters in
  Get (run "cluster.destroy" "c1").1 "clusters" "c1" = Err "not found"
  ∧ (∃ m, Get (run "cluster.destroy" "c1").1 "credentials" "cl:c1:kubeconfig" = Ok m)
  ∧ match Get (run "headscale.stop" "h1").1 "headscales" "h1" with
    | Ok m => m !! "state" = Some (AStr "stopped") ∧ m !! "name" = Some (AStr "main")
    | Err _ => False
    end.
Proof.
  intros run.
  destruct (@job_effects mem_db mem_sql _ demo_env demo_spec "u1" "T1" "T2" "cluster.destroy" true
              (demo_orch_job "cluster.destroy" "c1") demo_clusters) as (_ & _ & H).
  destruct (H _ eq_refl eq_refl ltac:(discriminate) eq_refl) as [H1 H2].
  split; [exact H1|]. split; [eexists; exact H2|].
  destruct (@job_effects mem_db mem_sql _ demo_env demo_spec "u1" "T1" "T2" "headscale.stop" true
              (demo_orch_job "headscale.stop" "h1") demo_clusters) as (_ & Hs & _).
  specialize (Hs "stop" _ _ _ eq_refl eq_refl ltac:(set_solver) ltac:(discriminate)
                eq_refl eq_refl eq_refl).
  unfold run. rewrite Hs. vm_compute. split; reflexivity.
Defined.

Lemma job_outcome_witness :
  let rec := demo_orch_job "headscale.start" "missing" in
  let p := @HandlerFor demo_env demo_spec "headscale.start" true (set_status rec Running 5) in
  let t := exec_trace (@local_server mem_db mem_sql "u1" "T1" "T2") p demo_clusters in
  let res := (exec (@local_server mem_db mem_sql "u1" "T1" "T2") p demo_clusters).2 in
  t = [Ev (OGet "headscales" "missing") (Err "not found")]
  ∧ ∃ rc, jobs (@runOne mem_db mem_persist (λ _, actions_of_run t res) (New None) rec 5)
            !! "job-1" = Some rc ∧ r_Status rc = Succeeded.
Proof.
  intros rec p t res. split; [reflexivity|].
  destruct (@job_outcome demo_env demo_spec mem_db mem_persist "headscale.start" true rec t res
              (New None) 5 (exec_runs (@local_server mem_db mem_sql "u1" "T1" "T2") p demo_clusters))
    as ((rc & Hrc & [Hs|[_ Hn]]) & _); [by exists rc|].
  exfalso. revert Hn. cbn. intros Hn. apply Exists_cons in Hn as [[]|Hn]. by apply Exists_nil in Hn.
Defined.
