(* ===== verification/Secrets.v ===== *)
(** * Secret encryption (internal/secrets/manager.go)

    Values are sealed with AES-GCM under a key made from the master key and
    kept as base64 text.  The cipher is the class [Aead]; base64 is modelled. *)

From S2P Require Import Prelude GoStrings.

Local Open Scope Z_scope.

(** ** Standard base64 (encoding/base64, StdEncoding) *)

(** The digits A-Z, a-z, 0-9, + and /. *)
Definition digit (v : Z) : ascii :=
  zb (if v <? 26 then 65 + v
      else if v <? 52 then 71 + v
      else if v <? 62 then v - 4
      else if v =? 62 then 43 else 47).

Definition digit_val (c : ascii) : option Z :=
  let z := bz c in
  if in_range 65 90 z then Some (z - 65)
  else if in_range 97 122 z then Some (z - 71)
  else if in_range 48 57 z then Some (z + 4)
  else if z =? 43 then Some 62
  else if z =? 47 then Some 63
  else None.

Definition pad : ascii := "=".

Fixpoint b64_encode (l : bytes) : bytes :=
  match l with
  | a :: b :: c :: r =>
      let '(x, y, z) := (bz a, bz b, bz c) in
      [digit (x / 4); digit (x mod 4 * 16 + y / 16); digit (y mod 16 * 4 + z / 64);
       digit (z mod 64)] ++ b64_encode r
  | [a; b] =>
      let '(x, y) := (bz a, bz b) in
      [digit (x / 4); digit (x mod 4 * 16 + y / 16); digit (y mod 16 * 4); pad]
  | [a] => let x := bz a in [digit (x / 4); digit (x mod 4 * 16); pad; pad]
  | [] => []
  end.

(** Quanta of four digits; padding ends the text.  The unused bits of the last
    digit are not checked. *)
Fixpoint b64_quanta (l : bytes) : option bytes :=
  match l with
  | [] => Some []
  | a :: b :: c :: d :: r =>
      match digit_val a, digit_val b with
      | Some x, Some y =>
          let first := zb (x * 4 + y / 16) in
          if Ascii.eqb c pad then
            if Ascii.eqb d pad && bool_decide (r = []) then Some [first] else None
          else
            match digit_val c with
            | None => None
            | Some z =>
                let second := zb (y mod 16 * 16 + z / 4) in
                if Ascii.eqb d pad then
                  if bool_decide (r = []) then Some [first; second] else None
                else
                  match digit_val d, b64_quanta r with
                  | Some w, Some t => Some (first :: second :: zb (z mod 4 * 64 + w) :: t)
                  | _, _ => None
                  end
            end
      | _, _ => None
      end
  | _ => None
  end.

(** Line breaks are ignored anywhere. *)
Definition line_break (c : ascii) : bool := (bz c =? 10) || (bz c =? 13).

Definition b64_decode (l : bytes) : option bytes :=
  b64_quanta (List.filter (λ c, negb (line_break c)) l).

(** ** The manager *)

(** AES-GCM with its nonce size; [open_gcm] fails on a value that was not
    sealed under the key and nonce. *)
Class Aead := {
  nonce_size : nat;
  seal_gcm : bytes → bytes → bytes → bytes;            (* key, nonce, text *)
  open_gcm : bytes → bytes → bytes → result bytes
}.

Class AeadLaws `{Aead} : Prop :=
  open_seal key nonce p :
    length key = 32%nat → length nonce = nonce_size →
    open_gcm key nonce (seal_gcm key nonce p) = Ok p.

Section manager.
Context `{A : Aead}.

(** [Manager] is its key. *)
Abbreviation Manager := bytes (only parsing).

(** [copy] into 32 zero bytes. *)
Definition NewManager (masterKey : string) : Manager :=
  let k := take 32 (s2b masterKey) in k ++ replicate (32 - length k) (zb 0).

(** [aes.NewCipher] accepts keys of 16, 24 and 32 bytes. *)
Definition key_ok (m : Manager) : bool :=
  (length m =? 16)%nat || (length m =? 24)%nat || (length m =? 32)%nat.

(** [nonce] is what the random source gives, if it works. *)
Definition Encrypt (m : Manager) (nonce : option bytes) (plaintext : string) : result string :=
  match m with
  | [] => Ok plaintext
  | _ =>
      if negb (key_ok m) then Err "crypto/aes: invalid key size"
      else
        match nonce with
        | None => Err "rand"
        | Some n => Ok (b2s (b64_encode (n ++ seal_gcm m n (s2b plaintext))))
        end
  end.

Definition Decrypt (m : Manager) (ciphertext : string) : result string :=
  match m with
  | [] => Ok ciphertext
  | _ =>
      match b64_decode (s2b ciphertext) with
      | None => Err "illegal base64 data"
      | Some b =>
          if negb (key_ok m) then Err "crypto/aes: invalid key size"
          else if (length b <? nonce_size)%nat then Err "ciphertext too short"
          else match open_gcm m (take nonce_size b) (drop nonce_size b) with
               | Err e => Err e
               | Ok p => Ok (b2s p)
               end
      end
  end.

End manager.

(** ** Lemmas: base64 *)

Lemma digit_val_digit v : 0 ≤ v < 64 → digit_val (digit v) = Some v.
Proof.
  intros Hv. unfold digit_val, digit. rewrite bz_zb.
  - unfold in_range. repeat (case_match; bool_props; try lia; try (f_equal; lia)).
  - repeat case_match; bool_props; lia.
Qed.

Lemma digit_neq v c : 0 ≤ v < 64 → digit_val c = None → digit v ≠ c.
Proof. intros Hv Hc <-. by rewrite digit_val_digit in Hc. Qed.

Lemma digit_not_pad v : 0 ≤ v < 64 → Ascii.eqb (digit v) pad = false.
Proof. intros Hv. apply Ascii.eqb_neq. by apply digit_neq. Qed.

Lemma digit_no_break v : 0 ≤ v < 64 → line_break (digit v) = false.
Proof.
  intros Hv. unfold line_break, digit. rewrite bz_zb; repeat case_match; bool_props; try lia.
  all: apply orb_false_iff; split; apply Z.eqb_neq; lia.
Qed.

(** Bounds of the digits of three bytes. *)
Lemma digits_range x y z :
  0 ≤ x < 256 → 0 ≤ y < 256 → 0 ≤ z < 256 →
  0 ≤ x / 4 < 64 ∧ 0 ≤ x mod 4 * 16 + y / 16 < 64 ∧ 0 ≤ y mod 16 * 4 + z / 64 < 64
  ∧ 0 ≤ z mod 64 < 64 ∧ 0 ≤ x mod 4 * 16 < 64 ∧ 0 ≤ y mod 16 * 4 < 64.
Proof. intros. Z.div_mod_to_equations. lia. Qed.

(** Induction on three bytes at a time. *)
Lemma bytes3_ind (P : bytes → Prop) :
  P [] → (∀ a, P [a]) → (∀ a b, P [a; b]) → (∀ a b c r, P r → P (a :: b :: c :: r)) →
  ∀ l, P l.
Proof.
  intros H0 H1 H2 H3. fix IH 1. intros [|a [|b [|c r]]]; [done|apply H1|apply H2|apply H3, IH].
Qed.

Lemma byte1 x y : 0 ≤ x < 256 → 0 ≤ y < 256 → x / 4 * 4 + (x mod 4 * 16 + y / 16) / 16 = x.
Proof. intros. Z.div_mod_to_equations. lia. Qed.
Lemma byte2 x y z :
  0 ≤ x < 256 → 0 ≤ y < 256 → 0 ≤ z < 256 →
  (x mod 4 * 16 + y / 16) mod 16 * 16 + (y mod 16 * 4 + z / 64) / 4 = y.
Proof. intros. Z.div_mod_to_equations. lia. Qed.
Lemma byte3 y z :
  0 ≤ y < 256 → 0 ≤ z < 256 → (y mod 16 * 4 + z / 64) mod 4 * 64 + z mod 64 = z.
Proof. intros. Z.div_mod_to_equations. lia. Qed.

Lemma b64_quanta_encode l : b64_quanta (b64_encode l) = Some l.
Proof.
  induction l as [|a|a b|a b c r IH] using bytes3_ind; [done|..]; cbn [b64_encode app].
  - pose proof (bz_range a) as Ha. destruct (digits_range (bz a) 0 0) as (D1 & _ & _ & _ & D5 & _);
      [lia..|].
    cbn [b64_quanta]. rewrite !digit_val_digit //. cbn.
    pose proof (byte1 (bz a) 0 Ha ltac:(lia)) as E. rewrite Z.add_0_r in E. by rewrite E zb_bz.
  - pose proof (bz_range a) as Ha. pose proof (bz_range b) as Hb.
    destruct (digits_range (bz a) (bz b) 0) as (D1 & D2 & _ & _ & _ & D6); [lia..|].
    cbn [b64_quanta]. rewrite !digit_val_digit // digit_not_pad //. cbn.
    pose proof (byte2 (bz a) (bz b) 0 Ha Hb ltac:(lia)) as E. rewrite Z.add_0_r in E.
    by rewrite byte1 // E !zb_bz.
  - pose proof (bz_range a) as Ha. pose proof (bz_range b) as Hb. pose proof (bz_range c) as Hc.
    destruct (digits_range (bz a) (bz b) (bz c)) as (D1 & D2 & D3 & D4 & _ & _); [done..|].
    cbn [b64_quanta]. rewrite !digit_val_digit // !digit_not_pad // IH.
    by rewrite byte1 // byte2 // byte3 // !zb_bz.
Qed.

Lemma b64_encode_no_break l : List.filter (λ c, negb (line_break c)) (b64_encode l) = b64_encode l.
Proof.
  induction l as [|a|a b|a b c r IH] using bytes3_ind; [done|..]; cbn [b64_encode app List.filter];
    try pose proof (bz_range a) as Ha; try pose proof (bz_range b) as Hb;
    try pose proof (bz_range c) as Hc.
  - destruct (digits_range (bz a) 0 0) as (D1 & _ & _ & _ & D5 & _); [lia..|].
    by rewrite !digit_no_break.
  - destruct (digits_range (bz a) (bz b) 0) as (D1 & D2 & _ & _ & _ & D6); [lia..|].
    by rewrite !digit_no_break.
  - destruct (digits_range (bz a) (bz b) (bz c)) as (D1 & D2 & D3 & D4 & _ & _); [done..|].
    rewrite !digit_no_break //. cbn [negb]. by rewrite IH.
Qed.

(** Encoded bytes are read back. *)
Lemma b64_roundtrip l : b64_decode (b64_encode l) = Some l.
Proof. unfold b64_decode. by rewrite b64_encode_no_break b64_quanta_encode. Qed.

(** ** Lemmas: keys *)

Lemma NewManager_length k : length (NewManager k) = 32%nat.
Proof. unfold NewManager. rewrite length_app length_replicate length_take. lia. Qed.

Lemma NewManager_prefix k k' :
  take 32 (s2b k) = take 32 (s2b k') → NewManager k = NewManager k'.
Proof. unfold NewManager. by intros ->. Qed.

(** Trailing zero bytes make no difference. *)
Lemma NewManager_zeros k n : NewManager (k +:+ b2s (replicate n (zb 0))) = NewManager k.
Proof.
  unfold NewManager. rewrite s2b_app s2b_b2s take_app take_replicate.
  rewrite !length_app !length_take length_replicate -app_assoc -replicate_add. f_equal.
  f_equal. lia.
Qed.

(** C38: sealed secrets are read back, and which keys are the same.  For every
    master key and text, encrypting succeeds when random bytes are available
    and decrypting the result gives the text.  Only the first 32 bytes of the
    master key count and missing ones are zero, so that longer keys with the
    same beginning, and keys that differ in trailing zero bytes, open each
    other's secrets; without a master key the values are still encrypted, under
    a key of 32 zero bytes.  A value that is not base64 or too short is
    refused. *)
Theorem secrets_roundtrip `{AL : AeadLaws} masterKey nonce text :
  length nonce = nonce_size →
  (∃ c, Encrypt (NewManager masterKey) (Some nonce) text = Ok c
        ∧ Decrypt (NewManager masterKey) c = Ok text
        ∧ (∀ k', take 32 (s2b k') = take 32 (s2b masterKey) → Decrypt (NewManager k') c = Ok text)
        ∧ (∀ n, Decrypt (NewManager (masterKey +:+ b2s (replicate n (zb 0)))) c = Ok text))
  ∧ Encrypt (NewManager masterKey) None text = Err "rand"
  ∧ NewManager "" = replicate 32 (zb 0)
  ∧ (∀ c, b64_decode (s2b c) = None →
       Decrypt (NewManager masterKey) c = Err "illegal base64 data")
  ∧ (∀ b, (length b < nonce_size)%nat →
       Decrypt (NewManager masterKey) (b2s (b64_encode b)) = Err "ciphertext too short").
Proof.
  intros Hn. pose proof (NewManager_length masterKey) as Hl.
  assert (key_ok (NewManager masterKey) = true) as Hok by (unfold key_ok; by rewrite Hl).
  assert (NewManager masterKey ≠ []) as Hne by by intros E; rewrite E in Hl.
  assert (∀ c b, b64_decode (s2b c) = Some b → Decrypt (NewManager masterKey) c =
    if (length b <? nonce_size)%nat then Err "ciphertext too short"
    else match open_gcm (NewManager masterKey) (take nonce_size b) (drop nonce_size b) with
         | Err e => Err e | Ok p => Ok (b2s p) end) as Hdec.
  { intros c b Hb. unfold Decrypt. rewrite Hb Hok. by destruct (NewManager masterKey). }
  repeat split.
  - set (ct := seal_gcm (NewManager masterKey) nonce (s2b text)).
    exists (b2s (b64_encode (nonce ++ ct))).
    assert (Decrypt (NewManager masterKey) (b2s (b64_encode (nonce ++ ct))) = Ok text) as Hd.
    { rewrite (Hdec _ (nonce ++ ct)); [|by rewrite s2b_b2s b64_roundtrip].
      rewrite length_app (proj2 (Nat.ltb_ge _ _)); [|lia].
      rewrite take_app_length' // drop_app_length' //.
      unfold ct. rewrite open_seal // b2s_s2b //. }
    repeat split; [|done|intros k' Hk'; by rewrite (NewManager_prefix k' masterKey)
                  |intros n; by rewrite NewManager_zeros].
    unfold Encrypt. rewrite Hok. by destruct (NewManager masterKey).
  - unfold Encrypt. rewrite Hok. by destruct (NewManager masterKey).
  - intros c Hc. unfold Decrypt. rewrite Hc. by destruct (NewManager masterKey).
  - intros b Hb. rewrite (Hdec _ b); [|by rewrite s2b_b2s b64_roundtrip].
    by rewrite (proj2 (Nat.ltb_lt _ _)).
Qed.

(** A cipher that adds the key to the text. *)
Definition toy_aead : Aead :=
  {| nonce_size := 2;
     seal_gcm key nonce p := key ++ nonce ++ p;
     open_gcm key nonce c :=
       if bool_decide (take (length key + length nonce) c = key ++ nonce)
       then Ok (drop (length key + length nonce) c) else Err "authentication failed" |}.

#[local] Instance toy_aead_laws : @AeadLaws toy_aead.
Proof.
  intros key nonce p _ _. cbn. rewrite app_assoc.
  rewrite take_app_length' ?length_app // drop_app_length' ?length_app //.
  by rewrite bool_decide_eq_true_2.
Qed.

Lemma secrets_roundtrip_witness :
  ∃ c, @Encrypt toy_aead (NewManager "k") (Some (s2b "ab")) "apiVersion: v1" = Ok c
       ∧ @Decrypt toy_aead (NewManager "k") c = Ok "apiVersion: v1".
Proof.
  destruct (@secrets_roundtrip toy_aead toy_aead_laws "k" (s2b "ab") "apiVersion: v1" eq_refl)
    as ((c & He & Hd & _) & _).
  by exists c.
Defined.
