(* ===== verification/Connector.v ===== *)
(** * Tailnet connectors (internal/ts/connector/connector.go)

    A connector owns one embedded tailnet server.  [Start] and [Stop] run their
    body once; the tailnet itself answers through the arguments of the
    operations. *)

From S2P Require Import Prelude GoStrings Names Values.
From S2P Require Import NetAddr LocalDb Settings Jobs Proxy Prog.
From S2P Require Import Rbac DbManager DbHandlers Router RouterCluster K8s HostApp.

Local Open Scope Z_scope.

(** ** Configuration *)

Record CConfig : Type := {
  cc_ClusterID : string; cc_LoginServer : string; cc_ClientAuthKey : string;
  cc_StateDir : string; cc_Hostname : string
}.

(** The helper [sanitizeID] of the package: it also lowers the case of other
    scripts and trims dashes, unlike the one of the registry. *)
Definition conn_rune (r : Z) : list Z :=
  if is_lower r || is_digit r then [r]
  else if is_dash r || is_underscore r || (r =? 46) then [45]
  else [].

Definition conn_sanitizeID `{UnicodeCase} (s : string) : string :=
  let res := TrimByte "-" (string_of_runes (mjoin (conn_rune <$> runes (ToLower (TrimSpace s))))) in
  if String.eqb res "" then "default" else res.

Definition randSuffix (prefix hex : string) : string := prefix +:+ "-" +:+ hex.

(** [New] with the answers of the system: home directory and hostname (empty
    when unknown), four random bytes in hexadecimal, and whether the state
    directory could be made. *)
Definition NewConnector `{UnicodeCase} (home hostname hex : string) (mkdir : string → option string)
    (cfg : CConfig) : result CConfig :=
  let id := TrimSpace (cc_ClusterID cfg) in
  if String.eqb id "" then Err "clusterID required"
  else if String.eqb (TrimSpace (cc_LoginServer cfg)) "" then Err "loginServer required"
  else
    let given := TrimSpace (cc_StateDir cfg) in
    if String.eqb given "" && String.eqb home "" then Err "no home dir for state"
    else
      let state := if String.eqb given ""
                   then path_join home (".guildnet/tsnet/cluster-" +:+ conn_sanitizeID id)
                   else given in
      match mkdir state with
      | Some e => Err ("state dir: " +:+ e)
      | None =>
          let host := if String.eqb hostname "" then randSuffix "node" hex else hostname in
          Ok {| cc_ClusterID := cc_ClusterID cfg; cc_LoginServer := cc_LoginServer cfg;
                cc_ClientAuthKey := cc_ClientAuthKey cfg; cc_StateDir := state;
                cc_Hostname := if String.eqb (TrimSpace (cc_Hostname cfg)) ""
                               then "guildnet-" +:+ conn_sanitizeID id +:+ "-" +:+ conn_sanitizeID host
                               else cc_Hostname cfg |}
      end.

(** ** State *)

(** Servers are numbered; [cs_open] are the running ones. *)
Record Conn : Type := {
  cs_cfg : CConfig;
  cs_srv : option nat;
  cs_started : bool;          (* the Once of Start *)
  cs_stopped : bool;          (* the Once of Stop *)
  cs_open : gset nat;
  cs_next : nat
}.

Definition fresh_conn (cfg : CConfig) : Conn :=
  {| cs_cfg := cfg; cs_srv := None; cs_started := false; cs_stopped := false;
     cs_open := ∅; cs_next := 0 |}.

(** One round of the wait: the status shows an address or a name, the deadline
    has passed, or the context ended. *)
Inductive tick : Type := TUp | TDeadline | TDone (err : string) | TWait.

(** [None]: still waiting. *)
Fixpoint wait_up (l : list tick) : option (result unit) :=
  match l with
  | [] => None
  | TUp :: _ | TDeadline :: _ => Some (Ok tt)
  | TDone e :: _ => Some (Err e)
  | TWait :: r => wait_up r
  end.

(** What the system and the tailnet answer to [Start]. *)
Record start_answers : Type := {
  sa_dirExists : bool; sa_start : option string; sa_client : option string; sa_ticks : list tick
}.

(** The body of [Start]: the new server, if one is kept, or an error.  A server
    that started and is not kept is closed. *)
Definition start_body (cfg : CConfig) (a : start_answers) : option (result unit) :=
  if negb (sa_dirExists a) && String.eqb (TrimSpace (cc_ClientAuthKey cfg)) ""
  then Some (Err "clientAuthKey required for first start")
  else
    match sa_start a with
    | Some e => Some (Err ("tsnet start: " +:+ e))
    | None =>
        match sa_client a with
        | Some e => Some (Err ("local client: " +:+ e))
        | None => wait_up (sa_ticks a)
        end
    end.

(** The Once is used up by the first call, whatever its outcome; later calls
    return nil.  [None]: the call has not returned. *)
Definition StartConn (a : start_answers) (c : Conn) : option (Conn * result unit) :=
  if cs_started c then Some (c, Ok tt)
  else
    match start_body (cs_cfg c) a with
    | None => None
    | Some (Err e) =>
        Some ({| cs_cfg := cs_cfg c; cs_srv := cs_srv c; cs_started := true;
                 cs_stopped := cs_stopped c; cs_open := cs_open c; cs_next := S (cs_next c) |}, Err e)
    | Some (Ok _) =>
        Some ({| cs_cfg := cs_cfg c; cs_srv := Some (cs_next c); cs_started := true;
                 cs_stopped := cs_stopped c; cs_open := {[cs_next c]} ∪ cs_open c;
                 cs_next := S (cs_next c) |}, Ok tt)
    end.

(** The server a dial or a listener goes through. *)
Definition use_server (c : Conn) : result nat :=
  match cs_srv c with Some s => Ok s | None => Err "connector not started" end.

Definition CloseServer (close_err : option string) (c : Conn) : Conn * result unit :=
  match cs_srv c with
  | None => (c, Ok tt)
  | Some s =>
      ({| cs_cfg := cs_cfg c; cs_srv := None; cs_started := cs_started c;
          cs_stopped := cs_stopped c; cs_open := cs_open c ∖ {[s]}; cs_next := cs_next c |},
       match close_err with Some e => Err e | None => Ok tt end)
  end.

Definition StopConn (close_err : option string) (c : Conn) : Conn * result unit :=
  if cs_stopped c then (c, Ok tt)
  else
    let '(c', r) := CloseServer close_err c in
    ({| cs_cfg := cs_cfg c'; cs_srv := cs_srv c'; cs_started := cs_started c';
        cs_stopped := true; cs_open := cs_open c'; cs_next := cs_next c' |}, r).

(** ** Health *)

Definition redactURL (s : string) : string := s.

(** A status of the tailnet client: first address and DNS name, empty when
    absent. *)
Definition HealthConn (c : Conn) (client : result (result (string * string)))
    : string * list (string * string) :=
  let det := [("clusterId", cc_ClusterID (cs_cfg c)); ("stateDir", cc_StateDir (cs_cfg c));
              ("loginServer", redactURL (cc_LoginServer (cs_cfg c)))] in
  match cs_srv c with
  | None => ("stopped", det)
  | Some _ =>
      match client with
      | Err e | Ok (Err e) => ("degraded", det ++ [("error", e)])
      | Ok (Ok (ip, name)) =>
          let fqdn := TrimSuffix name "." in
          (if negb (String.eqb ip "") || negb (String.eqb fqdn "") then "ok" else "starting",
           det ++ [("ip", ip); ("fqdn", fqdn)])
      end
  end.

(** ** Histories of a connector *)

Inductive conn_step : Conn → Conn → Prop :=
  | CS_start a c c' r : StartConn a c = Some (c', r) → conn_step c c'
  | CS_stop e c : conn_step c (StopConn e c).1
  | CS_close e c : conn_step c (CloseServer e c).1.

Definition conn_reachable (cfg : CConfig) (c : Conn) : Prop := rtc conn_step (fresh_conn cfg) c.

(** The open server is the one in use, and there was no server before the
    first start. *)
Record conn_inv (cfg : CConfig) (c : Conn) : Prop := {
  ci_cfg : cs_cfg c = cfg;
  ci_open : cs_open c = match cs_srv c with Some s => {[s]} | None => ∅ end;
  ci_once : cs_started c = false → cs_srv c = None
}.

Lemma CloseServer_inv cfg e c : conn_inv cfg c → conn_inv cfg (CloseServer e c).1.
Proof.
  intros [Hc Ho Hn]. unfold CloseServer. destruct (cs_srv c) as [s|] eqn:Es; split; simpl; auto.
  - by rewrite Ho difference_diag_L.
  - by rewrite Es.
Qed.

Lemma conn_step_inv cfg c c' : conn_inv cfg c → conn_step c c' → conn_inv cfg c'.
Proof.
  intros Hi Hs. destruct Hs as [a c c' r H|e c|e c]; [|..|by apply CloseServer_inv].
  - unfold StartConn in H. destruct (cs_started c) eqn:Est; [by simplify_eq|].
    destruct Hi as [Hc Ho Hn].
    destruct (start_body _ a) as [[[]|e]|]; simplify_eq; split; simpl; try done.
    by rewrite Ho (Hn Est) union_empty_r_L.
  - unfold StopConn. destruct (cs_stopped c); [done|].
    destruct (CloseServer_inv cfg e c Hi) as [H1 H2 H3]. destruct (CloseServer e c) as [c' r].
    by split.
Qed.

Lemma conn_reachable_inv cfg c : conn_reachable cfg c → conn_inv cfg c.
Proof.
  intros Hr. refine (rtc_ind_r (conn_inv cfg) (fresh_conn cfg) _ _ c Hr); [by split|].
  intros x y _ Hs Hx. by apply (conn_step_inv cfg x).
Qed.

(** The Once of [Stop] stays used up. *)
Lemma StopConn_stopped e c : cs_stopped (StopConn e c).1 = true.
Proof. unfold StopConn. destruct (cs_stopped c) eqn:Es; [done|]. by destruct (CloseServer e c). Qed.

Lemma stopped_steps c c' : rtc conn_step c c' → cs_stopped c = true → cs_stopped c' = true.
Proof.
  induction 1 as [|x y z Hs _ IH]; [done|]. intros Hx. apply IH.
  destruct Hs as [a c c' r H|e c|e c]; [|apply StopConn_stopped|].
  - unfold StartConn in H. repeat case_match; by simplify_eq.
  - unfold CloseServer. by destruct (cs_srv c).
Qed.

(** C39: the life of a connector.  In every history of starts, stops and
    closes, the only running server is the one that dials and listeners go
    through, and closing it leaves none.  The first start decides: whatever its
    outcome, every later start returns success and does nothing, so that a
    start that failed cannot be repeated and reports success the second time,
    and a stopped connector does not start again.  Likewise the first stop
    counts: a connector started after a stop is not closed by another one.  As
    [New] has made the state directory, the outcome of a start does not depend
    on the auth key: the check for a missing one is never made. *)
Theorem connector_life cfg c :
  conn_reachable cfg c →
  (∀ n, n ∈ cs_open c ↔ use_server c = Ok n)
  ∧ (∀ e, cs_open (CloseServer e c).1 = ∅)
  ∧ (∀ a c' r, StartConn a c = Some (c', r) →
       (∀ a', StartConn a' c' = Some (c', Ok tt))
       ∧ (cs_started c = true → c' = c)
       ∧ (cs_started c = false → ∀ e, r = Err e → use_server c' = Err "connector not started"))
  ∧ (∀ e c2 e2, rtc conn_step (StopConn e c).1 c2 → StopConn e2 c2 = (c2, Ok tt))
  ∧ (∀ a cfg', sa_dirExists a = true → start_body cfg a = start_body cfg' a).
Proof.
  intros Hr. destruct (conn_reachable_inv _ _ Hr) as [Hc Ho Hn].
  split; [|split; [|split; [|split]]].
  - intros n. rewrite Ho. unfold use_server. destruct (cs_srv c); [|set_solver].
    rewrite elem_of_singleton. split; [by intros ->|by intros [= ->]].
  - intros e. unfold CloseServer. destruct (cs_srv c) eqn:Es; simpl; rewrite Ho; [by rewrite difference_diag_L|done].
  - intros a c' r H. unfold StartConn in H.
    destruct (cs_started c) eqn:Est.
    { simplify_eq. split; [intros a'; unfold StartConn; by rewrite Est|]. done. }
    destruct (start_body _ a) as [[[]|e]|]; simplify_eq;
      (split; [done|]); (split; [done|]); intros _ e' He; simplify_eq.
    unfold use_server. simpl. by rewrite (Hn eq_refl).
  - intros e c2 e2 Hs. unfold StopConn. by rewrite (stopped_steps _ _ Hs (StopConn_stopped e c)).
  - intros a cfg' Hd. unfold start_body. by rewrite Hd.
Qed.

(** A connector whose first start fails. *)
Definition demo_cconfig : CConfig :=
  {| cc_ClusterID := "c1"; cc_LoginServer := "http://hs"; cc_ClientAuthKey := "";
     cc_StateDir := "/tmp/c1"; cc_Hostname := "h" |}.

Lemma connector_life_witness :
  let a := {| sa_dirExists := true; sa_start := Some "no network"; sa_client := None;
              sa_ticks := [] |} in
  match StartConn a (fresh_conn demo_cconfig) with
  | Some (c', r) => r = Err "tsnet start: no network"
                    ∧ use_server c' = Err "connector not started"
                    ∧ StartConn a c' = Some (c', Ok tt)
  | None => False
  end.
Proof.
  intros a.
  destruct (StartConn a (fresh_conn demo_cconfig)) as [[c' r]|] eqn:E; [|discriminate E].
  destruct (connector_life demo_cconfig (fresh_conn demo_cconfig) (rtc_refl _ _))
    as (_ & _ & H & _).
  destruct (H a c' r E) as (H1 & _ & H3).
  assert (r = Err "tsnet start: no network") as -> by (cbn in E; by simplify_eq).
  split; [reflexivity|]. split; [exact (H3 eq_refl _ eq_refl)|apply H1].
Defined.
