(* ===== verification/Config.v ===== *)
(** * Host configuration (pkg/config)

    Validation of the configuration file and the set-up wizard.  The wizard
    reads a terminal or a pipe: the input is the list of the chunks that reads
    return, and every prompt has a scanner of its own. *)

From S2P Require Import Prelude GoStrings Names Values.
From S2P Require Import NetAddr LocalDb Settings Jobs Proxy Prog.
From S2P Require Import Rbac DbManager DbHandlers Router RouterCluster K8s HostApp.

Local Open Scope Z_scope.

Record Config : Set := {
  cf_LoginServer : string; cf_AuthKey : string; cf_Hostname : string; cf_ListenLocal : string;
  cf_DialTimeoutMS : Z; cf_Name : string
}.

(** ** Paths *)

Definition homeDir (h : option string) : string := default "." h.
Definition baseDir (h : option string) : string := path_join (homeDir h) ".guildnet".
Definition StateDir (h : option string) : string := path_join (baseDir h) "state".
Definition ConfigPath (h : option string) : string := path_join (baseDir h) "config.json".

(** ** Validation *)

Definition Validate (c : Config) : result unit :=
  if String.eqb (cf_LoginServer c) "" then Err "login_server must be a URL"
  else if String.eqb (cf_AuthKey c) "" then Err "auth_key required"
  else if String.eqb (cf_Hostname c) "" then Err "hostname required"
  else if String.eqb (cf_ListenLocal c) "" then Err "listen_local required"
  else if (cf_DialTimeoutMS c <=? 0) || (60000 <? cf_DialTimeoutMS c)
  then Err ("dial_timeout_ms out of range: " +:+ fmt_d (cf_DialTimeoutMS c))
  else Ok tt.

(** ** The wizard *)

(** The text before the first line feed. *)
Fixpoint line_of (b : bytes) : option bytes :=
  match b with
  | [] => None
  | c :: r => if Ascii.eqb c newline then Some [] else cons c <$> line_of r
  end.

(** A carriage return at the end of a line is dropped. *)
Definition drop_cr (b : bytes) : bytes :=
  match last b with
  | Some c => if bz c =? 13 then take (length b - 1) b else b
  | None => b
  end.

Definition max_token : Z := 65536.

(** A new scanner: chunks are read until the buffer has a line; the rest of the
    buffer is lost with the scanner. *)
Fixpoint scan (buf : bytes) (input : list bytes) : option bytes * list bytes :=
  match input with
  | [] => (if bool_decide (buf = []) then None else Some (drop_cr buf), [])
  | chunk :: rest =>
      match line_of (buf ++ chunk) with
      | Some l => (Some (drop_cr l), rest)
      | None => if max_token <=? Z.of_nat (length (buf ++ chunk)) then (None, rest)
                else scan (buf ++ chunk) rest
      end
  end.

Definition read (def : string) (input : list bytes) : string * list bytes :=
  let '(line, rest) := scan [] input in
  match line with
  | None => (def, rest)
  | Some l => let v := TrimSpace (b2s l) in (if String.eqb v "" then def else v, rest)
  end.

Section wizard.
Context `{RE : RouterEnv}.

Definition atoiDefault (s : string) (def : Z) : Z :=
  match sscanf_d (TrimSpace s) with
  | Some n => if n <=? 0 then def else n
  | None => def
  end.

Definition ask (input : list bytes) : Config :=
  let '(login, input) := read "https://headscale.example.com" input in
  let '(auth, input) := read "tskey-abc123" input in
  let '(host, input) := read "host-app" input in
  let '(listen, input) := read "127.0.0.1:8090" input in
  let '(dial, input) := read "3000" input in
  let '(name, input) := read "" input in
  {| cf_LoginServer := login; cf_AuthKey := auth; cf_Hostname := host; cf_ListenLocal := listen;
     cf_DialTimeoutMS := atoiDefault dial 3000; cf_Name := name |}.

(** The configuration that is written, or the error; [mkdir] and [save] are the
    errors of the state directory and of the file. *)
Definition RunInitWizard (mkdir save : option string) (input : list bytes) : result Config :=
  let c := ask input in
  match mkdir with
  | Some e => Err e
  | None =>
      match Validate c with
      | Err e => Err e
      | Ok _ => match save with Some e => Err e | None => Ok c end
      end
  end.

(** ** Lemmas *)

Lemma line_of_app l r : newline ∉ l → line_of (l ++ newline :: r) = Some l.
Proof.
  induction l as [|c l IH]; intros Hl; simpl; [done|].
  destruct (Ascii.eqb_spec c newline) as [->|_]; [set_solver|]. rewrite IH; [done|set_solver].
Qed.

(** What a prompt makes of a line. *)
Definition answer (def : string) (line : bytes) : string :=
  let v := TrimSpace (b2s (drop_cr line)) in if String.eqb v "" then def else v.

Lemma read_line def l extra rest :
  newline ∉ l → read def ((l ++ newline :: extra) :: rest) = (answer def l, rest).
Proof. intros Hl. unfold read, answer. cbn [scan app]. by rewrite line_of_app. Qed.

Lemma read_eof def : read def [] = (def, []).
Proof. done. Qed.

Lemma answer_nonempty def l : def ≠ "" → answer def l ≠ "".
Proof. intros Hd. unfold answer. by destruct (String.eqb_spec (TrimSpace (b2s (drop_cr l))) ""). Qed.

Lemma read_nonempty def input : def ≠ "" → (read def input).1 ≠ "".
Proof.
  intros Hd. unfold read. destruct (scan [] input) as [[l|] rest]; [|done].
  simpl. by destruct (String.eqb_spec (TrimSpace (b2s l)) "").
Qed.

Lemma atoiDefault_pos s def : 0 < def → 0 < atoiDefault s def.
Proof. intros Hd. unfold atoiDefault. destruct (sscanf_d _); [case_match|]; bool_props; lia. Qed.

Lemma ask_fields input :
  cf_LoginServer (ask input) ≠ "" ∧ cf_AuthKey (ask input) ≠ "" ∧ cf_Hostname (ask input) ≠ ""
  ∧ cf_ListenLocal (ask input) ≠ "" ∧ 0 < cf_DialTimeoutMS (ask input).
Proof.
  unfold ask.
  pose proof (read_nonempty "https://headscale.example.com" input ltac:(done)) as H1.
  destruct (read _ input) as [login i1]. pose proof (read_nonempty "tskey-abc123" i1 ltac:(done)) as H2.
  destruct (read _ i1) as [auth i2]. pose proof (read_nonempty "host-app" i2 ltac:(done)) as H3.
  destruct (read _ i2) as [host i3]. pose proof (read_nonempty "127.0.0.1:8090" i3 ltac:(done)) as H4.
  destruct (read _ i3) as [listen i4]. destruct (read _ i4) as [dial i5].
  destruct (read _ i5) as [name i6]. repeat split; try done. by apply atoiDefault_pos.
Qed.

(** What the wizard writes.  A configuration that was written is valid; the
    only answer the wizard refuses is a dial timeout over a minute.  When every
    read returns one line, as a terminal does, each field is the trimmed answer
    or its default.  When all answers arrive in one read, as from a pipe, only
    the first one is used: the scanner of the first prompt swallows the others
    and every other field has its default. *)
Theorem wizard_outcome mkdir save input :
  (∀ c, RunInitWizard mkdir save input = Ok c →
     c = ask input ∧ Validate c = Ok tt ∧ 1 ≤ cf_DialTimeoutMS c ≤ 60000)
  ∧ (Validate (ask input) ≠ Ok tt → 60000 < cf_DialTimeoutMS (ask input))
  ∧ (∀ l1 l2 l3 l4 l5 l6, Forall (λ l, newline ∉ l) [l1; l2; l3; l4; l5; l6] →
       ask ((λ l, l ++ [newline]) <$> [l1; l2; l3; l4; l5; l6])
       = {| cf_LoginServer := answer "https://headscale.example.com" l1;
            cf_AuthKey := answer "tskey-abc123" l2; cf_Hostname := answer "host-app" l3;
            cf_ListenLocal := answer "127.0.0.1:8090" l4;
            cf_DialTimeoutMS := atoiDefault (answer "3000" l5) 3000;
            cf_Name := answer "" l6 |})
  ∧ (∀ l1 rest, newline ∉ l1 →
       ask [l1 ++ newline :: rest]
       = {| cf_LoginServer := answer "https://headscale.example.com" l1;
            cf_AuthKey := "tskey-abc123"; cf_Hostname := "host-app";
            cf_ListenLocal := "127.0.0.1:8090";
            cf_DialTimeoutMS := atoiDefault "3000" 3000; cf_Name := "" |}).
Proof.
  destruct (ask_fields input) as (H1 & H2 & H3 & H4 & H5).
  assert (Validate (ask input) = if 60000 <? cf_DialTimeoutMS (ask input)
          then Err ("dial_timeout_ms out of range: " +:+ fmt_d (cf_DialTimeoutMS (ask input)))
          else Ok tt) as Hv.
  { unfold Validate. rewrite !(proj2 (String.eqb_neq _ _)) //.
    by rewrite (proj2 (Z.leb_gt _ _)). }
  split; [|split; [|split]].
  - intros c. unfold RunInitWizard. destruct mkdir; [done|].
    destruct (Validate (ask input)) eqn:Ev; [|done]. destruct save; [done|]. intros [= <-].
    split; [done|]. rewrite Ev. destruct (Z.ltb_spec 60000 (cf_DialTimeoutMS (ask input)));
      [done|]. split; [congruence|lia].
  - rewrite Hv. by destruct (Z.ltb_spec 60000 (cf_DialTimeoutMS (ask input))).
  - intros l1 l2 l3 l4 l5 l6 Hl. rewrite !Forall_cons in Hl. destruct_and!.
    unfold ask. cbn [fmap list_fmap]. by rewrite !read_line.
  - intros l1 rest Hl. unfold ask. by rewrite read_line.
Qed.

End wizard.

(** Six answers, typed and piped. *)
Definition demo_answers : list bytes :=
  s2b <$> ["https://hs.local"; "key-1"; "node-1"; "127.0.0.1:9000"; "500"; "lab"].

Lemma wizard_outcome_witness :
  let typed := @ask demo_env ((λ l, l ++ [newline]) <$> demo_answers) in
  let piped := @ask demo_env [mjoin ((λ l, l ++ [newline]) <$> demo_answers)] in
  cf_AuthKey typed = "key-1" ∧ cf_LoginServer piped = "https://hs.local"
  ∧ cf_AuthKey piped = "tskey-abc123".
Proof.
  intros typed piped.
  destruct (@wizard_outcome demo_env None None []) as (_ & _ & Ht & Hp).
  split; [|split].
  - unfold typed, demo_answers. cbn [fmap list_fmap].
    rewrite (Ht (s2b "https://hs.local") (s2b "key-1") (s2b "node-1") (s2b "127.0.0.1:9000")
               (s2b "500") (s2b "lab")); [reflexivity|].
    repeat constructor; apply (bool_decide_eq_true_1 _); vm_compute; reflexivity.
  - reflexivity.
  - pose proof (Hp (s2b "https://hs.local")
        (mjoin ((λ l, l ++ [newline]) <$> tail demo_answers))) as H.
    unfold piped. change (mjoin ((λ l, l ++ [newline]) <$> demo_answers))
      with (s2b "https://hs.local" ++ newline :: mjoin ((λ l, l ++ [newline]) <$> tail demo_answers)).
    rewrite H; [reflexivity|]. apply (bool_decide_eq_true_1 _); vm_compute; reflexivity.
Defined.
