(* ===== verification/Sdk.v ===== *)
(** * The Go client library (metaguildnet/sdk/go/client)

    Requests with retries, and the operations on clusters, workspaces,
    databases and health that are built on them; what they meet when the host
    answers them. *)

From S2P Require Import Prelude GoStrings NetAddr Values Names LocalDb Settings Jobs Proxy Prog.
From S2P Require Import Mux Rbac DbManager DbHandlers Router RouterCluster RouterSafety K8s.
From S2P Require Import HostApp HostMount Secrets.

Local Open Scope Z_scope.

(** ** Requests with retries (guildnet.go) *)

Record Client : Type := { sc_baseURL : string; sc_token : string; sc_maxRetries : Z }.

Definition NewClient (baseURL token : string) : Client :=
  {| sc_baseURL := baseURL; sc_token := token; sc_maxRetries := 3 |}.

Inductive sdk_err : Type :=
  | ErrNotFound | ErrUnauthorized | ErrTimeout | ErrServerError
  | ErrContext | ErrMarshal | ErrRequest | ErrSend | ErrDecode | ErrStatus (status : Z).

Record sreq : Type := {
  sq_method : string; sq_url : string; sq_auth : option string; sq_body : option any
}.

(** A response with its body when it is JSON, or a failed round trip. *)
Inductive sreply : Set :=
  | RAnswer (status : Z) (body : option any)
  | RFailed (ctx_done : bool).

(** [SBackoff] and [STick] say whether the context ended while waiting. *)
Inductive scall : Set → Type :=
  | SSend (r : sreq) : scall sreply
  | SBackoff (attempt : nat) : scall bool
  | STick : scall bool.

Abbreviation sprog := (gprog scall).

(** Decoding into a value that may hold fields of an earlier attempt; the
    boolean says whether it succeeded. *)
Abbreviation decoder A := (A → any → A * bool) (only parsing).

Class SdkEnv := {
  (** [http.NewRequest] accepts the URL. *)
  sdk_url_ok : string → bool;
  (** [time.Parse] in RFC3339, in nanoseconds. *)
  sdk_time : string → option Z
}.

Section client.
Context `{UC : UnicodeCase} `{SE : SdkEnv}.

Definition decode_reply {A} (dec : option (decoder A)) (cur : A) (body : option any)
    : A * option sdk_err :=
  match dec, body with
  | None, _ => (cur, None)
  | Some _, None => (cur, Some ErrDecode)
  | Some d, Some v => let '(a, ok) := d cur v in (a, if (ok : bool) then None else Some ErrDecode)
  end.

Definition classify {A} (dec : option (decoder A)) (cur : A) (rep : sreply) : A * option sdk_err :=
  match rep with
  | RFailed done_ => (cur, Some (if done_ then ErrTimeout else ErrSend))
  | RAnswer s body =>
      if (200 <=? s) && (s <? 300) then decode_reply dec cur body
      else if s =? 404 then (cur, Some ErrNotFound)
      else if (s =? 401) || (s =? 403) then (cur, Some ErrUnauthorized)
      else if 500 <=? s then (cur, Some ErrServerError)
      else (cur, Some (ErrStatus s))
  end.

Definition the_request (c : Client) (method path : string) (body : option any) : sreq :=
  {| sq_method := method; sq_url := sc_baseURL c +:+ path;
     sq_auth := if String.eqb (sc_token c) "" then None else Some ("Bearer " +:+ sc_token c);
     sq_body := body |}.

Definition doRequestOnce {A} (c : Client) (method path : string) (body : option any)
    (dec : option (decoder A)) (cur : A) : sprog (A * option sdk_err) :=
  if match body with Some v => negb (is_ok (marshal v)) | None => false end
  then Ret (cur, Some ErrMarshal)
  else if negb (sdk_url_ok (sc_baseURL c +:+ path)) then Ret (cur, Some ErrRequest)
  else do rep <- request (SSend (the_request c method path body)) ;
       Ret (classify dec cur rep).

(** Errors that end the retries. *)
Definition final (e : sdk_err) : bool :=
  match e with ErrNotFound | ErrUnauthorized => true | _ => false end.

Fixpoint attempts {A} (c : Client) (method path : string) (body : option any)
    (dec : option (decoder A)) (n attempt : nat) (cur : A) (lastErr : option sdk_err)
    : sprog (A * option sdk_err) :=
  match n with
  | O => Ret (cur, lastErr)
  | S n =>
      do stop <- (if (attempt =? 0)%nat then Ret false else request (SBackoff attempt)) ;
      if (stop : bool) then Ret (cur, Some ErrContext)
      else
        do r <- doRequestOnce c method path body dec cur ;
        match r with
        | (a, None) => Ret (a, None)
        | (a, Some e) => if final e then Ret (a, Some e)
                         else attempts c method path body dec n (S attempt) a (Some e)
        end
  end.

(** [attempt] runs from zero to [maxRetries]. *)
Definition doRequest {A} (c : Client) (method path : string) (body : option any)
    (dec : option (decoder A)) (zero : A) : sprog (A * option sdk_err) :=
  attempts c method path body dec (Z.to_nat (sc_maxRetries c + 1)) 0 zero None.

(** The result of an operation, or an error with its context. *)
Abbreviation outcome A := (A + string * sdk_err)%type (only parsing).

(** The shape every operation has. *)
Definition call {A B} (c : Client) (method path : string) (body : option any)
    (dec : option (decoder A)) (zero : A) (msg : string) (f : A → B) : sprog (outcome B) :=
  do r <- doRequest c method path body dec zero ;
  Ret (match r with
       | (a, None) => inl (f a)
       | (_, Some e) => inr (msg, e)
       end).

Definition get {A B} c path (dec : decoder A) zero msg (f : A → B) : sprog (outcome B) :=
  call c "GET" path None (Some dec) zero msg f.
Definition post {A B} c path body (dec : decoder A) zero msg (f : A → B) : sprog (outcome B) :=
  call c "POST" path body (Some dec) zero msg f.
Definition put_ c path body msg : sprog (outcome unit) :=
  call c "PUT" path (Some body) (@None (decoder unit)) tt msg id.
Definition delete_ c path msg : sprog (outcome unit) :=
  call c "DELETE" path None (@None (decoder unit)) tt msg id.

(** ** Lemmas: retries *)

Definition sent (e : gevent scall) : option (sreq * sreply) :=
  match e with
  | Ev c x => match c in scall X return X → option (sreq * sreply) with
              | SSend r => λ rep, Some (r, rep)
              | _ => λ _, None
              end x
  end.

(** The value after replies that were all followed by another attempt. *)
Fixpoint again {A} (dec : option (decoder A)) (cur : A) (rs : list sreply) : option A :=
  match rs with
  | [] => Some cur
  | r :: rs =>
      match classify dec cur r with
      | (a, Some e) => if final e then None else again dec a rs
      | (_, None) => None
      end
  end.

Lemma again_cons {A} (dec : option (decoder A)) cur r a e rs :
  classify dec cur r = (a, Some e) → final e = false → again dec cur (r :: rs) = again dec a rs.
Proof. simpl. by intros -> ->. Qed.

(** Success is an answer of the 2xx range. *)
Lemma classify_ok {A} (dec : option (decoder A)) cur r a :
  classify dec cur r = (a, None) → ∃ s b, r = RAnswer s b ∧ 200 ≤ s < 300.
Proof.
  unfold classify. destruct r as [s b|done_]; [|by destruct done_].
  destruct ((200 <=? s) && (s <? 300)) eqn:E; [|repeat case_match; done].
  intros _. bool_props. exists s, b. split; [done|lia].
Qed.

(** How a sequence of replies ends: with the last one, with no attempt at all,
    or with the end of the context between two attempts. *)
Definition settled {A} (dec : option (decoder A)) (n : nat) (cur : A) (lastErr : option sdk_err)
    (rs : list sreply) (a : A) (e : option sdk_err) : Prop :=
  (∃ pre r a0, rs = pre ++ [r] ∧ again dec cur pre = Some a0 ∧ classify dec a0 r = (a, e)
     ∧ (length rs ≤ n)%nat ∧ (e = None ∨ (∃ x, e = Some x ∧ final x = true) ∨ length rs = n))
  ∨ (rs = [] ∧ n = O ∧ a = cur ∧ e = lastErr)
  ∨ (e = Some ErrContext ∧ again dec cur rs = Some a ∧ (length rs < n)%nat).

Section retries.
Context (c : Client) (method path : string) (body : option any).
Hypothesis Hbody : match body with Some v => is_ok (marshal v) = true | None => True end.
Hypothesis Hurl : sdk_url_ok (sc_baseURL c +:+ path) = true.

Lemma doRequestOnce_sends {A} (dec : option (decoder A)) cur :
  doRequestOnce c method path body dec cur
  = do rep <- request (SSend (the_request c method path body)) ; Ret (classify dec cur rep).
Proof.
  unfold doRequestOnce. rewrite Hurl.
  destruct body as [v|]; [by rewrite Hbody|done].
Qed.

Lemma settled_more {A} (dec : option (decoder A)) n cur lastErr r a0 e0 rs a e :
  classify dec cur r = (a0, Some e0) → final e0 = false →
  settled dec n a0 (Some e0) rs a e → settled dec (S n) cur lastErr (r :: rs) a e.
Proof.
  intros Hc Hf [(pre & r' & a1 & -> & Ha & Hr & Hl & He)|[(-> & -> & -> & ->)|(-> & Ha & Hl)]].
  - left. exists (r :: pre), r', a1. rewrite (again_cons _ _ _ a0 e0) //. simpl.
    repeat split; auto; [lia|]. destruct He as [?|[?|?]]; auto.
  - left. by exists [], r, cur; repeat split; auto; simpl; lia.
  - right; right. rewrite (again_cons _ _ _ a0 e0) //. simpl. repeat split; auto; lia.
Qed.

Lemma attempts_runs {A} (dec : option (decoder A)) n k cur lastErr t a e :
  runs (attempts c method path body dec n k cur lastErr) t (a, e) →
  ∃ rs, omap sent t = (λ r, (the_request c method path body, r)) <$> rs
        ∧ settled dec n cur lastErr rs a e ∧ (k = O → n ≠ O → rs ≠ []).
Proof.
  revert k cur lastErr t; induction n as [|n IH]; intros k cur lastErr t; cbn [attempts].
  { intros [-> [= -> ->]]. exists []. split; [done|]. split; [right; by left|done]. }
  intros (t1 & t2 & stop & -> & Hs & Hr)%runs_bind.
  assert (omap sent t1 = [] ∧ (k = O → stop = false)) as [Ht1 Hk].
  { destruct (k =? 0)%nat eqn:Ek; [by destruct Hs as [-> ->]|].
    apply runs_request in Hs as ->. split; [done|]. intros ->. done. }
  rewrite omap_app Ht1. destruct stop.
  { destruct Hr as [-> [= -> ->]]. exists []. split; [done|].
    split; [right; right; repeat split; simpl; lia|]. intros Hk0. by specialize (Hk Hk0). }
  rewrite doRequestOnce_sends in Hr.
  destruct Hr as (rep & t3 & -> & Hr). cbn [bind] in Hr.
  assert (omap sent (Ev (SSend (the_request c method path body)) rep :: t3)
          = (the_request c method path body, rep) :: omap sent t3) as -> by done.
  destruct (classify dec cur rep) as [a0 [e0|]] eqn:Ec.
  - destruct (final e0) eqn:Ef.
    + destruct Hr as [-> [= -> ->]]. exists [rep]. split; [done|]. split; [|done].
      left. exists [], rep, cur. repeat split; auto; [simpl; lia|]. right; left. eauto.
    + apply IH in Hr as (rs & -> & Hset & _). exists (rep :: rs). split; [done|]. split; [|done].
      by apply (settled_more _ _ _ _ _ a0 e0).
  - destruct Hr as [-> [= -> ->]]. exists [rep]. split; [done|]. split; [|done].
    left. exists [], rep, cur. repeat split; auto. simpl. lia.
Qed.

End retries.
(** ** Workspaces (workspace.go) *)

(** One entry of the list of servers, and the workspace made of it. *)
Record sdk_server : Type := {
  ss_ID : string; ss_Name : string; ss_Image : string; ss_Status : string;
  ss_Ports : list (string * Z)
}.

Record sdk_workspace : Type := {
  sw_ID : string; sw_Name : string; sw_Image : string; sw_Status : string;
  sw_ServiceDNS : string; sw_ServiceIP : string; sw_ExternalURL : string;
  sw_Ports : list (string * Z)
}.

(** [int32(p.Port)]. *)
Definition to_int32 (z : Z) : Z := (z + 2 ^ 31) mod 2 ^ 32 - 2 ^ 31.

Definition listed_workspace (x : sdk_server) : sdk_workspace :=
  {| sw_ID := ss_ID x; sw_Name := ss_Name x; sw_Image := ss_Image x; sw_Status := ss_Status x;
     sw_ServiceDNS := ""; sw_ServiceIP := ""; sw_ExternalURL := "";
     sw_Ports := (λ p, (p.1, to_int32 p.2)) <$> ss_Ports x |}.

Definition cluster_path (id rest : string) : string := "/api/cluster/" +:+ id +:+ "/" +:+ rest.

Definition workspaces_List (c : Client) (id : string) (dec : decoder (list sdk_server)) :=
  get c (cluster_path id "servers") dec [] "failed to list workspaces" (fmap listed_workspace).

Definition workspaces_Create (c : Client) (id : string) (spec : any) (name image : string)
    (dec : decoder (string * string)) :=
  post c (cluster_path id "workspaces") (Some spec) dec ("", "") "failed to create workspace"
    (λ x, {| sw_ID := x.1; sw_Name := name; sw_Image := image; sw_Status := x.2;
             sw_ServiceDNS := ""; sw_ServiceIP := ""; sw_ExternalURL := ""; sw_Ports := [] |}).

(** Decoding into a [map[string]interface{}]; keys of an earlier attempt stay. *)
Definition dec_map (cur : doc) (v : any) : doc * bool :=
  match v with
  | AObj kvs => (list_to_map kvs ∪ cur, true)
  | ANil => (∅, true)
  | _ => (cur, false)
  end.

Definition sub_doc (m : doc) (k : string) : doc :=
  match m !! k with Some (AObj kvs) => list_to_map kvs | _ => ∅ end.

Definition workspace_of (name : string) (resp : doc) : sdk_workspace :=
  let spec := sub_doc resp "spec" in
  let status := sub_doc resp "status" in
  {| sw_ID := ""; sw_Name := name; sw_Image := str_field spec "image";
     sw_Status := str_field status "phase"; sw_ServiceDNS := str_field status "serviceDNS";
     sw_ServiceIP := str_field status "serviceIP";
     sw_ExternalURL := str_field status "externalURL"; sw_Ports := [] |}.

Definition workspaces_Get (c : Client) (id name : string) :=
  get c (cluster_path id ("workspaces/" +:+ name)) dec_map ∅ "failed to get workspace"
    (workspace_of name).

Definition workspaces_Delete (c : Client) (id name : string) :=
  delete_ c (cluster_path id ("workspaces/" +:+ name)) "failed to delete workspace".

(** *** Logs *)

Record log_in : Type := { li_Timestamp : string; li_Line : string; li_Pod : string }.
Record log_line_out : Type := { lo_Time : Z; lo_Line : string; lo_Source : string }.

Definition zero_log : log_in := {| li_Timestamp := ""; li_Line := ""; li_Pod := "" |}.

(** A string field: null leaves it, another type is an error. *)
Definition dec_str (cur : string) (v : any) : string * bool :=
  match v with AStr s => (s, true) | ANil => (cur, true) | _ => (cur, false) end.

(** Fields are matched by name without regard to case; other keys are skipped. *)
Definition dec_log_field (x : log_in) (kv : string * any) : log_in * bool :=
  if EqualFold kv.1 "timestamp" then
    let '(s, ok) := dec_str (li_Timestamp x) kv.2 in
    ({| li_Timestamp := s; li_Line := li_Line x; li_Pod := li_Pod x |}, ok)
  else if EqualFold kv.1 "line" then
    let '(s, ok) := dec_str (li_Line x) kv.2 in
    ({| li_Timestamp := li_Timestamp x; li_Line := s; li_Pod := li_Pod x |}, ok)
  else if EqualFold kv.1 "pod" then
    let '(s, ok) := dec_str (li_Pod x) kv.2 in
    ({| li_Timestamp := li_Timestamp x; li_Line := li_Line x; li_Pod := s |}, ok)
  else (x, true).

Definition dec_log (v : any) : log_in * bool :=
  match v with
  | AObj kvs => foldl (λ acc kv, let '(x, ok) := dec_log_field acc.1 kv in (x, acc.2 && ok))
                      (zero_log, true) kvs
  | ANil => (zero_log, true)
  | _ => (zero_log, false)
  end.

Definition dec_logs (cur : list log_in) (v : any) : list log_in * bool :=
  match v with
  | AArr l => ((dec_log <$> l).*1, forallb snd (dec_log <$> l))
  | ANil => ([], true)
  | _ => (cur, false)
  end.

(** A time that cannot be parsed is the zero time. *)
Definition log_out (x : log_in) : log_line_out :=
  {| lo_Time := default time_zero (sdk_time (li_Timestamp x)); lo_Line := li_Line x;
     lo_Source := li_Pod x |}.

Definition logs_path (id name : string) (tail : Z) : string :=
  cluster_path id ("workspaces/" +:+ name +:+ "/logs")
  +:+ (if 0 <? tail then "?tail=" +:+ fmt_d tail else "").

Definition workspaces_Logs (c : Client) (id name : string) (tail : Z) :=
  get c (logs_path id name tail) dec_logs [] "failed to get logs" (fmap log_out).

(** One poll of [StreamLogs]: the lines that are newer than the last one sent,
    and its new time. *)
Fixpoint newer (lastTimestamp : Z) (logs : list log_line_out) : list log_line_out * Z :=
  match logs with
  | [] => ([], lastTimestamp)
  | l :: r =>
      if lastTimestamp <? lo_Time l then
        let '(out, t) := newer (lo_Time l) r in (l :: out, t)
      else newer lastTimestamp r
  end.

(** [Wait], up to [fuel] ticks; [None]: still waiting. *)
Fixpoint workspaces_Wait (fuel : nat) (c : Client) (id name : string)
    : sprog (option (result unit)) :=
  match fuel with
  | O => Ret None
  | S n =>
      do stop <- request STick ;
      if (stop : bool) then Ret (Some (Err "timeout waiting for workspace"))
      else
        do ws <- workspaces_Get c id name ;
        match ws with
        | inr _ => workspaces_Wait n c id name
        | inl w => if String.eqb (sw_Status w) "Running" then Ret (Some (Ok tt))
                   else if String.eqb (sw_Status w) "Failed" then Ret (Some (Err "workspace failed"))
                   else workspaces_Wait n c id name
        end
  end.

Definition ProxyURL (c : Client) (id name : string) : string :=
  sc_baseURL c +:+ "/api/cluster/" +:+ id +:+ "/proxy/server/" +:+ name +:+ "/".

(** ** Clusters (cluster.go) *)

Section clusters.
Context {K : Type} (zero : K) (dec : decoder K) (dec_list : decoder (list K)).

Definition deploy_path (id : string) : string := "/api/deploy/clusters/" +:+ id.

Definition clusters_List (c : Client) :=
  get c "/api/deploy/clusters" dec_list [] "failed to list clusters" id.
Definition clusters_Get (c : Client) (cid : string) :=
  get c (deploy_path cid) dec zero ("failed to get cluster " +:+ cid) id.

Definition bootstrap_payload (kubeconfig : string) : any :=
  AObj [("cluster", AObj [("kubeconfig", AStr (b2s (b64_encode (s2b kubeconfig))))])].

Definition clusters_Bootstrap (c : Client) (kubeconfig : string) (dec_id : decoder string) :=
  post c "/bootstrap" (Some (bootstrap_payload kubeconfig)) dec_id ""
    "failed to bootstrap cluster" id.

Definition settings_path (id : string) : string := "/api/settings/cluster/" +:+ id.

Definition clusters_UpdateSettings (c : Client) (cid : string) (settings : any) :=
  put_ c (settings_path cid) settings "failed to update cluster settings".
Definition clusters_GetSettings (c : Client) (cid : string) :=
  get c (settings_path cid) dec zero "failed to get cluster settings" id.

(** Text that is not base64 is returned as it is. *)
Definition plain_kubeconfig (s : string) : string :=
  match b64_decode (s2b s) with Some b => b2s b | None => s end.

Definition clusters_GetKubeconfig (c : Client) (cid : string) (dec_kc : decoder string) :=
  post c (deploy_path cid +:+ "?action=kubeconfig") None dec_kc "" "failed to get kubeconfig"
    plain_kubeconfig.

Definition clusters_Delete (c : Client) (cid : string) :=
  delete_ c (deploy_path cid) "failed to delete cluster".
Definition clusters_Health (c : Client) (cid : string) :=
  get c (cluster_path cid "health") dec zero "failed to get cluster health" id.

End clusters.

(** ** Health (health.go) *)

Section health.
Context {K : Type} (zero : K) (dec : decoder K).

Definition health_Global (c : Client) := get c "/api/health" dec zero "failed to get global health" id.
Definition health_Cluster (c : Client) (cid : string) :=
  get c (cluster_path cid "health") dec zero "failed to get cluster health" id.
Definition health_Published (c : Client) (cid : string) :=
  get c (cluster_path cid "published-services") dec zero "failed to get published services" id.
Definition health_DeletePublished (c : Client) (cid service : string) :=
  delete_ c (cluster_path cid ("published-services/" +:+ service))
    "failed to delete published service".
Definition health_Status (c : Client) : sprog (bool * option sdk_err) :=
  do r <- doRequest c "GET" "/healthz" None (@None (decoder unit)) tt ;
  Ret (bool_decide (r.2 = None), r.2).

End health.

(** ** Databases (database.go) *)

Section databases.
Context {K : Type} (zero : K) (dec : decoder K).

Definition db_path (cid rest : string) : string := cluster_path cid ("db" +:+ rest).
Definition table_path (cid db table : string) : string :=
  db_path cid ("/" +:+ db +:+ "/tables/" +:+ table).

Definition databases_List (c : Client) (cid : string) :=
  get c (db_path cid "") dec zero "failed to list databases" id.
Definition databases_Create (c : Client) (cid name description : string) :=
  post c (db_path cid "") (Some (AObj [("name", AStr name); ("description", AStr description)]))
    dec zero "failed to create database" id.
Definition databases_Get (c : Client) (cid db : string) :=
  get c (db_path cid ("/" +:+ db)) dec zero "failed to get database" id.
Definition databases_Delete (c : Client) (cid db : string) :=
  delete_ c (db_path cid ("/" +:+ db)) "failed to delete database".
Definition databases_Tables (c : Client) (cid db : string) :=
  get c (db_path cid ("/" +:+ db +:+ "/tables")) dec zero "failed to list tables" id.
Definition databases_CreateTable (c : Client) (cid db : string) (table : any) :=
  call c "POST" (db_path cid ("/" +:+ db +:+ "/tables")) (Some table) (@None (decoder unit)) tt
    "failed to create table" id.
Definition databases_DeleteTable (c : Client) (cid db table : string) :=
  delete_ c (table_path cid db table) "failed to delete table".

(** Query parameters are appended as they are. *)
Definition query_path (cid db table orderBy : string) (limit : Z) (cursor : string)
    (forward : bool) : string :=
  table_path cid db table +:+ "/rows?limit=" +:+ fmt_d limit
  +:+ (if String.eqb orderBy "" then "" else "&orderBy=" +:+ orderBy)
  +:+ (if String.eqb cursor "" then "" else "&cursor=" +:+ cursor)
  +:+ (if forward then "" else "&forward=false").

Definition databases_Query (c : Client) (cid db table orderBy : string) (limit : Z)
    (cursor : string) (forward : bool) :=
  get c (query_path cid db table orderBy limit cursor forward) dec zero "failed to query rows" id.
Definition databases_InsertRows (c : Client) (cid db table : string) (rows : list any) :=
  post c (table_path cid db table +:+ "/rows") (Some (AObj [("rows", AArr rows)])) dec zero
    "failed to insert rows" id.

Definition row_path (cid db table row : string) : string :=
  table_path cid db table +:+ "/rows/" +:+ row.

Definition databases_UpdateRow (c : Client) (cid db table row : string) (patch : any) :=
  put_ c (row_path cid db table row) patch "failed to update row".
Definition databases_DeleteRow (c : Client) (cid db table row : string) :=
  delete_ c (row_path cid db table row) "failed to delete row".
Definition databases_GetRow (c : Client) (cid db table row : string) :=
  get c (row_path cid db table row) dec_map ∅ "failed to get row" id.
Definition databases_ListAudit (c : Client) (cid db : string) (limit : Z) :=
  get c (db_path cid ("/" +:+ db +:+ "/audit?limit=" +:+ fmt_d limit)) dec zero
    "failed to list audit events" id.

End databases.


End client.

(** ** A client to run *)

Definition demo_sdk : SdkEnv := {| sdk_url_ok := λ _, true; sdk_time := λ _, None |}.
Definition demo_client : Client := NewClient "https://127.0.0.1:8090" "".

