(* ===== verification/SdkHost.v ===== *)
(** * The client library against the host

    The operations of the library answered by the host, end to end: which of
    them can succeed. *)

From S2P Require Import Prelude GoStrings NetAddr Values Names LocalDb Settings Jobs Proxy Prog.
From S2P Require Import Mux Rbac DbManager DbHandlers Router RouterCluster RouterSafety K8s.
From S2P Require Import HostApp HostMount Secrets Sdk.

Local Open Scope Z_scope.

(** ** From responses to replies *)

(** The status of a response; [None]: the connection is closed by a panic. *)
Definition db_status (r : resp) : option Z :=
  match r with
  | RJson s _ | RStatus s | RError s _ _ => Some s
  | RCsv _ _ | RStream => Some 200
  | RPanic | RUnfinished => None
  end.

(** A forwarded request is answered by the upstream. *)
Definition proxy_status (upstream : Z) (o : Proxy.outcome) : option Z :=
  match o with Reject s _ => Some s | Forward _ _ _ _ => Some upstream end.

Definition router_status (upstream : Z) (r : rresp) : option Z :=
  match r with
  | RespJson s _ | RespStatus s | RespText s _ | RespError s _ _ => Some s
  | RespRaw _ _ | RespStream => Some 200
  | RespRedirect => Some 301
  | RespProxied o => proxy_status upstream o
  | RespDb r => db_status r
  | RespPanic => None
  end.

Definition host_status_code (upstream : Z) (x : hresp) : option Z :=
  match x with
  | HJson s _ | HJsonError s _ _ | HStatus s | HText s _ => Some s
  | HStream _ | HFile _ _ => Some 200
  | HNotFound => Some 404
  | HRedirect => Some 301
  | HRouter r => router_status upstream r
  | HProxy o => proxy_status upstream o
  | HPanic => None
  end.

Section composition.
Context `{UC : UnicodeCase} `{RE : RouterEnv} `{BD : Bodies} `{HE : HostEnv} `{SE : SdkEnv}.
Context {σ : Type} (services : server hcall σ).
Context (ui : option (string → bool)) (h : host) (d : Deps) (base : string).

(** How a request of the client reaches the host, which status an upstream
    has, and the JSON of the bodies that are not given below. *)
Context (deliver : sreq → rq) (upstream : Z) (other_json : hresp → option any).

(** A path that needs no escaping and has no query. *)
Definition url_plain (p : string) : Prop :=
  Forall (λ c, c ≠ "%"%char ∧ c ≠ "?"%char ∧ c ≠ "#"%char) (s2b p).

(** The method and a plain path arrive as they were sent. *)
Hypothesis deliver_plain : ∀ q p,
  sq_url q = base +:+ p → url_plain p →
  q_Path (deliver q) = p ∧ q_Method (deliver q) = sq_method q.

(** A list of records is an array (an empty one can also be null); the page of
    the user interface is not JSON. *)
Definition json_of (x : hresp) : option any :=
  match x with
  | HRouter (RespJson _ (VDocs ((_ :: _) as l))) => Some (AArr (obj_of <$> l))
  | HFile p _ => if String.eqb p index_path then None else other_json x
  | _ => other_json x
  end.

Definition reply_to (x : hresp) : sreply :=
  match host_status_code upstream x with
  | Some s => RAnswer s (json_of x)
  | None => RFailed false
  end.

(** The host answers; the context never ends. *)
Definition host_server : server scall σ := λ X s c,
  match c in scall X return σ * X with
  | SSend q => let '(s', x) := exec services (Host ui h d (deliver q)) s in (s', reply_to x)
  | SBackoff _ => (s, false)
  | STick => (s, false)
  end.

(** ** Lemmas *)

(** A reply that leaves the services alone. *)
Definition answers (q : sreq) (rep : sreply) : Prop :=
  ∀ s, host_server _ s (SSend q) = (s, rep).

Section one_request.
Context {A : Type} (c : Client) (method path : string) (body : option any)
        (dec : option (A → any → A * bool)) (zero : A) (rep : sreply).
Hypothesis Hbody : match body with Some v => is_ok (marshal v) = true | None => True end.
Hypothesis Hurl : sdk_url_ok (sc_baseURL c +:+ path) = true.
Hypothesis Hans : answers (the_request c method path body) rep.

Lemma once_exec cur s :
  exec host_server (doRequestOnce c method path body dec cur) s = (s, classify dec cur rep).
Proof. rewrite doRequestOnce_sends //. cbn [bind request exec]. by rewrite Hans. Qed.

(** A final error ends the operation after one request. *)
Lemma call_final {B} msg (f : A → B) a e s :
  0 ≤ sc_maxRetries c → classify dec zero rep = (a, Some e) → final e = true →
  exec host_server (call c method path body dec zero msg f) s = (s, inr (msg, e))
  ∧ length (omap sent (exec_trace host_server (call c method path body dec zero msg f) s)) = 1%nat.
Proof.
  intros Hm Hc Hf. unfold call, doRequest.
  destruct (Z.to_nat (sc_maxRetries c + 1)) as [|n] eqn:En; [lia|]. cbn [attempts Nat.eqb bind].
  rewrite doRequestOnce_sends //. cbn [bind request exec exec_trace]. rewrite Hans Hc Hf. done.
Qed.

(** A reply that can never be used makes the operation fail. *)
Lemma attempts_fail n k cur lastErr s :
  (∀ cur, ∃ a e, classify dec cur rep = (a, Some e)) → n ≠ O ∨ lastErr ≠ None →
  ∃ a e, exec host_server (attempts c method path body dec n k cur lastErr) s = (s, (a, Some e)).
Proof.
  intros Hc. revert k cur lastErr; induction n as [|n IH]; intros k cur lastErr Hn.
  { destruct lastErr as [e|]; [by exists cur, e|]. by destruct Hn. }
  cbn [attempts]. rewrite exec_bind.
  assert (exec host_server (if (k =? 0)%nat then Ret false else request (SBackoff k)) s
          = (s, false)) as -> by by destruct (k =? 0)%nat.
  rewrite exec_bind once_exec. destruct (Hc cur) as (a & e & ->).
  destruct (final e); [by exists a, e|]. apply IH. by right.
Qed.

Lemma call_fails {B} msg (f : A → B) s :
  0 ≤ sc_maxRetries c → (∀ cur, ∃ a e, classify dec cur rep = (a, Some e)) →
  ∃ e, exec host_server (call c method path body dec zero msg f) s = (s, inr (msg, e)).
Proof.
  intros Hm Hc. unfold call, doRequest. rewrite exec_bind.
  destruct (attempts_fail (Z.to_nat (sc_maxRetries c + 1)) 0 zero None s Hc) as (a & e & ->);
    [left; lia|]. by exists e.
Qed.

End one_request.

(** *** Paths *)

Lemma clean_join3 a b c id :
  clean_segment a = true → clean_segment b = true → clean_segment c = true →
  clean_segment id = true → Forall (λ x, "/"%char ∉ s2b x) [a; b; c; id] →
  clean_path ("/" +:+ a +:+ "/" +:+ b +:+ "/" +:+ c +:+ "/" +:+ id) = true.
Proof.
  intros Ha Hb Hc Hid Hs. rewrite !Forall_cons in Hs. destruct_and!.
  unfold clean_path.
  change ("/" +:+ a +:+ "/" +:+ b +:+ "/" +:+ c +:+ "/" +:+ id)
    with ("" +:+ String "/" (a +:+ String "/" (b +:+ String "/" (c +:+ String "/" id)))).
  rewrite !Split_app_sep; [|done..|by apply not_elem_of_nil].
  rewrite Split_single //. cbn. by rewrite Ha Hb Hc Hid.
Qed.

Lemma clean_join2 a b id :
  clean_segment a = true → clean_segment b = true → clean_segment id = true →
  Forall (λ x, "/"%char ∉ s2b x) [a; b; id] →
  clean_path ("/" +:+ a +:+ "/" +:+ b +:+ "/" +:+ id) = true.
Proof.
  intros Ha Hb Hid Hs. rewrite !Forall_cons in Hs. destruct_and!. unfold clean_path.
  change ("/" +:+ a +:+ "/" +:+ b +:+ "/" +:+ id)
    with ("" +:+ String "/" (a +:+ String "/" (b +:+ String "/" id))).
  rewrite !Split_app_sep; [|done..|by apply not_elem_of_nil].
  rewrite Split_single //. cbn. by rewrite Ha Hb Hid.
Qed.

(** A cluster id that is one clean segment. *)
Definition good_id (id : string) : Prop :=
  clean_segment id = true ∧ ("/"%char ∉ s2b id) ∧ url_plain id.

Ltac no_slash := apply (bool_decide_eq_true_1 _); vm_compute; reflexivity.

Lemma Host_settings r id :
  good_id id → q_Path r = "/api/settings/cluster/" +:+ id → q_Method r ≠ "OPTIONS" →
  Host ui h d r = Ret (HRouter (RespStatus 404)).
Proof.
  intros (Hc & Hs & _) Hp Hm.
  assert (clean_path ("/api/settings/cluster/" +:+ id) = true) as H1.
  { apply (clean_join3 "api" "settings" "cluster" id); [done..|].
    rewrite !Forall_cons. repeat split; [no_slash..|done|done]. }
  assert (clean_path ("/settings/cluster/" +:+ id) = true) as H2.
  { apply (clean_join2 "settings" "cluster" id); [done..|].
    rewrite !Forall_cons. repeat split; [no_slash..|done|done]. }
  rewrite Host_api //.
  - unfold route_stripped, route, Router. cbn [with_path q_Path].
    rewrite Hp. change (TrimPrefix ("/api/settings/cluster/" +:+ id) "/api")
      with ("/settings/cluster/" +:+ id).
    assert (mux_redirects router_patterns ("/settings/cluster/" +:+ id) = false) as ->
      by (unfold mux_redirects; rewrite H2; reflexivity).
    reflexivity.
  - rewrite Hp. unfold mux_redirects. rewrite H1. by destruct ui.
  - rewrite Hp. by destruct ui.
Qed.

(** A request whose pattern is known. *)
Lemma Host_at r pat f :
  q_Method r ≠ "OPTIONS" → mux_redirects (host_table ++ ui_table ui).*1 (q_Path r) = false →
  mux_match (host_table ++ ui_table ui).*1 (q_Path r) = Some pat →
  find_first (λ kv, String.eqb kv.1 pat) (host_table ++ ui_table ui) = Some (pat, f) →
  Host ui h d r = f h d r.
Proof.
  intros Hm Hr Hp Hf. unfold Host, serve_table.
  rewrite (proj2 (String.eqb_neq _ _) Hm) Hr Hp. cbn [mbind option_bind]. by rewrite Hf.
Qed.

(** The host has no route for /bootstrap itself. *)
Lemma Host_bootstrap r :
  q_Path r = "/bootstrap" → q_Method r ≠ "OPTIONS" →
  Host ui h d r = Ret (match ui with None => HNotFound | Some f => handleUI f "/bootstrap" end).
Proof.
  intros Hp Hm. destruct ui as [f|] eqn:Eu.
  - rewrite -Eu (Host_at r "/" (λ _ _ r, Ret (handleUI f (q_Path r)))); rewrite ?Hp ?Eu //.
  - unfold Host, serve_table. rewrite (proj2 (String.eqb_neq _ _) Hm) Hp. reflexivity.
Qed.

Lemma Host_clusters r :
  q_Path r = "/api/deploy/clusters" → q_Method r = "GET" → has_DB d = true →
  Host ui h d r = do l <- request (HRoute (DbList "clusters")) ;
                  Ret (HRouter (RespJson 200 (VDocs l))).
Proof.
  intros Hp Hm Hdb.
  rewrite (Host_at r "/api/deploy/" (λ _, route)); rewrite ?Hp ?Hm //; [|by destruct ui..].
  unfold route, Router. rewrite Hp.
  assert (mux_redirects router_patterns "/api/deploy/clusters" = false) as ->
    by (vm_compute; reflexivity).
  assert (mux_match router_patterns "/api/deploy/clusters" = Some "/api/deploy/clusters") as ->
    by (vm_compute; reflexivity).
  change (handler_of "/api/deploy/clusters") with (Some handleClusters).
  unfold handleClusters, handle_collection. by rewrite Hm Hdb.
Qed.

(** *** Replies *)

Section replies.
Context (c : Client).
Hypothesis Hbase : sc_baseURL c = base.

Lemma delivered method path body :
  url_plain path →
  q_Path (deliver (the_request c method path body)) = path
  ∧ q_Method (deliver (the_request c method path body)) = method.
Proof. intros Hp. apply deliver_plain; [|done]. cbn [the_request sq_url]. by rewrite Hbase. Qed.

Lemma answers_Ret method path body x :
  Host ui h d (deliver (the_request c method path body)) = Ret x →
  answers (the_request c method path body) (reply_to x).
Proof. intros Hh s. cbn [host_server]. by rewrite Hh. Qed.

Lemma settings_answer method id body :
  good_id id → method ≠ "OPTIONS" →
  answers (the_request c method (settings_path id) body)
    (RAnswer 404 (other_json (HRouter (RespStatus 404)))).
Proof.
  intros Hid Hm.
  assert (url_plain (settings_path id)) as Hp.
  { unfold settings_path, url_plain. rewrite s2b_app Forall_app. split; [|apply Hid].
    repeat constructor; done. }
  destruct (delivered method (settings_path id) body Hp) as [E1 E2].
  apply (answers_Ret _ _ _ (HRouter (RespStatus 404))). apply (Host_settings _ id); [done..|].
  by rewrite E2.
Qed.

Lemma bootstrap_answer body :
  (∀ f, ui = Some f → f (path_join dist "bootstrap") = false) →
  answers (the_request c "POST" "/bootstrap" body)
    (match ui with None => RAnswer 404 (other_json HNotFound) | Some _ => RAnswer 200 None end).
Proof.
  intros Hui.
  assert (url_plain "/bootstrap") as Hp by (repeat constructor; done).
  destruct (delivered "POST" "/bootstrap" body Hp) as [E1 E2].
  pose proof (answers_Ret _ _ _ _ (Host_bootstrap _ E1 ltac:(by rewrite E2))) as Ha.
  destruct ui as [f|] eqn:Eu; [|exact Ha].
  assert (handleUI f "/bootstrap" = HFile index_path no_cache) as Ef.
  { specialize (Hui f eq_refl). change (path_join dist "bootstrap") with "ui/dist/bootstrap" in Hui.
    unfold handleUI. change (Clean (TrimPrefix "/bootstrap" "/")) with "bootstrap".
    change (path_join dist "bootstrap") with "ui/dist/bootstrap". cbv zeta. by rewrite Hui. }
  by rewrite Ef in Ha.
Qed.

Lemma clusters_answer l :
  has_DB d = true → l ≠ [] → (∀ s, services _ s (HRoute (DbList "clusters")) = (s, l)) →
  answers (the_request c "GET" "/api/deploy/clusters" None) (RAnswer 200 (Some (AArr (obj_of <$> l)))).
Proof.
  intros Hdb Hne Hl s.
  assert (url_plain "/api/deploy/clusters") as Hp by (repeat constructor; done).
  destruct (delivered "GET" "/api/deploy/clusters" None Hp) as [E1 E2].
  cbn [host_server]. rewrite (Host_clusters _ E1 E2 Hdb). cbn [exec bind request]. rewrite Hl.
  by destruct l.
Qed.

End replies.

(** The library cannot decode the list of clusters. *)
Lemma list_clusters_fails (c : Client) {K : Type} (dec_list : list K → any → list K * bool) l s :
  sc_baseURL c = base → 0 ≤ sc_maxRetries c →
  (∀ p, url_plain p → sdk_url_ok (base +:+ p) = true) →
  (∀ cur x, (dec_list cur (AArr x)).2 = false) →
  has_DB d = true → l ≠ [] → (∀ s, services _ s (HRoute (DbList "clusters")) = (s, l)) →
  ∃ e, exec host_server (clusters_List dec_list c) s = (s, inr ("failed to list clusters", e)).
Proof.
  intros Hb Hm Hu Hdec Hdb Hne Hl. unfold clusters_List, get.
  eapply call_fails; [done|rewrite Hb; apply Hu; repeat constructor; done
                     |by apply (clusters_answer _ Hb l)|done|].
  intros cur. cbn [classify decode_reply andb Z.leb Z.ltb Z.compare Pos.compare Pos.compare_cont].
  specialize (Hdec cur (obj_of <$> l)). destruct (dec_list cur _) as [a ok]. simpl in Hdec.
  subst ok. by exists a, ErrDecode.
Qed.

(** C35: operations of the client library that cannot succeed against the host.
    Whatever the state of the host's services, and leaving them as they are: reading or
    writing the settings of a cluster ends after one request with the error for
    a missing resource; registering a cluster fails, because the host serves
    /bootstrap only below /api/ and answers the library's path with 404 or with
    the page of the user interface; and listing the clusters fails as soon as
    there is one, because the router sends an array where the library decodes
    an object. *)
Theorem sdk_against_host (c : Client) (s : σ) :
  sc_baseURL c = base → 0 ≤ sc_maxRetries c →
  (∀ p, url_plain p → sdk_url_ok (base +:+ p) = true) →
  (∀ id v, good_id id → is_ok (marshal v) = true →
     let op := clusters_UpdateSettings c id v in
     exec host_server op s = (s, inr ("failed to update cluster settings", ErrNotFound))
     ∧ length (omap sent (exec_trace host_server op s)) = 1%nat)
  ∧ (∀ (K : Type) (zero : K) dec id, good_id id →
       exec host_server (clusters_GetSettings zero dec c id) s
       = (s, inr ("failed to get cluster settings", ErrNotFound)))
  ∧ (∀ kubeconfig dec_id, (∀ f, ui = Some f → f (path_join dist "bootstrap") = false) →
       ∃ e, exec host_server (clusters_Bootstrap c kubeconfig dec_id) s
            = (s, inr ("failed to bootstrap cluster", e)))
  ∧ (∀ (K : Type) (dec_list : list K → any → list K * bool) l,
       (∀ cur x, (dec_list cur (AArr x)).2 = false) →
       has_DB d = true → l ≠ [] → (∀ s, services _ s (HRoute (DbList "clusters")) = (s, l)) →
       ∃ e, exec host_server (clusters_List dec_list c) s
            = (s, inr ("failed to list clusters", e))).
Proof.
  intros Hb Hm Hu.
  assert (∀ id, good_id id → sdk_url_ok (sc_baseURL c +:+ settings_path id) = true) as Hset.
  { intros id Hid. rewrite Hb. apply Hu. unfold settings_path, url_plain.
    rewrite s2b_app Forall_app. split; [repeat constructor; done|apply Hid]. }
  split; [|split; [|split]].
  - intros id v Hid Hv op. unfold op, clusters_UpdateSettings, put_.
    eapply call_final; [exact Hv|by apply Hset|by apply settings_answer|done..].
  - intros K zero dec id Hid. unfold clusters_GetSettings, get.
    eapply call_final; [done|by apply Hset|by apply settings_answer|done..].
  - intros kubeconfig dec_id Hui. unfold clusters_Bootstrap, post.
    eapply call_fails; [reflexivity|rewrite Hb; apply Hu; repeat constructor; done
                       |by apply bootstrap_answer|done|].
    intros cur. destruct ui; by eexists _, _.
  - intros K dec_list l Hdec Hdb Hne Hl. by apply (list_clusters_fails c dec_list l).
Qed.

End composition.

(** ** Log lines *)

(** A line of the router: a time and a message, under the keys t and msg. *)
Definition router_log (x : string * string) : any := AObj [("msg", AStr x.2); ("t", AStr x.1)].

Section logs.
Context `{UC : UnicodeCase} `{SE : SdkEnv}.

Lemma dec_router_log x : dec_log (router_log x) = (zero_log, true).
Proof.
  assert (∀ v, dec_log_field zero_log ("msg", v) = (zero_log, true)) as H1
    by (intros v; vm_compute; reflexivity).
  assert (∀ v, dec_log_field zero_log ("t", v) = (zero_log, true)) as H2
    by (intros v; vm_compute; reflexivity).
  unfold dec_log, router_log. cbn [foldl fst snd]. by rewrite H1 H2.
Qed.

Lemma dec_router_logs cur l :
  dec_logs cur (AArr (router_log <$> l)) = (replicate (length l) zero_log, true).
Proof.
  assert (dec_log <$> (router_log <$> l) = replicate (length l) (zero_log, true)) as E.
  { induction l as [|x l IH]; [done|]. rewrite !fmap_cons dec_router_log IH. done. }
  cbn [dec_logs]. rewrite E fmap_replicate. f_equal. clear E. by induction (length l).
Qed.

Lemma newer_old t l : Forall (λ x, lo_Time x ≤ t) l → newer t l = ([], t).
Proof.
  induction 1 as [|x l Hx _ IH]; [done|]. simpl. by rewrite (proj2 (Z.ltb_ge _ _)).
Qed.

(** Logs of the client library are empty.  The router sends its log lines
    under keys the library does not know, so every line it decodes is empty and
    has the zero time, and the stream of new lines, which starts at the zero
    time, never delivers one. *)
Theorem sdk_logs_empty (l : list (string * string)) cur :
  sdk_time "" = None →
  let '(lines, ok) := dec_logs cur (AArr (router_log <$> l)) in
  ok = true
  ∧ log_out <$> lines
    = replicate (length l) {| lo_Time := time_zero; lo_Line := ""; lo_Source := "" |}
  ∧ newer time_zero (log_out <$> lines) = ([], time_zero).
Proof.
  intros Ht. rewrite dec_router_logs.
  assert (log_out zero_log = {| lo_Time := time_zero; lo_Line := ""; lo_Source := "" |}) as Hz
    by (unfold log_out; cbn [li_Timestamp zero_log]; by rewrite Ht).
  split; [done|]. rewrite fmap_replicate Hz. split; [done|].
  apply newer_old, Forall_replicate. simpl. lia.
Qed.

End logs.

(** ** Running the client against a host *)

Definition demo_deliver (q : sreq) : rq :=
  token_rq "" (sq_method q) (TrimPrefix (sq_url q) "https://127.0.0.1:8090").

Lemma sdk_against_host_witness :
  let srv := @host_server ascii_case demo_env no_bodies demo_host_env (list string) mem_host None
               demo_host (host_deps true) demo_deliver 200 (λ _, None) in
  exec srv (@clusters_UpdateSettings demo_sdk demo_client "c1" (AObj [])) []
  = ([], inr ("failed to update cluster settings", ErrNotFound)).
Proof.
  apply (@sdk_against_host ascii_case demo_env no_bodies demo_host_env demo_sdk (list string)
           mem_host None demo_host (host_deps true) "https://127.0.0.1:8090" demo_deliver 200
           (λ _, None)); [|reflexivity|discriminate|reflexivity| |reflexivity].
  - intros q p Hq _. unfold demo_deliver, token_rq. cbn [q_Path q_Method].
    by rewrite Hq TrimPrefix_app.
  - split; [reflexivity|]. split; [apply (bool_decide_eq_true_1 _); vm_compute; reflexivity|].
    repeat constructor; done.
Defined.

Lemma sdk_logs_empty_witness :
  let '(lines, ok) := @dec_logs ascii_case [] (AArr (router_log <$> [("2025-01-01T00:00:00Z", "[p] up")])) in
  @newer time_zero (@log_out demo_sdk <$> lines) = ([], time_zero).
Proof.
  exact (proj2 (proj2 (@sdk_logs_empty ascii_case demo_sdk
                         [("2025-01-01T00:00:00Z", "[p] up")] [] eq_refl))).
Defined.
