(* ===== verification/SdkRows.v ===== *)
(** * Rows of the database API through the client library

    The operations of metaguildnet/sdk/go/client/database.go on rows, on their
    way through the host's mux, the router's cluster routes and the handlers of
    the database API. *)

From S2P Require Import Prelude GoStrings NetAddr Values Names LocalDb Settings Jobs Proxy Prog.
From S2P Require Import Mux Rbac DbManager DbHandlers Router RouterCluster RouterSafety K8s.
From S2P Require Import HostApp HostMount Secrets Sdk SdkHost.

Local Open Scope Z_scope.

(** ** Paths as segments *)

Definition no_slash (x : string) : Prop := x ≠ "" ∧ "/"%char ∉ s2b x.

Lemma Join_head x l c t :
  x = String c t → ∃ t', Join "/" (x :: l) = String c t'.
Proof. intros ->. destruct l; by eexists. Qed.

Lemma Join_last l y :
  y ≠ "" → ∃ c t, s2b (Join "/" (l ++ [y])) = t ++ [c] ∧ c ∈ s2b y.
Proof.
  intros Hy. induction l as [|x l (c & t & IH & Hc)]; cbn [app].
  - destruct (s2b y) as [|c t _] eqn:E using rev_ind; [by destruct y|].
    exists c, t. cbn [Join]. split; [done|]. rewrite elem_of_app. right. by left.
  - exists c, (s2b x ++ s2b "/" ++ t). split; [|done].
    rewrite Join_cons; [|by destruct l]. by rewrite !s2b_app IH -!app_assoc.
Qed.

Lemma TrimByte_Join x l y :
  no_slash x → no_slash y → TrimByte "/" (Join "/" (x :: l ++ [y])) = Join "/" (x :: l ++ [y]).
Proof.
  intros [Hx Hx'] [Hy Hy']. unfold TrimByte, trim_by.
  destruct x as [|c x]; [done|]. destruct (Join_head (String c x) (l ++ [y]) c x eq_refl) as [t Ht].
  destruct (Join_last (String c x :: l) y Hy) as (e & u & Hu & He). cbn [app] in Hu.
  rewrite (drop_while_id _ (s2b _)).
  - rewrite Hu reverse_app reverse_singleton. cbn [app drop_while].
    assert (Ascii.eqb "/" e = false) as ->.
    { apply Ascii.eqb_neq. intros <-. done. }
    by rewrite reverse_cons reverse_involutive -Hu b2s_s2b.
  - rewrite Ht. cbn [s2b list_ascii_of_string]. apply Ascii.eqb_neq. intros <-. apply Hx'. by left.
Qed.

(** ** Dispatch *)

Section rows.
Context `{UC : UnicodeCase} `{RE : RouterEnv} `{BD : Bodies} `{HE : HostEnv} `{SE : SdkEnv}.
Context {σ : Type} (services : server hcall σ).
Context (ui : option (string → bool)) (h : host) (d : Deps) (base : string).
Context (deliver : sreq → rq) (upstream : Z) (other_json : hresp → option any).

Definition below_cluster (r : rq) (segs : list string) : Prop :=
  q_Path r = "/api/cluster/" +:+ Join "/" segs.

Lemma Host_cluster r segs :
  below_cluster r segs → q_Method r ≠ "OPTIONS" →
  Host ui h d r = Ret HRedirect ∨ Host ui h d r = route d r.
Proof.
  intros Hp Hm. destruct (mux_redirects (host_table ++ ui_table ui).*1 (q_Path r)) eqn:Er.
  - left. unfold Host, serve_table. by rewrite (proj2 (String.eqb_neq _ _) Hm) Er.
  - right. rewrite (Host_at ui h d r "/api/cluster/" (λ _, route)) //; rewrite ?Hp; by destruct ui.
Qed.

Lemma Router_cluster r segs :
  below_cluster r segs →
  Router d r = Ret RespRedirect ∨ Router d r = handleCluster d r.
Proof.
  intros Hp. unfold Router. destruct (mux_redirects _ _); [by left|right].
  assert (mux_match router_patterns (q_Path r) = Some "/api/cluster/") as -> by (rewrite Hp; done).
  done.
Qed.

Lemma cluster_segments r id mid last_ :
  below_cluster r (id :: mid ++ [last_]) → Forall no_slash (id :: mid ++ [last_]) →
  Split "/" (TrimByte "/" (TrimPrefix (q_Path r) "/api/cluster/")) = id :: mid ++ [last_].
Proof.
  intros Hp Hs. rewrite Hp TrimPrefix_app. apply Forall_cons in Hs as [Hid Hs].
  apply Forall_app in Hs as [Hmid Hl]. apply Forall_cons in Hl as [Hl _].
  rewrite TrimByte_Join //. apply (Split_Join "/"); [done|].
  apply Forall_cons. split; [apply Hid|]. apply Forall_app. split.
  - eapply Forall_impl; [exact Hmid|]. by intros ? [].
  - repeat constructor. apply Hl.
Qed.

(** A path of the database API with two segments or more. *)
Lemma serve_db_sub now flush a r db sub more :
  hr_Path r = "/api/db/" +:+ Join "/" (db :: sub :: more) → Forall no_slash (db :: sub :: more) →
  serve_db now flush a r = Ret (a, RStatus 301)
  ∨ serve_db now flush a r = do b <- ensureManager a ; route_database now b r db (sub :: more).
Proof.
  intros Hp Hs.
  assert (Split "/" (Join "/" (db :: sub :: more)) = db :: sub :: more) as Esp.
  { apply (Split_Join "/"); [done|]. eapply Forall_impl; [exact Hs|]. by intros ? []. }
  assert (hr_Path r ≠ "/api/db/health") as Hh.
  { rewrite Hp. intros E. apply (f_equal (λ p, Split "/" (TrimPrefix p "/api/db/"))) in E.
    rewrite TrimPrefix_app Esp in E. by injection E. }
  unfold serve_db. destruct (mux_redirects _ _); [by left|right].
  assert (mux_match db_patterns (hr_Path r) = Some "/api/db/") as ->.
  { unfold mux_match, db_patterns. cbn [List.filter].
    assert (pattern_matches "/api/db/health" (hr_Path r) = false) as ->
      by (apply String.eqb_neq; congruence).
    rewrite Hp. done. }
  cbn [String.eqb Ascii.eqb Bool.eqb]. unfold handleDatabaseSubroutes. f_equal.
  unfold route_path. rewrite Hp TrimPrefix_app.
  destruct (String.eqb_spec (Join "/" (db :: sub :: more)) "") as [E|_]; [by rewrite E in Esp|].
  rewrite Esp. apply Forall_cons in Hs as [[Hdb _] _]. by rewrite (proj2 (String.eqb_neq _ _) Hdb).
Qed.

(** ** Refused requests *)

Definition bad_status (o : option Z) : Prop :=
  match o with Some s => ¬ (200 ≤ s < 300) | None => True end.

(** The answer is an error, or the list that stands for missing clients. *)
Definition refused (m : string) (x : rresp) : Prop :=
  bad_status (router_status upstream x) ∨ (m = "GET" ∧ x = RespJson 200 VEmpty).

Lemma bad_code (s : Z) : (s <? 200) || (300 <=? s) = true → bad_status (Some s).
Proof. unfold bad_status. intros H. lia. Qed.

Ltac refuse := first [exact I | apply bad_code; reflexivity].

Lemma resolve_stops id :
  ends_in (λ x, match x with Stopped r => bad_status (router_status upstream r) | _ => True end)
    (resolve_clients d id).
Proof.
  unfold resolve_clients, registry_clients, fallback_clients.
  prog_walk ltac:(idtac; lazymatch goal with
    | |- bad_status _ => refuse
    | |- match (if ?b then _ else _) with _ => _ end => destruct b; exact I
    end).
Qed.

(** A row by its key, with a method other than PATCH and DELETE. *)
Lemma serve_row now flush a r db table row :
  hr_Path r = "/api/db/" +:+ Join "/" [db; "tables"; table; "rows"; row] →
  Forall no_slash [db; "tables"; table; "rows"; row] →
  hr_Method r ≠ "PATCH" → hr_Method r ≠ "DELETE" →
  ends_in (λ x, bad_status (db_status x.2)) (serve_db now flush a r).
Proof.
  intros Hp Hs H1%String.eqb_neq H2%String.eqb_neq.
  destruct (serve_db_sub now flush a r _ _ _ Hp Hs) as [->| ->]; [refuse|].
  apply ends_in_bind. intros b. cbn [route_database String.eqb Ascii.eqb Bool.eqb]. unfold handleTables.
  destruct (negb _); [refuse|]. cbn [String.eqb Ascii.eqb Bool.eqb]. unfold handleRows.
  rewrite H1 H2. destruct (String.eqb row ""); refuse.
Qed.

Lemma client_routes_db r cid db sub more c :
  client_routes d r cid (cid :: "db" :: db :: sub :: more) c
  = do cs <- request (SGetCluster (c_store c) cid) ;
    cluster_db d r cid ("/api/db/" +:+ Join "/" (db :: sub :: more)).
Proof. reflexivity. Qed.

Lemma cluster_row r cid db table row :
  let segs := [cid; "db"; db; "tables"; table; "rows"; row] in
  below_cluster r segs → Forall no_slash segs →
  q_Method r ≠ "PATCH" → q_Method r ≠ "DELETE" →
  ends_in (refused (q_Method r)) (handleCluster d r).
Proof.
  intros segs Hp Hs H1 H2. unfold handleCluster.
  rewrite (cluster_segments r cid ["db"; db; "tables"; table; "rows"] row Hp Hs).
  apply Forall_cons in Hs as [[Hid _] Hs]. apply Forall_cons in Hs as [_ Hs].
  rewrite (proj2 (String.eqb_neq _ _) Hid).
  cbn [app head default from_option String.eqb Ascii.eqb Bool.eqb andb].
  eapply ends_in_bind_strong; [apply resolve_stops|]. intros [c| |resp] Hr.
  - rewrite client_routes_db. apply ends_in_bind. intros cs. unfold cluster_db.
    apply ends_in_bind. intros mgr. apply ends_in_bind. intros now.
    eapply ends_in_bind_strong; [apply ends_in_translate, (serve_row now true _ _ db table row); done|].
    intros x Hx. left. exact Hx.
  - cbn [ends_in]. destruct (String.eqb_spec (q_Method r) "GET"); [right; done|left; refuse].
  - left. exact Hr.
Qed.

Lemma Host_row r cid db table row :
  let segs := [cid; "db"; db; "tables"; table; "rows"; row] in
  below_cluster r segs → Forall no_slash segs →
  q_Method r ≠ "PATCH" → q_Method r ≠ "DELETE" → q_Method r ≠ "OPTIONS" →
  ends_in (λ x, bad_status (host_status_code upstream x)
                ∨ q_Method r = "GET" ∧ x = HRouter (RespJson 200 VEmpty)) (Host ui h d r).
Proof.
  intros segs Hp Hs H1 H2 H3. destruct (Host_cluster r segs Hp H3) as [->| ->]; [left; refuse|].
  unfold route. eapply (ends_in_bind_strong (refused (q_Method r))).
  - apply ends_in_translate. destruct (Router_cluster r segs Hp) as [->| ->]; [left; refuse|].
    by apply (cluster_row r cid db table row).
  - intros x [Hx|[Hm ->]]; [by left|by right].
Qed.

(** *** What the library makes of it *)

Lemma classify_bad {A} (dec : option (A → any → A * bool)) cur s body :
  ¬ (200 ≤ s < 300) → ∃ e, classify dec cur (RAnswer s body) = (cur, Some e).
Proof.
  intros Hs. unfold classify. assert ((200 <=? s) && (s <? 300) = false) as -> by lia.
  repeat case_match; eauto.
Qed.

(** A server that never gives a usable reply to a request. *)
Definition never_usable {τ A} (srv : server scall τ) (dec : option (A → any → A * bool)) (q : sreq) : Prop :=
  ∀ s cur, ∃ a e, classify dec cur (srv _ s (SSend q)).2 = (a, Some e).

Lemma attempts_never {τ A} (srv : server scall τ) (dec : option (A → any → A * bool)) c method path body
    n k cur lastErr s :
  never_usable srv dec (the_request c method path body) → n ≠ O ∨ lastErr ≠ None →
  ∃ s' a e, exec srv (attempts c method path body dec n k cur lastErr) s = (s', (a, Some e)).
Proof.
  intros Hu. revert k cur lastErr s; induction n as [|n IH]; intros k cur lastErr s Hn.
  { destruct lastErr as [e|]; [by exists s, cur, e|]. by destruct Hn. }
  cbn [attempts]. rewrite exec_bind. destruct (exec srv _ s) as [s1 stop].
  destruct stop; [by exists s1, cur, ErrContext|]. rewrite exec_bind. unfold doRequestOnce.
  assert (∀ a e, ∃ s' a' e', exec srv (if final e then Ret (a, Some e)
    else attempts c method path body dec n (S k) a (Some e)) s1 = (s', (a', Some e'))) as Hgo.
  { intros a e. destruct (final e); [by exists s1, a, e|]. apply IH. by right. }
  destruct (match body with Some v => negb (is_ok (marshal v)) | None => false end); [apply Hgo|].
  destruct (negb _); [apply Hgo|]. rewrite exec_bind. cbn [exec request].
  destruct (Hu s1 cur) as (a & e & E).
  destruct (srv _ s1 (SSend (the_request c method path body))) as [s2 rep]. cbn [snd] in E. rewrite E.
  destruct (final e); [by exists s2, a, e|]. apply IH. by right.
Qed.

Lemma call_never {τ A B} (srv : server scall τ) (dec : option (A → any → A * bool)) c method path body
    zero msg (f : A → B) s :
  never_usable srv dec (the_request c method path body) → 0 ≤ sc_maxRetries c →
  ∃ s' e, exec srv (call c method path body dec zero msg f) s = (s', inr (msg, e)).
Proof.
  intros Hu Hm. unfold call, doRequest. rewrite exec_bind.
  destruct (attempts_never srv dec c method path body (Z.to_nat (sc_maxRetries c + 1)) 0 zero None s Hu)
    as (s' & a & e & ->); [left; lia|]. by exists s', e.
Qed.

(** ** One document instead of many rows *)

(** Every insertion the host asks a database for is of the documents [ds]. *)
Definition only_inserts (ds : list doc) (e : gevent hcall) : Prop :=
  match e with
  | Ev c _ =>
      match c with
      | HRoute rc => match rc with
                     | Mgr m => match m with MInsertRows _ _ _ l => l = ds | _ => True end
                     | _ => True
                     end
      | _ => True
      end
  end.

Lemma resolve_inserts ds id :
  issues_only (λ e, only_inserts ds (translate_event host_call e)) (resolve_clients d id).
Proof.
  unfold resolve_clients, registry_clients, fallback_clients, client_or_new, readClusterKubeconfig,
    applyClusterAPIProxy, build_clients, isLocalKubeProxyAvailable, ensureProxyFallbackOnTimeout.
  prog_walk ltac:(idtac; lazymatch goal with |- only_inserts _ _ => exact I end).
Qed.

Lemma serve_insert now flush a r db table v kvs :
  hr_Path r = "/api/db/" +:+ Join "/" [db; "tables"; table; "rows"] →
  Forall no_slash [db; "tables"; table; "rows"] → hr_Method r = "POST" →
  body_any (hr_Body r) = Ok v → v = AObj kvs →
  issues_only (λ e, only_inserts [list_to_map kvs] (translate_event host_call (translate_event (@Mgr) e)))
    (serve_db now flush a r).
Proof.
  intros Hp Hs Hm Hb ->. destruct (serve_db_sub now flush a r _ _ _ Hp Hs) as [->| ->]; [done|].
  apply issues_only_bind.
  { unfold ensureManager. destruct (api_Manager a); [done|]. intros ok. by split. }
  intros b. cbn [route_database String.eqb Ascii.eqb Bool.eqb]. unfold handleTables.
  destruct (negb _); [done|]. cbn [String.eqb Ascii.eqb Bool.eqb]. unfold handleRows. rewrite Hm Hb.
  cbn [String.eqb Ascii.eqb Bool.eqb]. destruct (negb _); [done|]. intros ids. by split.
Qed.

Lemma Host_insert r cid db table kvs :
  let segs := [cid; "db"; db; "tables"; table; "rows"] in
  below_cluster r segs → Forall no_slash segs → q_Method r = "POST" →
  body_any (q_Body r) = Ok (AObj kvs) →
  issues_only (only_inserts [list_to_map kvs]) (Host ui h d r).
Proof.
  intros segs Hp Hs Hm Hb.
  destruct (Host_cluster r segs Hp) as [->| ->]; [by rewrite Hm|done|].
  apply issues_only_bind; [|done]. apply issues_only_translate.
  destruct (Router_cluster r segs Hp) as [->| ->]; [done|]. unfold handleCluster.
  rewrite (cluster_segments r cid ["db"; db; "tables"; table] "rows" Hp Hs).
  apply Forall_cons in Hs as [[Hid _] Hs]. apply Forall_cons in Hs as [_ Hs].
  rewrite (proj2 (String.eqb_neq _ _) Hid).
  cbn [app head default from_option String.eqb Ascii.eqb Bool.eqb andb].
  apply issues_only_bind; [apply resolve_inserts|]. intros [c| |resp]; [|done..].
  rewrite client_routes_db. apply issues_only_bind; [done|]. intros cs. unfold cluster_db.
  apply issues_only_bind.
  { unfold cluster_manager. prog_walk ltac:(idtac; lazymatch goal with |- only_inserts _ _ => exact I end). }
  intros mgr. apply issues_only_bind; [done|]. intros now.
  apply issues_only_bind; [|done]. apply issues_only_translate.
  by apply (serve_insert now true _ _ db table (AObj kvs)).
Qed.

(** ** The operations of the library *)

Hypothesis deliver_plain : ∀ q p,
  sq_url q = base +:+ p → url_plain p →
  q_Path (deliver q) = p ∧ q_Method (deliver q) = sq_method q.
(** The list that stands for missing clients is an array. *)
Hypothesis empty_list : other_json (HRouter (RespJson 200 VEmpty)) = Some (AArr []).

Abbreviation the_host := (host_server services ui h d deliver upstream other_json).

Definition good_seg (x : string) : Prop := no_slash x ∧ url_plain x.

Lemma url_plain_app p q : url_plain p → url_plain q → url_plain (p +:+ q).
Proof. unfold url_plain. rewrite s2b_app Forall_app. done. Qed.

Lemma url_plain_Join l : Forall url_plain l → url_plain (Join "/" l).
Proof.
  induction 1 as [|x l Hx Hl IH]; [constructor|]. destruct l as [|y l]; [done|].
  rewrite Join_cons //. apply url_plain_app; [done|]. apply url_plain_app; [|done].
  repeat constructor; done.
Qed.

Lemma row_path_join cid db table row :
  row_path cid db table row = "/api/cluster/" +:+ Join "/" [cid; "db"; db; "tables"; table; "rows"; row].
Proof. unfold row_path, table_path, db_path, cluster_path. cbn [Join]. by rewrite !str_app_assoc. Qed.

Lemma rows_path_join cid db table :
  table_path cid db table +:+ "/rows" = "/api/cluster/" +:+ Join "/" [cid; "db"; db; "tables"; table; "rows"].
Proof. unfold table_path, db_path, cluster_path. cbn [Join]. by rewrite !str_app_assoc. Qed.

Ltac literal := split; [split; [done|apply (bool_decide_eq_true_1 _); vm_compute; reflexivity]
                       |repeat constructor; done].
Ltac all_good := repeat (apply Forall_cons_2; [assumption || literal|]); apply Forall_nil_2.

Lemma delivered_below c method segs body :
  sc_baseURL c = base → Forall good_seg segs →
  let r := deliver (the_request c method ("/api/cluster/" +:+ Join "/" segs) body) in
  below_cluster r segs ∧ q_Method r = method ∧ Forall no_slash segs.
Proof.
  intros Hb Hs r. assert (Forall no_slash segs) as Hn by (eapply Forall_impl; [exact Hs|]; by intros ? []).
  destruct (deliver_plain (the_request c method ("/api/cluster/" +:+ Join "/" segs) body)
              ("/api/cluster/" +:+ Join "/" segs)) as [E1 E2].
  - cbn [the_request sq_url]. by rewrite Hb.
  - apply url_plain_app; [repeat constructor; done|]. apply url_plain_Join.
    eapply Forall_impl; [exact Hs|]. by intros ? [].
  - by split.
Qed.

Lemma row_unusable {A} c method cid db table row body (dec : option (A → any → A * bool)) :
  sc_baseURL c = base → Forall good_seg [cid; db; table; row] →
  method = "PUT" ∨ method = "GET" →
  (method = "GET" → ∀ cur l, ∃ a, classify dec cur (RAnswer 200 (Some (AArr l))) = (a, Some ErrDecode)) →
  never_usable the_host dec (the_request c method (row_path cid db table row) body).
Proof.
  intros Hb Hs Hm Hdec s cur. rewrite row_path_join. rewrite !Forall_cons in Hs.
  destruct Hs as (G1 & G2 & G3 & G4 & _).
  destruct (delivered_below c method [cid; "db"; db; "tables"; table; "rows"; row] body Hb) as (Hp & Em & Hn).
  { all_good. }
  set (q := the_request _ _ _ _) in *.
  pose proof (exec_ends_in services _ _ s (Host_row (deliver q) cid db table row Hp Hn
    ltac:(rewrite Em; by destruct Hm as [-> | ->]) ltac:(rewrite Em; by destruct Hm as [-> | ->])
    ltac:(rewrite Em; by destruct Hm as [-> | ->]))) as Hr.
  cbn [host_server]. destruct (exec services (Host ui h d (deliver q)) s) as [s' x]. cbn [snd] in *.
  destruct Hr as [Hr|[Hg ->]].
  - unfold reply_to. destruct (host_status_code upstream x) as [code|]; [|by exists cur, ErrSend].
    destruct (classify_bad dec cur code (json_of other_json x) Hr) as [e E]. by exists cur, e.
  - rewrite Em in Hg. unfold reply_to. cbn [host_status_code router_status json_of]. rewrite empty_list.
    destruct (Hdec Hg cur []) as [a E]. by exists a, ErrDecode.
Qed.


End rows.

(** ** Running the operations *)

Definition empty_json (x : hresp) : option any :=
  match x with HRouter (RespJson _ VEmpty) => Some (AArr []) | _ => None end.

