(* ===== verification/Workflows.v ===== *)
(** * Programs written with the client library

    The example programs of metaguildnet (sdk/go/examples and
    orchestrator/examples/lifecycle) as programs over the operations of the
    library; an interpretation of these operations by the requests of [Sdk];
    the goroutines of the multi-cluster example as a pool that shares a
    channel.  What is printed is left out, and so are the pauses. *)

From S2P Require Import Prelude GoStrings NetAddr Values Names LocalDb Settings Jobs Proxy Prog.
From S2P Require Import Mux Rbac DbManager DbHandlers Router RouterCluster RouterSafety K8s.
From S2P Require Import HostApp HostMount Secrets Sdk SdkHost SdkRows.

Local Open Scope Z_scope.

(** ** Operations of the library *)

Abbreviation outcome A := (A + string * sdk_err)%type (only parsing).

Record sdk_cluster : Type := {
  cl_ID : string; cl_Name : string; cl_Namespace : string; cl_APIProxyURL : string;
  cl_APIProxyForceHTTP : bool; cl_DisableAPIProxy : bool; cl_PreferPodProxy : bool;
  cl_UsePortForward : bool; cl_IngressDomain : string; cl_IngressClassName : string;
  cl_WorkspaceTLSSecret : string; cl_CertManagerIssuer : string; cl_ImagePullSecret : string;
  cl_WorkspaceLBEnabled : bool; cl_OrgID : string; cl_Metadata : doc
}.

Record ClusterHealth : Type := {
  ch_ClusterID : string; ch_KubeconfigPresent : bool; ch_KubeconfigValid : bool;
  ch_K8sReachable : bool; ch_K8sError : string; ch_PFAvailable : bool; ch_TSAvailable : bool;
  ch_RecommendedAction : string
}.

(** The zero values of these types. *)
Definition zero_cluster : sdk_cluster :=
  {| cl_ID := ""; cl_Name := ""; cl_Namespace := ""; cl_APIProxyURL := "";
     cl_APIProxyForceHTTP := false; cl_DisableAPIProxy := false; cl_PreferPodProxy := false;
     cl_UsePortForward := false; cl_IngressDomain := ""; cl_IngressClassName := "";
     cl_WorkspaceTLSSecret := ""; cl_CertManagerIssuer := ""; cl_ImagePullSecret := "";
     cl_WorkspaceLBEnabled := false; cl_OrgID := ""; cl_Metadata := ∅ |}.
Definition zero_health : ClusterHealth :=
  {| ch_ClusterID := ""; ch_KubeconfigPresent := false; ch_KubeconfigValid := false;
     ch_K8sReachable := false; ch_K8sError := ""; ch_PFAvailable := false; ch_TSAvailable := false;
     ch_RecommendedAction := "" |}.
Definition zero_database : DatabaseInstance :=
  {| di_ID := ""; di_OrgID := ""; di_Name := ""; di_Description := ""; di_Replication := 0;
     di_Shards := 0; di_PrimaryRegion := ""; di_CreatedAt := "" |}.

Record sdk_envvar : Type := { ev_Name : string; ev_Value : string }.
Record sdk_port : Type := { wp_Name : string; wp_ContainerPort : Z; wp_Protocol : string }.
Record sdk_spec : Type := {
  sp_Name : string; sp_Image : string; sp_Env : list sdk_envvar; sp_Ports : list sdk_port;
  sp_Args : list string; sp_Labels : gmap string string; sp_Notes : string
}.

Inductive op : Set → Type :=
  | OClusters : op (outcome (list sdk_cluster))
  | OHealth (cid : string) : op (outcome ClusterHealth)
  | OCreate (cid : string) (spec : sdk_spec) : op (outcome sdk_workspace)
  | OWait (cid name : string) (seconds : Z) : op (result unit)
  | OGet (cid name : string) : op (outcome sdk_workspace)
  | OLogs (cid name : string) (tail : Z) : op (outcome (list log_line_out))
  | ODelete (cid name : string) : op (outcome unit)
  | ODbCreate (cid name description : string) : op (outcome DatabaseInstance)
  | ODbDelete (cid db : string) : op (outcome unit)
  | OCreateTable (cid db : string) (t : Table) : op (outcome unit)
  | OInsertRows (cid db table : string) (rows : list doc) : op (outcome (list string))
  | OQuery (cid db table orderBy : string) (limit : Z) (cursor : string) (forward : bool)
      : op (outcome (list doc * string))
  | OUpdateRow (cid db table id : string) (patch : doc) : op (outcome unit)
  | OGetRow (cid db table id : string) : op (outcome doc)
  | OListAudit (cid db : string) (limit : Z) : op (outcome (list AuditEvent)).

Abbreviation wprog := (gprog op).

(** How a program ends: [main] returns, or [log.Fatal] ends the process. *)
Inductive exit : Type :=
  | Finished
  | Fatal (msg : string).

(** A deferred call runs when the function returns, and not when [log.Fatal]
    ends the process. *)
Definition with_defer (cleanup : wprog unit) (body : wprog exit) : wprog exit :=
  do e <- body ;
  match e with
  | Finished => do _ <- cleanup ; Ret Finished
  | Fatal msg => Ret (Fatal msg)
  end.

(** ** basic-workflow *)

Definition labelled_spec (name image : string) (labels : gmap string string) : sdk_spec :=
  {| sp_Name := name; sp_Image := image; sp_Env := []; sp_Ports := []; sp_Args := [];
     sp_Labels := labels; sp_Notes := "" |}.

(** [now] is the time in seconds at which the workspace is named. *)
Definition basic_workflow (now : Z) : wprog exit :=
  do clusters <- request OClusters ;
  match clusters with
  | inr _ => Ret (Fatal "Failed to list clusters")
  | inl [] => Ret (Fatal "No clusters available")
  | inl (cl :: _) =>
      let clusterID := cl_ID cl in
      do health <- request (OHealth clusterID) ;
      match health with
      | inr _ => Ret (Fatal "Failed to get cluster health")
      | inl h =>
          if negb (ch_K8sReachable h) then Ret (Fatal "Cluster is not healthy")
          else
            let workspaceName := "example-" +:+ fmt_d now in
            let spec := labelled_spec workspaceName "nginx:alpine" {["example" := "basic-workflow"]} in
            do ws <- request (OCreate clusterID spec) ;
            match ws with
            | inr _ => Ret (Fatal "Failed to create workspace")
            | inl _ =>
                do ready <- request (OWait clusterID workspaceName 300) ;
                match ready with
                | Err _ => Ret (Fatal "Workspace failed to start")
                | Ok _ =>
                    do ws <- request (OGet clusterID workspaceName) ;
                    match ws with
                    | inr _ => Ret (Fatal "Failed to get workspace")
                    | inl _ =>
                        do _ <- request (OLogs clusterID workspaceName 20) ;
                        do gone <- request (ODelete clusterID workspaceName) ;
                        match gone with
                        | inr _ => Ret (Fatal "Failed to delete workspace")
                        | inl _ => Ret Finished
                        end
                    end
                end
            end
      end
  end.

(** ** blue-green *)

Definition green_of (workspaceName : string) : string := workspaceName +:+ "-green".

Definition blue_green (clusterID workspaceName newImage : string) : wprog exit :=
  if String.eqb clusterID "" || String.eqb workspaceName "" || String.eqb newImage ""
  then Ret (Fatal "Usage: blue-green --cluster <id> --workspace <name> --new-image <image>")
  else
    do blue <- request (OGet clusterID workspaceName) ;
    match blue with
    | inr _ => Ret (Fatal "Failed to get workspace")
    | inl _ =>
        let greenName := green_of workspaceName in
        let greenSpec := labelled_spec greenName newImage
          (<["deployment" := "green"]> {["parent" := workspaceName]}) in
        do made <- request (OCreate clusterID greenSpec) ;
        match made with
        | inr _ => Ret (Fatal "Failed to create green deployment")
        | inl _ =>
            do ready <- request (OWait clusterID greenName 300) ;
            match ready with
            | Err _ =>
                do _ <- request (ODelete clusterID greenName) ;
                Ret (Fatal "Deployment failed")
            | Ok _ =>
                do greenStatus <- request (OGet clusterID greenName) ;
                if match greenStatus with
                   | inl g => negb (String.eqb (sw_Status g) "Running")
                   | inr _ => true
                   end
                then do _ <- request (ODelete clusterID greenName) ;
                     Ret (Fatal "Health check failed")
                else Ret Finished
            end
        end
    end.

(** ** database-sync *)

Definition column (name : string) (ty : ColumnType) (required unique : bool) : ColumnDef :=
  {| col_Name := name; col_Type := ty; col_Required := required; col_Unique := unique;
     col_Indexed := false; col_Default := ANil; col_Enum := []; col_Regex := ""; col_Mask := false |}.

Definition users_table : Table :=
  {| tbl_ID := ""; tbl_DatabaseID := ""; tbl_Name := "users"; tbl_PrimaryKey := "id"; tbl_TTL := 0;
     tbl_Schema := [column "name" "string" true false; column "email" "string" true true;
                    column "age" "number" false false; column "created_at" "timestamp" true false];
     tbl_CreatedAt := "" |}.

Definition user_row (name email : string) (age : Z) (created_at : string) : doc :=
  list_to_map [("name", AStr name); ("email", AStr email); ("age", num age);
               ("created_at", AStr created_at)].

(** [stamp] gives the successive readings of the clock, formatted. *)
Definition user_rows (stamp : nat → string) : list doc :=
  [user_row "Alice Smith" "alice@example.com" 30 (stamp 0%nat);
   user_row "Bob Johnson" "bob@example.com" 25 (stamp 1%nat);
   user_row "Charlie Brown" "charlie@example.com" 35 (stamp 2%nat)].

(** The copy to a second cluster.  Its errors are only logged. *)
Definition sync_target (cid dbName : string) (rows : list doc) : wprog exit :=
  do target <- request (ODbCreate cid dbName "Synced database") ;
  match target with
  | inr _ => Ret Finished
  | inl targetDB =>
      with_defer (do _ <- request (ODbDelete cid (di_ID targetDB)) ; Ret tt)
        (do made <- request (OCreateTable cid (di_ID targetDB) users_table) ;
         match made with
         | inr _ => Ret Finished
         | inl _ =>
             do ids <- request (OInsertRows cid (di_ID targetDB) "users" rows) ;
             match ids with
             | inr _ => Ret Finished
             | inl _ => do _ <- request (OQuery cid (di_ID targetDB) "users" "" 10 "" true) ;
                        Ret Finished
             end
         end)
  end.

(** From the audit events to the end of [main]. *)
Definition sync_rest (cid db dbName : string) (rows : list doc) (others : list sdk_cluster) : wprog exit :=
  do _ <- request (OListAudit cid db 10) ;
  match others with
  | targetCluster :: _ => sync_target (cl_ID targetCluster) dbName rows
  | [] => Ret Finished
  end.

Definition database_sync (now : Z) (stamp : nat → string) : wprog exit :=
  do clusters <- request OClusters ;
  match clusters with
  | inr _ => Ret (Fatal "Failed to list clusters")
  | inl [] => Ret (Fatal "No clusters available")
  | inl (cl :: others) =>
      let clusterID := cl_ID cl in
      let dbName := "example_db_" +:+ fmt_d now in
      do made <- request (ODbCreate clusterID dbName "Example database for sync demo") ;
      match made with
      | inr _ => Ret (Fatal "Failed to create database")
      | inl inst =>
          let db := di_ID inst in
          with_defer (do _ <- request (ODbDelete clusterID db) ; Ret tt)
            (do tbl <- request (OCreateTable clusterID db users_table) ;
             match tbl with
             | inr _ => Ret (Fatal "Failed to create table")
             | inl _ =>
                 let rows := user_rows stamp in
                 do ins <- request (OInsertRows clusterID db "users" rows) ;
                 match ins with
                 | inr _ => Ret (Fatal "Failed to insert rows")
                 | inl ids =>
                     do res <- request (OQuery clusterID db "users" "name" 10 "" true) ;
                     match res with
                     | inr _ => Ret (Fatal "Failed to query rows")
                     | inl _ =>
                         match ids with
                         | [] => sync_rest clusterID db dbName rows others
                         | row :: _ =>
                             do upd <- request (OUpdateRow clusterID db "users" row {["age" := num 31]}) ;
                             match upd with
                             | inr _ => Ret (Fatal "Failed to update row")
                             | inl _ =>
                                 do got <- request (OGetRow clusterID db "users" row) ;
                                 match got with
                                 | inr _ => Ret (Fatal "Failed to get row")
                                 | inl _ => sync_rest clusterID db dbName rows others
                                 end
                             end
                         end
                     end
                 end
             end)
      end
  end.

(** ** multi-cluster *)

(** The clusters that are reachable, in order. *)
Fixpoint healthy_clusters (cls : list sdk_cluster) : wprog (list sdk_cluster) :=
  match cls with
  | [] => Ret []
  | cl :: rest =>
      do health <- request (OHealth (cl_ID cl)) ;
      do more <- healthy_clusters rest ;
      Ret (match health with
           | inl h => if ch_K8sReachable h then cl :: more else more
           | inr _ => more
           end)
  end.

(** The clusters to deploy to. *)
Definition discover : wprog (list sdk_cluster + exit) :=
  do clusters <- request OClusters ;
  match clusters with
  | inr _ => Ret (inr (Fatal "Failed to list clusters"))
  | inl [] => Ret (inr (Fatal "No clusters available"))
  | inl ((_ :: _) as cls) =>
      do healthy <- healthy_clusters cls ;
      Ret (match healthy with
           | [] => inr (Fatal "No healthy clusters available")
           | _ => inl healthy
           end)
  end.

Record deployResult : Type := {
  dr_clusterID : string; dr_clusterName : string; dr_status : string; dr_err : option string
}.

(** What a goroutine does up to its send on the channel of results. *)
Definition deployToCluster (spec : sdk_spec) (cl : sdk_cluster) : wprog deployResult :=
  let result status err :=
    {| dr_clusterID := cl_ID cl; dr_clusterName := cl_Name cl; dr_status := status; dr_err := err |} in
  do ws <- request (OCreate (cl_ID cl) spec) ;
  match ws with
  | inr _ => Ret (result "" (Some "create failed"))
  | inl w =>
      do ready <- request (OWait (cl_ID cl) (sp_Name spec) 180) ;
      Ret (match ready with
           | Err _ => result "" (Some "wait failed")
           | Ok _ => result (sw_Status w) None
           end)
  end.

Definition succeeded (r : deployResult) : bool := bool_decide (dr_err r = None).

Fixpoint each (f : deployResult → wprog unit) (l : list deployResult) : wprog unit :=
  match l with
  | [] => Ret tt
  | x :: rest => do _ <- f x ; each f rest
  end.

(** After the results have been collected: look, then clean up. *)
Definition finish (name : string) (results : list deployResult) : wprog exit :=
  let successful := List.filter succeeded results in
  do _ <- each (λ r, do _ <- request (OGet (dr_clusterID r) name) ; Ret tt) successful ;
  do _ <- each (λ r, do _ <- request (ODelete (dr_clusterID r) name) ; Ret tt) successful ;
  Ret Finished.

(** The goroutines and the channel of capacity [cap]; a goroutine that has sent
    its result is gone. *)
Record pool : Type := { po_running : list (option (wprog deployResult)); po_chan : list deployResult }.

Inductive pool_step (cap : nat) : pool → list (gevent op) → pool → Prop :=
  | pool_answer gs ch i {X : Set} (c : op X) k (x : X) :
      gs !! i = Some (Some (Vis c k)) →
      pool_step cap {| po_running := gs; po_chan := ch |} [Ev c x]
        {| po_running := <[i := Some (k x)]> gs; po_chan := ch |}
  | pool_send gs ch i r :
      gs !! i = Some (Some (Ret r)) → (length ch < cap)%nat →
      pool_step cap {| po_running := gs; po_chan := ch |} []
        {| po_running := <[i := None]> gs; po_chan := ch ++ [r] |}.

Inductive pool_steps (cap : nat) : pool → list (gevent op) → pool → Prop :=
  | pool_refl p : pool_steps cap p [] p
  | pool_next p t q t' u : pool_step cap p t q → pool_steps cap q t' u → pool_steps cap p (t ++ t') u.

(** [wg.Wait] returns. *)
Definition all_gone (p : pool) : Prop := Forall (λ g, g = None) (po_running p).

Definition start_pool (spec : sdk_spec) (cls : list sdk_cluster) : pool :=
  {| po_running := (λ cl, Some (deployToCluster spec cl)) <$> cls; po_chan := [] |}.

Definition multi_spec (now : Z) (stamp : string) : sdk_spec :=
  labelled_spec ("multi-cluster-" +:+ fmt_d now) "nginx:alpine"
    (<["example" := "multi-cluster"]> {["deployed-at" := stamp]}).

(** The runs of [main]: one before the goroutines, one of theirs, one after. *)
Definition multi_cluster_runs (now : Z) (stamp : string) (t : list (gevent op)) (e : exit) : Prop :=
  let spec := multi_spec now stamp in
  runs discover t (inr e)
  ∨ ∃ cls t1 t2 t3 p,
      t = t1 ++ t2 ++ t3 ∧ runs discover t1 (inl cls)
      ∧ pool_steps (length cls) (start_pool spec cls) t2 p ∧ all_gone p
      ∧ runs (finish (sp_Name spec) (po_chan p)) t3 e.

(** ** What a run did *)

(** A workspace that was created, whose deletion was asked for, or which was
    deleted; a workspace that did not become ready. *)
Definition created (e : gevent op) : option (string * string) :=
  match e with
  | Ev c x => match c in op X return X → _ with
              | OCreate cid spec => λ x, match x with inl _ => Some (cid, sp_Name spec) | inr _ => None end
              | _ => λ _, None
              end x
  end.
Definition asked (e : gevent op) : option (string * string) :=
  match e with Ev c _ => match c with ODelete cid name => Some (cid, name) | _ => None end end.
Definition deleted (e : gevent op) : option (string * string) :=
  match e with
  | Ev c x => match c in op X return X → _ with
              | ODelete cid name => λ x, match x with inl _ => Some (cid, name) | inr _ => None end
              | _ => λ _, None
              end x
  end.
Definition never_ready (e : gevent op) : option (string * string) :=
  match e with
  | Ev c x => match c in op X return X → _ with
              | OWait cid name _ => λ x, match x with Err _ => Some (cid, name) | Ok _ => None end
              | _ => λ _, None
              end x
  end.

(** The same for databases. *)
Definition db_created (e : gevent op) : option (string * string) :=
  match e with
  | Ev c x => match c in op X return X → _ with
              | ODbCreate cid _ _ => λ x, match x with inl i => Some (cid, di_ID i) | inr _ => None end
              | _ => λ _, None
              end x
  end.
Definition db_asked (e : gevent op) : option (string * string) :=
  match e with Ev c _ => match c with ODbDelete cid db => Some (cid, db) | _ => None end end.

(** The workspace an operation may change. *)
Definition changes_ws (e : gevent op) : option (string * string) :=
  match e with
  | Ev c _ => match c with
              | OCreate cid spec => Some (cid, sp_Name spec)
              | ODelete cid name => Some (cid, name)
              | _ => None
              end
  end.

(** Follow a run through a program: one answer after the other. *)
Ltac follow H :=
  repeat (cbn [runs bind request] in H;
    first
      [ let x := fresh "x" in let t := fresh "t" in destruct H as (x & t & -> & H)
      | destruct H as [-> ->]
      | destruct H as [-> _]
      | match type of H with
        | context [match ?x with _ => _ end] => is_var x; destruct x
        | context [if ?b then _ else _] => destruct b eqn:?
        | context [match ?x with _ => _ end] => destruct x eqn:?
        end ]).

Lemma basic_runs now t e :
  runs (basic_workflow now) t e →
  match e with
  | Finished => ∃ x, omap created t = [x] ∧ omap deleted t = [x]
  | Fatal _ => omap deleted t = []
  end.
Proof. unfold basic_workflow. intros H. follow H; try done. by eexists. Qed.

Lemma blue_green_runs cid name image t e :
  runs (blue_green cid name image) t e →
  Forall (λ ev, changes_ws ev = None ∨ changes_ws ev = Some (cid, green_of name)) t
  ∧ match e with
    | Finished => omap created t = [(cid, green_of name)] ∧ omap asked t = []
    | Fatal _ => omap asked t = omap created t
    end.
Proof.
  unfold blue_green. intros H.
  follow H; (split; [|first [reflexivity|split; reflexivity]]);
    repeat (apply Forall_cons; split; [first [left; reflexivity|right; reflexivity]|]); apply Forall_nil_2.
Qed.

Lemma green_is_new name : green_of name ≠ name.
Proof.
  intros E. apply (f_equal (length ∘ s2b)) in E. unfold green_of in E.
  rewrite /= s2b_app length_app /= in E. lia.
Qed.

(** A deferred call after a run of the body. *)
Lemma with_defer_runs cleanup body t e :
  runs (with_defer cleanup body) t e →
  ∃ t1 t2, t = t1 ++ t2 ∧ runs body t1 e
    ∧ match e with Finished => runs cleanup t2 tt | Fatal _ => t2 = [] end.
Proof.
  unfold with_defer. intros H. apply runs_bind in H as (t1 & t2 & [|msg] & -> & H1 & H2).
  - apply runs_bind in H2 as (t3 & t4 & [] & -> & H3 & [-> ->]).
    exists t1, t3. by rewrite app_nil_r.
  - destruct H2 as [-> ->]. by exists t1, [].
Qed.

Definition undone (t : list (gevent op)) (e : exit) : Prop :=
  match e with
  | Finished => omap db_asked t = reverse (omap db_created t)
  | Fatal _ => omap db_asked t = []
  end.

Lemma sync_target_undone cid name rows t e :
  runs (sync_target cid name rows) t e → e = Finished ∧ undone t e.
Proof.
  unfold sync_target. intros (x & t' & -> & H). destruct x as [inst|err]; [|by destruct H as [-> ->]].
  apply with_defer_runs in H as (t1 & t2 & -> & H1 & H2).
  follow H1; follow H2; split; reflexivity.
Qed.

Lemma sync_rest_undone cid db name rows others t e :
  runs (sync_rest cid db name rows others) t e → e = Finished ∧ undone t e.
Proof.
  unfold sync_rest. intros (x & t' & -> & H). destruct others as [|cl others].
  - by destruct H as [-> ->].
  - by apply sync_target_undone in H as [-> H].
Qed.

(** Around its body the program creates one database and deletes it. *)
Lemma database_sync_body now stamp t e :
  runs (database_sync now stamp) t e →
  (omap db_created t = [] ∧ omap db_asked t = [] ∧ e ≠ Finished)
  ∨ ∃ x body last, omap db_created t = x :: omap db_created body
      ∧ omap db_asked t = omap db_asked body ++ last ∧ undone body e
      ∧ last = match e with Finished => [x] | Fatal _ => [] end.
Proof.
  unfold database_sync. intros (x & t1 & -> & H).
  destruct x as [[|cl others]|err]; [by destruct H as [-> ->]; left..| |by destruct H as [-> ->]; left].
  destruct H as (x & t2 & -> & H). destruct x as [inst|err]; [|by destruct H as [-> ->]; left].
  apply with_defer_runs in H as (tb & tl & -> & H & Hl). right.
  assert (undone tb e) as Hb.
  { clear Hl. destruct H as (x & t & -> & H). destruct x; [|by destruct H as [-> ->]].
    destruct H as (x & t' & -> & H). destruct x as [ids|]; [|by destruct H as [-> ->]].
    destruct H as (x & t'' & -> & H). destruct x; [|by destruct H as [-> ->]].
    destruct ids as [|row ids]; [by apply sync_rest_undone in H as [-> H]|].
    destruct H as (x & t3 & -> & H). destruct x; [|by destruct H as [-> ->]].
    destruct H as (x & t4 & -> & H). destruct x; [|by destruct H as [-> ->]].
    by apply sync_rest_undone in H as [-> H]. }
  exists (cl_ID cl, di_ID inst), tb, (match e with Finished => [(cl_ID cl, di_ID inst)] | _ => [] end).
  cbn [omap list_omap]. rewrite !omap_app.
  destruct e; [follow Hl|subst tl]; by rewrite ?app_nil_r.
Qed.

Lemma database_sync_runs now stamp t e : runs (database_sync now stamp) t e → undone t e.
Proof.
  intros H. destruct (database_sync_body _ _ _ _ H)
    as [(E1 & E2 & Hne)|(x & body & last & E1 & E2 & Hb & ->)]; unfold undone in *.
  - destruct e; [done|]. by rewrite E2.
  - destruct e; rewrite E2 ?E1 Hb; [by rewrite reverse_cons|done].
Qed.

(** ** The pool of goroutines *)

Lemma concat_insert {A} (l : list (list A)) i a b :
  l !! i = Some a → concat (<[i := b ++ a]> l) ≡ₚ b ++ concat l.
Proof.
  revert i; induction l as [|x l IH]; intros [|i] H; simplify_eq/=; [by rewrite app_assoc|].
  rewrite IH //. rewrite !app_assoc. f_equiv. apply Permutation_app_comm.
Qed.

(** What one goroutine did, and its result. *)
Definition ran (g : option (wprog deployResult)) (x : list (gevent op) * list deployResult) : Prop :=
  match g with
  | Some p => ∃ r, x.2 = [r] ∧ runs p x.1 r
  | None => x = ([], [])
  end.

Lemma pool_split cap p t q :
  pool_steps cap p t q → all_gone q →
  ∃ xs, Forall2 ran (po_running p) xs ∧ t ≡ₚ concat xs.*1
    ∧ po_chan q ≡ₚ po_chan p ++ concat xs.*2.
Proof.
  intros H Hq. induction H as [p|p t q t' u Hs _ IH].
  - exists ((λ _, ([], [])) <$> po_running p). unfold all_gone in Hq. destruct p as [gs ch].
    cbn [po_running po_chan] in *. clear -Hq. induction Hq as [|g gs -> _ (H1 & H2 & H3)]; simpl.
    + split; [constructor|]. by rewrite app_nil_r.
    + split; [by constructor|]. by split.
  - destruct (IH Hq) as (xs & Hx & Ht & Hc). clear IH.
    destruct Hs as [gs ch i X c k x Hi|gs ch i r Hi Hlen]; cbn [po_running po_chan] in *.
    all: pose proof (lookup_lt_Some _ _ _ Hi) as Hlt.
    all: pose proof (Forall2_length _ _ _ Hx) as Hl; rewrite length_insert in Hl.
    all: destruct (lookup_lt_is_Some_2 xs i) as [[tr rs] Hxi]; [lia|].
    all: pose proof (Forall2_lookup_lr _ _ _ i _ _ Hx (list_lookup_insert_eq _ _ _ Hlt) Hxi) as Hr.
    + destruct Hr as (r & Hrs & Hr). cbn [fst snd] in *. subst rs.
      exists (<[i := (Ev c x :: tr, [r])]> xs). split; [|split].
      * rewrite -(list_insert_id gs i _ Hi) -(list_insert_insert_eq gs i _ (Some (k x))).
        apply Forall2_insert; [exact Hx|]. exists r. split; [done|]. by exists x, tr.
      * rewrite list_fmap_insert (concat_insert _ i tr [Ev c x]); [by rewrite Ht|].
        by rewrite list_lookup_fmap Hxi.
      * rewrite list_fmap_insert (concat_insert _ i [r] []); [done|]. by rewrite list_lookup_fmap Hxi.
    + simplify_eq/=. exists (<[i := ([], [r])]> xs). split; [|split].
      * rewrite -(list_insert_id gs i _ Hi) -(list_insert_insert_eq gs i _ None).
        apply Forall2_insert; [exact Hx|]. by exists r.
      * rewrite list_fmap_insert (concat_insert _ i [] []); [done|]. by rewrite list_lookup_fmap Hxi.
      * rewrite list_fmap_insert (concat_insert _ i [] [r]); [|by rewrite list_lookup_fmap Hxi].
        by rewrite Hc -app_assoc.
Qed.

(** *** No run of the pool is infinite *)

Definition goes (g' g : option (wprog deployResult)) : Prop :=
  match g with
  | Some (Vis c k) => ∃ x, g' = Some (k x)
  | Some (Ret _) => g' = None
  | None => False
  end.

Lemma goes_wf g : Acc goes g.
Proof.
  assert (Acc goes None) as Hn by (constructor; by intros ? []).
  destruct g as [p|]; [|done]. induction p as [r|X c k IH]; constructor.
  - intros g ->. exact Hn.
  - intros g [x ->]. apply IH.
Qed.

Definition one_goes (gs' gs : list (option (wprog deployResult))) : Prop :=
  ∃ i g g', gs !! i = Some g ∧ goes g' g ∧ gs' = <[i := g']> gs.

Lemma one_goes_wf gs : Acc one_goes gs.
Proof.
  induction gs as [|g gs IH]; [constructor; by intros ? (i & ? & ? & ? & _)|].
  revert gs IH. induction (goes_wf g) as [g _ IHg]. intros gs Hgs.
  induction Hgs as [gs Hacc IHgs].
  constructor. intros gs' ([|i] & h & h' & Hi & Hh & ->); simplify_eq/=.
  - apply IHg; [done|]. by constructor.
  - apply IHgs. by exists i, h, h'.
Qed.

Lemma pool_step_goes cap p t q : pool_step cap p t q → one_goes (po_running q) (po_running p).
Proof.
  intros [gs ch i X c k x Hi|gs ch i r Hi _]; cbn [po_running];
    [exists i, (Some (Vis c k)), (Some (k x))|exists i, (Some (Ret r)), None];
    (split; [exact Hi|split; [by try exists x|reflexivity]]).
Qed.

Lemma pool_wf cap p : Acc (λ q p, ∃ t, pool_step cap p t q) p.
Proof.
  destruct p as [gs ch]. revert ch. induction (one_goes_wf gs) as [gs _ IH]. intros ch.
  constructor. intros [gs' ch'] [t Hs]. apply (IH gs'). by apply pool_step_goes in Hs.
Qed.

(** *** No goroutine waits for room in the channel *)

Definition still (g : option (wprog deployResult)) : bool :=
  match g with Some _ => true | None => false end.
Definition room (cap : nat) (p : pool) : Prop :=
  (length (po_chan p) + length (List.filter still (po_running p)) = cap)%nat.

Lemma filter_insert_still gs i g g' :
  gs !! i = Some (Some g) →
  length (List.filter still gs)
  = (length (List.filter still (<[i := g']> gs)) + if still g' then 0 else 1)%nat.
Proof.
  revert i; induction gs as [|h gs IH]; intros [|i] H; simplify_eq/=.
  - destruct g'; simpl; lia.
  - specialize (IH i H). destruct (still h); simpl; lia.
Qed.

Lemma room_step cap p t q : pool_step cap p t q → room cap p → room cap q.
Proof.
  unfold room. intros [gs ch i X c k x Hi|gs ch i r Hi _]; cbn [po_running po_chan].
  - rewrite (filter_insert_still gs i _ (Some (k x)) Hi) /=. lia.
  - rewrite (filter_insert_still gs i _ None Hi) length_app /=. lia.
Qed.

Lemma room_steps cap p t q : pool_steps cap p t q → room cap p → room cap q.
Proof. induction 1; eauto using room_step. Qed.

Lemma room_start spec cls : room (length cls) (start_pool spec cls).
Proof. unfold room. cbn. induction cls as [|cl cls IH]; simpl; [done|]. by rewrite IH. Qed.

Lemma room_free cap p i g :
  room cap p → po_running p !! i = Some (Some g) → (length (po_chan p) < cap)%nat.
Proof.
  unfold room. intros Hr Hi. rewrite (filter_insert_still _ i _ None Hi) /= in Hr. lia.
Qed.

(** Every goroutine that is left can go on, whatever it is answered. *)
Lemma pool_progress cap p i g :
  room cap p → po_running p !! i = Some (Some g) →
  match g with
  | Vis c k => ∀ x, ∃ q, pool_step cap p [Ev c x] q
  | Ret _ => ∃ q, pool_step cap p [] q
  end.
Proof.
  intros Hr Hi. pose proof (room_free _ _ _ _ Hr Hi) as Hl. destruct p as [gs ch], g.
  - eexists. by eapply pool_send.
  - intros x. eexists. by eapply pool_answer.
Qed.

(** Some answer to every operation: a failure. *)
Definition some_failure {X : Set} (c : op X) : X :=
  match c in op X return X with
  | OWait _ _ _ => Err ""
  | OClusters => inr ("", ErrTimeout) | OHealth _ => inr ("", ErrTimeout)
  | OCreate _ _ => inr ("", ErrTimeout) | OGet _ _ => inr ("", ErrTimeout)
  | OLogs _ _ _ => inr ("", ErrTimeout) | ODelete _ _ => inr ("", ErrTimeout)
  | ODbCreate _ _ _ => inr ("", ErrTimeout) | ODbDelete _ _ => inr ("", ErrTimeout)
  | OCreateTable _ _ _ => inr ("", ErrTimeout) | OInsertRows _ _ _ _ => inr ("", ErrTimeout)
  | OQuery _ _ _ _ _ _ _ => inr ("", ErrTimeout) | OUpdateRow _ _ _ _ _ => inr ("", ErrTimeout)
  | OGetRow _ _ _ _ => inr ("", ErrTimeout) | OListAudit _ _ _ => inr ("", ErrTimeout)
  end.

Lemma gone_or_left gs :
  Forall (λ g : option (wprog deployResult), g = None) gs ∨ ∃ i g, gs !! i = Some (Some g).
Proof.
  induction gs as [|[g|] gs [IH|(i & h & IH)]]; [by left|right; by exists O, g|right; by exists O, g|..].
  - left. by constructor.
  - right. by exists (S i), h.
Qed.

Lemma pool_ends cap p : room cap p → ∃ t q, pool_steps cap p t q ∧ all_gone q.
Proof.
  induction (pool_wf cap p) as [p _ IH]. intros Hr.
  destruct (gone_or_left (po_running p)) as [Hg|(i & g & Hi)]; [exists [], p; split; [constructor|done]|].
  pose proof (pool_progress cap p i g Hr Hi) as Hp.
  assert (∃ t q, pool_step cap p t q) as (t & q & Hs).
  { destruct g as [r|X c k]; [by eexists|]. destruct (Hp (some_failure c)) as [q Hq]. by eexists _, q. }
  destruct (IH q) as (t' & u & Hu & Hg); [by exists t|by eapply room_step|].
  exists (t ++ t'), u. split; [by eapply pool_next|done].
Qed.

(** *** Deployments *)

Definition placed (name : string) (rs : list deployResult) : list (string * string) :=
  (λ r, (dr_clusterID r, name)) <$> List.filter succeeded rs.

Lemma placed_app name rs rs' : placed name (rs ++ rs') = placed name rs ++ placed name rs'.
Proof. unfold placed. by rewrite List.filter_app fmap_app. Qed.

#[export] Instance placed_perm name : Proper ((≡ₚ) ==> (≡ₚ)) (placed name).
Proof.
  intros l l' H. unfold placed. apply fmap_Permutation.
  induction H as [|x l l' _ IH|x y l|? ? ? _ IH1 _ IH2]; simpl; [done| | |by rewrite IH1].
  - destruct (succeeded x); by rewrite IH.
  - destruct (succeeded x), (succeeded y); reflexivity || apply Permutation_swap.
Qed.

(** A goroutine creates one workspace at most; it succeeds, or the workspace
    did not become ready. *)
Lemma deploy_ran spec cl x :
  ran (Some (deployToCluster spec cl)) x →
  omap created x.1 = placed (sp_Name spec) x.2 ++ omap never_ready x.1 ∧ omap asked x.1 = [].
Proof.
  destruct x as [t rs]. intros (r & -> & H). cbn [fst snd] in *. unfold deployToCluster in H.
  follow H; (split; [|reflexivity]); try (destruct x); reflexivity.
Qed.

Lemma pool_deploys spec cls t p :
  pool_steps (length cls) (start_pool spec cls) t p → all_gone p →
  omap created t ≡ₚ placed (sp_Name spec) (po_chan p) ++ omap never_ready t ∧ omap asked t = [].
Proof.
  intros Hs Hg. destruct (pool_split _ _ _ _ Hs Hg) as (xs & Hx & Ht & Hc).
  cbn [start_pool po_running po_chan app] in Hx, Hc.
  assert (omap created (concat xs.*1)
          ≡ₚ placed (sp_Name spec) (concat xs.*2) ++ omap never_ready (concat xs.*1)
          ∧ omap asked (concat xs.*1) = []) as [H1 H2].
  { clear -Hx. revert xs Hx; induction cls as [|cl cls IH]; intros xs Hx; inversion Hx as [|? x ? xs' Hr Hx' E];
      [done|]. subst. destruct (IH _ Hx') as [I1 I2]. destruct (deploy_ran _ _ _ Hr) as [D1 D2].
    rewrite !fmap_cons /= !omap_app placed_app D1 D2 I1 I2. split; [|done]. solve_Permutation. }
  split; [by rewrite Ht Hc|]. apply Permutation_nil_r. by rewrite Ht H2.
Qed.

(** Events that neither create nor delete nor wait. *)
Definition looks (e : gevent op) : Prop := created e = None ∧ asked e = None ∧ never_ready e = None.

Lemma omap_none {A B} (f : A → option B) l : Forall (λ x, f x = None) l → omap f l = [].
Proof. induction 1 as [|x l Hx _ IH]; [done|]. cbn [omap list_omap]. by rewrite Hx. Qed.

Lemma looks_omap t :
  Forall looks t → omap created t = [] ∧ omap asked t = [] ∧ omap never_ready t = [].
Proof.
  intros H. split; [|split]; apply omap_none; (eapply Forall_impl; [exact H|]); unfold looks; naive_solver.
Qed.

Lemma healthy_looks cls : issues_only looks (healthy_clusters cls).
Proof.
  induction cls as [|cl cls IH]; [done|]. intros h. split; [done|].
  apply (issues_only_bind looks (healthy_clusters cls)); [exact IH|done].
Qed.

Lemma discover_looks : issues_only looks discover.
Proof.
  intros [[|cl cls]|err]; (split; [done|]); try done.
  apply (issues_only_bind looks (healthy_clusters (cl :: cls))); [apply healthy_looks|done].
Qed.

Lemma discover_fails t e : runs discover t (inr e) → e ≠ Finished.
Proof.
  apply (ends_in_runs (λ x, match x with inr e => e ≠ Finished | inl _ => True end)).
  intros [[|cl cls]|err]; try done.
  apply (ends_in_bind _ (healthy_clusters (cl :: cls))). by intros [].
Qed.

Lemma each_runs f (P : deployResult → list (string * string)) l t :
  (∀ r t, runs (f r) t tt → Forall (λ e, created e = None ∧ never_ready e = None) t
                           ∧ omap asked t = P r) →
  runs (each f l) t tt →
  Forall (λ e, created e = None ∧ never_ready e = None) t ∧ omap asked t = concat (P <$> l).
Proof.
  intros Hf. revert t; induction l as [|r l IH]; intros t H; cbn [each] in H; [by destruct H as [-> _]|].
  apply runs_bind in H as (t1 & t2 & [] & -> & H1 & H2).
  destruct (Hf _ _ H1) as [A1 A2], (IH _ H2) as [B1 B2].
  rewrite omap_app A2 B2. split; [by apply Forall_app|done].
Qed.

Lemma concat_none {A B} (l : list A) : concat ((λ _, []) <$> l) =@{list B} [].
Proof. by induction l. Qed.

Lemma finish_runs name rs t e :
  runs (finish name rs) t e →
  e = Finished ∧ omap created t = [] ∧ omap never_ready t = [] ∧ omap asked t = placed name rs.
Proof.
  unfold finish. intros H. apply runs_bind in H as (t1 & t2 & [] & -> & H1 & H2).
  apply runs_bind in H2 as (t3 & t4 & [] & -> & H3 & [-> ->]).
  apply (each_runs _ (λ _, [])) in H1 as [A1 A2];
    [|intros r u Hr; follow Hr; split; [repeat constructor; done|done]].
  apply (each_runs _ (λ r, [(dr_clusterID r, name)])) in H3 as [B1 B2];
    [|intros r u Hr; follow Hr; split; [repeat constructor; done|done]].
  rewrite app_nil_r !omap_app A2 B2.
  rewrite !(omap_none created) ?(omap_none never_ready);
    try (eapply Forall_impl; [eassumption|]; by intros ? []).
  split; [done|]. split; [done|]. split; [done|]. unfold placed.
  clear. rewrite concat_none. induction (List.filter succeeded rs) as [|r l IH]; [done|].
  rewrite !fmap_cons. cbn [concat app]. by f_equal.
Qed.

(** ** Clean-up *)

(** C33: what the example programs leave behind.  basic-workflow deletes the
    workspace it made exactly when it ends normally: no run that ends in
    [log.Fatal] has deleted one.  database-sync asks for the deletion of the
    databases it made, the last one first, when it ends normally, and of none
    when it ends in [log.Fatal], which skips the deferred calls.  blue-green
    never creates or deletes anything but the green workspace, which is not
    the blue one; it asks for its deletion in every run that fails after
    creating it, and keeps it otherwise.  Each of the two leaks is the end of
    some run. *)
Theorem workflow_cleanup now stamp cid name image :
  (∀ t e, runs (basic_workflow now) t e →
     match e with
     | Finished => ∃ x, omap created t = [x] ∧ omap deleted t = [x]
     | Fatal _ => omap deleted t = []
     end)
  ∧ (∀ t e, runs (database_sync now stamp) t e →
       match e with
       | Finished => omap db_asked t = reverse (omap db_created t)
       | Fatal _ => omap db_asked t = []
       end)
  ∧ (∀ t e, runs (blue_green cid name image) t e →
       Forall (λ ev, changes_ws ev = None ∨ changes_ws ev = Some (cid, green_of name)) t
       ∧ green_of name ≠ name
       ∧ match e with
         | Finished => omap created t = [(cid, green_of name)] ∧ omap asked t = []
         | Fatal _ => omap asked t = omap created t
         end)
  ∧ (∃ t, runs (basic_workflow now) t (Fatal "Workspace failed to start") ∧ length (omap created t) = 1%nat)
  ∧ (∃ t, runs (database_sync now stamp) t (Fatal "Failed to update row")
          ∧ length (omap db_created t) = 1%nat).
Proof.
  split; [apply basic_runs|]. split; [apply database_sync_runs|]. split.
  { intros t e H. destruct (blue_green_runs _ _ _ _ _ H) as [H1 H2].
    split; [exact H1|]. split; [apply green_is_new|exact H2]. }
  pose (ok := {| ch_ClusterID := ""; ch_KubeconfigPresent := true; ch_KubeconfigValid := true;
    ch_K8sReachable := true; ch_K8sError := ""; ch_PFAvailable := true; ch_TSAvailable := true;
    ch_RecommendedAction := "" |}).
  split; eexists; (split;
    [eexists (inl [zero_cluster]), _; (split; [reflexivity|])|]).
  - eexists (inl ok), _. split; [reflexivity|].
    eexists (inl (workspace_of "" ∅)), _. split; [reflexivity|].
    eexists (Err ""), _. split; [reflexivity|]. split; reflexivity.
  - reflexivity.
  - eexists (inl zero_database), _. split; [reflexivity|]. eexists (inl tt), _. split; [reflexivity|].
    eexists (inl [""]), _. split; [reflexivity|]. eexists (inl ([], "")), _. split; [reflexivity|].
    eexists (inr ("", ErrStatus 405)), _. split; [reflexivity|]. split; reflexivity.
  - reflexivity.
Qed.

(** C32: deployments to several clusters.  The goroutines of the multi-cluster
    example cannot get stuck: the channel has room for every result, so that a
    goroutine that is left can always go on, and no run of theirs is infinite;
    hence all of them end and the results are collected.  In a run of the
    program that ends normally the workspaces that were created are, with
    their multiplicities, the ones whose deletion was asked for and the ones
    that did not become ready; the latter are left behind.  A run that fails
    has created nothing. *)
Theorem multi_cluster_deployments now stamp :
  (∀ spec cls t p, pool_steps (length cls) (start_pool spec cls) t p →
     (∀ i g, po_running p !! i = Some (Some g) →
        match g with
        | Vis c k => ∀ x, ∃ q, pool_step (length cls) p [Ev c x] q
        | Ret _ => ∃ q, pool_step (length cls) p [] q
        end)
     ∧ Acc (λ q p, ∃ t, pool_step (length cls) p t q) p
     ∧ ∃ t' q, pool_steps (length cls) p t' q ∧ all_gone q)
  ∧ (∀ t e, multi_cluster_runs now stamp t e →
       match e with
       | Finished => omap created t ≡ₚ omap asked t ++ omap never_ready t
       | Fatal _ => omap created t = []
       end).
Proof.
  split.
  - intros spec cls t p Hs. assert (room (length cls) p) as Hr
      by (eapply room_steps; [exact Hs|apply room_start]).
    split; [intros i g; by apply pool_progress|]. split; [apply pool_wf|by apply pool_ends].
  - intros t e [H|(cls & t1 & t2 & t3 & p & -> & H1 & H2 & Hg & H3)].
    + pose proof (discover_fails _ _ H) as Hne.
      destruct (looks_omap _ (issues_only_runs _ _ _ _ discover_looks H)) as (E & _ & _). by destruct e.
    + destruct (looks_omap _ (issues_only_runs _ _ _ _ discover_looks H1)) as (E1 & E2 & E3).
      destruct (pool_deploys _ _ _ _ H2 Hg) as [P1 P2].
      destruct (finish_runs _ _ _ _ H3) as (-> & F1 & F2 & F3).
      by rewrite !omap_app E1 E2 E3 F1 F2 F3 P1 P2 /= !app_nil_r.
Qed.

(** ** The operations as requests *)

(** A program whose requests are answered by programs over another signature;
    [None]: one of these has not returned. *)
Fixpoint interp {E F : Set → Type} (h : ∀ X : Set, E X → gprog F (option X)) {A} (p : gprog E A)
    : gprog F (option A) :=
  match p with
  | Ret a => Ret (Some a)
  | Vis c k => do x <- h _ c ; match x with Some x => interp h (k x) | None => Ret None end
  end.

(** An answer that the handlers give on a server. *)
Definition answered {E F : Set → Type} {τ} (srv : server F τ) (h : ∀ X : Set, E X → gprog F (option X))
    (e : gevent E) : Prop :=
  match e with Ev c x => ∃ s s', exec srv (h _ c) s = (s', Some x) end.

Lemma interp_exec {E F : Set → Type} {τ} (srv : server F τ) (h : ∀ X : Set, E X → gprog F (option X))
    {A} (p : gprog E A) s s' a :
  exec srv (interp h p) s = (s', Some a) → ∃ t, runs p t a ∧ Forall (answered srv h) t.
Proof.
  revert s; induction p as [b|X c k IH]; intros s; cbn [interp].
  - intros [= _ ->]. by exists [].
  - rewrite exec_bind. destruct (exec srv (h X c) s) as [s1 [x|]] eqn:Ex; [|done].
    intros H. destruct (IH x s1 H) as (t & Ht & Ha). exists (Ev c x :: t).
    split; [by exists x, t|]. constructor; [by exists s, s1|done].
Qed.

(** The encoding of what is sent; a field that is empty is left out. *)
Definition omitempty (k : string) (v : option any) : list (string * any) :=
  match v with Some x => [(k, x)] | None => [] end.
Definition non_empty_str (s : string) : option any := if String.eqb s "" then None else Some (AStr s).
Definition non_empty {A} (f : A → any) (l : list A) : option any :=
  match l with [] => None | _ => Some (AArr (f <$> l)) end.

Definition enc_env (e : sdk_envvar) : any := AObj [("name", AStr (ev_Name e)); ("value", AStr (ev_Value e))].
Definition enc_port (p : sdk_port) : any :=
  AObj (omitempty "name" (non_empty_str (wp_Name p)) ++ [("containerPort", num (wp_ContainerPort p))]
        ++ omitempty "protocol" (non_empty_str (wp_Protocol p))).
(** The keys of a map are sent in some order. *)
Definition enc_spec (s : sdk_spec) : any :=
  AObj ([("name", AStr (sp_Name s)); ("image", AStr (sp_Image s))]
        ++ omitempty "env" (non_empty enc_env (sp_Env s))
        ++ omitempty "ports" (non_empty enc_port (sp_Ports s))
        ++ omitempty "args" (non_empty AStr (sp_Args s))
        ++ omitempty "labels" (match map_to_list (sp_Labels s) with
                               | [] => None
                               | l => Some (AObj ((λ kv, (kv.1, AStr kv.2)) <$> l))
                               end)
        ++ omitempty "notes" (non_empty_str (sp_Notes s))).

(** How [encoding/json] reads the answers and writes a table. *)
Class SdkCodec := {
  dc_clusters : list sdk_cluster → any → list sdk_cluster * bool;
  dc_health : ClusterHealth → any → ClusterHealth * bool;
  dc_created : string * string → any → (string * string) * bool;
  dc_database : DatabaseInstance → any → DatabaseInstance * bool;
  dc_ids : list string → any → list string * bool;
  dc_page : list doc * string → any → (list doc * string) * bool;
  dc_audit : list AuditEvent → any → list AuditEvent * bool;
  ec_table : Table → any
}.

(** The address of the host from the environment. *)
Definition api_url (env : string) : string := if String.eqb env "" then "https://localhost:8090" else env.
Definition WithMaxRetries (n : Z) (c : Client) : Client :=
  {| sc_baseURL := sc_baseURL c; sc_token := sc_token c; sc_maxRetries := n |}.
Definition basic_client (env token : string) : Client :=
  WithMaxRetries 3 (Sdk.NewClient (api_url env) token).

Section requests.
Context `{UC : UnicodeCase} `{SE : SdkEnv} `{SC : SdkCodec}.

Definition returned {X : Set} (p : sprog X) : sprog (option X) := do x <- p ; Ret (Some x).

(** [fuel] bounds the polls of a wait. *)
Definition sdk_op (fuel : nat) (c : Client) (X : Set) (o : op X) : sprog (option X) :=
  match o with
  | OClusters => returned (clusters_List dc_clusters c)
  | OHealth cid => returned (health_Cluster zero_health dc_health c cid)
  | OCreate cid spec =>
      returned (workspaces_Create c cid (enc_spec spec) (sp_Name spec) (sp_Image spec) dc_created)
  | OWait cid name _ => workspaces_Wait fuel c cid name
  | OGet cid name => returned (workspaces_Get c cid name)
  | OLogs cid name tail => returned (workspaces_Logs c cid name tail)
  | ODelete cid name => returned (workspaces_Delete c cid name)
  | ODbCreate cid name descr => returned (databases_Create zero_database dc_database c cid name descr)
  | ODbDelete cid db => returned (databases_Delete c cid db)
  | OCreateTable cid db t => returned (databases_CreateTable c cid db (ec_table t))
  | OInsertRows cid db t rows => returned (databases_InsertRows [] dc_ids c cid db t (obj_of <$> rows))
  | OQuery cid db t orderBy limit cursor fwd =>
      returned (databases_Query ([], "") dc_page c cid db t orderBy limit cursor fwd)
  | OUpdateRow cid db t row patch => returned (databases_UpdateRow c cid db t row (obj_of patch))
  | OGetRow cid db t row => returned (databases_GetRow c cid db t row)
  | OListAudit cid db limit => returned (databases_ListAudit [] dc_audit c cid db limit)
  end.

(** ** Against a host *)

Definition updated (e : gevent op) : bool :=
  match e with
  | Ev c x => match c in op X return X → bool with
              | OUpdateRow _ _ _ _ _ => λ x, match x with inl _ => true | inr _ => false end
              | _ => λ _, false
              end x
  end.
Definition inserted (e : gevent op) : option (list string) :=
  match e with
  | Ev c x => match c in op X return X → _ with
              | OInsertRows _ _ _ _ => λ x, match x with inl ids => Some ids | inr _ => None end
              | _ => λ _, None
              end x
  end.

(** Without updates the program ends normally only when no keys came back. *)
Lemma sync_without_updates now stamp t :
  runs (database_sync now stamp) t Finished → Forall (λ e, updated e = false) t →
  head (omap inserted t) = Some [].
Proof.
  unfold database_sync. intros (x & t1 & -> & H).
  destruct x as [[|cl others]|err]; [by destruct H| |by destruct H].
  destruct H as (x & t2 & -> & H). destruct x as [inst|err]; [|by destruct H].
  apply with_defer_runs in H as (tb & tl & -> & H & _).
  destruct H as (x & t & -> & H). destruct x; [|by destruct H].
  destruct H as (x & t' & -> & H). destruct x as [ids|]; [|by destruct H].
  destruct H as (x & t'' & -> & H). destruct x; [|by destruct H].
  destruct ids as [|row ids]; [done|].
  destruct H as (x & t3 & -> & H). destruct x; [|by destruct H].
  cbn [app]. rewrite !Forall_cons. by intros (_ & _ & _ & _ & _ & ? & _).
Qed.

(** A server that refuses PUT on rows, as the host does. *)
Definition refuses_updates {τ} (srv : server scall τ) (c : Client) : Prop :=
  ∀ cid db table row body,
    never_usable srv (@None (unit → any → unit * bool))
      (the_request c "PUT" (row_path cid db table row) body).

Lemma answered_not_updated {τ} (srv : server scall τ) fuel c e :
  0 ≤ sc_maxRetries c → refuses_updates srv c → answered srv (sdk_op fuel c) e → updated e = false.
Proof.
  intros Hm Hr. destruct e as [X o x]. destruct o; try done. intros (s & s' & H).
  cbn [sdk_op] in H. unfold returned in H. rewrite exec_bind in H.
  destruct (call_never srv (@None (unit → any → unit * bool)) c "PUT" (row_path cid db table id)
    (Some (obj_of patch)) tt "failed to update row" Datatypes.id s (Hr _ _ _ _ _) Hm) as (s1 & e & E).
  unfold databases_UpdateRow, put_ in H. rewrite E in H. by injection H as _ <-.
Qed.
End requests.

Section against_host.
Context `{UC : UnicodeCase} `{RE : RouterEnv} `{BD : Bodies} `{HE : HostEnv} `{SE : SdkEnv} `{SC : SdkCodec}.
Context {σ : Type} (services : server hcall σ).
Context (ui : option (string → bool)) (h : host) (d : Deps) (base : string).
Context (deliver : sreq → rq) (upstream : Z) (other_json : hresp → option any).
Hypothesis deliver_plain : ∀ q p,
  sq_url q = base +:+ p → url_plain p →
  q_Path (deliver q) = p ∧ q_Method (deliver q) = sq_method q.

Lemma interp_clusters {A} fuel c (k : outcome (list sdk_cluster) → wprog A) l s :
  sc_baseURL c = base → 0 ≤ sc_maxRetries c → (∀ p, url_plain p → sdk_url_ok (base +:+ p) = true) →
  (∀ cur x, (dc_clusters cur (AArr x)).2 = false) →
  has_DB d = true → l ≠ [] → (∀ s, services _ s (HRoute (DbList "clusters")) = (s, l)) →
  ∃ e, exec (host_server services ui h d deliver upstream other_json)
         (interp (sdk_op fuel c) (do x <- request OClusters ; k x)) s
       = exec (host_server services ui h d deliver upstream other_json)
           (interp (sdk_op fuel c) (k (inr ("failed to list clusters", e)))) s.
Proof.
  intros Hb Hm Hu Hdec Hdb Hne Hl.
  destruct (list_clusters_fails services ui h d base deliver upstream other_json deliver_plain c
              dc_clusters l s Hb Hm Hu Hdec Hdb Hne Hl) as [e He].
  exists e. cbn [request bind interp sdk_op]. unfold returned. do 2 rewrite exec_bind. by rewrite He.
Qed.


End against_host.

(** ** A host with one cluster *)

Definition one_cluster : server hcall (list string) := λ X s c,
  match c in hcall X return list string * X with
  | HRoute rc => match rc in rcall X return list string * X with
                 | DbList _ => (s, [{["id" := AStr "c1"]}])
                 | rc' => mem_host _ s (HRoute rc')
                 end
  | c' => mem_host _ s c'
  end.

(** The library reads an object where the list of clusters is an array. *)
Definition array_codec : SdkCodec :=
  {| dc_clusters := λ cur _, (cur, false); dc_health := λ cur _, (cur, false);
     dc_created := λ cur _, (cur, false); dc_database := λ cur _, (cur, false);
     dc_ids := λ cur _, (cur, false); dc_page := λ cur _, (cur, false);
     dc_audit := λ cur _, (cur, false); ec_table := λ _, ANil |}.

