(* ===== verification/Heap.v ===== *)
(** * A heap of Go objects

    Pointers, slices and maps of Go are references into a heap of cells; code
    that copies or shares them is a function on the heap.  The file holds the
    heap operations, the value a reference stands for ([dval]), the cells it
    reaches ([dlocs]), and a specification of copying code ([copying]) that is
    closed under sequencing.  The type of cells is a parameter: each client has
    one constructor per type it allocates. *)

From S2P Require Import Prelude.

Abbreviation loc := positive (only parsing).

(** ** References *)

(** A pointer or a map; a slice is a window of [len] elements from [off] on of
    the array at [l]. *)
Inductive ptr (T : Type) : Type := PNil | PAt (l : loc).
Inductive slice (T : Type) : Type := SNil | SAt (l : loc) (off len : nat).
Arguments PNil {T}.
Arguments PAt {T} _.
Arguments SNil {T}.
Arguments SAt {T} _ _ _.

(** A type whose objects are cells. *)
Class InCell (cell T : Type) := { put : T → cell; got : cell → option T }.
Class InCellLaw (cell T : Type) `{InCell cell T} : Prop := got_put : ∀ x : T, got (put x) = Some x.

(** The parts of a type that are references, the rest being plain data: the
    value [dval h x] that [x] stands for in [h] (none if a reference dangles or
    points to a cell of another type) and the cells it is made of. *)
Class Deep (cell T V : Type) := {
  dval : gmap loc cell → T → option V;
  dlocs : gmap loc cell → T → gset loc
}.
#[global] Hint Mode Deep + + - : typeclass_instances.
Arguments dval {cell T V _} _ _.
Arguments dlocs {cell T V _} _ _.

(** The value depends on the cells it is made of only. *)
Class DeepLaws (cell T V : Type) `{Deep cell T V} : Prop := {
  dlocs_dom (h : gmap loc cell) (x : T) (v : V) : dval h x = Some v → dlocs h x ⊆ dom h;
  dval_local (h h' : gmap loc cell) (x : T) (v : V) :
    dval h x = Some v → (∀ a, a ∈ dlocs h x → h' !! a = h !! a) →
    dval h' x = Some v ∧ dlocs h' x = dlocs h x
}.

(** ** Operations *)

Section heap.
Context {cell : Type}.

Definition H (A : Type) : Type := gmap loc cell → option (gmap loc cell * A).

Definition hret {A} (a : A) : H A := λ h, Some (h, a).
Definition hbind {A B} (m : H A) (k : A → H B) : H B := λ h,
  match m h with Some (h', a) => k a h' | None => None end.

(** A dereference gets stuck at a dangling reference or a cell of another
    type. *)
Definition load {T} `{InCell cell T} (l : loc) : H T := λ h,
  match h !! l ≫= got with Some x => Some (h, x) | None => None end.
Definition alloc {T} `{InCell cell T} (x : T) : H loc := λ h,
  let l := fresh (dom h) in Some (<[l := put x]> h, l).
Definition store {T} `{InCell cell T} (l : loc) (x : T) : H unit := λ h,
  match h !! l with Some _ => Some (<[l := put x]> h, tt) | None => None end.

End heap.
Arguments H : clear implicits.

Notation "'let!' x ':=' m 'in' k" := (hbind m (fun x => k))
  (at level 10, x name, m at level 100, k at level 200) : go_scope.

Section windows.
Context {cell T : Type} `{InCell cell (list T)}.

(** The elements of a slice. *)
Definition window (a : list T) (off len : nat) : option (list T) :=
  if (off + len <=? length a)%nat then Some (take len (drop off a)) else None.
Definition elems (h : gmap loc cell) (s : slice T) : option (list T) :=
  match s with SNil => Some [] | SAt l off len => a ← h !! l ≫= got; window a off len end.

Definition load_slice (l : loc) (off len : nat) : H cell (list T) :=
  (let! a := load l in
   λ h, match window a off len with Some x => Some (h, x) | None => None end)%go.

(** [make] of the same length followed by [copy], or [append] to an empty
    literal: a nil slice stays nil, any other gets an array of its own. *)
Definition copy_slice (s : slice T) : H cell (slice T) :=
  (match s with
   | SNil => hret SNil
   | SAt l off len =>
       let! xs := load_slice l off len in
       let! l' := alloc xs in
       hret (SAt l' 0 (length xs))
   end)%go.

(** The loop over the items of a list: copy each into its place of the new
    array. *)
Fixpoint fill (f : T → H cell T) (l' : loc) (xs : list T) (i : nat) : H cell unit :=
  (match xs with
   | [] => hret tt
   | x :: xs' =>
       let! y := f x in
       let! a := load l' in
       let! _ := store l' (<[i := y]> a) in
       fill f l' xs' (S i)
   end)%go.

Definition copy_items (zero : T) (f : T → H cell T) (s : slice T) : H cell (slice T) :=
  (match s with
   | SNil => hret SNil
   | SAt l off len =>
       let! xs := load_slice l off len in
       let! l' := alloc (replicate (length xs) zero) in
       let! _ := fill f l' xs 0 in
       hret (SAt l' 0 (length xs))
   end)%go.

End windows.

Section pointers.
Context {cell T : Type} `{InCell cell T}.

(** [e := *p; q = &e] for a pointer that may be nil. *)
Definition copy_ptr (f : T → H cell T) (p : ptr T) : H cell (ptr T) :=
  (match p with
   | PNil => hret PNil
   | PAt l => let! x := load l in let! y := f x in let! l' := alloc y in hret (PAt l')
   end)%go.

(** [out := new(T); in.DeepCopyInto(out)] for a pointer that may be nil. *)
Definition new_copy (zero : T) (f : T → H cell T) (p : ptr T) : H cell (ptr T) :=
  (match p with
   | PNil => hret PNil
   | PAt l =>
       let! l' := alloc zero in
       let! x := load l in
       let! y := f x in
       let! _ := store l' y in
       hret (PAt l')
   end)%go.

End pointers.

(** ** What references stand for *)

Section denotation.
Context {cell : Type}.
Abbreviation heap := (gmap loc cell).

(** Data without references. *)
Definition plain (T : Type) : Deep cell T T := {| dval := λ _ x, Some x; dlocs := λ _ _, ∅ |}.

(** A structure by its parts. *)
Definition deep_via {T U V} (parts : T → U) `{Deep cell U V} : Deep cell T V :=
  {| dval h x := dval h (parts x); dlocs h x := dlocs h (parts x) |}.

#[export] Instance deep_pair {A VA B VB} `{Deep cell A VA, Deep cell B VB}
  : Deep cell (A * B) (VA * VB) :=
  {| dval h x := v ← dval h x.1; w ← dval h x.2; Some (v, w);
     dlocs h x := dlocs h x.1 ∪ dlocs h x.2 |}.

#[export] Instance deep_list {T V} `{Deep cell T V} : Deep cell (list T) (list V) :=
  {| dval h xs := mapM (dval h) xs; dlocs h xs := ⋃ (dlocs h <$> xs) |}.

#[export] Instance deep_slice {T V} `{InCell cell (list T), Deep cell T V}
  : Deep cell (slice T) (option (list V)) :=
  {| dval h s := match s with
                 | SNil => Some None
                 | SAt _ _ _ => xs ← elems h s; vs ← dval h xs; Some (Some vs)
                 end;
     dlocs h s := match s with
                  | SNil => ∅
                  | SAt l _ _ => {[l]} ∪ dlocs h (default [] (elems h s))
                  end |}.

#[export] Instance deep_ptr {T V} `{InCell cell T, Deep cell T V}
  : Deep cell (ptr T) (option V) :=
  {| dval h p := match p with
                 | PNil => Some None
                 | PAt l => x ← h !! l ≫= got; v ← dval h x; Some (Some v)
                 end;
     dlocs h p := match p with
                  | PNil => ∅
                  | PAt l => {[l]} ∪ match h !! l ≫= got with Some x => dlocs h x | None => ∅ end
                  end |}.

Lemma plain_laws T : @DeepLaws cell T T (plain T).
Proof. split; [set_solver|done]. Qed.

Lemma deep_via_laws {T U V} (parts : T → U) `{DeepLaws cell U V} :
  @DeepLaws cell T V (deep_via parts).
Proof.
  split; [intros h x v; apply (dlocs_dom (T := U))|intros h h' x v; apply (dval_local (T := U))].
Qed.

#[export] Instance deep_pair_laws {A VA B VB} `{DeepLaws cell A VA, DeepLaws cell B VB} :
  DeepLaws cell (A * B) (VA * VB).
Proof.
  split.
  - intros h [a b] [v w] E. simpl in *. simplify_option_eq.
    apply union_subseteq. split; by eapply dlocs_dom.
  - intros h h' [a b] [v w] E Ha. simpl in *. simplify_option_eq.
    destruct (dval_local h h' a v) as [E1 E2]; [done|set_solver|].
    destruct (dval_local h h' b w) as [E3 E4]; [done|set_solver|].
    by rewrite E1 /= E3 /= E2 E4.
Qed.

Lemma dval_pair {A VA B VB} `{Deep cell A VA, Deep cell B VB} (h : heap) (a : A) (b : B) (v : VA * VB) :
  dval h (a, b) = Some v → dval h a = Some v.1 ∧ dval h b = Some v.2.
Proof. intros E. simpl in E. by simplify_option_eq. Qed.

#[export] Instance deep_list_laws {T V} `{DeepLaws cell T V} : DeepLaws cell (list T) (list V).
Proof.
  split.
  - intros h xs vs E. simpl in *. apply mapM_Some in E.
    induction E as [|x v xs vs Hx _ IH]; simpl; [set_solver|].
    apply union_subseteq. split; [by eapply dlocs_dom|done].
  - intros h h' xs vs E. simpl in *. apply mapM_Some in E.
    induction E as [|x v xs vs Hx _ IH]; simpl; [done|]. intros Ha.
    destruct (dval_local h h' x v) as [E1 E2]; [done|set_solver|].
    destruct IH as [E3 E4]; [set_solver|]. by rewrite E1 /= E3 /= E2 E4.
Qed.

#[export] Instance deep_slice_laws {T V} `{InCell cell (list T), DeepLaws cell T V} :
  DeepLaws cell (slice T) (option (list V)).
Proof.
  split.
  - intros h [|l off len] v E; simpl in *; [set_solver|].
    destruct (h !! l ≫= got) as [a|] eqn:El; simplify_option_eq.
    apply union_subseteq. split; [apply singleton_subseteq_l, elem_of_dom; eauto|].
    rename select (mapM _ _ = Some _) into Em.
    exact (dlocs_dom (T := list T) (V := list V) h _ _ Em).
  - intros h h' [|l off len] v E Ha; simpl in *; [by simplify_eq|].
    rewrite (Ha l ltac:(set_solver)).
    destruct (h !! l ≫= got) as [a|] eqn:El; [|by simplify_option_eq].
    rewrite ?El in E, Ha. cbn [mbind option_bind default from_option] in *.
    destruct (window a off len) as [xs|] eqn:Ew; simplify_option_eq.
    rename select (mapM _ _ = Some _) into Em.
    destruct (@dval_local _ _ _ deep_list _ h h' xs _ Em) as [E1 E2]; [set_solver|].
    simpl in E1, E2. by rewrite E1 E2.
Qed.

#[export] Instance deep_ptr_laws {T V} `{InCell cell T, DeepLaws cell T V} :
  DeepLaws cell (ptr T) (option V).
Proof.
  split.
  - intros h [|l] v E; simpl in *; [set_solver|].
    destruct (h !! l ≫= got) as [a|] eqn:El; simplify_option_eq.
    apply union_subseteq. split; [apply singleton_subseteq_l, elem_of_dom; eauto|].
    by eapply dlocs_dom.
  - intros h h' [|l] v E Ha; simpl in *; [by simplify_eq|].
    rewrite (Ha l ltac:(set_solver)).
    destruct (h !! l ≫= got) as [a|] eqn:El; [|by simplify_option_eq].
    rewrite ?El in E, Ha. cbn [mbind option_bind] in *. simplify_option_eq.
    rename select (dval _ _ = Some _) into Em.
    destruct (dval_local h h' a _ Em) as [E1 E2]; [set_solver|]. by rewrite E1 E2.
Qed.

(** A larger heap changes nothing, and neither does a write elsewhere. *)
Lemma dval_mono `{DeepLaws cell T V} (h h' : heap) (x : T) (v : V) :
  h ⊆ h' → dval h x = Some v → dval h' x = Some v ∧ dlocs h' x = dlocs h x.
Proof.
  intros Hs E. apply dval_local; [done|]. intros a Ha.
  apply (dlocs_dom h x v E) in Ha as [c Hc]%elem_of_dom.
  rewrite Hc. by eapply lookup_weaken.
Qed.

Lemma dval_write `{DeepLaws cell T V} (h : heap) (x : T) (v : V) a c :
  dval h x = Some v → a ∉ dlocs h x → dval (<[a := c]> h) x = Some v.
Proof.
  intros E Ha. eapply dval_local; [done|]. intros b Hb. rewrite lookup_insert_ne //. set_solver.
Qed.

End denotation.

(** ** Code that copies *)

(** A well-formed cell refers to cells of the right types. *)
Class CellOk (cell : Type) := {
  cell_ok : gmap loc cell → cell → Prop;
  cell_ok_mono (h h' : gmap loc cell) c : h ⊆ h' → cell_ok h c → cell_ok h' c
}.
Class CellOkFor (cell T V : Type) `{InCell cell T, Deep cell T V, CellOk cell} : Prop :=
  cell_ok_put : ∀ (h : gmap loc cell) (x : T), is_Some (dval h x) → cell_ok h (put x).

Section copying.
Context {cell : Type} `{CellOk cell}.
Abbreviation heap := (gmap loc cell).
Implicit Types h d : heap.

Definition heap_ok (h : heap) : Prop := map_Forall (λ _ c, cell_ok h c) h.

Definition new_ok (h0 d : heap) : Prop := map_Forall (λ _ c, cell_ok (h0 ∪ d) c) d.

(** Run on any heap with [h0] in it, [m] returns, leaves the heap it found as
    it is and adds well-formed cells [d], which refer to [h0] and to each other
    only. *)
Definition copying (h0 : heap) {A} (m : H cell A) (Q : heap → A → Prop) : Prop :=
  ∀ h, h0 ⊆ h → ∃ d a, m h = Some (h ∪ d, a) ∧ d ##ₘ h ∧ new_ok h0 d ∧ Q d a.

Definition steady (h0 : heap) {A} (Q : heap → A → Prop) : Prop :=
  ∀ d d' a, d ⊆ d' → Q d a → Q d' a.

(** [y] stands for [v]; of the cells it is made of, [S] are old and shared with
    the original, and the others are new. *)
Definition copy_of {T V} `{Deep cell T V} (h0 : heap) (S : gset loc) (v : V) (d : heap) (y : T)
    : Prop :=
  dval (h0 ∪ d) y = Some v ∧ dlocs (h0 ∪ d) y ⊆ dom d ∪ S ∧ S ⊆ dlocs (h0 ∪ d) y.

Lemma union_grow (h0 d d' : heap) : d ⊆ d' → h0 ∪ d ⊆ h0 ∪ d'.
Proof. apply map_union_mono_l. Qed.

Lemma new_ok_union h0 d1 d2 : d2 ##ₘ d1 → new_ok h0 d1 → new_ok h0 d2 → new_ok h0 (d1 ∪ d2).
Proof.
  intros Hd C1 C2 l c [Hl|Hl]%lookup_union_Some; [| |done].
  - refine (cell_ok_mono _ _ _ (union_grow h0 _ _ _) (C1 _ _ Hl)). apply map_union_subseteq_l.
  - refine (cell_ok_mono _ _ _ (union_grow h0 _ _ _) (C2 _ _ Hl)). by apply map_union_subseteq_r.
Qed.

Lemma copy_of_steady `{DeepLaws cell T V} h0 S (v : V) :
  steady h0 (copy_of (T := T) h0 S v).
Proof.
  intros d d' y Hd (E & D1 & D2).
  destruct (dval_mono _ (h0 ∪ d') _ _ (union_grow h0 _ _ Hd) E) as [E1 E2].
  repeat split; [done|rewrite E2|by rewrite E2].
  apply subseteq_dom in Hd. set_solver.
Qed.

Lemma copying_ret h0 {A} (a : A) (Q : heap → A → Prop) : Q ∅ a → copying h0 (hret a) Q.
Proof.
  intros HQ h _. exists ∅, a. rewrite right_id_L. repeat split; [apply map_disjoint_empty_l| |done].
  apply map_Forall_empty.
Qed.

Lemma copying_weaken h0 {A} (m : H cell A) (Q R : heap → A → Prop) :
  copying h0 m Q → (∀ d a, d ##ₘ h0 → Q d a → R d a) → copying h0 m R.
Proof.
  intros Hm HR h Hh. destruct (Hm h Hh) as (d & a & E & Hd & Hc & HQ).
  exists d, a. repeat split; [done..|]. apply HR; [|done]. by eapply map_disjoint_weaken_r.
Qed.

Lemma copying_bind h0 {A B} (m : H cell A) (k : A → H cell B) Q R :
  copying h0 m Q → steady h0 Q →
  (∀ a, copying h0 (k a) (R a)) → (∀ a, steady h0 (R a)) →
  copying h0 (hbind m k) (λ d b, ∃ a, Q d a ∧ R a d b).
Proof.
  intros Hm SQ Hk SR h Hh. destruct (Hm h Hh) as (d1 & a & E1 & D1 & C1 & Q1).
  assert (h0 ⊆ h ∪ d1) as Hh1 by (etrans; [done|apply map_union_subseteq_l]).
  destruct (Hk a _ Hh1) as (d2 & b & E2 & D2 & C2 & R2).
  apply map_disjoint_union_r in D2 as [D2 D3].
  assert (d1 ⊆ d1 ∪ d2) as S1 by apply map_union_subseteq_l.
  assert (d2 ⊆ d1 ∪ d2) as S2 by by apply map_union_subseteq_r.
  exists (d1 ∪ d2), b. repeat split.
  - unfold hbind. by rewrite E1 E2 assoc_L.
  - by apply map_disjoint_union_l.
  - by apply new_ok_union.
  - exists a. split; [exact (SQ _ _ _ S1 Q1)|exact (SR a _ _ _ S2 R2)].
Qed.

Lemma copying_done h0 {A} (a : A) : copying h0 (hret a) (λ _ b, b = a).
Proof. by apply copying_ret. Qed.

Lemma steady_done h0 {A} (a : A) : steady h0 (λ _ b, b = a).
Proof. by intros d d' b _. Qed.

Lemma steady_then h0 {A B} (Q : heap → A → Prop) (R : A → heap → B → Prop) :
  steady h0 Q → (∀ a, steady h0 (R a)) → steady h0 (λ d b, ∃ a, Q d a ∧ R a d b).
Proof. intros SQ SR d d' b Hd (a & HQ & HR). exists a. split; [by eapply SQ|by eapply SR]. Qed.

Lemma copying_load h0 {T B} `{InCell cell T} l (x : T) (k : T → H cell B) Q :
  h0 !! l ≫= got = Some x → copying h0 (k x) Q → copying h0 (hbind (load l) k) Q.
Proof.
  intros Hl Hk h Hh. destruct (Hk h Hh) as (d & a & E & HR). exists d, a. split; [|done].
  apply bind_Some in Hl as (c & Hc & Hg).
  unfold hbind, load. by rewrite (lookup_weaken _ _ _ _ Hc Hh) /= Hg.
Qed.

(** A new cell [l] next to the new cells [d] its content refers to. *)
Lemma boxed_subseteq h0 d l c : d !! l = None → h0 ∪ d ⊆ h0 ∪ <[l := c]> d.
Proof. intros Hl. apply union_grow. by apply insert_subseteq. Qed.

Lemma boxed_cells h0 {T V} `{!InCell cell T, !Deep cell T V, !CellOkFor cell T V} d l (x : T) :
  d !! l = None → is_Some (dval (h0 ∪ d) x) →
  new_ok h0 d → new_ok h0 (<[l := put x]> d).
Proof.
  intros Hl Hx Hd. apply map_Forall_insert_2.
  - eapply cell_ok_mono; [by apply boxed_subseteq|]. by apply cell_ok_put.
  - eapply map_Forall_impl; [done|]. intros a c. apply cell_ok_mono. by apply boxed_subseteq.
Qed.

Lemma boxed_lookup h0 d l c : h0 !! l = None → (h0 ∪ <[l := c]> d) !! l = Some c.
Proof. intros Hl. rewrite lookup_union_r // lookup_insert_eq //. Qed.

Lemma copy_of_ptr `{InCellLaw cell T, !Deep cell T V, !DeepLaws cell T V} h0 S (v : V) d l (y : T) :
  h0 !! l = None → d !! l = None → copy_of h0 S v d y →
  copy_of h0 S (Some v) (<[l := put y]> d) (PAt (T := T) l).
Proof.
  intros H0l Hl (E & D1 & D2).
  destruct (dval_mono _ (h0 ∪ <[l := put y]> d) _ _ (boxed_subseteq _ _ _ _ Hl) E) as [E1 E2].
  unfold copy_of. cbn [dval dlocs deep_ptr]. rewrite boxed_lookup //.
  cbn [mbind option_bind]. rewrite got_put. cbn [mbind option_bind]. rewrite E1 E2 dom_insert_L.
  repeat split; set_solver.
Qed.

Lemma window_full {T} (a : list T) : window a 0 (length a) = Some a.
Proof. unfold window. by rewrite Nat.leb_refl firstn_all. Qed.

Lemma copy_of_slice `{InCellLaw cell (list T), !Deep cell T V, !DeepLaws cell T V}
    h0 S (vs : list V) d l (ys : list T) :
  h0 !! l = None → d !! l = None → copy_of h0 S vs d ys →
  copy_of h0 S (Some vs) (<[l := put ys]> d) (SAt (T := T) l 0 (length ys)).
Proof.
  intros H0l Hl (E & D1 & D2).
  destruct (dval_mono _ (h0 ∪ <[l := put ys]> d) _ _ (boxed_subseteq _ _ _ _ Hl) E) as [E1 E2].
  unfold copy_of. cbn [dval dlocs deep_slice elems]. rewrite boxed_lookup //.
  cbn [mbind option_bind]. rewrite got_put. cbn [mbind option_bind]. rewrite window_full.
  cbn [mbind option_bind default from_option]. rewrite E1 E2 dom_insert_L.
  repeat split; set_solver.
Qed.

Lemma copy_of_nil `{Deep cell T V} h0 d : copy_of h0 ∅ [] d (@nil T).
Proof. unfold copy_of. simpl. set_solver. Qed.

Lemma copy_of_cons `{Deep cell T V} h0 S S' (v : V) vs d (y : T) ys :
  copy_of h0 S v d y → copy_of h0 S' vs d ys → copy_of h0 (S ∪ S') (v :: vs) d (y :: ys).
Proof.
  intros (E1 & A1 & B1) (E2 & A2 & B2). unfold copy_of in *. cbn [dval dlocs deep_list] in *.
  simpl. rewrite E1 /= E2. repeat split; set_solver.
Qed.

Lemma copy_of_pair `{Deep cell T V, Deep cell T' V'} h0 S S' (v : V * V') d (y : T) (y' : T') :
  copy_of h0 S v.1 d y → copy_of h0 S' v.2 d y' → copy_of h0 (S ∪ S') v d (y, y').
Proof.
  intros (E1 & A1 & B1) (E2 & A2 & B2). unfold copy_of. simpl. rewrite E1 /= E2 /=.
  destruct v. repeat split; set_solver.
Qed.

Lemma copy_of_via {T U V} (parts : T → U) `{Deep cell U V} h0 S (v : V) d (y : T) :
  copy_of h0 S v d (parts y) → @copy_of _ _ (deep_via parts) h0 S v d y.
Proof. done. Qed.

(** A part that was assigned is the same and shared. *)
Lemma copy_of_same `{DeepLaws cell T V} h0 (v : V) d (x : T) :
  dval h0 x = Some v → copy_of h0 (dlocs h0 x) v d x.
Proof.
  intros E. destruct (dval_mono _ (h0 ∪ d) _ _ (map_union_subseteq_l _ _) E) as [E1 E2].
  unfold copy_of. rewrite E1 E2. set_solver.
Qed.

Lemma copy_of_eq {T V} `{Deep cell T V} h0 S S' (v : V) d (y : T) :
  copy_of h0 S v d y → S = S' → copy_of h0 S' v d y.
Proof. by intros Hc <-. Qed.

(** *** Copiers *)

(** [f] copies: the copy has the same value and shares exactly the cells
    [sh h x] with the original. *)
Definition copier {T V} `{Deep cell T V} (f : T → H cell T) (sh : heap → T → gset loc) : Prop :=
  ∀ h0 x v, dval h0 x = Some v → copying h0 (f x) (copy_of h0 (sh h0 x) v).

Definition sh_ptr {T} `{InCell cell T} (sh : heap → T → gset loc) (h : heap) (p : ptr T) : gset loc :=
  match p with
  | PNil => ∅
  | PAt l => match h !! l ≫= got with Some x => sh h x | None => ∅ end
  end.
Definition sh_slice {T} `{InCell cell (list T)} (sh : heap → T → gset loc) (h : heap) (s : slice T)
    : gset loc := ⋃ (sh h <$> default [] (elems h s)).

(** An assignment shares everything. *)
Lemma copier_ret `{DeepLaws cell T V} : copier (T := T) hret dlocs.
Proof.
  intros h0 x v E. apply copying_ret. unfold copy_of. rewrite right_id_L. repeat split; [done|set_solver..].
Qed.

Lemma insert_union_new (h d : heap) l c : h !! l = None → <[l := c]> (h ∪ d) = h ∪ <[l := c]> d.
Proof. apply insert_union_r. Qed.

Lemma copier_ptr `{InCellLaw cell T, !Deep cell T V, !DeepLaws cell T V, !CellOkFor cell T V}
    (f : T → H cell T) sh :
  copier f sh → copier (copy_ptr f) (sh_ptr sh).
Proof.
  intros Hf h0 [|l] v E; [by apply copying_ret; cbn in *; simplify_eq; unfold copy_of; set_solver|].
  cbn [dval deep_ptr] in E. cbn [copy_ptr sh_ptr].
  apply bind_Some in E as (x & El & E). rewrite El. apply bind_Some in E as (w & Ew & [= <-]).
  eapply copying_load; [exact El|]. intros h Hh.
  destruct (Hf h0 x w Ew h Hh) as (d & y & Ey & Hd & Hc & Hy).
  set (l' := fresh (dom (h ∪ d))).
  assert ((h ∪ d) !! l' = None) as [Hl1 Hl2]%lookup_union_None by apply not_elem_of_dom, is_fresh.
  exists (<[l' := put y]> d), (PAt l'). unfold hbind, alloc, hret. rewrite Ey. fold l'.
  rewrite insert_union_new //. split; [done|]. split; [by apply map_disjoint_insert_l|]. split.
  - apply (boxed_cells _ (V := V)); [done|by exists w; apply Hy|done].
  - apply copy_of_ptr; [exact (lookup_weaken_None _ _ _ Hl1 Hh)|done..].
Qed.

Lemma copier_new `{InCellLaw cell T, !Deep cell T V, !DeepLaws cell T V, !CellOkFor cell T V}
    (zero : T) (f : T → H cell T) sh :
  copier f sh → copier (new_copy zero f) (sh_ptr sh).
Proof.
  intros Hf h0 [|l] v E; [by apply copying_ret; cbn in *; simplify_eq; unfold copy_of; set_solver|].
  cbn [dval deep_ptr] in E. cbn [new_copy sh_ptr].
  apply bind_Some in E as (x & El & E). rewrite El. apply bind_Some in E as (w & Ew & [= <-]).
  intros h Hh. set (l' := fresh (dom h)).
  assert (h !! l' = None) as Hl' by apply not_elem_of_dom, is_fresh.
  assert (h0 ⊆ <[l' := put zero]> h) as Hh' by (etrans; [done|by apply insert_subseteq]).
  destruct (Hf h0 x w Ew _ Hh') as (d & y & Ey & Hd & Hc & Hy).
  apply map_disjoint_insert_r in Hd as [Hdl Hd].
  apply bind_Some in El as (c & Hlc & Hgc).
  exists (<[l' := put y]> d), (PAt l'). unfold hbind, alloc, hret. fold l'.
  unfold load. rewrite (lookup_weaken _ _ _ _ Hlc Hh') /= Hgc Ey /store.
  rewrite -insert_union_l lookup_insert_eq insert_insert_eq insert_union_new //.
  split; [done|]. split; [by apply map_disjoint_insert_l|]. split.
  - apply (boxed_cells _ (V := V)); [done|by exists w; apply Hy|done].
  - apply copy_of_ptr; [exact (lookup_weaken_None _ _ _ Hl' Hh)|done..].
Qed.

Lemma slice_parts `{InCell cell (list T), Deep cell T V} h0 l off len (v : option (list V)) :
  dval h0 (SAt (T := T) l off len) = Some v →
  ∃ a xs vs, h0 !! l ≫= got = Some a ∧ window a off len = Some xs
    ∧ elems h0 (SAt (T := T) l off len) = Some xs ∧ dval h0 xs = Some vs ∧ v = Some vs.
Proof.
  intros E. apply bind_Some in E as (xs & Exs & E). apply bind_Some in E as (vs & Evs & [= <-]).
  pose proof Exs as (a & Ea & Ew)%bind_Some. by exists a, xs, vs.
Qed.

Lemma load_window h0 {T B} `{InCell cell (list T)} l off len (a xs : list T)
    (k : list T → H cell B) Q :
  h0 !! l ≫= got = Some a → window a off len = Some xs →
  copying h0 (k xs) Q → copying h0 (hbind (load_slice l off len) k) Q.
Proof.
  intros Ha Hw Hk h Hh. destruct (Hk h Hh) as (d & b & E & HR). exists d, b. split; [|done].
  apply bind_Some in Ha as (c & Hc & Hg).
  unfold hbind, load_slice, hbind, load. by rewrite (lookup_weaken _ _ _ _ Hc Hh) /= Hg Hw.
Qed.

Lemma copier_slice `{InCellLaw cell (list T), !Deep cell T V, !DeepLaws cell T V,
    !CellOkFor cell (list T) (list V)} :
  copier copy_slice (sh_slice (T := T) dlocs).
Proof.
  intros h0 [|l off len] v E; [by apply copying_ret; cbn in *; simplify_eq; unfold copy_of; set_solver|].
  destruct (slice_parts _ _ _ _ _ E) as (a & xs & vs & Ea & Ew & Exs & Evs & ->).
  unfold sh_slice. rewrite Exs. cbn [default from_option copy_slice].
  eapply load_window; [done..|]. intros h Hh. set (l' := fresh (dom h)).
  assert (h !! l' = None) as Hl' by apply not_elem_of_dom, is_fresh.
  exists (<[l' := put xs]> ∅), (SAt l' 0 (length xs)). unfold hbind, alloc, hret. fold l'.
  rewrite -insert_union_new // right_id_L. split; [done|]. split; [|split].
  - apply map_disjoint_insert_l. split; [done|apply map_disjoint_empty_l].
  - apply (boxed_cells _ (V := list V)); [done| |apply map_Forall_empty]. rewrite right_id_L. by eexists.
  - apply copy_of_slice; [exact (lookup_weaken_None _ _ _ Hl' Hh)|done|].
    unfold copy_of. rewrite right_id_L Evs. cbn [dlocs deep_list]. set_solver.
Qed.

(** The loop of a list: [d] are the cells of the copied items, next to the
    array that is being filled. *)
Lemma fill_copies `{InCellLaw cell (list T), !Deep cell T V, !DeepLaws cell T V}
    (f : T → H cell T) sh h0 l xs vs :
  copier f sh → Forall2 (λ x v, dval h0 x = Some v) xs vs →
  ∀ hb pre post, h0 ⊆ hb → hb !! l = None → length post = length xs →
  ∃ d ys, fill f l xs (length pre) (<[l := put (pre ++ post)]> hb)
          = Some (<[l := put (pre ++ ys)]> (hb ∪ d), tt)
    ∧ length ys = length xs ∧ d ##ₘ hb ∧ d !! l = None ∧ new_ok h0 d
    ∧ copy_of h0 (⋃ (sh h0 <$> xs)) vs d ys.
Proof.
  intros Hf. induction 1 as [|x v xs vs Ex _ IH]; intros hb pre post Hh Hl Hlen.
  { apply nil_length_inv in Hlen as ->. exists ∅, []. rewrite map_union_empty.
    split; [done|]. split; [done|]. split; [apply map_disjoint_empty_l|]. split; [done|].
    split; [apply map_Forall_empty|apply copy_of_nil]. }
  destruct post as [|z post]; [done|]. injection Hlen as Hlen.
  assert (h0 ⊆ <[l := put (pre ++ z :: post)]> hb) as Hh' by (etrans; [done|by apply insert_subseteq]).
  destruct (Hf h0 x v Ex _ Hh') as (d1 & y & Ey & Hd1 & Hc1 & Hy).
  apply map_disjoint_insert_r in Hd1 as [Hd1l Hd1].
  destruct (IH (hb ∪ d1) (pre ++ [y]) post) as (d2 & ys & E2 & Hys & Hd2 & Hd2l & Hc2 & Hcs);
    [etrans; [exact Hh|apply map_union_subseteq_l]|by rewrite lookup_union_None|done|].
  apply map_disjoint_union_r in Hd2 as [Hd2 Hd12].
  exists (d1 ∪ d2), (y :: ys). split.
  { cbn [fill]. unfold hbind at 1. rewrite Ey -insert_union_l. unfold hbind at 1, load.
    rewrite lookup_insert_eq. cbn [mbind option_bind]. rewrite got_put. unfold hbind, store.
    rewrite lookup_insert_eq insert_insert_eq insert_app_r_alt // Nat.sub_diag.
    rewrite length_app Nat.add_1_r -!app_assoc in E2. rewrite -assoc_L in E2. cbn. exact E2. }
  split; [simpl; by rewrite Hys|]. split; [by apply map_disjoint_union_l|].
  split; [by rewrite lookup_union_None|]. split; [by apply new_ok_union|].
  apply copy_of_cons.
  - eapply copy_of_steady; [|done]. apply map_union_subseteq_l.
  - eapply copy_of_steady; [|done]. by apply map_union_subseteq_r.
Qed.

Lemma copier_items `{InCellLaw cell (list T), !Deep cell T V, !DeepLaws cell T V,
    !CellOkFor cell (list T) (list V)} (zero : T) (f : T → H cell T) sh :
  copier f sh → copier (copy_items zero f) (sh_slice sh).
Proof.
  intros Hf h0 [|l off len] v E; [by apply copying_ret; cbn in *; simplify_eq; unfold copy_of; set_solver|].
  destruct (slice_parts _ _ _ _ _ E) as (a & xs & vs & Ea & Ew & Exs & Evs & ->).
  unfold sh_slice. rewrite Exs. cbn [default from_option copy_items].
  eapply load_window; [done..|]. intros h Hh. set (l' := fresh (dom h)).
  assert (h !! l' = None) as Hl' by apply not_elem_of_dom, is_fresh.
  destruct (fill_copies f sh h0 l' xs vs Hf) with (hb := h) (pre := @nil T)
    (post := replicate (length xs) zero) as (d & ys & Ey & Hlen & Hd & Hdl & Hc & Hys);
    [by apply mapM_Some|done|done|by rewrite length_replicate|].
  exists (<[l' := put ys]> d), (SAt l' 0 (length xs)). unfold hbind, alloc, hret. fold l'.
  simpl in Ey. rewrite Ey. split; [by rewrite insert_union_new|].
  split; [by apply map_disjoint_insert_l|]. rewrite -Hlen. split.
  - apply (boxed_cells _ (V := list V)); [done|by exists vs; apply Hys|done].
  - apply copy_of_slice; [exact (lookup_weaken_None _ _ _ Hl' Hh)|done..].
Qed.

(** What a caller sees who copies in a well-formed heap. *)
Lemma copier_outcome `{DeepLaws cell T V} (f : T → H cell T) sh h x (v : V) :
  copier f sh → heap_ok h → dval h x = Some v →
  ∃ h' y, f x h = Some (h', y) ∧ h ⊆ h' ∧ heap_ok h' ∧ dval h' y = Some v
    ∧ sh h x ⊆ dlocs h' y ∧ dlocs h' y ∩ dom h ⊆ sh h x.
Proof.
  intros Hf Hh Ex. destruct (Hf h x v Ex h ltac:(done)) as (d & y & Ey & Hd & Hc & E & A & B).
  exists (h ∪ d), y. split; [done|]. split; [apply map_union_subseteq_l|]. split.
  - intros l c [Hl|Hl]%lookup_union_Some; [| |done].
    + eapply cell_ok_mono; [apply map_union_subseteq_l|exact (Hh _ _ Hl)].
    + exact (Hc _ _ Hl).
  - split; [done|]. split; [done|]. apply map_disjoint_dom in Hd. set_solver.
Qed.

End copying.

#[export] Hint Resolve copy_of_steady steady_done steady_then copying_done : gn.
