(* ===== verification/DeepCopy.v ===== *)
(** * Deep copies of the custom resources

    The DeepCopyInto and DeepCopy methods of api/v1alpha1/types.go, on a heap
    of Go objects.  The copying of object and list metadata belongs to
    k8s.io/apimachinery and is the class [MetaLib].  In every call of
    DeepCopyInto in the file the destination is a new object, so that writing it
    never changes the source; the method is modelled as the function from the
    source to the value it leaves in the destination. *)

From S2P Require Import Prelude Values K8sTypes Heap.

(** ** The objects *)

(** metav1.ObjectMeta and metav1.ListMeta. *)
Class MetaTypes := { ObjectMeta : Type; ListMeta : Type; om_zero : ObjectMeta; lm_zero : ListMeta }.

Record TypeMeta : Type := { tm_Kind : string; tm_APIVersion : string }.

(** corev1.EnvVarSource, whose fields are not looked at. *)
Record EnvVarSource : Type := { evs_fields : any }.
Record hEnvVar : Type := {
  he_Name : string; he_Value : string; he_ValueFrom : ptr EnvVarSource
}.

(** metav1.LabelSelector. *)
Record hRequirement : Type := { hr_Key : string; hr_Operator : string; hr_Values : slice string }.
Record hSelector : Type := {
  hl_MatchLabels : ptr (gmap string string); hl_MatchExpressions : slice hRequirement
}.

Record hWorkspaceSpec : Type := {
  hs_Image : string; hs_Env : slice hEnvVar; hs_Ports : slice WorkspacePort;
  hs_Exposure : ptr WorkspaceExposure; hs_PresetsRef : string; hs_Notes : string
}.

Record hWorkspaceStatus : Type := {
  ht_Phase : string; ht_ReadyReplicas : Z; ht_ServiceDNS : string; ht_ServiceIP : string;
  ht_ExternalURL : string; ht_ProxyTarget : string; ht_Conditions : slice Condition;
  ht_LastError : string
}.

Record hConstraints : Type := {
  hc_AllowedImages : slice string; hc_AllowedPorts : slice Z; hc_MaxConcurrent : ptr Z
}.
Record hCapabilitySpec : Type := {
  hcs_Actions : slice string; hcs_Selector : ptr hSelector; hcs_Constraints : ptr hConstraints
}.

Section objects.
Context `{MetaTypes}.

Record hWorkspace : Type := {
  hw_TypeMeta : TypeMeta; hw_ObjectMeta : ObjectMeta; hw_Spec : hWorkspaceSpec;
  hw_Status : hWorkspaceStatus
}.
Record hWorkspaceList : Type := {
  hwl_TypeMeta : TypeMeta; hwl_ListMeta : ListMeta; hwl_Items : slice hWorkspace
}.
Record hCapability : Type := {
  hcap_TypeMeta : TypeMeta; hcap_ObjectMeta : ObjectMeta; hcap_Spec : hCapabilitySpec;
  hcap_ObservedGeneration : Z
}.
Record hCapabilityList : Type := {
  hcl_TypeMeta : TypeMeta; hcl_ListMeta : ListMeta; hcl_Items : slice hCapability
}.

(** What the heap holds: one constructor per type that is allocated, and one
    for what the metadata refers to. *)
Inductive cell : Type :=
  | CEnv (l : list hEnvVar) | CSource (x : EnvVarSource) | CPorts (l : list WorkspacePort)
  | CExposure (x : WorkspaceExposure) | CConditions (l : list Condition)
  | CStrings (l : list string) | CInts (l : list Z) | CInt (x : Z)
  | CLabels (m : gmap string string) | CRequirements (l : list hRequirement)
  | CSelector (x : hSelector) | CConstraints (x : hConstraints)
  | CWorkspaces (l : list hWorkspace) | CCapabilities (l : list hCapability)
  | CWorkspace (x : hWorkspace) | CCapability (x : hCapability)
  | CWorkspaceList (x : hWorkspaceList) | CCapabilityList (x : hCapabilityList)
  | CMeta (v : any).

End objects.
Arguments cell : clear implicits.
Arguments cell {_}.

Section cells.
Context `{MetaTypes}.

#[export] Instance in_env : InCell cell (list hEnvVar) :=
  {| put := CEnv; got c := match c with CEnv l => Some l | _ => None end |}.
#[export] Instance in_source : InCell cell EnvVarSource :=
  {| put := CSource; got c := match c with CSource x => Some x | _ => None end |}.
#[export] Instance in_ports : InCell cell (list WorkspacePort) :=
  {| put := CPorts; got c := match c with CPorts l => Some l | _ => None end |}.
#[export] Instance in_exposure : InCell cell WorkspaceExposure :=
  {| put := CExposure; got c := match c with CExposure x => Some x | _ => None end |}.
#[export] Instance in_conditions : InCell cell (list Condition) :=
  {| put := CConditions; got c := match c with CConditions l => Some l | _ => None end |}.
#[export] Instance in_strings : InCell cell (list string) :=
  {| put := CStrings; got c := match c with CStrings l => Some l | _ => None end |}.
#[export] Instance in_ints : InCell cell (list Z) :=
  {| put := CInts; got c := match c with CInts l => Some l | _ => None end |}.
#[export] Instance in_int : InCell cell Z :=
  {| put := CInt; got c := match c with CInt x => Some x | _ => None end |}.
#[export] Instance in_labels : InCell cell (gmap string string) :=
  {| put := CLabels; got c := match c with CLabels m => Some m | _ => None end |}.
#[export] Instance in_requirements : InCell cell (list hRequirement) :=
  {| put := CRequirements; got c := match c with CRequirements l => Some l | _ => None end |}.
#[export] Instance in_selector : InCell cell hSelector :=
  {| put := CSelector; got c := match c with CSelector x => Some x | _ => None end |}.
#[export] Instance in_constraints : InCell cell hConstraints :=
  {| put := CConstraints; got c := match c with CConstraints x => Some x | _ => None end |}.
#[export] Instance in_workspaces : InCell cell (list hWorkspace) :=
  {| put := CWorkspaces; got c := match c with CWorkspaces l => Some l | _ => None end |}.
#[export] Instance in_capabilities : InCell cell (list hCapability) :=
  {| put := CCapabilities; got c := match c with CCapabilities l => Some l | _ => None end |}.
#[export] Instance in_workspace : InCell cell hWorkspace :=
  {| put := CWorkspace; got c := match c with CWorkspace x => Some x | _ => None end |}.
#[export] Instance in_capability : InCell cell hCapability :=
  {| put := CCapability; got c := match c with CCapability x => Some x | _ => None end |}.
#[export] Instance in_workspace_list : InCell cell hWorkspaceList :=
  {| put := CWorkspaceList; got c := match c with CWorkspaceList x => Some x | _ => None end |}.
#[export] Instance in_capability_list : InCell cell hCapabilityList :=
  {| put := CCapabilityList; got c := match c with CCapabilityList x => Some x | _ => None end |}.

End cells.

(** The metadata types of the library: what they refer to, and their
    DeepCopyInto. *)
Class MetaLib `{MetaTypes} := {
  om_value : Type; lm_value : Type;
  deep_om :: Deep cell ObjectMeta om_value;
  deep_lm :: Deep cell ListMeta lm_value;
  om_DeepCopyInto : ObjectMeta → H cell ObjectMeta;
  lm_DeepCopyInto : ListMeta → H cell ListMeta
}.

(** ** The methods *)

Section methods.
Context `{MetaLib}.
Local Open Scope go_scope.

Definition Workspace_DeepCopyInto (x : hWorkspace) : H cell hWorkspace :=
  let! meta := om_DeepCopyInto (hw_ObjectMeta x) in
  let! env := copy_slice (hs_Env (hw_Spec x)) in
  let! ports := copy_slice (hs_Ports (hw_Spec x)) in
  let! exposure := copy_ptr hret (hs_Exposure (hw_Spec x)) in
  let! conditions := copy_slice (ht_Conditions (hw_Status x)) in
  hret
    {| hw_TypeMeta := hw_TypeMeta x; hw_ObjectMeta := meta;
       hw_Spec := {| hs_Image := hs_Image (hw_Spec x); hs_Env := env; hs_Ports := ports;
                     hs_Exposure := exposure; hs_PresetsRef := hs_PresetsRef (hw_Spec x);
                     hs_Notes := hs_Notes (hw_Spec x) |};
       hw_Status := {| ht_Phase := ht_Phase (hw_Status x);
                       ht_ReadyReplicas := ht_ReadyReplicas (hw_Status x);
                       ht_ServiceDNS := ht_ServiceDNS (hw_Status x);
                       ht_ServiceIP := ht_ServiceIP (hw_Status x);
                       ht_ExternalURL := ht_ExternalURL (hw_Status x);
                       ht_ProxyTarget := ht_ProxyTarget (hw_Status x);
                       ht_Conditions := conditions;
                       ht_LastError := ht_LastError (hw_Status x) |} |}.

(** [cc := *in.Spec.Constraints] with the slices replaced. *)
Definition Constraints_copy (x : hConstraints) : H cell hConstraints :=
  let! images := copy_slice (hc_AllowedImages x) in
  let! ports := copy_slice (hc_AllowedPorts x) in
  hret {| hc_AllowedImages := images; hc_AllowedPorts := ports;
          hc_MaxConcurrent := hc_MaxConcurrent x |}.

Definition Capability_DeepCopyInto (x : hCapability) : H cell hCapability :=
  let! meta := om_DeepCopyInto (hcap_ObjectMeta x) in
  let! actions := copy_slice (hcs_Actions (hcap_Spec x)) in
  let! selector := copy_ptr hret (hcs_Selector (hcap_Spec x)) in
  let! constraints := copy_ptr Constraints_copy (hcs_Constraints (hcap_Spec x)) in
  hret
    {| hcap_TypeMeta := hcap_TypeMeta x; hcap_ObjectMeta := meta;
       hcap_Spec := {| hcs_Actions := actions; hcs_Selector := selector;
                       hcs_Constraints := constraints |};
       hcap_ObservedGeneration := hcap_ObservedGeneration x |}.

(** New objects have zero fields. *)
Definition zero_tm : TypeMeta := {| tm_Kind := ""; tm_APIVersion := "" |}.
Definition zero_workspace : hWorkspace :=
  {| hw_TypeMeta := zero_tm; hw_ObjectMeta := om_zero;
     hw_Spec := {| hs_Image := ""; hs_Env := SNil; hs_Ports := SNil; hs_Exposure := PNil;
                   hs_PresetsRef := ""; hs_Notes := "" |};
     hw_Status := {| ht_Phase := ""; ht_ReadyReplicas := 0; ht_ServiceDNS := "";
                     ht_ServiceIP := ""; ht_ExternalURL := ""; ht_ProxyTarget := "";
                     ht_Conditions := SNil; ht_LastError := "" |} |}.
Definition zero_capability : hCapability :=
  {| hcap_TypeMeta := zero_tm; hcap_ObjectMeta := om_zero;
     hcap_Spec := {| hcs_Actions := SNil; hcs_Selector := PNil; hcs_Constraints := PNil |};
     hcap_ObservedGeneration := 0 |}.

Definition WorkspaceList_DeepCopyInto (x : hWorkspaceList) : H cell hWorkspaceList :=
  let! meta := lm_DeepCopyInto (hwl_ListMeta x) in
  let! items := copy_items zero_workspace Workspace_DeepCopyInto (hwl_Items x) in
  hret {| hwl_TypeMeta := hwl_TypeMeta x; hwl_ListMeta := meta; hwl_Items := items |}.

Definition CapabilityList_DeepCopyInto (x : hCapabilityList) : H cell hCapabilityList :=
  let! meta := lm_DeepCopyInto (hcl_ListMeta x) in
  let! items := copy_items zero_capability Capability_DeepCopyInto (hcl_Items x) in
  hret {| hcl_TypeMeta := hcl_TypeMeta x; hcl_ListMeta := meta; hcl_Items := items |}.

Definition Workspace_DeepCopy : ptr hWorkspace → H cell (ptr hWorkspace) :=
  new_copy zero_workspace Workspace_DeepCopyInto.
Definition Capability_DeepCopy : ptr hCapability → H cell (ptr hCapability) :=
  new_copy zero_capability Capability_DeepCopyInto.
Definition WorkspaceList_DeepCopy : ptr hWorkspaceList → H cell (ptr hWorkspaceList) :=
  new_copy {| hwl_TypeMeta := zero_tm; hwl_ListMeta := lm_zero; hwl_Items := SNil |}
    WorkspaceList_DeepCopyInto.
Definition CapabilityList_DeepCopy : ptr hCapabilityList → H cell (ptr hCapabilityList) :=
  new_copy {| hcl_TypeMeta := zero_tm; hcl_ListMeta := lm_zero; hcl_Items := SNil |}
    CapabilityList_DeepCopyInto.

(** DeepCopyObject returns the copy as an interface value, nil for nil. *)
Inductive runtime_Object : Type :=
  | OWorkspace (l : loc) | OWorkspaceList (l : loc) | OCapability (l : loc)
  | OCapabilityList (l : loc).

Definition DeepCopyObject {T} (DeepCopy : ptr T → H cell (ptr T)) (obj : loc → runtime_Object)
    (p : ptr T) : H cell (option runtime_Object) :=
  let! c := DeepCopy p in
  hret (match c with PAt l => Some (obj l) | PNil => None end).

Definition Workspace_DeepCopyObject := DeepCopyObject Workspace_DeepCopy OWorkspace.
Definition WorkspaceList_DeepCopyObject := DeepCopyObject WorkspaceList_DeepCopy OWorkspaceList.
Definition Capability_DeepCopyObject := DeepCopyObject Capability_DeepCopy OCapability.
Definition CapabilityList_DeepCopyObject :=
  DeepCopyObject CapabilityList_DeepCopy OCapabilityList.

End methods.

(** ** Values and well-formed heaps *)

Section values.
Context `{MetaLib}.

#[export] Instance deep_string : Deep cell string string := plain string.
#[export] Instance deep_Z : Deep cell Z Z := plain Z.
#[export] Instance deep_tm : Deep cell TypeMeta TypeMeta := plain TypeMeta.
#[export] Instance deep_source : Deep cell EnvVarSource EnvVarSource := plain EnvVarSource.
#[export] Instance deep_port : Deep cell WorkspacePort WorkspacePort := plain WorkspacePort.
#[export] Instance deep_exposure : Deep cell WorkspaceExposure WorkspaceExposure :=
  plain WorkspaceExposure.
#[export] Instance deep_condition : Deep cell Condition Condition := plain Condition.
#[export] Instance deep_labels : Deep cell (gmap string string) (gmap string string) :=
  plain (gmap string string).

#[export] Instance deep_env : Deep cell hEnvVar _ :=
  deep_via (λ e, (he_Name e, he_Value e, he_ValueFrom e)).
#[export] Instance deep_requirement : Deep cell hRequirement _ :=
  deep_via (λ r, (hr_Key r, hr_Operator r, hr_Values r)).
#[export] Instance deep_selector : Deep cell hSelector _ :=
  deep_via (λ s, (hl_MatchLabels s, hl_MatchExpressions s)).
#[export] Instance deep_constraints : Deep cell hConstraints _ :=
  deep_via (λ c, (hc_AllowedImages c, hc_AllowedPorts c, hc_MaxConcurrent c)).
#[export] Instance deep_wspec : Deep cell hWorkspaceSpec _ :=
  deep_via (λ s, (hs_Image s, hs_Env s, hs_Ports s, hs_Exposure s, hs_PresetsRef s, hs_Notes s)).
#[export] Instance deep_wstatus : Deep cell hWorkspaceStatus _ :=
  deep_via (λ s, (ht_Phase s, ht_ReadyReplicas s, ht_ServiceDNS s, ht_ServiceIP s,
                  ht_ExternalURL s, ht_ProxyTarget s, ht_Conditions s, ht_LastError s)).
#[export] Instance deep_workspace : Deep cell hWorkspace _ :=
  deep_via (λ w, (hw_TypeMeta w, hw_ObjectMeta w, hw_Spec w, hw_Status w)).
#[export] Instance deep_cspec : Deep cell hCapabilitySpec _ :=
  deep_via (λ s, (hcs_Actions s, hcs_Selector s, hcs_Constraints s)).
#[export] Instance deep_capability : Deep cell hCapability _ :=
  deep_via (λ c, (hcap_TypeMeta c, hcap_ObjectMeta c, hcap_Spec c, hcap_ObservedGeneration c)).
#[export] Instance deep_wlist : Deep cell hWorkspaceList _ :=
  deep_via (λ l, (hwl_TypeMeta l, hwl_ListMeta l, hwl_Items l)).
#[export] Instance deep_clist : Deep cell hCapabilityList _ :=
  deep_via (λ l, (hcl_TypeMeta l, hcl_ListMeta l, hcl_Items l)).

(** A cell is well-formed if its references lead to cells of their types. *)
Definition typed_cell (h : gmap loc cell) (c : cell) : Prop :=
  match c with
  | CEnv l => is_Some (dval h l)
  | CRequirements l => is_Some (dval h l)
  | CSelector x => is_Some (dval h x)
  | CConstraints x => is_Some (dval h x)
  | CWorkspaces l => is_Some (dval h l)
  | CCapabilities l => is_Some (dval h l)
  | CWorkspace x => is_Some (dval h x)
  | CCapability x => is_Some (dval h x)
  | CWorkspaceList x => is_Some (dval h x)
  | CCapabilityList x => is_Some (dval h x)
  | _ => True
  end.

End values.

(** References of the metadata behave like references. *)
Class MetaRefs `{MetaLib} : Prop := {
  om_refs :: DeepLaws cell ObjectMeta om_value;
  lm_refs :: DeepLaws cell ListMeta lm_value
}.

Section laws.
Context `{MetaRefs}.

#[export] Instance string_laws : DeepLaws cell string string := plain_laws _.
#[export] Instance Z_laws : DeepLaws cell Z Z := plain_laws _.
#[export] Instance tm_laws : DeepLaws cell TypeMeta TypeMeta := plain_laws _.
#[export] Instance source_laws : DeepLaws cell EnvVarSource EnvVarSource := plain_laws _.
#[export] Instance port_laws : DeepLaws cell WorkspacePort WorkspacePort := plain_laws _.
#[export] Instance exposure_laws : DeepLaws cell WorkspaceExposure WorkspaceExposure :=
  plain_laws _.
#[export] Instance condition_laws : DeepLaws cell Condition Condition := plain_laws _.
#[export] Instance labels_laws : DeepLaws cell (gmap string string) (gmap string string) :=
  plain_laws _.
#[export] Instance env_laws : DeepLaws cell hEnvVar _ := deep_via_laws _.
#[export] Instance requirement_laws : DeepLaws cell hRequirement _ := deep_via_laws _.
#[export] Instance selector_laws : DeepLaws cell hSelector _ := deep_via_laws _.
#[export] Instance constraints_laws : DeepLaws cell hConstraints _ := deep_via_laws _.
#[export] Instance wspec_laws : DeepLaws cell hWorkspaceSpec _ := deep_via_laws _.
#[export] Instance wstatus_laws : DeepLaws cell hWorkspaceStatus _ := deep_via_laws _.
#[export] Instance workspace_laws : DeepLaws cell hWorkspace _ := deep_via_laws _.
#[export] Instance cspec_laws : DeepLaws cell hCapabilitySpec _ := deep_via_laws _.
#[export] Instance capability_laws : DeepLaws cell hCapability _ := deep_via_laws _.
#[export] Instance wlist_laws : DeepLaws cell hWorkspaceList _ := deep_via_laws _.
#[export] Instance clist_laws : DeepLaws cell hCapabilityList _ := deep_via_laws _.

#[export] Program Instance heap_cells : CellOk cell := {| cell_ok := typed_cell |}.
Next Obligation.
  intros h h' [] Hs Hc; try done; destruct Hc as [v Hv]; exists v; by eapply dval_mono.
Qed.

End laws.

#[export] Hint Extern 1 (InCellLaw cell _) => (intros ?; reflexivity) : typeclass_instances.
#[export] Hint Extern 1 (CellOkFor cell _ _) =>
  (intros ? ? Hx; first [exact Hx|exact I]) : typeclass_instances.

(** The metadata copies of the library are deep: nothing is shared. *)
Class MetaCopies `{MetaRefs} : Prop := {
  om_copier : copier om_DeepCopyInto (λ _ _, ∅);
  lm_copier : copier lm_DeepCopyInto (λ _ _, ∅)
}.

(** ** What is shared *)

Section sharing.
Context `{MetaCopies}.
Implicit Types h : gmap loc cell.

Definition at_ptr {T} (p : ptr T) : gset loc := match p with PNil => ∅ | PAt l => {[l]} end.

(** The EnvVarSources of the environment of a Workspace. *)
Definition shared_workspace h (w : hWorkspace) : gset loc :=
  sh_slice (λ _ e, at_ptr (he_ValueFrom e)) h (hs_Env (hw_Spec w)).

(** The labels and expressions of the selector of a Capability, and the limit
    of its constraints. *)
Definition shared_capability h (c : hCapability) : gset loc :=
  sh_ptr dlocs h (hcs_Selector (hcap_Spec c))
  ∪ sh_ptr (λ _ x, at_ptr (hc_MaxConcurrent x)) h (hcs_Constraints (hcap_Spec c)).

Lemma copier_shares {T V} `{Deep cell T V} (f : T → H cell T) sh sh' :
  copier f sh → (∀ h x, sh h x = sh' h x) → copier f sh'.
Proof. intros Hf E h0 x v Ex. rewrite -E. by apply Hf. Qed.

Lemma sh_slice_ext {T} `{InCell cell (list T)} (f g : gmap loc cell → T → gset loc) h s :
  (∀ x, f h x = g h x) → sh_slice f h s = sh_slice g h s.
Proof. intros E. unfold sh_slice. f_equal. by apply list_fmap_ext. Qed.

Lemma sh_slice_none {T} `{InCell cell (list T)} (f : gmap loc cell → T → gset loc) h s :
  (∀ x, f h x = ∅) → sh_slice f h s = ∅.
Proof.
  intros E. unfold sh_slice. induction (default [] (elems h s)) as [|x l IH]; [done|].
  simpl. by rewrite E IH left_id_L.
Qed.

Lemma sh_ptr_none {T} `{InCell cell T} (f : gmap loc cell → T → gset loc) h p :
  (∀ x, f h x = ∅) → sh_ptr f h p = ∅.
Proof. intros E. destruct p as [|l]; [done|]. unfold sh_ptr. by case_match. Qed.

Lemma at_ptr_plain {T} (p : ptr T) `{InCell cell T} h :
  @dlocs _ _ _ (@deep_ptr _ _ _ _ (plain T)) h p = at_ptr p.
Proof. destruct p as [|l]; [done|]. simpl. case_match; set_solver. Qed.

(** Split the value of a structure into the values of its fields. *)
Ltac dval_parts :=
  cbn [dval deep_via deep_workspace deep_wspec deep_wstatus deep_capability deep_cspec
       deep_constraints deep_wlist deep_clist] in *;
  repeat match goal with
  | E : dval _ (_, _) = Some _ |- _ => apply dval_pair in E as [? ?]
  end.

(** A sequence of copies, followed by the object made of them. *)
Ltac copy_step C := eapply copying_bind; [eapply C; eassumption|apply copy_of_steady|intros ?|].

Ltac copy_steady :=
  intros ?; repeat (apply steady_then; [apply copy_of_steady|intros ?]); apply steady_done.

(** The value of the copy, by its fields. *)
Ltac fields :=
  cbn [hw_TypeMeta hw_ObjectMeta hw_Spec hw_Status hs_Image hs_Env hs_Ports hs_Exposure
       hs_PresetsRef hs_Notes ht_Phase ht_ReadyReplicas ht_ServiceDNS ht_ServiceIP ht_ExternalURL
       ht_ProxyTarget ht_Conditions ht_LastError hcap_TypeMeta hcap_ObjectMeta hcap_Spec
       hcap_ObservedGeneration hcs_Actions hcs_Selector hcs_Constraints hc_AllowedImages
       hc_AllowedPorts hc_MaxConcurrent hwl_TypeMeta hwl_ListMeta hwl_Items hcl_TypeMeta
       hcl_ListMeta hcl_Items].
Ltac copied :=
  repeat first [eassumption|eapply copy_of_pair|eapply copy_of_same; eassumption
               |eapply copy_of_via; fields].

Lemma Workspace_copier : copier Workspace_DeepCopyInto shared_workspace.
Proof.
  intros h0 x v E. do 3 dval_parts.
  eapply copying_weaken.
  { unfold Workspace_DeepCopyInto.
    copy_step om_copier; [copy_step (copier_slice (T := hEnvVar)); [
      copy_step (copier_slice (T := WorkspacePort)); [
      copy_step (copier_ptr (T := WorkspaceExposure) hret dlocs copier_ret); [
      copy_step (copier_slice (T := Condition)); [apply copying_done|]|]|]|]|];
    copy_steady. }
  intros d b _ (meta & Hm & env & He & ports & Hp & ex & Hx & conds & Hc & ->).
  eapply copy_of_eq; [copied|].
  rewrite (sh_slice_none _ _ (hs_Ports _)) // (sh_slice_none _ _ (ht_Conditions _)) //.
  rewrite (sh_ptr_none _ _ (hs_Exposure _)) //.
  rewrite (sh_slice_ext (T := hEnvVar) _ (λ _ e, at_ptr (he_ValueFrom e))); [cbn; set_solver|].
  intros e. etrans; [|apply (at_ptr_plain (T := EnvVarSource) _ h0)].
  unfold dlocs at 1. cbn [deep_env deep_via deep_pair dlocs fst snd]. set_solver.
Qed.

Lemma Constraints_copier : copier Constraints_copy (λ _ x, at_ptr (hc_MaxConcurrent x)).
Proof.
  intros h0 x v E. dval_parts. eapply copying_weaken.
  { unfold Constraints_copy. copy_step (copier_slice (T := string)); [
      copy_step (copier_slice (T := Z)); [apply copying_done|]|]; copy_steady. }
  intros d b _ (images & Hi & ports & Hp & ->). eapply copy_of_eq; [copied|].
  rewrite (sh_slice_none _ _ (hc_AllowedImages _)) // (sh_slice_none _ _ (hc_AllowedPorts _)) //.
  rewrite at_ptr_plain. set_solver.
Qed.

Lemma Capability_copier : copier Capability_DeepCopyInto shared_capability.
Proof.
  intros h0 x v E. do 2 dval_parts. eapply copying_weaken.
  { unfold Capability_DeepCopyInto. copy_step om_copier; [
      copy_step (copier_slice (T := string)); [
      copy_step (copier_ptr (T := hSelector) hret dlocs copier_ret); [
      copy_step (copier_ptr (T := hConstraints) _ _ Constraints_copier); [
      apply copying_done|]|]|]|]; copy_steady. }
  intros d b _ (meta & Hm & actions & Ha & sel & Hs & cons & Hc & ->).
  eapply copy_of_eq; [copied|].
  rewrite (sh_slice_none _ _ (hcs_Actions _)) //. unfold shared_capability. cbn. set_solver.
Qed.

Definition shared_workspace_list h (l : hWorkspaceList) : gset loc :=
  sh_slice shared_workspace h (hwl_Items l).
Definition shared_capability_list h (l : hCapabilityList) : gset loc :=
  sh_slice shared_capability h (hcl_Items l).

Lemma WorkspaceList_copier : copier WorkspaceList_DeepCopyInto shared_workspace_list.
Proof.
  intros h0 x v E. dval_parts. eapply copying_weaken.
  { unfold WorkspaceList_DeepCopyInto. copy_step lm_copier; [
      copy_step (copier_items (T := hWorkspace) zero_workspace _ _ Workspace_copier); [
      apply copying_done|]|]; copy_steady. }
  intros d b _ (meta & Hm & items & Hi & ->). eapply copy_of_eq; [copied|].
  unfold shared_workspace_list. cbn. set_solver.
Qed.

Lemma CapabilityList_copier : copier CapabilityList_DeepCopyInto shared_capability_list.
Proof.
  intros h0 x v E. dval_parts. eapply copying_weaken.
  { unfold CapabilityList_DeepCopyInto. copy_step lm_copier; [
      copy_step (copier_items (T := hCapability) zero_capability _ _ Capability_copier); [
      apply copying_done|]|]; copy_steady. }
  intros d b _ (meta & Hm & items & Hi & ->). eapply copy_of_eq; [copied|].
  unfold shared_capability_list. cbn. set_solver.
Qed.

End sharing.

(** ** Theorems *)

Section theorems.
Context `{MetaCopies}.
Implicit Types h : gmap loc cell.

(** What is shared belongs to the original. *)
Lemma sh_slice_mono {T} `{InCell cell (list T)} (f g : gmap loc cell → T → gset loc) h s :
  (∀ x, f h x ⊆ g h x) → sh_slice f h s ⊆ sh_slice g h s.
Proof.
  intros E. unfold sh_slice. induction (default [] (elems h s)) as [|x l IH]; simpl; [done|].
  by apply union_mono.
Qed.

Lemma sh_slice_dlocs {T V} `{InCell cell (list T), Deep cell T V} h (s : slice T) :
  sh_slice dlocs h s ⊆ dlocs h s.
Proof. unfold sh_slice. destruct s; simpl; set_solver. Qed.

Lemma sh_ptr_dlocs {T V} `{InCell cell T, Deep cell T V} (f : gmap loc cell → T → gset loc) h p :
  (∀ x, f h x ⊆ dlocs h x) → sh_ptr f h p ⊆ dlocs h p.
Proof.
  intros E. destruct p as [|l]; simpl; [done|]. case_match; [|set_solver].
  etrans; [apply E|set_solver].
Qed.

Lemma at_ptr_dlocs {T V} `{InCell cell T, Deep cell T V} h (p : ptr T) : at_ptr p ⊆ dlocs h p.
Proof. destruct p; simpl; set_solver. Qed.

Lemma shared_workspace_dlocs h w : shared_workspace h w ⊆ dlocs h w.
Proof.
  unfold shared_workspace. etrans; [apply (sh_slice_mono _ dlocs)|].
  { intros e. etrans; [apply (at_ptr_dlocs h)|]. cbn [dlocs deep_env deep_via deep_pair fst snd].
    apply union_subseteq_r. }
  etrans; [apply sh_slice_dlocs|].
  cbn [dlocs deep_workspace deep_wspec deep_via deep_pair fst snd]. set_solver.
Qed.

Lemma shared_capability_dlocs h c : shared_capability h c ⊆ dlocs h c.
Proof.
  unfold shared_capability. apply union_subseteq; split.
  - etrans; [by apply sh_ptr_dlocs|].
    cbn [dlocs deep_capability deep_cspec deep_via deep_pair fst snd]. set_solver.
  - etrans; [apply sh_ptr_dlocs|].
    { intros x. etrans; [apply (at_ptr_dlocs h)|].
      cbn [dlocs deep_constraints deep_via deep_pair fst snd]. apply union_subseteq_r. }
    cbn [dlocs deep_capability deep_cspec deep_via deep_pair fst snd]. set_solver.
Qed.

Lemma shared_workspace_list_dlocs h l : shared_workspace_list h l ⊆ dlocs h l.
Proof.
  unfold shared_workspace_list. etrans; [apply (sh_slice_mono _ dlocs); apply shared_workspace_dlocs|].
  etrans; [apply sh_slice_dlocs|]. cbn [dlocs deep_wlist deep_via deep_pair fst snd]. set_solver.
Qed.

Lemma shared_capability_list_dlocs h l : shared_capability_list h l ⊆ dlocs h l.
Proof.
  unfold shared_capability_list. etrans; [apply (sh_slice_mono _ dlocs); apply shared_capability_dlocs|].
  etrans; [apply sh_slice_dlocs|]. cbn [dlocs deep_clist deep_via deep_pair fst snd]. set_solver.
Qed.

(** Copying a pointer of a well-formed heap never dereferences a missing or
    wrongly typed cell, changes no cell that exists, keeps the heap well-formed,
    and returns a pointer to the same value (nil for nil). *)
Definition type_safe {T V} `{InCell cell T, Deep cell T V} (copy : ptr T → H cell (ptr T)) : Prop :=
  ∀ h p v, heap_ok h → dval h p = Some v →
    ∃ h' q, copy p h = Some (h', q) ∧ h ⊆ h' ∧ heap_ok h' ∧ dval h' q = Some v.

(** Of the cells of the copy exactly [sh] are cells of the original; a write
    to any other cell of one of the two is not seen through the other. *)
Definition shares {T V} `{InCell cell T, Deep cell T V} (copy : ptr T → H cell (ptr T))
    (sh : gmap loc cell → T → gset loc) : Prop :=
  ∀ h p v, heap_ok h → dval h p = Some v →
    ∃ h' q, copy p h = Some (h', q)
      ∧ dlocs h' q ∩ dom h = sh_ptr sh h p ∧ sh_ptr sh h p ⊆ dlocs h p
      ∧ (∀ a c, a ∈ dlocs h' q → a ∉ sh_ptr sh h p → dval (<[a := c]> h') p = Some v)
      ∧ (∀ a c, a ∈ dlocs h p → a ∉ sh_ptr sh h p → dval (<[a := c]> h') q = Some v).

Lemma copier_type_safe {T V} `{InCell cell T, Deep cell T V, !DeepLaws cell T V}
    (copy : ptr T → H cell (ptr T)) sh : copier copy sh → type_safe copy.
Proof.
  intros Hc h p v Hh E. destruct (copier_outcome _ _ _ _ _ Hc Hh E) as (h' & q & ? & ? & ? & ? & _).
  by exists h', q.
Qed.

Lemma copier_shares_only {T V} `{InCell cell T, Deep cell T V, !DeepLaws cell T V}
    (copy : ptr T → H cell (ptr T)) sh :
  copier copy (sh_ptr sh) → (∀ h x, sh h x ⊆ dlocs h x) → shares copy sh.
Proof.
  intros Hc Hsh h p v Hh E.
  destruct (copier_outcome _ _ _ _ _ Hc Hh E) as (h' & q & Ec & Hs & _ & Eq & A & B).
  assert (sh_ptr sh h p ⊆ dlocs h p) as Hp by by apply sh_ptr_dlocs.
  pose proof (dlocs_dom _ _ _ E) as Hd. destruct (dval_mono _ _ _ _ Hs E) as [Ep Elp].
  exists h', q. split; [done|]. split; [set_solver|]. split; [done|]. split.
  - intros a c Ha Hn. apply dval_write; [done|]. rewrite Elp. set_solver.
  - intros a c Ha Hn. apply dval_write; [done|]. set_solver.
Qed.

(** C21: deep copies are type safe.  In a well-formed heap, copying a Workspace,
    a Capability or a list of them always returns; it allocates new cells only,
    leaves the heap well-formed and gives an object of the same type and the
    same value, every nil pointer and nil slice staying nil; DeepCopyObject of
    nil is the nil interface. *)
Theorem deepcopy_type_safe :
  type_safe Workspace_DeepCopy ∧ type_safe WorkspaceList_DeepCopy
  ∧ type_safe Capability_DeepCopy ∧ type_safe CapabilityList_DeepCopy
  ∧ (∀ h, Workspace_DeepCopyObject PNil h = Some (h, None)
          ∧ Capability_DeepCopyObject PNil h = Some (h, None)
          ∧ WorkspaceList_DeepCopyObject PNil h = Some (h, None)
          ∧ CapabilityList_DeepCopyObject PNil h = Some (h, None)).
Proof.
  split; [|split; [|split; [|split]]]; [..|done]; eapply copier_type_safe, copier_new;
    eauto using Workspace_copier, WorkspaceList_copier, Capability_copier, CapabilityList_copier.
Qed.

(** C14: what deep copies share.  A copied Workspace shares the sources of its
    environment variables with the original and nothing else; a copied
    Capability shares the labels and expressions of its selector and the limit
    of its constraints; a list shares what its items share.  A write to any
    other part of one of the two never shows in the other. *)
Theorem deepcopy_shares :
  shares Workspace_DeepCopy shared_workspace
  ∧ shares WorkspaceList_DeepCopy shared_workspace_list
  ∧ shares Capability_DeepCopy shared_capability
  ∧ shares CapabilityList_DeepCopy shared_capability_list.
Proof.
  split; [|split; [|split]]; apply copier_shares_only;
    eauto using shared_workspace_dlocs, shared_workspace_list_dlocs, shared_capability_dlocs,
      shared_capability_list_dlocs; apply copier_new;
    eauto using Workspace_copier, WorkspaceList_copier, Capability_copier, CapabilityList_copier.
Qed.

End theorems.

(** ** A concrete heap *)

(** Metadata that is one optional object. *)
#[local] Instance demo_meta_types : MetaTypes :=
  {| ObjectMeta := ptr any; ListMeta := ptr any; om_zero := PNil; lm_zero := PNil |}.
#[local] Instance demo_in_meta : InCell cell any :=
  {| put := CMeta; got c := match c with CMeta v => Some v | _ => None end |}.
#[local] Instance demo_deep_any : Deep cell any any := plain any.
#[local] Instance demo_any_laws : DeepLaws cell any any := plain_laws _.
#[local] Instance demo_meta_lib : MetaLib :=
  {| om_DeepCopyInto := copy_ptr hret; lm_DeepCopyInto := copy_ptr hret |}.
#[local] Instance demo_meta_refs : MetaRefs := {| om_refs := _; lm_refs := _ |}.
Lemma demo_meta_copier : copier (T := ptr any) (copy_ptr hret) (λ _ _, ∅).
Proof.
  eapply copier_shares; [apply copier_ptr, copier_ret|]. intros h p. by apply sh_ptr_none.
Qed.
#[local] Instance demo_meta_copies : MetaCopies :=
  {| om_copier := demo_meta_copier; lm_copier := demo_meta_copier |}.

(** A Workspace with one environment variable that reads a secret, and a
    Capability with a selector and a limit. *)
Definition demo_heap : gmap loc cell :=
  {[ 1%positive := CSource {| evs_fields := AStr "secret a" |};
     2%positive := CEnv [{| he_Name := "A"; he_Value := ""; he_ValueFrom := PAt 1 |}];
     3%positive := CWorkspace
       {| hw_TypeMeta := zero_tm; hw_ObjectMeta := PNil;
          hw_Spec := {| hs_Image := "img"; hs_Env := SAt 2 0 1; hs_Ports := SNil;
                        hs_Exposure := PNil; hs_PresetsRef := ""; hs_Notes := "" |};
          hw_Status := hw_Status zero_workspace |};
     4%positive := CLabels {[ "team" := "a" ]};
     5%positive := CSelector {| hl_MatchLabels := PAt 4; hl_MatchExpressions := SNil |};
     6%positive := CInt 3;
     7%positive := CConstraints {| hc_AllowedImages := SNil; hc_AllowedPorts := SNil;
                                   hc_MaxConcurrent := PAt 6 |};
     8%positive := CCapability
       {| hcap_TypeMeta := zero_tm; hcap_ObjectMeta := PNil;
          hcap_Spec := {| hcs_Actions := SNil; hcs_Selector := PAt 5; hcs_Constraints := PAt 7 |};
          hcap_ObservedGeneration := 0 |} ]}.

Lemma demo_heap_ok : heap_ok demo_heap.
Proof.
  unfold heap_ok. unfold demo_heap at 2.
  repeat (apply map_Forall_insert_2); [..|apply map_Forall_empty].
  all: first [exact I | by (eexists; vm_compute; reflexivity)].
Qed.

Lemma deepcopy_type_safe_witness :
  ∃ h' q, Workspace_DeepCopy (PAt 3) demo_heap = Some (h', q) ∧ heap_ok h'
    ∧ dval h' q = dval demo_heap (PAt (T := hWorkspace) 3).
Proof.
  destruct (proj1 deepcopy_type_safe demo_heap (PAt 3) _ demo_heap_ok eq_refl)
    as (h' & q & E & _ & Hok & Ev).
  exists h', q. split; [exact E|]. split; [exact Hok|]. exact Ev.
Defined.

(** The copy's only old cell is the secret reference of the environment
    variable: redirecting it through the copy changes the original.  The copy
    of the Capability shares its labels and its limit. *)
Lemma deepcopy_shares_witness :
  (∃ h' q, Workspace_DeepCopy (PAt 3) demo_heap = Some (h', q)
     ∧ dlocs h' q ∩ dom demo_heap = {[1%positive]}
     ∧ dval (<[1%positive := CSource {| evs_fields := AStr "secret b" |}]> h')
         (PAt (T := hWorkspace) 3) ≠ dval demo_heap (PAt (T := hWorkspace) 3))
  ∧ ∃ h' q, Capability_DeepCopy (PAt 8) demo_heap = Some (h', q)
     ∧ dlocs h' q ∩ dom demo_heap = {[4%positive; 6%positive]}.
Proof.
  destruct deepcopy_shares as (Hw & _ & Hc & _). split.
  - destruct (Hw demo_heap (PAt 3) _ demo_heap_ok eq_refl) as (h' & q & E & Es & _).
    exists h', q. split; [exact E|]. split; [rewrite Es; by vm_compute|].
    vm_compute in E. injection E as <- <-. by vm_compute.
  - destruct (Hc demo_heap (PAt 8) _ demo_heap_ok eq_refl) as (h' & q & E & Es & _).
    exists h', q. split; [exact E|]. rewrite Es. by vm_compute.
Defined.
