(* ===== verification/PortForward.v ===== *)
(** * On-demand port forwards (internal/k8s/portforward.go)

    A manager keeps one port forward per pod and port in a table guarded by a
    mutex; each forward runs in a goroutine of client-go.  Every stretch of
    [Ensure] between two lock operations is one step of its caller, the
    goroutines and the operating system take steps of their own, and all steps
    interleave. *)

From S2P Require Import Prelude GoStrings.

Local Open Scope Z_scope.

(** ** State *)

(** What a caller asks for. *)
Record pf_req : Type := { q_namespace : string; q_pod : string; q_podPort : Z }.

(** A forward: the path of the API server and the ports it was started with,
    whether it has signalled that it is ready, and whether it has ended. *)
Record forward : Type := {
  fw_path : string; fw_port : Z; fw_podPort : Z; fw_ready : bool; fw_over : bool
}.

Definition fw_serving (f : forward) : bool := fw_ready f && negb (fw_over f).

Inductive pf_phase : Type :=
  | FStart
  | FProbe (lp : Z)                (* an entry was found *)
  | FStale                         (* it does not answer *)
  | FOpen                          (* no entry *)
  | FWait (id : nat)               (* the forward was started *)
  | FReady (id : nat)
  | FDone (r : result Z).

Record pf_state : Type := {
  m_namespace : string;
  m_clusterID : string;
  m_forwards : gmap string (Z * nat);    (* key to local port and forward *)
  pf_started : list forward;             (* all forwards ever started *)
  pf_stopped : gset nat;                 (* forwards whose stopCh was closed *)
  pf_callers : list (pf_req * pf_phase)
}.

Definition NewPortForwardManagerWithCluster (clusterID namespace : string) (qs : list pf_req)
    : pf_state :=
  {| m_namespace := namespace; m_clusterID := clusterID; m_forwards := ∅; pf_started := [];
     pf_stopped := ∅; pf_callers := (λ q, (q, FStart)) <$> qs |}.

Definition NewPortForwardManager (namespace : string) (qs : list pf_req) : pf_state :=
  NewPortForwardManagerWithCluster "" namespace qs.

(** ** Ensure *)

Definition pf_namespace (s : pf_state) (q : pf_req) : string :=
  if String.eqb (q_namespace q) "" then m_namespace s else q_namespace q.

Definition pf_key (clusterID namespace pod : string) (podPort : Z) : string :=
  clusterID +:+ "|" +:+ namespace +:+ "/" +:+ pod +:+ ":" +:+ fmt_d podPort.

Definition pf_key_of (s : pf_state) (q : pf_req) : string :=
  pf_key (m_clusterID s) (pf_namespace s q) (q_pod q) (q_podPort q).

Definition portforward_path (namespace pod : string) : string :=
  "/api/v1/namespaces/" +:+ namespace +:+ "/pods/" +:+ pod +:+ "/portforward".

(** A forward serves the local port. *)
Definition served (s : pf_state) (lp : Z) : bool :=
  existsb (λ f, (fw_port f =? lp) && fw_serving f) (pf_started s).

Definition with_phase (s : pf_state) (i : nat) (q : pf_req) (p : pf_phase) : pf_state :=
  {| m_namespace := m_namespace s; m_clusterID := m_clusterID s; m_forwards := m_forwards s;
     pf_started := pf_started s; pf_stopped := pf_stopped s;
     pf_callers := <[i := (q, p)]> (pf_callers s) |}.

Definition with_forwards (s : pf_state) (m : gmap string (Z * nat)) : pf_state :=
  {| m_namespace := m_namespace s; m_clusterID := m_clusterID s; m_forwards := m;
     pf_started := pf_started s; pf_stopped := pf_stopped s; pf_callers := pf_callers s |}.

Definition with_started (s : pf_state) (l : list forward) (stopped : gset nat) : pf_state :=
  {| m_namespace := m_namespace s; m_clusterID := m_clusterID s; m_forwards := m_forwards s;
     pf_started := l; pf_stopped := stopped; pf_callers := pf_callers s |}.

(** Under the lock: is there an entry? *)
Definition ensure_lookup (s : pf_state) (i : nat) (q : pf_req) : pf_state :=
  match m_forwards s !! pf_key_of s q with
  | Some (lp, _) => with_phase s i q (FProbe lp)
  | None => with_phase s i q FOpen
  end.

(** The probe of the local port; [ok] is whether the dial succeeded. *)
Definition ensure_probe (s : pf_state) (i : nat) (q : pf_req) (lp : Z) (ok : bool) : pf_state :=
  with_phase s i q (if ok then FDone (Ok lp) else FStale).

(** Under the lock again: forget the entry of the key. *)
Definition ensure_delete (s : pf_state) (i : nat) (q : pf_req) : pf_state :=
  with_phase (with_forwards s (delete (pf_key_of s q) (m_forwards s))) i q FOpen.

(** Pick a local port and start a forward; [r] is the port, or the error of
    listening, of the round tripper, of parsing the host or of the forwarder. *)
Definition ensure_open (s : pf_state) (i : nat) (q : pf_req) (r : result Z) : pf_state :=
  match r with
  | Err e => with_phase s i q (FDone (Err e))
  | Ok lp =>
      let f := {| fw_path := portforward_path (pf_namespace s q) (q_pod q); fw_port := lp;
                  fw_podPort := q_podPort q; fw_ready := false; fw_over := false |} in
      with_phase (with_started s (pf_started s ++ [f]) (pf_stopped s)) i q
        (FWait (length (pf_started s)))
  end.

(** The wait for the ready signal ends by it or by the timeout. *)
Definition ensure_ready (s : pf_state) (i : nat) (q : pf_req) (id : nat) : pf_state :=
  with_phase s i q (FReady id).
Definition ensure_timeout (s : pf_state) (i : nat) (q : pf_req) (id : nat) : pf_state :=
  with_phase (with_started s (pf_started s) ({[id]} ∪ pf_stopped s)) i q
    (FDone (Err "port-forward start timeout")).

(** Under the lock: store the entry. *)
Definition ensure_store (s : pf_state) (i : nat) (q : pf_req) (id : nat) : pf_state :=
  match pf_started s !! id with
  | Some f => with_phase (with_forwards s (<[pf_key_of s q := (fw_port f, id)]> (m_forwards s))) i q
                (FDone (Ok (fw_port f)))
  | None => s
  end.

(** ** Interleaving *)

Inductive pf_event : Type :=
  | ELookup (i : nat)
  | EProbe (i : nat) (ok : bool)
  | EDelete (i : nat)
  | EOpen (i : nat) (r : result Z)
  | EReady (i : nat)
  | ETimeout (i : nat)
  | EStore (i : nat)
  | EServe (id : nat)      (* the forward listens and signals that it is ready *)
  | EEnd (id : nat).       (* the forward ends: its pod, its connection or a stop *)

Definition fw_with (f : forward) (ready over : bool) : forward :=
  {| fw_path := fw_path f; fw_port := fw_port f; fw_podPort := fw_podPort f; fw_ready := ready;
     fw_over := over |}.

(** What can happen next.  A port can be bound once; a dial of the loopback
    interface succeeds exactly if the port is served (ports that processes
    outside the manager serve are left out); a new port is not in use. *)
Definition pf_do (e : pf_event) (s : pf_state) : option pf_state :=
  match e with
  | ELookup i => '(q, p) ← pf_callers s !! i;
      match p with FStart => Some (ensure_lookup s i q) | _ => None end
  | EProbe i ok => '(q, p) ← pf_callers s !! i;
      match p with
      | FProbe lp => if Bool.eqb ok (served s lp) then Some (ensure_probe s i q lp ok) else None
      | _ => None
      end
  | EDelete i => '(q, p) ← pf_callers s !! i;
      match p with FStale => Some (ensure_delete s i q) | _ => None end
  | EOpen i r => '(q, p) ← pf_callers s !! i;
      match p, r with
      | FOpen, Ok lp => if served s lp then None else Some (ensure_open s i q r)
      | FOpen, Err _ => Some (ensure_open s i q r)
      | _, _ => None
      end
  | EReady i => '(q, p) ← pf_callers s !! i;
      match p with
      | FWait id => f ← pf_started s !! id;
          if fw_ready f then Some (ensure_ready s i q id) else None
      | _ => None
      end
  | ETimeout i => '(q, p) ← pf_callers s !! i;
      match p with FWait id => Some (ensure_timeout s i q id) | _ => None end
  | EStore i => '(q, p) ← pf_callers s !! i;
      match p with FReady id => Some (ensure_store s i q id) | _ => None end
  | EServe id => f ← pf_started s !! id;
      if fw_ready f || fw_over f || served s (fw_port f) then None
      else Some (with_started s (<[id := fw_with f true false]> (pf_started s)) (pf_stopped s))
  | EEnd id => f ← pf_started s !! id;
      Some (with_started s (<[id := fw_with f (fw_ready f) true]> (pf_started s)) (pf_stopped s))
  end.

Definition pf_step (s s' : pf_state) : Prop := ∃ e, pf_do e s = Some s'.

Definition pf_run (es : list pf_event) (s : pf_state) : option pf_state :=
  run_events pf_do es s.

(** ** Keys *)

(** Names as Kubernetes allows them have neither of the separators. *)
Definition pf_name (s : string) : Prop := (zb 47 ∉ s2b s) ∧ (zb 58 ∉ s2b s).

#[export] Instance pf_name_dec s : Decision (pf_name s).
Proof. unfold pf_name. apply _. Defined.

Lemma cut_inj (x : ascii) (a b a' b' : bytes) :
  x ∉ a → x ∉ a' → a ++ x :: b = a' ++ x :: b' → a = a' ∧ b = b'.
Proof.
  revert a'; induction a as [|y a IH]; intros [|y' a'] Ha Ha' E; simplify_eq/=; [done|set_solver..|].
  destruct (IH a') as [-> ->]; [set_solver|set_solver|done|done].
Qed.

(** Different targets have different keys. *)
Lemma pf_key_inj cid ns pod port ns' pod' port' :
  pf_name ns → pf_name pod → pf_name ns' → pf_name pod' →
  pf_key cid ns pod port = pf_key cid ns' pod' port' → ns = ns' ∧ pod = pod' ∧ port = port'.
Proof.
  intros [Hn _] [_ Hp] [Hn' _] [_ Hp'] E. unfold pf_key in E. apply (f_equal s2b) in E.
  rewrite !s2b_app in E. apply app_inv_head in E.
  change (s2b "|") with [zb 124] in E. apply app_inv_head in E.
  change (s2b "/") with [zb 47] in E. apply cut_inj in E as [E1 E]; [|done..].
  change (s2b ":") with [zb 58] in E. apply cut_inj in E as [E2 E]; [|done..].
  apply s2b_inj in E1, E2, E. split; [done|]. split; [done|]. by apply (inj pretty).
Qed.

(** ** Invariant *)

Section invariant.
Context (cid ns : string).

Definition target_ns (q : pf_req) : string :=
  if String.eqb (q_namespace q) "" then ns else q_namespace q.
Definition target_key (q : pf_req) : string := pf_key cid (target_ns q) (q_pod q) (q_podPort q).
Definition good_req (q : pf_req) : Prop := pf_name (target_ns q) ∧ pf_name (q_pod q).

(** The forward leads to the pod and port of a key. *)
Definition for_key (f : forward) (k : string) : Prop :=
  ∃ n p, pf_name n ∧ pf_name p ∧ k = pf_key cid n p (fw_podPort f) ∧ fw_path f = portforward_path n p.

Definition port_for (s : pf_state) (k : string) (lp : Z) : Prop :=
  ∃ id f, pf_started s !! id = Some f ∧ for_key f k ∧ fw_port f = lp ∧ fw_ready f = true.

Definition holds (p : pf_phase) : option nat :=
  match p with FWait id | FReady id => Some id | _ => None end.

Definition phase_ok (s : pf_state) (q : pf_req) (p : pf_phase) : Prop :=
  match p with
  | FProbe lp | FDone (Ok lp) => port_for s (target_key q) lp
  | FWait id => ∃ f, pf_started s !! id = Some f ∧ for_key f (target_key q)
  | FReady id => ∃ f, pf_started s !! id = Some f ∧ for_key f (target_key q) ∧ fw_ready f = true
  | _ => True
  end.

Record pf_inv (s : pf_state) : Prop := {
  iv_cid : m_clusterID s = cid;
  iv_ns : m_namespace s = ns;
  iv_entry k lp id : m_forwards s !! k = Some (lp, id) →
    (id ∉ pf_stopped s) ∧ ∃ f, pf_started s !! id = Some f ∧ for_key f k ∧ fw_port f = lp
                             ∧ fw_ready f = true;
  iv_free i q p id : pf_callers s !! i = Some (q, p) → holds p = Some id →
    (id ∉ pf_stopped s) ∧ ∀ k lp, m_forwards s !! k ≠ Some (lp, id);
  iv_held i j q q' p p' id : pf_callers s !! i = Some (q, p) → pf_callers s !! j = Some (q', p') →
    holds p = Some id → holds p' = Some id → i = j;
  iv_stop id : id ∈ pf_stopped s → is_Some (pf_started s !! id);
  iv_ports id id' f f' : pf_started s !! id = Some f → pf_started s !! id' = Some f' →
    fw_serving f = true → fw_serving f' = true → fw_port f = fw_port f' → id = id';
  iv_caller i q p : pf_callers s !! i = Some (q, p) → good_req q ∧ phase_ok s q p
}.

Lemma key_of_target s q : pf_inv s → pf_key_of s q = target_key q.
Proof.
  intros I. unfold pf_key_of, target_key, target_ns, pf_namespace. by rewrite (iv_cid _ I) (iv_ns _ I).
Qed.

(** A forward nobody refers to. *)
Definition unused (s : pf_state) (id : nat) : Prop :=
  (id ∉ pf_stopped s) ∧ (∀ k lp, m_forwards s !! k ≠ Some (lp, id))
  ∧ ∀ j q p, pf_callers s !! j = Some (q, p) → holds p ≠ Some id.

(** A caller moves to another phase, keeping or giving up the forward it holds
    or taking an unused one. *)
Lemma pf_inv_phase s i q p p' :
  pf_inv s → pf_callers s !! i = Some (q, p) → phase_ok s q p' →
  (∀ id, holds p' = Some id → holds p = Some id ∨ unused s id) → pf_inv (with_phase s i q p').
Proof.
  intros I Hi Hok Hh. pose proof (iv_caller s I i q p Hi) as [Hg _].
  assert (∀ j r u, <[i := (q, p')]> (pf_callers s) !! j = Some (r, u) →
    (j = i ∧ r = q ∧ u = p') ∨ pf_callers s !! j = Some (r, u)) as Hc.
  { intros j r u [(<- & [= -> ->] & _)|[_ ?]]%list_lookup_insert_Some; auto. }
  destruct I as [E1 E2 Ient Ifree Iheld Istop Iports Icall].
  assert (∀ j r u id, pf_callers s !! j = Some (r, u) → holds u = Some id → holds p' = Some id → j = i)
    as Hji.
  { intros j r u id Hj Hu Hp'. destruct (Hh id Hp') as [Hp|(_ & _ & Hn)].
    - by eapply (Iheld j i). - by destruct (Hn j r u Hj). }
  split; simpl; try done.
  - intros j r u id [(-> & -> & ->)|Hj]%Hc Hid; [|by eapply Ifree].
    destruct (Hh id Hid) as [Hp|(? & ? & _)]; [by eapply Ifree|done].
  - intros j j' r r' u u' id Hj Hj' Hu Hu'.
    apply Hc in Hj as [(-> & -> & ->)|Hj]; apply Hc in Hj' as [(-> & -> & ->)|Hj']; [done|..].
    + symmetry. by eapply Hji.
    + by eapply Hji.
    + by eapply (Iheld j j').
  - intros j r u [(-> & -> & ->)|Hj]%Hc; [done|by eapply Icall].
Qed.

(** Forwards are added, become ready and end; what they were started for
    stays. *)
Definition grows (l l' : list forward) : Prop :=
  ∀ id f, l !! id = Some f → ∃ f', l' !! id = Some f' ∧ fw_path f' = fw_path f
    ∧ fw_port f' = fw_port f ∧ fw_podPort f' = fw_podPort f
    ∧ (fw_ready f = true → fw_ready f' = true).

Lemma for_key_same f f' k :
  fw_path f' = fw_path f → fw_podPort f' = fw_podPort f → for_key f k → for_key f' k.
Proof. intros Ep Eo (n & p & Hn & Hp & -> & Hf). exists n, p. by rewrite Eo Ep. Qed.

Lemma phase_ok_grows s s' q p :
  grows (pf_started s) (pf_started s') → phase_ok s q p → phase_ok s' q p.
Proof.
  intros Hg. unfold phase_ok, port_for. destruct p as [|lp| | |id|id|[lp|e]]; try done.
  - intros (id & f & Hf & Hk & <- & Hr). destruct (Hg _ _ Hf) as (f' & ? & ? & ? & ? & ?).
    exists id, f'. split_and!; try done; [by eapply for_key_same|auto].
  - intros (f & Hf & Hk). destruct (Hg _ _ Hf) as (f' & ? & ? & ? & ? & ?).
    exists f'. split; [done|by eapply for_key_same].
  - intros (f & Hf & Hk & Hr). destruct (Hg _ _ Hf) as (f' & ? & ? & ? & ? & ?).
    exists f'. split_and!; [done|by eapply for_key_same|auto].
  - intros (id & f & Hf & Hk & <- & Hr). destruct (Hg _ _ Hf) as (f' & ? & ? & ? & ? & ?).
    exists id, f'. split_and!; try done; [by eapply for_key_same|auto].
Qed.

Lemma pf_inv_started s l :
  pf_inv s → grows (pf_started s) l →
  (∀ id id' f f', l !! id = Some f → l !! id' = Some f' →
     fw_serving f = true → fw_serving f' = true → fw_port f = fw_port f' → id = id') →
  pf_inv (with_started s l (pf_stopped s)).
Proof.
  intros [E1 E2 Ient Ifree Iheld Istop Iports Icall] Hg Hp. split; simpl; try done.
  - intros k lp id Hk. destruct (Ient k lp id Hk) as (Hs & f & Hf & Hfk & <- & Hr).
    split; [done|]. destruct (Hg _ _ Hf) as (f' & ? & ? & ? & ? & ?).
    exists f'. split_and!; try done; [by eapply for_key_same|auto].
  - intros id Hid. destruct (Istop id Hid) as [f Hf]. destruct (Hg _ _ Hf) as (f' & ? & _). eauto.
  - intros i q p Hi. destruct (Icall i q p Hi) as [Hgq Hok]. split; [done|].
    by eapply phase_ok_grows.
Qed.

Lemma served_spec s lp :
  served s lp = true ↔ ∃ id f, pf_started s !! id = Some f ∧ fw_port f = lp ∧ fw_serving f = true.
Proof.
  unfold served. rewrite existsb_exists. setoid_rewrite <- list_elem_of_In.
  setoid_rewrite list_elem_of_lookup. split.
  - intros (f & (id & Hid) & [? ?]%andb_true_iff). exists id, f. split_and!; [done|lia|done].
  - intros (id & f & Hid & <- & Hs). exists f. split; [eauto|]. by rewrite Z.eqb_refl Hs.
Qed.

Lemma pf_inv_update s id f r o :
  pf_inv s → pf_started s !! id = Some f → (fw_ready f = true → r = true) →
  (fw_serving (fw_with f r o) = true → fw_serving f = true ∨ served s (fw_port f) = false) →
  pf_inv (with_started s (<[id := fw_with f r o]> (pf_started s)) (pf_stopped s)).
Proof.
  intros I Hf Hr Hs. apply pf_inv_started; [done|..].
  - intros j g Hg. destruct (decide (j = id)) as [->|Hne].
    + exists (fw_with f r o). rewrite list_lookup_insert_eq; [|by eapply lookup_lt_Some].
      simplify_eq. done.
    + exists g. by rewrite list_lookup_insert_ne.
  - intros j j' g g' Hg Hg' Sg Sg' Ep.
    assert (∀ k h, k ≠ id → pf_started s !! k = Some h → fw_serving h = true →
      fw_port h = fw_port f → fw_serving (fw_with f r o) = true → False) as Hk.
    { intros k h Hne Hh Sh Eh So. destruct (Hs So) as [Sf|Hn].
      - by apply Hne, (iv_ports s I k id h f).
      - assert (served s (fw_port f) = true) by (apply served_spec; eauto). congruence. }
    apply list_lookup_insert_Some in Hg as [(<- & <- & _)|[Hn Hg]];
      apply list_lookup_insert_Some in Hg' as [(<- & <- & _)|[Hn' Hg']]; [done|..].
    + exfalso. by eapply (Hk j' g').
    + exfalso. by eapply (Hk j g).
    + by eapply (iv_ports s I).
Qed.

(** The id of a new forward is unused. *)
Lemma unused_new s : pf_inv s → unused s (length (pf_started s)).
Proof.
  intros I. assert (pf_started s !! length (pf_started s) = None) as Hn by by apply lookup_ge_None_2.
  split_and!.
  - intros [f Hf]%(iv_stop _ I). congruence.
  - intros k lp (_ & f & Hf & _)%(iv_entry _ I). congruence.
  - intros j q p Hj Hp. destruct (iv_caller _ I _ _ _ Hj) as [_ Hok].
    destruct p; simplify_eq/=; destruct Hok as (f & Hf & _); congruence.
Qed.

Lemma pf_inv_open s i q lp :
  pf_inv s → pf_callers s !! i = Some (q, FOpen) → pf_inv (ensure_open s i q (Ok lp)).
Proof.
  intros I Hi. unfold ensure_open. set (f := {| fw_path := _ |}).
  assert (pf_inv (with_started s (pf_started s ++ [f]) (pf_stopped s))) as I'.
  { apply pf_inv_started; [done|..].
    - intros id g Hg. exists g. split; [|done]. by apply lookup_app_l_Some.
    - assert (∀ id g, (pf_started s ++ [f]) !! id = Some g → fw_serving g = true →
        pf_started s !! id = Some g) as Hold.
      { intros id g [Hg|[_ Hg]]%lookup_app_Some Hs; [done|].
        apply list_lookup_singleton_Some in Hg as [_ <-]. done. }
      intros id id' g g' Hg Hg' Sg Sg'. apply (iv_ports s I); auto. }
  eapply pf_inv_phase; [done|exact Hi| |].
  - destruct (iv_caller _ I _ _ _ Hi) as [[Hn Hp] _]. exists f. cbn [pf_started with_started].
    split; [by rewrite lookup_app_r // Nat.sub_diag|].
    exists (target_ns q), (q_pod q). split_and!; [done..|]. simpl. unfold target_ns, pf_namespace.
    by rewrite (iv_ns _ I).
  - intros id [= <-]. right. destruct (unused_new s I) as (? & ? & ?). by split_and!.
Qed.

Lemma pf_inv_forwards s m :
  pf_inv s →
  (∀ k lp id, m !! k = Some (lp, id) → m_forwards s !! k = Some (lp, id)
     ∨ (unused s id ∧ ∃ f, pf_started s !! id = Some f ∧ for_key f k ∧ fw_port f = lp
                           ∧ fw_ready f = true)) →
  pf_inv (with_forwards s m).
Proof.
  intros [E1 E2 Ient Ifree Iheld Istop Iports Icall] Hm. split; simpl; try done.
  - intros k lp id [Hk|[(Hs & _) Hf]]%Hm; [by eapply Ient|done].
  - intros i q p id Hi Hp. destruct (Ifree i q p id Hi Hp) as [Hs Hn]. split; [done|].
    intros k lp [Hk|[(_ & _ & Hu) _]]%Hm; [by eapply Hn|by eapply Hu].
Qed.

(** After its caller let go of it, a forward is unused. *)
Lemma unused_released s i q p p' id :
  pf_inv s → pf_callers s !! i = Some (q, p) → holds p = Some id → holds p' = None →
  unused (with_phase s i q p') id.
Proof.
  intros I Hi Hp Hp'. destruct (iv_free _ I _ _ _ _ Hi Hp) as [Hs Hn]. split_and!; [done..|].
  simpl. intros j r u [(<- & [= -> ->] & _)|[Hne Hj]]%list_lookup_insert_Some Hu; [congruence|].
  apply Hne. by eapply (iv_held _ I).
Qed.

Lemma pf_inv_timeout s i q id :
  pf_inv s → pf_callers s !! i = Some (q, FWait id) → pf_inv (ensure_timeout s i q id).
Proof.
  intros I Hi. destruct (iv_caller _ I _ _ _ Hi) as [_ (f & Hf & _)].
  set (p' := FDone (Err "port-forward start timeout")).
  destruct (unused_released s i q _ p' id I Hi eq_refl eq_refl) as (_ & U2 & U3).
  assert (pf_inv (with_phase s i q p')) as [E1 E2 Ient Ifree Iheld Istop Iports Icall]
    by by eapply pf_inv_phase.
  split; try done; cbn [ensure_timeout with_phase with_started pf_stopped m_forwards pf_callers
    pf_started] in *.
  - intros k lp j Hk. destruct (Ient k lp j Hk) as [Hs Hx]. split; [|done].
    rewrite not_elem_of_union not_elem_of_singleton. split; [|done]. intros ->. by destruct (U2 k lp).
  - intros j r u k Hj Hu. destruct (Ifree j r u k Hj Hu) as [Hs Hn]. split; [|done].
    rewrite not_elem_of_union not_elem_of_singleton. split; [|done]. intros ->.
    by destruct (U3 j r u Hj).
  - intros j [->%elem_of_singleton|Hj]%elem_of_union; [eauto|by apply Istop].
Qed.

Lemma pf_inv_store s i q id :
  pf_inv s → pf_callers s !! i = Some (q, FReady id) → pf_inv (ensure_store s i q id).
Proof.
  intros I Hi. destruct (iv_caller _ I _ _ _ Hi) as [_ (f & Hf & Hk & Hr)].
  unfold ensure_store. rewrite Hf.
  change (pf_inv (with_forwards (with_phase s i q (FDone (Ok (fw_port f))))
    (<[pf_key_of s q := (fw_port f, id)]> (m_forwards s)))).
  apply pf_inv_forwards.
  - eapply pf_inv_phase; [done|exact Hi| |done]. by exists id, f.
  - rewrite (key_of_target s q I). intros k lp j [(<- & [= <- <-])|[_ Hj]]%lookup_insert_Some; [|by left].
    right. split; [by eapply unused_released|]. by exists f.
Qed.

Lemma pf_step_inv s s' : pf_step s s' → pf_inv s → pf_inv s'.
Proof.
  intros [e He] I. destruct e as [i|i ok|i|i r|i|i|i|id|id]; cbn [pf_do] in He;
    apply bind_Some in He as (x & Hx & He).
  1-7: destruct x as [q p]; destruct p; try done; pose proof (iv_caller _ I _ _ _ Hx) as [Hg Hok].
  - injection He as <-. unfold ensure_lookup. rewrite (key_of_target s q I).
    destruct (m_forwards s !! target_key q) as [[lp id]|] eqn:Ek; (eapply pf_inv_phase; try done).
    destruct (iv_entry _ I _ _ _ Ek) as (_ & f & ?). by exists id, f.
  - destruct (Bool.eqb ok _); [|done]. injection He as <-. 
    eapply pf_inv_phase; [done|exact Hx|by destruct ok|by destruct ok].
  - injection He as <-. unfold ensure_delete. eapply pf_inv_phase; try done.
    apply pf_inv_forwards; [done|]. intros k lp id [_ Hk]%lookup_delete_Some. by left.
  - destruct r as [lp|e]; [destruct (served s lp); [done|]|]; injection He as <-.
    + by apply pf_inv_open.
    + by eapply pf_inv_phase.
  - apply bind_Some in He as (f & Hf & He). destruct (fw_ready f) eqn:Hr; [|done]. injection He as <-.
    eapply pf_inv_phase; [done..| |by intros ? [= <-]; left].
    destruct Hok as (g & Hg' & Hk). simplify_eq. by exists f.
  - injection He as <-. by apply pf_inv_timeout.
  - injection He as <-. by apply pf_inv_store.
  - destruct (fw_ready x || fw_over x || served s (fw_port x)) eqn:Ec; [done|]. injection He as <-.
    apply orb_false_iff in Ec as [_ Ec]. by apply pf_inv_update; auto.
  - injection He as <-. apply pf_inv_update; try done. unfold fw_serving. simpl.
    by rewrite andb_false_r.
Qed.

End invariant.

Lemma pf_inv_init cid ns qs :
  Forall (good_req ns) qs → pf_inv cid ns (NewPortForwardManagerWithCluster cid ns qs).
Proof.
  intros Hq. split; try done; simpl.
  - intros i j q q' p p' id Hi. apply list_lookup_fmap_Some in Hi as (? & [= -> ->] & _). done.
  - intros i q p Hi. apply list_lookup_fmap_Some in Hi as (q' & [= -> ->] & Hi).
    split; [|done]. by eapply Forall_lookup_1.
Qed.

Lemma pf_reachable_inv cid ns qs s :
  Forall (good_req ns) qs → rtc pf_step (NewPortForwardManagerWithCluster cid ns qs) s →
  pf_inv cid ns s.
Proof.
  intros Hq Hr. pose proof (pf_inv_init cid ns qs Hq) as I.
  induction Hr as [|x y z Hs _ IH]; [done|]. by apply IH, (pf_step_inv cid ns x).
Qed.

Lemma pf_run_rtc es s s' : pf_run es s = Some s' → rtc pf_step s s'.
Proof. apply run_events_rtc. intros e x y E. by exists e. Qed.

#[export] Instance good_req_dec ns q : Decision (good_req ns q).
Proof. unfold good_req. apply _. Defined.

(** Two callers that ask for one pod, and three that ask for two pods. *)
Definition req_a : pf_req := {| q_namespace := ""; q_pod := "a"; q_podPort := 80 |}.
Definition req_b : pf_req := {| q_namespace := ""; q_pod := "b"; q_podPort := 80 |}.
Definition leak_run : list pf_event :=
  [ELookup 0; ELookup 1; EOpen 0 (Ok 5000); EOpen 1 (Ok 5001); EServe 0; EServe 1;
   EReady 0; EReady 1; EStore 0; EStore 1].
Definition reuse_run : list pf_event :=
  [ELookup 0; EOpen 0 (Ok 5000); EServe 0; EReady 0; EStore 0; EEnd 0;
   ELookup 1; EOpen 1 (Ok 5000); EServe 1; EReady 1; EStore 1;
   ELookup 2; EProbe 2 true].


