(* ===== verification/Serve.v ===== *)
(** * Starting and stopping the host (cmd/hostapp/main.go)

    [main] as a program over what it asks of the operating system, the local
    store, the tailnet and the HTTP servers; the handlers it mounts are in
    [HostApp] and [HostMount].  The second part is the lock file that keeps a
    second process from serving, with the processes as a step relation. *)

From S2P Require Import Prelude GoStrings Names Values.
From S2P Require Import NetAddr LocalDb Settings Jobs Proxy Prog.
From S2P Require Import Rbac DbManager DbHandlers Router RouterCluster K8s HostApp Config.

Local Open Scope Z_scope.

(** ** What start-up asks for *)

(** Why the wait of [main] ends: a signal or a call of [stop], or a server that
    returned; a server returns no error or ErrServerClosed, or another error. *)
Inductive served_until : Set := Signalled | ServerDone | ServerFailed (e : string).

Inductive scall : Set → Type :=
  | SWizard : scall (result unit)
  | SK8sConfig : scall bool
  | SOperator : scall (result unit)
  | SWaitSignal : scall unit
  | SLoad : scall (result Config)
  | SGetenv (name : string) : scall string
  | SParentDeath : scall unit
  | SOpenDb : scall (result unit)
  | SGetTailscale : scall Tailscale
  | SPutTailscale (ts : Tailscale) : scall unit
  | SGetGlobal : scall Global
  | SPutGlobal (g : Global) : scall unit
  (* the lock file *)
  | SOpenLock : scall (result unit)
  | SFlock : scall bool
  | SReadLock : scall string
  | SAlive (pid : Z) : scall bool
  | SWritePid : scall unit
  (* tailnet, certificates and listeners *)
  | STsStart (hostname login key : string) : scall (result unit)
  | SStat (path : string) : scall bool
  | SListen (addr : string) : scall (result unit)
  | SListen6 (addr : string) : scall bool
  | STsListen (addr : string) : scall (result unit)
  (* the servers run until *)
  | SServe (cert key : string) (v6 : bool) : scall served_until
  | SCloseLocal : scall unit
  | SCloseV6 : scall unit
  | SShutdownLocal : scall unit
  | SShutdownV6 : scall unit
  | SShutdownTs : scall unit
  | STsClose : scall unit
  | STsListenerClose : scall unit.

Abbreviation sprog := (gprog scall).

(** How the process ends: [log.Fatalf], [os.Exit], or a return from [main],
    after which alone the deferred functions run. *)
Inductive exit : Type := Fatal (msg : string) | Exit0 | Return.

Section main.
Context `{UC : UnicodeCase}.

(** ** The steps of start-up *)

Definition command (args : list string) : string :=
  match args with
  | _ :: a1 :: rest =>
      if String.eqb a1 "--mode" && match rest with a2 :: _ => String.eqb a2 "operator" | [] => false end
      then "operator" else a1
  | _ => "serve"
  end.

(** The lock: taken at once, or after a first failure when the file names a
    process that is gone. *)
Definition acquire_lock (k : sprog exit) : sprog exit :=
  do r <- request SOpenLock ;
  match r with
  | Err e => Ret (Fatal ("unable to open lock file: " +:+ e))
  | Ok _ =>
      do got <- request SFlock ;
      if got : bool then do _ <- request SWritePid ; k
      else
        do data <- request SReadLock ;
        let existing := TrimSpace data in
        if String.eqb existing "" then
          Ret (Fatal "another hostapp appears to be running (lock held) and no pid")
        else
          do alive <- (match Atoi existing with Some pid => request (SAlive pid) | None => Ret false end) ;
          if alive : bool then Ret (Fatal "another hostapp is already running; aborting")
          else
            do got <- request SFlock ;
            if got : bool then do _ <- request SWritePid ; k
            else Ret (Fatal "unable to acquire lock file")
  end.

(** The repository's certificates if their file exists, else those of the state
    directory, which [ensureSelfSigned] requires to exist. *)
Definition ensureSelfSigned (certPath keyPath : string) : sprog bool :=
  do c <- request (SStat certPath) ;
  if c : bool then request (SStat keyPath) else Ret false.

Definition choose_certs (stateDir : string) (k : string → string → sprog exit) : sprog exit :=
  do s <- request (SStat (path_join "certs" "server.crt")) ;
  if s : bool then k (path_join "certs" "server.crt") (path_join "certs" "server.key")
  else
    do d <- request (SStat (path_join "certs" "dev.crt")) ;
    if d : bool then k (path_join "certs" "dev.crt") (path_join "certs" "dev.key")
    else
      let certDir := path_join stateDir "certs" in
      let cert := path_join certDir "server.crt" in
      let key := path_join certDir "server.key" in
      do ok <- ensureSelfSigned cert key ;
      if ok : bool then k cert key else Ret (Fatal "tls cert: not found").

(** The address of the IPv6 loopback listener, for a local address only. *)
Definition v6_addr (bindAddr : string) : option string :=
  match SplitHostPort bindAddr with
  | Some (host, port) =>
      if String.eqb host "127.0.0.1" || EqualFold host "localhost"
      then Some (JoinHostPort "::1" port) else None
  | None => None
  end.

(** Serving, and the shutdown after a signal. *)
Definition run_servers (cert key : string) (v6Srv v6Ln : bool) : sprog exit :=
  do why <- request (SServe cert key (v6Srv && v6Ln)) ;
  match why with
  | Signalled =>
      do _ <- request SCloseLocal ;
      do _ <- (if v6Ln then request SCloseV6 else Ret tt) ;
      do _ <- request SShutdownLocal ;
      do _ <- (if v6Srv then request SShutdownV6 else Ret tt) ;
      do _ <- request SShutdownTs ;
      do _ <- request STsClose ;
      do _ <- request STsListenerClose ;
      Ret Exit0
  | ServerDone => Ret Return
  | ServerFailed e => Ret (Fatal ("server error: " +:+ e))
  end.

Definition bind_and_serve (listenAddr cert key : string) : sprog exit :=
  do r <- request (SListen listenAddr) ;
  match r with
  | Err e => Ret (Fatal ("local listen failed on " +:+ listenAddr +:+ ": " +:+ e))
  | Ok _ =>
      do v6 <- (match v6_addr listenAddr with Some a => request (SListen6 a) | None => Ret false end) ;
      do t <- request (STsListen ":443") ;
      match t with
      | Err e => Ret (Fatal ("tsnet listen: " +:+ e))
      | Ok _ => run_servers cert key (bool_decide (is_Some (v6_addr listenAddr))) v6
      end
  end.

(** After the lock: the tailnet server, the address, certificates, listeners. *)
Definition start_servers (ts : Tailscale) (stateDir : string) : sprog exit :=
  do r <- request (STsStart (ts_Hostname ts) (ts_LoginServer ts) (ts_PreauthKey ts)) ;
  match r with
  | Err e => Ret (Fatal ("tsnet start: " +:+ e))
  | Ok _ =>
      do env <- request (SGetenv "LISTEN_LOCAL") ;
      do g <- (if String.eqb (TrimSpace env) "" then request SGetGlobal
               else Ret {| g_OrgID := ""; g_DefaultNamespace := ""; g_EmbedOperator := false;
                           g_FrontendOrigin := ""; g_ListenLocal := "" |}) ;
      choose_certs stateDir (bind_and_serve (listen_addr env g))
  end.

(** Runtime settings, seeded from the configuration on the first run. *)
Definition seed_settings (cfg : Config) (k : Tailscale → sprog exit) : sprog exit :=
  do ts <- request SGetTailscale ;
  let '(ts', putTs) := seed_tailscale ts {| ts_LoginServer := cf_LoginServer cfg;
                                            ts_PreauthKey := cf_AuthKey cfg;
                                            ts_Hostname := cf_Hostname cfg |} in
  do _ <- (if putTs then request (SPutTailscale ts') else Ret tt) ;
  do g <- request SGetGlobal ;
  let '(g', putG) := seed_global g (cf_ListenLocal cfg) in
  do _ <- (if putG then request (SPutGlobal g') else Ret tt) ;
  k ts'.

(** Ensuring buckets does nothing in this store, and the secrets manager is
    built from the environment without a request. *)
Definition serve (home : option string) : sprog exit :=
  do c <- request SLoad ;
  match c with
  | Err e => Ret (Fatal ("load config: " +:+ e))
  | Ok cfg =>
      match Validate cfg with
      | Err e => Ret (Fatal ("invalid config: " +:+ e))
      | Ok _ =>
          do pd <- request (SGetenv "GN_DISABLE_PDEATHSIG") ;
          do _ <- (if String.eqb (ToLower (TrimSpace pd)) "1" then Ret tt else request SParentDeath) ;
          do db <- request SOpenDb ;
          match db with
          | Err e => Ret (Fatal ("open local db: " +:+ e))
          | Ok _ =>
              do _ <- request (SGetenv "GUILDNET_MASTER_KEY") ;
              seed_settings cfg (λ ts, acquire_lock (start_servers ts (StateDir home)))
          end
      end
  end.

Definition main (home : option string) (args : list string) : sprog exit :=
  let cmd := command args in
  if String.eqb cmd "init" then
    do r <- request SWizard ;
    match r with Err e => Ret (Fatal ("init failed: " +:+ e)) | Ok _ => Ret Return end
  else if String.eqb cmd "operator" then
    do k <- request SK8sConfig ;
    if k : bool then
      do o <- request SOperator ;
      match o with
      | Err e => Ret (Fatal ("operator start: " +:+ e))
      | Ok _ => do _ <- request SWaitSignal ; Ret Return
      end
    else Ret (Fatal "k8s config")
  else if String.eqb cmd "serve" then serve home
  else Ret (Fatal ("unknown command: " +:+ cmd +:+ " (use 'init', 'serve', or 'operator')")).

End main.

(** ** Runs *)

(** Take a run apart: requests, branches and results. *)
Ltac run_step H :=
  lazymatch type of H with
  | runs (bind (request _) _) _ _ =>
      let r := fresh "r" in let t := fresh "t" in
      apply runs_req_bind in H as (r & t & -> & H); cbv beta in H
  | runs (bind (Ret _) _) _ _ => cbn [bind] in H
  | runs (bind (if ?b then _ else _) _) _ _ => destruct b eqn:?
  | runs (bind (match ?x with _ => _ end) _) _ _ => destruct x eqn:?
  | runs (Ret _) _ _ => destruct H as [-> ->]
  | runs (if ?b then _ else _) _ _ => destruct b eqn:?
  | runs (match ?x with _ => _ end) _ _ => destruct x eqn:?
  end.
Ltac run_inv H := repeat run_step H.

(** Steps that make the process visible to others. *)
Definition exposes (e : gevent scall) : Prop :=
  match e with
  | Ev (SListen _) _ | Ev (SListen6 _) _ | Ev (STsStart _ _ _) _ | Ev (STsListen _) _
  | Ev (SServe _ _ _) _ | Ev SWritePid _ => True
  | _ => False
  end.

Definition serves (e : gevent scall) : Prop :=
  match e with Ev (SServe _ _ _) _ => True | _ => False end.

(** What follows the wait of [main]. *)
Definition stop_trace (v6Srv v6Ln : bool) : list (gevent scall) :=
  [Ev SCloseLocal tt] ++ (if v6Ln then [Ev SCloseV6 tt] else []) ++ [Ev SShutdownLocal tt]
  ++ (if v6Srv then [Ev SShutdownV6 tt] else [])
  ++ [Ev SShutdownTs tt; Ev STsClose tt; Ev STsListenerClose tt].

Definition after_serving (v6Srv v6Ln : bool) (why : served_until) (t : list (gevent scall)) (res : exit)
    : Prop :=
  match why with
  | Signalled => res = Exit0 ∧ t = stop_trace v6Srv v6Ln
  | ServerDone => res = Return ∧ t = []
  | ServerFailed e => res = Fatal ("server error: " +:+ e) ∧ t = []
  end.

(** A failure before the servers run, or a service with [R] before it. *)
Definition serves_with (R : list (gevent scall) → string → Prop) (t : list (gevent scall)) (res : exit)
    : Prop :=
  (∃ msg, res = Fatal msg ∧ Forall (λ e, ¬ serves e) t)
  ∨ ∃ pre post cert key v6Srv v6Ln why,
      t = pre ++ Ev (SServe cert key (v6Srv && v6Ln)) why :: post ∧ R pre cert
      ∧ Forall (λ e, ¬ serves e) pre ∧ after_serving v6Srv v6Ln why post res.

Lemma serves_with_fatal R t msg : Forall (λ e, ¬ serves e) t → serves_with R t (Fatal msg).
Proof. intros Ht. left. eauto. Qed.

(** Steps before a stage. *)
Lemma serves_with_after R R' t1 t2 res :
  serves_with R t2 res → Forall (λ e, ¬ serves e) t1 →
  (∀ pre cert, R pre cert → R' (t1 ++ pre) cert) → serves_with R' (t1 ++ t2) res.
Proof.
  intros [(msg & -> & H2)|(pre & post & cert & key & a & b & why & -> & HR & Hp & Hw)] H1 HRR.
  - left. exists msg. split; [done|]. by apply Forall_app.
  - right. exists (t1 ++ pre), post, cert, key, a, b, why. rewrite app_assoc.
    split_and!; auto. by apply Forall_app.
Qed.

Section runs.
Context `{UC : UnicodeCase}.

Lemma run_servers_runs cert key v6Srv v6Ln t res :
  runs (run_servers cert key v6Srv v6Ln) t res →
  serves_with (λ pre c, pre = [] ∧ c = cert) t res.
Proof.
  intros Hr. unfold run_servers in Hr. apply runs_req_bind in Hr as (why & t' & -> & Hr).
  right. exists [], t', cert, key, v6Srv, v6Ln, why. split_and!; try done.
  destruct why; unfold after_serving, stop_trace; run_inv Hr;
    repeat match goal with x : unit |- _ => destruct x end; done.
Qed.

Lemma bind_and_serve_runs addr cert key t res :
  runs (bind_and_serve addr cert key) t res →
  serves_with (λ pre c, Ev (SListen addr) (Ok tt) ∈ pre ∧ Ev (STsListen ":443") (Ok tt) ∈ pre
                        ∧ c = cert) t res.
Proof.
  intros Hr. unfold bind_and_serve in Hr.
  apply runs_req_bind in Hr as ([[]|e] & t1 & -> & Hr);
    [|run_inv Hr; apply serves_with_fatal; repeat constructor; by intros []].
  apply runs_bind in Hr as (t2 & t3 & v6 & -> & H6 & Hr).
  assert (Forall (λ e, ¬ serves e) t2) as H6'.
  { destruct (v6_addr addr); [|by destruct H6 as [-> _]].
    apply runs_request in H6 as ->. repeat constructor. by intros []. }
  apply runs_req_bind in Hr as ([[]|e] & t4 & -> & Hr).
  - apply run_servers_runs in Hr.
    replace (Ev (SListen addr) (Ok tt) :: t2 ++ Ev (STsListen ":443") (Ok tt) :: t4)
      with ((Ev (SListen addr) (Ok tt) :: t2 ++ [Ev (STsListen ":443") (Ok tt)]) ++ t4)
      by (simpl; by rewrite -app_assoc).
    eapply serves_with_after; [exact Hr| |].
    + constructor; [by intros []|]. apply Forall_app. split; [done|]. repeat constructor. by intros [].
    + intros pre c [-> ->]. split_and!; [left|right; apply elem_of_app; left; apply elem_of_app; right; left|done].
  - run_inv Hr. apply serves_with_fatal. constructor; [by intros []|]. apply Forall_app.
    split; [done|]. repeat constructor. by intros [].
Qed.

Lemma ensureSelfSigned_runs cert key t ok :
  runs (ensureSelfSigned cert key) t ok →
  Forall (λ e, ¬ serves e) t ∧ (ok = true → Ev (SStat cert) true ∈ t ∧ Ev (SStat key) true ∈ t).
Proof.
  intros Hr. unfold ensureSelfSigned in Hr. apply runs_req_bind in Hr as ([] & t1 & -> & Hr).
  - apply runs_request in Hr as ->. split; [repeat constructor; by intros []|].
    intros ->. split; [left|right; left].
  - run_inv Hr. split; [repeat constructor; by intros []|done].
Qed.

Lemma choose_certs_runs stateDir addr t res :
  runs (choose_certs stateDir (bind_and_serve addr)) t res →
  serves_with (λ pre c, Ev (SListen addr) (Ok tt) ∈ pre ∧ Ev (STsListen ":443") (Ok tt) ∈ pre
                        ∧ Ev (SStat c) true ∈ pre) t res.
Proof.
  intros Hr. unfold choose_certs in Hr.
  apply runs_req_bind in Hr as (s & t1 & -> & Hr). destruct s.
  { apply bind_and_serve_runs in Hr. apply (serves_with_after _ _ [_] _ _ Hr).
    - repeat constructor. by intros [].
    - intros pre c (H1 & H2 & ->). split_and!; [by right|by right|left]. }
  apply runs_req_bind in Hr as (d & t2 & -> & Hr). destruct d.
  { apply bind_and_serve_runs in Hr. apply (serves_with_after _ _ [_; _] _ _ Hr).
    - repeat constructor; by intros [].
    - intros pre c (H1 & H2 & ->). split_and!; [by do 2 right|by do 2 right|right; left]. }
  cbv zeta in Hr. apply runs_bind in Hr as (t3 & t4 & ok & -> & H3 & Hr).
  apply ensureSelfSigned_runs in H3 as [H3 Hok].
  assert (∀ x y : gevent scall, x :: y :: t3 ++ t4 = (x :: y :: t3) ++ t4) as -> by done.
  destruct ok.
  - destruct (Hok eq_refl) as [Hc _]. apply bind_and_serve_runs in Hr.
    apply (serves_with_after _ _ _ _ _ Hr).
    + constructor; [by intros []|]. constructor; [by intros []|done].
    + intros pre c (H1 & H2 & ->). split_and!; [set_solver|set_solver|].
      do 2 right. apply elem_of_app. by left.
  - run_inv Hr. apply serves_with_fatal. rewrite app_nil_r.
    constructor; [by intros []|]. constructor; [by intros []|done].
Qed.

Lemma start_servers_runs ts stateDir t res :
  runs (start_servers ts stateDir) t res →
  serves_with (λ pre c, (∃ addr, Ev (SListen addr) (Ok tt) ∈ pre)
                        ∧ Ev (STsListen ":443") (Ok tt) ∈ pre ∧ Ev (SStat c) true ∈ pre) t res.
Proof.
  intros Hr. unfold start_servers in Hr. apply runs_req_bind in Hr as ([[]|e] & t1 & -> & Hr);
    [|run_inv Hr; apply serves_with_fatal; repeat constructor; by intros []].
  apply runs_req_bind in Hr as (env & t2 & -> & Hr).
  apply runs_bind in Hr as (t3 & t4 & g & -> & H3 & Hr). apply choose_certs_runs in Hr.
  assert (Forall (λ e, ¬ serves e) t3).
  { destruct (String.eqb _ _); [|by destruct H3 as [-> _]].
    apply runs_request in H3 as ->. repeat constructor. by intros []. }
  assert (∀ x y : gevent scall, x :: y :: t3 ++ t4 = (x :: y :: t3) ++ t4) as -> by done.
  apply (serves_with_after _ _ _ _ _ Hr).
  - constructor; [by intros []|]. constructor; [by intros []|done].
  - intros pre c (H1 & H2 & H3'). split_and!; [eexists|..]; do 2 right; apply elem_of_app; by right.
Qed.

(** The lock is taken, or the process ends without having been visible. *)
Definition locked (R : list (gevent scall) → exit → Prop) (t : list (gevent scall)) (res : exit) : Prop :=
  (∃ msg, res = Fatal msg ∧ Forall (λ e, ¬ exposes e) t)
  ∨ ∃ a b, t = a ++ Ev SFlock true :: Ev SWritePid tt :: b ∧ Forall (λ e, ¬ exposes e) a ∧ R b res.

Lemma locked_after R a t res : Forall (λ e, ¬ exposes e) a → locked R t res → locked R (a ++ t) res.
Proof.
  intros Ha [(msg & -> & Ht)|(b & c & -> & Hb & HR)].
  - left. exists msg. split; [done|]. by apply Forall_app.
  - right. exists (a ++ b), c. rewrite app_assoc. split_and!; [done|by apply Forall_app|done].
Qed.

Lemma locked_fatal R msg t : Forall (λ e, ¬ exposes e) t → locked R t (Fatal msg).
Proof. intros Ht. left. eauto. Qed.

Ltac hidden := repeat constructor; by intros [].

Lemma acquire_lock_runs k t res : runs (acquire_lock k) t res → locked (runs k) t res.
Proof.
  intros Hr. unfold acquire_lock in Hr. apply runs_req_bind in Hr as ([[]|e] & t1 & -> & Hr);
    [|run_inv Hr; apply locked_fatal; hidden].
  apply (locked_after _ [_]); [hidden|].
  apply runs_req_bind in Hr as ([] & t2 & -> & Hr).
  { apply runs_req_bind in Hr as ([] & t3 & -> & Hr). right. by exists [], t3. }
  apply runs_req_bind in Hr as (data & t3 & -> & Hr). cbv zeta in Hr.
  apply (locked_after _ [_; _]); [hidden|].
  destruct (String.eqb _ _); [run_inv Hr; apply locked_fatal; hidden|].
  apply runs_bind in Hr as (t4 & t5 & alive & -> & H4 & Hr).
  apply locked_after.
  { destruct (Atoi _); [|by destruct H4 as [-> _]]. apply runs_request in H4 as ->. hidden. }
  destruct alive; [run_inv Hr; apply locked_fatal; hidden|].
  apply runs_req_bind in Hr as ([] & t6 & -> & Hr).
  - apply runs_req_bind in Hr as ([] & t7 & -> & Hr). right. by exists [], t7.
  - run_inv Hr. apply locked_fatal. hidden.
Qed.

Lemma seed_settings_runs cfg k t res :
  runs (seed_settings cfg k) t res →
  ∃ ts a b, t = a ++ b ∧ Forall (λ e, ¬ exposes e) a ∧ runs (k ts) b res.
Proof.
  intros Hr. unfold seed_settings in Hr. apply runs_req_bind in Hr as (ts & t1 & -> & Hr).
  destruct (seed_tailscale ts _) as [ts' putTs].
  apply runs_bind in Hr as (t2 & t3 & u & -> & H2 & Hr).
  apply runs_req_bind in Hr as (g & t4 & -> & Hr). destruct (seed_global g _) as [g' putG].
  apply runs_bind in Hr as (t5 & t6 & u' & -> & H5 & Hr).
  exists ts', (Ev SGetTailscale ts :: t2 ++ Ev SGetGlobal g :: t5), t6.
  split; [simpl; by rewrite -app_assoc|]. split; [|done].
  constructor; [by intros []|]. apply Forall_app. split; [|constructor; [by intros []|]].
  - destruct putTs; [apply runs_request in H2 as ->; hidden|by destruct H2 as [-> _]].
  - destruct putG; [apply runs_request in H5 as ->; hidden|by destruct H5 as [-> _]].
Qed.

Definition serve_outcome (t : list (gevent scall)) (res : exit) : Prop :=
  (∃ msg, res = Fatal msg ∧ Forall (λ e, ¬ exposes e) t)
  ∨ ∃ cfg a b, t = a ++ Ev SFlock true :: Ev SWritePid tt :: b ∧ Forall (λ e, ¬ exposes e) a
      ∧ Ev SLoad (Ok cfg) ∈ a ∧ Validate cfg = Ok tt ∧ Ev SOpenDb (Ok tt) ∈ a
      ∧ serves_with (λ pre cert, (∃ addr, Ev (SListen addr) (Ok tt) ∈ pre)
           ∧ Ev (STsListen ":443") (Ok tt) ∈ pre ∧ Ev (SStat cert) true ∈ pre) b res.

Lemma serve_runs home t res : runs (serve home) t res → serve_outcome t res.
Proof.
  intros Hr. unfold serve in Hr. apply runs_req_bind in Hr as ([cfg|e] & t1 & -> & Hr);
    [|run_inv Hr; left; eexists; split; [done|hidden]].
  destruct (Validate cfg) as [[]|e] eqn:Ev; [|run_inv Hr; left; eexists; split; [done|hidden]].
  apply runs_req_bind in Hr as (pd & t2 & -> & Hr).
  apply runs_bind in Hr as (t3 & t4 & u & -> & H3 & Hr).
  assert (Forall (λ e, ¬ exposes e) t3) as H3'.
  { destruct (String.eqb _ _); [by destruct H3 as [-> _]|]. apply runs_request in H3 as ->. hidden. }
  apply runs_req_bind in Hr as ([[]|e] & t5 & -> & Hr);
    [|run_inv Hr; left; eexists; split; [done|]; do 2 (constructor; [by intros []|]);
      apply Forall_app; split; [done|hidden]].
  apply runs_req_bind in Hr as (mk & t6 & -> & Hr).
  apply seed_settings_runs in Hr as (ts & a & b & -> & Ha & Hr).
  apply acquire_lock_runs in Hr as [(msg & -> & Hb)|(c & d & -> & Hc & Hr)].
  - left. exists msg. split; [done|]. do 2 (constructor; [by intros []|]). apply Forall_app.
    split; [done|]. do 2 (constructor; [by intros []|]). by apply Forall_app.
  - right. apply start_servers_runs in Hr.
    eexists cfg, (_ :: _ :: t3 ++ _ :: _ :: a ++ c), d.
    split; [by rewrite /= -!app_assoc /= -!app_assoc|]. split_and!; [|left|done| |done].
    + do 2 (constructor; [by intros []|]). apply Forall_app. split; [done|].
      do 2 (constructor; [by intros []|]). by apply Forall_app.
    + do 2 right. apply elem_of_app. right. left.
Qed.


End runs.

(** ** The lock file and several processes *)

(** A process has opened the file (an inode), holds the lock on it and serves, or
    has returned from [main], given up the lock and is about to remove the
    file. *)
Inductive lphase : Type := LOpened (ino : nat) | LServing (ino : nat) | LLeaving.

Record world : Type := {
  w_path : option nat;            (* the inode the path leads to *)
  w_inodes : nat;                 (* inodes so far *)
  w_holder : gmap nat nat;        (* inode to the process that holds its lock *)
  w_procs : gmap nat lphase
}.

Definition no_process : world :=
  {| w_path := None; w_inodes := 0; w_holder := ∅; w_procs := ∅ |}.

Inductive levent : Type :=
  | LOpen (p : nat)               (* open with O_CREATE *)
  | LLock (p : nat)               (* a flock that succeeds, the first or the second *)
  | LDie (p : nat)                (* Fatalf, Exit or a kill: the kernel releases the lock *)
  | LReturn (p : nat)             (* the deferred function truncates, unlocks and closes *)
  | LRemove (p : nat).            (* and removes the path *)

Definition release (p : nat) (h : gmap nat nat) : gmap nat nat := filter (λ x, x.2 ≠ p) h.

Definition lock_do (e : levent) (w : world) : option world :=
  match e with
  | LOpen p =>
      match w_procs w !! p with
      | Some _ => None
      | None =>
          let ino := default (w_inodes w) (w_path w) in
          Some {| w_path := Some ino;
                  w_inodes := match w_path w with Some _ => w_inodes w | None => S (w_inodes w) end;
                  w_holder := w_holder w; w_procs := <[p := LOpened ino]> (w_procs w) |}
      end
  | LLock p =>
      match w_procs w !! p with
      | Some (LOpened ino) =>
          match w_holder w !! ino with
          | None => Some {| w_path := w_path w; w_inodes := w_inodes w;
                            w_holder := <[ino := p]> (w_holder w);
                            w_procs := <[p := LServing ino]> (w_procs w) |}
          | Some _ => None
          end
      | _ => None
      end
  | LDie p =>
      match w_procs w !! p with
      | Some _ => Some {| w_path := w_path w; w_inodes := w_inodes w;
                          w_holder := release p (w_holder w); w_procs := delete p (w_procs w) |}
      | None => None
      end
  | LReturn p =>
      match w_procs w !! p with
      | Some (LServing _) =>
          Some {| w_path := w_path w; w_inodes := w_inodes w; w_holder := release p (w_holder w);
                  w_procs := <[p := LLeaving]> (w_procs w) |}
      | _ => None
      end
  | LRemove p =>
      match w_procs w !! p with
      | Some LLeaving =>
          Some {| w_path := None; w_inodes := w_inodes w; w_holder := w_holder w;
                  w_procs := delete p (w_procs w) |}
      | _ => None
      end
  end.

Definition returns (e : levent) : bool := match e with LReturn _ => true | _ => false end.

(** Steps of processes; those that return from [main] only if [clean]. *)
Definition lock_step (clean : bool) (w w' : world) : Prop :=
  ∃ e, lock_do e w = Some w' ∧ (returns e = true → clean = true).

Definition serving (w : world) (p : nat) : Prop := ∃ ino, w_procs w !! p = Some (LServing ino).

(** While nobody returns, all processes opened one inode and the one that
    serves holds its lock. *)
Record lock_inv (w : world) : Prop := {
  lk_opened p ino : w_procs w !! p = Some (LOpened ino) → w_path w = Some ino;
  lk_serving p ino : w_procs w !! p = Some (LServing ino) →
    w_path w = Some ino ∧ w_holder w !! ino = Some p;
  lk_staying p : w_procs w !! p ≠ Some LLeaving
}.

Lemma lock_step_inv w w' : lock_step false w w' → lock_inv w → lock_inv w'.
Proof.
  intros (e & He & Hc) [Ho Hs Hl]. destruct e as [p|p|p|p|p]; simpl in He, Hc; [..|by specialize (Hc eq_refl)|].
  - destruct (w_procs w !! p) as [|] eqn:Ep; [done|]. simplify_eq. split; simpl.
    + intros q ino. rewrite lookup_insert_Some. intros [(<- & [= <-])|[_ Hq]]; [done|].
      by rewrite (Ho q ino Hq).
    + intros q ino. rewrite lookup_insert_Some. intros [(_ & ?)|[_ Hq]]; [done|].
      destruct (Hs q ino Hq) as [-> ?]. done.
    + intros q. rewrite lookup_insert_Some. intros [(_ & ?)|[_ Hq]]; [done|by destruct (Hl q)].
  - destruct (w_procs w !! p) as [[ino| |]|] eqn:Ep; try done.
    destruct (w_holder w !! ino) as [|] eqn:Eh; [done|]. simplify_eq. split; simpl.
    + intros q i. rewrite lookup_insert_Some. intros [(_ & ?)|[_ Hq]]; [done|by apply (Ho q)].
    + intros q i. rewrite lookup_insert_Some. intros [(<- & [= <-])|[Hne Hq]].
      * split; [by apply (Ho p)|]. by rewrite lookup_insert_eq.
      * destruct (Hs q i Hq) as [Hp Hh]. split; [done|]. rewrite lookup_insert_ne; congruence.
    + intros q. rewrite lookup_insert_Some. intros [(_ & ?)|[_ Hq]]; [done|by destruct (Hl q)].
  - destruct (w_procs w !! p) as [|] eqn:Ep; [|done]. simplify_eq. split; simpl.
    + intros q i. rewrite lookup_delete_Some. intros [_ Hq]. by apply (Ho q).
    + intros q i. rewrite lookup_delete_Some. intros [Hne Hq]. destruct (Hs q i Hq) as [Hp Hh].
      split; [done|]. unfold release. by apply map_lookup_filter_Some_2.
    + intros q. rewrite lookup_delete_Some. intros [_ Hq]. by destruct (Hl q).
  - destruct (w_procs w !! p) as [[| |]|] eqn:Ep; try done. by destruct (Hl p).
Qed.

Lemma lock_reachable w : rtc (lock_step false) no_process w → lock_inv w.
Proof.
  assert (lock_inv no_process) as I by (split; done). intros Hr.
  induction Hr as [|x y z Hs _ IH]; [done|]. by apply IH, (lock_step_inv x).
Qed.

(** A process that opened the file before it was removed, and one after. *)
Definition two_run : list levent :=
  [LOpen 0; LLock 0; LOpen 1; LReturn 0; LLock 1; LRemove 0; LOpen 2; LLock 2].

(** C22: one host at a time.  As long as processes end by [os.Exit], [log.Fatalf]
    or a signal, which by [serve_life] they do while no server ends on its own,
    two processes never serve at the same time.  The deferred clean-up would
    not keep this: it removes the path after unlocking, so that a process that
    has already opened the file locks the removed inode while the next one
    creates and locks a new file. *)
Theorem single_instance w :
  rtc (lock_step false) no_process w →
  (∀ p q, serving w p → serving w q → p = q)
  ∧ (∃ w' p q, rtc (lock_step true) no_process w' ∧ serving w' p ∧ serving w' q ∧ p ≠ q).
Proof.
  intros Hr. split.
  - destruct (lock_reachable w Hr) as [_ Hs _]. intros p q [i Hp] [j Hq].
    destruct (Hs p i Hp) as [Ei Hi], (Hs q j Hq) as [Ej Hj]. congruence.
  - eexists _, 1%nat, 2%nat. split; 
      [apply (run_events_rtc lock_do _ two_run); [by intros e x y E; exists e|vm_compute; reflexivity]|].
    split; [by eexists|]. split; [by eexists|done].
Qed.

(** ** A machine *)

(** Everything succeeds; the servers run until a signal. *)
Definition demo_machine : server scall unit := λ X s c,
  (s, match c in scall Y return Y with
      | SWizard => Ok tt | SK8sConfig => true | SOperator => Ok tt | SWaitSignal => tt
      | SLoad => Ok {| cf_LoginServer := "https://hs"; cf_AuthKey := "k"; cf_Hostname := "host";
                       cf_ListenLocal := "127.0.0.1:8090"; cf_DialTimeoutMS := 3000; cf_Name := "" |}
      | SGetenv _ => "" | SParentDeath => tt | SOpenDb => Ok tt
      | SGetTailscale => {| ts_LoginServer := ""; ts_PreauthKey := ""; ts_Hostname := "" |}
      | SPutTailscale _ => tt
      | SGetGlobal => {| g_OrgID := ""; g_DefaultNamespace := ""; g_EmbedOperator := false;
                         g_FrontendOrigin := ""; g_ListenLocal := "" |}
      | SPutGlobal _ => tt
      | SOpenLock => Ok tt | SFlock => true | SReadLock => "" | SAlive _ => false | SWritePid => tt
      | STsStart _ _ _ => Ok tt | SStat _ => true | SListen _ => Ok tt | SListen6 _ => true
      | STsListen _ => Ok tt | SServe _ _ _ => Signalled
      | SCloseLocal | SCloseV6 | SShutdownLocal | SShutdownV6 | SShutdownTs | STsClose
      | STsListenerClose => tt
      end).


Lemma single_instance_witness :
  ∃ w, run_events lock_do [LOpen 0; LLock 0; LOpen 1; LDie 0; LLock 1] no_process = Some w
    ∧ ∀ p q, serving w p → serving w q → p = q.
Proof.
  eexists. split; [vm_compute; reflexivity|]. refine (proj1 (single_instance _ _)).
  eapply (run_events_rtc (λ e w, if returns e then None else lock_do e w) _
    [LOpen 0; LLock 0; LOpen 1; LDie 0; LLock 1]); [|vm_compute; reflexivity].
  intros e x y E. exists e. by destruct (returns e).
Defined.
