(* ===== verification/Changefeed.v ===== *)
(** * Change feeds from the database to the client

    SubscribeTable (internal/db/db.go) starts a goroutine that reads a cursor
    and sends events on a channel of 256 places; handleChangefeed
    (internal/httpx/db_handlers.go) receives them, in the loop [feed_loop] of
    [DbHandlers].  Both, the database and the client interleave. *)

From S2P Require Import Prelude GoStrings Values Names.
From S2P Require Import Rbac DbManager DbHandlers Prog.

Definition feed_cap : nat := 256.

Abbreviation change := (option doc * option doc)%type (only parsing).

(** The goroutine waits for the cursor, for a place in the channel or for one
    for its last event, or has ended, which closes cursor and channel. *)
Inductive producer : Type :=
  | PNext
  | PSend (ev : ChangefeedEvent)
  | PLast (ev : ChangefeedEvent)
  | PGone.

Record feed : Type := {
  fd_arrived : list change;            (* all changes so far *)
  fd_unread : list change;             (* those the cursor still has *)
  fd_end : option (option string);     (* the cursor has ended, with its error *)
  fd_made : list (change * string);    (* changes read, with the time of reading *)
  fd_producer : producer;
  fd_chan : list ChangefeedEvent;
  fd_handler : bool;                   (* handleChangefeed still runs *)
  fd_inputs : list feed_input          (* what it has received *)
}.

Definition subscribed : feed :=
  {| fd_arrived := []; fd_unread := []; fd_end := None; fd_made := []; fd_producer := PNext;
     fd_chan := []; fd_handler := true; fd_inputs := [] |}.

Inductive feed_ev : Type :=
  | DbChange (c : change)
  | DbEnd (err : option string)
  | CursorNext (ts : string)     (* cur.Next, with the time of the event *)
  | ChanSend                     (* the select takes the send, or the last send goes through *)
  | SendDone                     (* the select takes ctx.Done *)
  | HandlerRecv                  (* the handler takes an event or the end of the channel *)
  | HandlerTick
  | HandlerQuit.                 (* the client left, or a write failed *)

Section steps.
Variable table : string.

Definition error_event (e ts : string) : ChangefeedEvent :=
  {| cf_Type := "error"; cf_TableID := table; cf_RowID := ""; cf_Before := None; cf_After := None;
     cf_Cursor := ""; cf_TS := ts; cf_Pending := 0; cf_Snapshot := false; cf_Error := e |}.

Definition produce (s : feed) (unread : list change) (made : list (change * string)) (p : producer)
    (ch : list ChangefeedEvent) : feed :=
  {| fd_arrived := fd_arrived s; fd_unread := unread; fd_end := fd_end s; fd_made := made;
     fd_producer := p; fd_chan := ch; fd_handler := fd_handler s; fd_inputs := fd_inputs s |}.

Definition handle (s : feed) (ch : list ChangefeedEvent) (running : bool) (ins : list feed_input) : feed :=
  {| fd_arrived := fd_arrived s; fd_unread := fd_unread s; fd_end := fd_end s; fd_made := fd_made s;
     fd_producer := fd_producer s; fd_chan := ch; fd_handler := running; fd_inputs := ins |}.

Definition has_room (s : feed) : bool := (length (fd_chan s) <? feed_cap)%nat.

(** The context of the request ends with the handler. *)
Definition feed_do (e : feed_ev) (s : feed) : option feed :=
  match e with
  | DbChange c =>
      match fd_end s with
      | None => Some {| fd_arrived := fd_arrived s ++ [c]; fd_unread := fd_unread s ++ [c];
                        fd_end := None; fd_made := fd_made s; fd_producer := fd_producer s;
                        fd_chan := fd_chan s; fd_handler := fd_handler s; fd_inputs := fd_inputs s |}
      | Some _ => None
      end
  | DbEnd err =>
      match fd_end s with
      | None => Some {| fd_arrived := fd_arrived s; fd_unread := fd_unread s; fd_end := Some err;
                        fd_made := fd_made s; fd_producer := fd_producer s; fd_chan := fd_chan s;
                        fd_handler := fd_handler s; fd_inputs := fd_inputs s |}
      | Some _ => None
      end
  | CursorNext ts =>
      match fd_producer s, fd_unread s, fd_end s with
      | PNext, c :: r, _ =>
          Some (produce s r (fd_made s ++ [(c, ts)]) (PSend (change_event ts table c.1 c.2)) (fd_chan s))
      | PNext, [], Some None => Some (produce s [] (fd_made s) PGone (fd_chan s))
      | PNext, [], Some (Some e) =>
          Some (produce s [] (fd_made s) (PLast (error_event e ts)) (fd_chan s))
      | _, _, _ => None
      end
  | ChanSend =>
      match fd_producer s with
      | PSend ev => if has_room s
                    then Some (produce s (fd_unread s) (fd_made s) PNext (fd_chan s ++ [ev])) else None
      | PLast ev => if has_room s
                    then Some (produce s (fd_unread s) (fd_made s) PGone (fd_chan s ++ [ev])) else None
      | _ => None
      end
  | SendDone =>
      match fd_producer s with
      | PSend ev => if fd_handler s then None
                    else Some (produce s (fd_unread s) (fd_made s) PGone (fd_chan s))
      | _ => None
      end
  | HandlerRecv =>
      if fd_handler s then
        match fd_chan s, fd_producer s with
        | ev :: r, _ => Some (handle s r true (fd_inputs s ++ [FeedEvent ev]))
        | [], PGone => Some (handle s [] false (fd_inputs s))
        | [], _ => None
        end
      else None
  | HandlerTick =>
      if fd_handler s then Some (handle s (fd_chan s) true (fd_inputs s ++ [Heartbeat])) else None
  | HandlerQuit =>
      if fd_handler s then Some (handle s (fd_chan s) false (fd_inputs s)) else None
  end.

Definition feed_reachable (s : feed) : Prop :=
  rtc (λ x y, ∃ e, feed_do e x = Some y) subscribed s.

(** ** Order and losslessness *)

Definition received (ins : list feed_input) : list ChangefeedEvent :=
  omap (λ i, match i with FeedEvent ev => Some ev | Heartbeat => None end) ins.

Definition events_of (made : list (change * string)) : list ChangefeedEvent :=
  (λ x, change_event x.2 table x.1.1 x.1.2) <$> made.

Definition sending (s : feed) : list ChangefeedEvent :=
  match fd_producer s with PSend ev => [ev] | _ => [] end.

(** At the end of the feed an error event may follow. *)
Definition is_last (l : list ChangefeedEvent) : Prop :=
  l = [] ∨ ∃ e ts, l = [error_event e ts].

Record feed_inv (s : feed) : Prop := {
  fi_cap : (length (fd_chan s) <= feed_cap)%nat;
  fi_read : fd_arrived s = (fd_made s).*1 ++ fd_unread s;
  (* while the goroutine runs nothing is lost *)
  fi_all : fd_producer s ≠ PGone →
    received (fd_inputs s) ++ fd_chan s ++ sending s = events_of (fd_made s);
  (* after its end only the event it was sending can be *)
  fi_end : fd_producer s = PGone → ∃ sent lost tail,
    received (fd_inputs s) ++ fd_chan s = sent ++ tail ∧ events_of (fd_made s) = sent ++ lost
    ∧ is_last tail ∧ (length lost <= 1)%nat ∧ (lost ≠ [] → tail = [] ∧ fd_handler s = false)
    ∧ (fd_handler s = true → fd_unread s = [] ∧ is_Some (fd_end s));
  fi_last ev : fd_producer s = PLast ev →
    fd_unread s = [] ∧ is_Some (fd_end s) ∧ is_last [ev]
}.

Lemma events_of_app a b : events_of (a ++ b) = events_of a ++ events_of b.
Proof. apply fmap_app. Qed.

Lemma received_app a b : received (a ++ b) = received a ++ received b.
Proof. apply omap_app. Qed.

Lemma feed_inv_init : feed_inv subscribed.
Proof. split; try done. simpl. unfold feed_cap. lia. Qed.

(** What the producer does. *)
Lemma feed_inv_next s ts s' : feed_do (CursorNext ts) s = Some s' → feed_inv s → feed_inv s'.
Proof.
  intros He [Hcap Hread Hall Hend Hlast]. simpl in He.
  destruct (fd_producer s) eqn:Ep; try done. specialize (Hall ltac:(done)).
  unfold sending in Hall. rewrite Ep app_nil_r in Hall.
  destruct (fd_unread s) as [|c r] eqn:Eu; [destruct (fd_end s) as [[e|]|] eqn:Ee; [| |done]|];
    simplify_eq.
  - split; simpl; try done; [by rewrite app_nil_r|].
    intros ev [= <-]. split_and!; [done|by rewrite Ee|]. right. eauto.
  - split; simpl; try done. intros _.
    exists (events_of (fd_made s)), [], []. rewrite !app_nil_r. split_and!; try done; [by left|].
    simpl. lia.
  - split; simpl; try done.
    + by rewrite fmap_app -app_assoc Hread.
    + intros _. rewrite app_assoc Hall events_of_app. done.
Qed.

Lemma feed_inv_send s s' : feed_do ChanSend s = Some s' → feed_inv s → feed_inv s'.
Proof.
  intros He [Hcap Hread Hall Hend Hlast]. simpl in He.
  assert (has_room s = true → (length (fd_chan s) < feed_cap)%nat) as Hroom by apply Nat.ltb_lt.
  destruct (fd_producer s) as [|ev|ev|] eqn:Ep; try done; destruct (has_room s); [|done| |done];
    specialize (Hroom eq_refl); specialize (Hall ltac:(done)); unfold sending in Hall;
    rewrite Ep in Hall; simplify_eq; split; simpl; try done; try (rewrite length_app /=; lia).
  - intros _. by rewrite app_nil_r.
  - intros _. destruct (Hlast ev eq_refl) as (Hu & Hen & Hl). rewrite app_nil_r in Hall.
    exists (events_of (fd_made s)), [], [ev]. rewrite app_nil_r app_assoc Hall.
    split_and!; try done. simpl; lia.
Qed.

Lemma feed_inv_done s s' : feed_do SendDone s = Some s' → feed_inv s → feed_inv s'.
Proof.
  intros He [Hcap Hread Hall Hend Hlast]. simpl in He.
  destruct (fd_producer s) as [|ev|ev|] eqn:Ep; try done. destruct (fd_handler s) eqn:Eh; [done|].
  specialize (Hall ltac:(done)). unfold sending in Hall. rewrite Ep in Hall. simplify_eq.
  split; simpl; try done. intros _.
  exists (received (fd_inputs s) ++ fd_chan s), [ev], []. rewrite app_nil_r -app_assoc Hall.
  split_and!; try done; [by left|by rewrite Eh].
Qed.

(** What the handler does: it receives an event, notes a tick, or stops. *)
Lemma feed_inv_handle s ch running ins :
  feed_inv s → received ins ++ ch = received (fd_inputs s) ++ fd_chan s →
  (length ch <= length (fd_chan s))%nat → fd_handler s = true →
  feed_inv (handle s ch running ins).
Proof.
  intros [Hcap Hread Hall Hend Hlast] Er Hl Hh. split; simpl; try done; [lia|..].
  - intros Hp. rewrite -(Hall Hp) !app_assoc. by rewrite Er.
  - intros Hp. destruct (Hend Hp) as (sent & lost & tail & E1 & E2 & H3 & H4 & H5 & H6).
    exists sent, lost, tail. rewrite Er. split_and!; try done.
    + intros Hlo. destruct (H5 Hlo). congruence.
    + intros _. by apply H6.
Qed.

Lemma feed_step_inv e s s' : feed_do e s = Some s' → feed_inv s → feed_inv s'.
Proof.
  intros He I. destruct e as [c|err|ts| | | | |].
  3: by eapply feed_inv_next. 3: by eapply feed_inv_send. 3: by eapply feed_inv_done.
  - simpl in He. destruct (fd_end s) eqn:Ee; [done|]. simplify_eq.
    destruct I as [Hcap Hread Hall Hend Hlast]. split; simpl; try done.
    + by rewrite Hread app_assoc.
    + intros Hp. destruct (Hend Hp) as (sent & lost & tail & E1 & E2 & H3 & H4 & H5 & H6).
      exists sent, lost, tail. split_and!; try done. intros Hh. destruct (H6 Hh) as [_ Hx].
      rewrite Ee in Hx. by destruct Hx.
    + intros ev Hp. destruct (Hlast ev Hp) as (_ & Hx & _). rewrite Ee in Hx. by destruct Hx.
  - simpl in He. destruct (fd_end s) eqn:Ee; [done|]. simplify_eq.
    destruct I as [Hcap Hread Hall Hend Hlast]. split; simpl; try done.
    + intros Hp. destruct (Hend Hp) as (sent & lost & tail & E1 & E2 & H3 & H4 & H5 & H6).
      exists sent, lost, tail. split_and!; try done. intros Hh. destruct (H6 Hh). eauto.
    + intros ev Hp. destruct (Hlast ev Hp) as (? & ? & ?). eauto.
  - simpl in He. destruct (fd_handler s) eqn:Eh; [|done].
    destruct (fd_chan s) as [|ev r] eqn:Ec; [destruct (fd_producer s); try done|]; simplify_eq;
      apply feed_inv_handle; try done; rewrite ?Ec; try done.
    + rewrite received_app -app_assoc. done.
    + simpl. lia.
  - simpl in He. destruct (fd_handler s) eqn:Eh; [|done]. simplify_eq.
    apply feed_inv_handle; try done. by rewrite received_app app_nil_r.
  - simpl in He. destruct (fd_handler s) eqn:Eh; [|done]. simplify_eq. by apply feed_inv_handle.
Qed.

Lemma feed_reachable_inv s : feed_reachable s → feed_inv s.
Proof.
  intros Hr. pose proof feed_inv_init as I. unfold feed_reachable in Hr.
  induction Hr as [|x y z [e He] _ IH]; [done|]. by apply IH, (feed_step_inv e x).
Qed.

End steps.

(** ** What the client is sent *)

Lemma feed_loop_app paused b a ins :
  feed_loop paused b (a ++ ins)
  = let '(b1, o1) := feed_loop paused b a in
    let '(b2, o2) := feed_loop paused b1 ins in (b2, o1 ++ o2).
Proof.
  revert b; induction a as [|i a IH]; intros b; cbn [feed_loop app].
  - by destruct (feed_loop paused b ins).
  - destruct (feed_step paused b i) as [b1 o1]. rewrite IH.
    destruct (feed_loop paused b1 a) as [b2 o2], (feed_loop paused b2 ins) as [b3 o3].
    by rewrite app_assoc.
Qed.

Definition sent_events (out : list feed_output) : list ChangefeedEvent :=
  omap (λ o, match o with SendEvent ev => Some ev | _ => None end) out.

Lemma feed_loop_sends paused b ins :
  sent_events (feed_loop paused b ins).2 = if paused then [] else received ins.
Proof.
  revert b; induction ins as [|i ins IH]; intros b; cbn [feed_loop]; [by destruct paused|].
  destruct (feed_step paused b i) as [b1 o1] eqn:Es.
  specialize (IH b1). destruct (feed_loop paused b1 ins) as [b2 o2]. cbn [snd] in *.
  unfold sent_events in *. rewrite omap_app IH.
  destruct i as [ev|], paused; simpl in Es; simplify_eq; try done. by case_match; simplify_eq.
Qed.

(** ** Runs that leave the goroutine behind *)

Definition silent_run : list feed_ev := [HandlerQuit].
Definition full_run : list feed_ev :=
  concat (replicate 256 [DbChange (None, Some ∅); CursorNext ""; ChanSend])
  ++ [DbEnd (Some "connection lost"); CursorNext ""; HandlerQuit].

(** C20: change feeds.  In every interleaving of the database, the goroutine of
    SubscribeTable and the handler, the channel holds at most 256 events and
    the handler has received, in order and without gaps, the events of the
    first changes of the table, possibly followed by one error event.  While
    the handler runs some step is possible unless everything was delivered and
    the database is silent.  Every event received is sent to the client, unless
    the feed was opened paused: then none ever is, as nothing resumes it.  Two
    states leak: after the client has left, the goroutine waits with its cursor
    open for the next change; and if the cursor fails while the channel is
    full, the send of the error event waits for a handler that is gone, so that
    no step at all is possible. *)
Theorem changefeed_delivery table s :
  feed_reachable table s →
  (length (fd_chan s) <= feed_cap)%nat
  ∧ (∃ made tail, made.*1 `prefix_of` fd_arrived s ∧ is_last table tail
       ∧ received (fd_inputs s) `prefix_of` events_of table made ++ tail)
  ∧ (fd_handler s = true →
       (∃ e s', e ∈ [CursorNext ""; ChanSend; HandlerRecv] ∧ feed_do table e s = Some s')
       ∨ (fd_producer s = PNext ∧ fd_chan s = [] ∧ fd_unread s = [] ∧ fd_end s = None))
  ∧ (∀ paused, sent_events (feed_loop paused [] (fd_inputs s)).2
               = if paused then [] else received (fd_inputs s))
  ∧ (∃ s', feed_reachable table s' ∧ fd_handler s' = false ∧ fd_producer s' = PNext
       ∧ ∀ e x, feed_do table e s' = Some x → (∃ c, e = DbChange c) ∨ ∃ err, e = DbEnd err)
  ∧ (∃ s' ev, feed_reachable table s' ∧ fd_handler s' = false ∧ fd_producer s' = PLast ev
       ∧ ∀ e, feed_do table e s' = None).
Proof.
  intros Hr. destruct (feed_reachable_inv table s Hr) as [Hcap Hread Hall Hend Hlast].
  split; [done|]. split; [|split; [|split; [|split]]].
  - assert (fd_producer s = PGone ∨ fd_producer s ≠ PGone) as [Hg|Hg] by (destruct (fd_producer s); auto).
    + destruct (Hend Hg) as (sent & lost & tail & E1 & E2 & Ht & _ & Hl & _).
      exists (fd_made s), tail. split; [rewrite Hread; apply prefix_app_r; done|]. split; [done|].
      assert (sent ++ tail `prefix_of` events_of table (fd_made s) ++ tail) as Hp.
      { rewrite E2. destruct lost as [|x lost]; [by rewrite app_nil_r|].
        destruct (Hl ltac:(done)) as [-> _]. rewrite !app_nil_r. by exists (x :: lost). }
      etrans; [|exact Hp]. rewrite -E1. by exists (fd_chan s).
    + exists (fd_made s), []. split; [rewrite Hread; apply prefix_app_r; done|]. split; [by left|].
      rewrite -(Hall Hg) app_nil_r. by eexists.
  - intros Hh. destruct (fd_chan s) as [|ev r] eqn:Ec.
    + destruct (fd_producer s) as [|ev|ev|] eqn:Ep.
      * destruct (fd_unread s) as [|c r] eqn:Eu; [destruct (fd_end s) as [[e|]|] eqn:Ee; [| |by right]|];
          left; eexists (CursorNext ""), _; (split; [left|]); simpl; by rewrite Ep Eu ?Ee.
      * left. eexists ChanSend, _. split; [right; left|]. simpl. by rewrite Ep /has_room Ec.
      * left. eexists ChanSend, _. split; [right; left|]. simpl. by rewrite Ep /has_room Ec.
      * left. eexists HandlerRecv, _. split; [right; right; left|]. simpl. by rewrite Hh Ec Ep.
    + left. eexists HandlerRecv, _. split; [right; right; left|]. simpl. by rewrite Hh Ec.
  - intros paused. apply feed_loop_sends.
  - eexists. split; [apply (run_events_rtc (feed_do table) _ silent_run); [eauto|reflexivity]|].
    split; [done|]. split; [done|]. intros [c|err|ts| | | | |] x E; try done; eauto.
  - eexists _, (error_event table "connection lost" ""). split;
      [apply (run_events_rtc (feed_do table) _ full_run); [eauto|vm_compute; reflexivity]|].
    split; [done|]. split; [done|]. by intros [].
Qed.

Lemma changefeed_delivery_witness :
  ∃ s, run_events (feed_do "t")
         [DbChange (None, Some {[ "a" := AStr "1" ]}); CursorNext "now"; ChanSend; HandlerRecv]
         subscribed = Some s
    ∧ (feed_loop false [] (fd_inputs s)).2
      = [SendEvent (change_event "now" "t" None (Some {[ "a" := AStr "1" ]}))]
    ∧ sent_events (feed_loop false [] (fd_inputs s)).2 = received (fd_inputs s).
Proof.
  eexists. split; [reflexivity|]. split; [reflexivity|].
  apply (changefeed_delivery "t" _) with (paused := false).
  apply (run_events_rtc (feed_do "t") _
    [DbChange (None, Some {[ "a" := AStr "1" ]}); CursorNext "now"; ChanSend; HandlerRecv]);
    [eauto|reflexivity].
Defined.
