(* ===== verification/Opening.v ===== *)
(** * Opening stores and clients

    Open and OpenManager of internal/localdb, and the construction of
    Kubernetes clients in internal/k8s/k8s.go.  Answers of the file system, of
    the database driver and of client-go are arguments. *)

From S2P Require Import Prelude GoStrings Names Values.
From S2P Require Import NetAddr LocalDb Settings Jobs Proxy Prog.
From S2P Require Import Rbac DbManager DbHandlers Router RouterCluster K8s HostApp.

Local Open Scope Z_scope.

(** ** The local store (localdb/db.go, localdb/manager.go) *)

(** What one attempt meets: the errors of the directory, of [sql.Open] and of the
    two statements of the schema.  The error of the pragma is ignored. *)
Record open_answers : Type := {
  oa_mkdir : option string; oa_sql : option string; oa_kv : option string; oa_logs : option string
}.

(** The handles an attempt opens and closes. *)
Inductive handle_op : Type := HOpen (path : string) | HClose (path : string).

Definition sqlite_path (stateDir : string) : string :=
  path_join (if String.eqb stateDir "" then "." else stateDir) "guildnet.sqlite".

Definition Open (stateDir : string) (a : open_answers) : list handle_op * result unit :=
  let path := sqlite_path stateDir in
  match oa_mkdir a with
  | Some e => ([], Err e)
  | None =>
      match oa_sql a with
      | Some e => ([], Err e)
      | None =>
          match oa_kv a with
          | Some e => ([HOpen path; HClose path], Err ("init sqlite schema: " +:+ e))
          | None =>
              match oa_logs a with
              | Some e => ([HOpen path; HClose path], Err ("init sqlite schema: " +:+ e))
              | None => ([HOpen path], Ok tt)
              end
          end
      end
  end.

Definition manager_dir (stateDir clusterID : string) : string :=
  path_join (if String.eqb stateDir "" then "." else stateDir) clusterID.

(** The attempts: [tries] gives for each what it meets and the error of the
    context, if that ends during the wait that follows a failure. *)
Fixpoint open_tries (n : nat) (dir : string) (lastErr : option string)
    (tries : list (open_answers * option string)) : list handle_op * result unit :=
  match n, tries with
  | S n, (a, ctx) :: rest =>
      match Open dir a with
      | (ops, Ok _) => (ops, Ok tt)
      | (ops, Err e) =>
          match ctx with
          | Some c => (ops, Err c)
          | None => let '(ops', r) := open_tries n dir (Some e) rest in (ops ++ ops', r)
          end
      end
  | _, _ => ([], match lastErr with Some e => Err ("open per-cluster db: " +:+ e) | None => Ok tt end)
  end.

Definition open_attempts : nat := 5.

(** The path of the manager. *)
Definition OpenManager (stateDir clusterID : string) (mkdir : option string)
    (tries : list (open_answers * option string)) : list handle_op * result string :=
  let dir := manager_dir stateDir clusterID in
  match mkdir with
  | Some e => ([], Err e)
  | None =>
      match open_tries open_attempts dir None tries with
      | (ops, Ok _) => (ops, Ok (path_join dir "guildnet.sqlite"))
      | (ops, Err e) => (ops, Err e)
      end
  end.

(** Handles still open. *)
Fixpoint open_handles (ops : list handle_op) : list string :=
  match ops with
  | [] => []
  | HOpen p :: HClose q :: r => if String.eqb p q then open_handles r else p :: open_handles r
  | HOpen p :: r => p :: open_handles r
  | HClose _ :: r => open_handles r
  end.

Lemma Clean_nonempty s : Clean s ≠ "".
Proof. unfold Clean. repeat case_match; str_cases; done. Qed.

Lemma Open_handles dir a :
  open_handles (Open dir a).1 = if is_ok (Open dir a).2 then [sqlite_path dir] else [].
Proof. unfold Open. repeat case_match; simpl; rewrite ?String.eqb_refl; done. Qed.

Lemma open_handles_failed dir a ops :
  is_ok (Open dir a).2 = false → open_handles ((Open dir a).1 ++ ops) = open_handles ops.
Proof. unfold Open. repeat case_match; simpl; rewrite ?String.eqb_refl; done. Qed.

Lemma open_tries_spec n dir tries lastErr :
  (n <= length tries)%nat → lastErr ≠ None ∨ (0 < n)%nat →
  let '(ops, r) := open_tries n dir lastErr tries in
  open_handles ops = (if is_ok r then [sqlite_path dir] else [])
  ∧ (is_ok r = true ↔ ∃ i a ctx, (i < n)%nat ∧ tries !! i = Some (a, ctx) ∧ is_ok (Open dir a).2 = true
       ∧ Forall (λ t, is_ok (Open dir t.1).2 = false ∧ t.2 = None) (take i tries)).
Proof.
  revert tries lastErr; induction n as [|n IH]; intros [|[a ctx] rest] lastErr Hl Hn; simpl in Hl; try lia.
  - cbn [open_tries]. destruct lastErr as [e|]; [|exfalso; by destruct Hn as [Hn|Hn]; [apply Hn|lia]].
    split; [done|]. split; [done|]. intros (i & _ & _ & Hi & _). lia.
  - cbn [open_tries]. destruct lastErr as [e|]; [|exfalso; by destruct Hn as [Hn|Hn]; [apply Hn|lia]].
    split; [done|]. split; [done|]. intros (i & _ & _ & Hi & _). lia.
  - cbn [open_tries]. destruct (Open dir a) as [ops [[]|e]] eqn:Eo.
    + split; [pose proof (Open_handles dir a) as Hh; by rewrite Eo in Hh|]. split; [|done].
      intros _. exists 0%nat, a, ctx. rewrite Eo. split_and!; try done; lia.
    + assert (is_ok (Open dir a).2 = false) as Hf by by rewrite Eo.
      destruct ctx as [c|].
      * split; [pose proof (Open_handles dir a) as Hh; by rewrite Eo in Hh|]. split; [done|].
        intros ([|i] & b & cx & _ & Hi & Hb & HF); simplify_eq/=; [by rewrite Eo in Hb|].
        apply Forall_cons in HF as [[_ ?] _]. done.
      * specialize (IH rest (Some e)). destruct (open_tries n dir (Some e) rest) as [ops' r].
        destruct IH as [IH1 IH2]; [lia|by left|]. split.
        { pose proof (open_handles_failed dir a ops' Hf) as Ha. rewrite Eo in Ha. by rewrite Ha. }
        rewrite IH2. split.
        -- intros (i & b & cx & Hi & Hb & Hok & HF). exists (S i), b, cx.
           split_and!; [lia|done|done|]. by constructor.
        -- intros ([|i] & b & cx & Hi & Hb & Hok & HF); simplify_eq/=; [by rewrite Eo in Hok|].
           apply Forall_cons in HF as [_ HF]. exists i, b, cx. split_and!; [lia|done..].
Qed.

(** Opening the store of a cluster.  OpenManager succeeds exactly if the
    directory can be made and one of the first five attempts succeeds before the
    context ends; it then holds one open database handle, the one of the file
    its path names.  When it fails every handle it opened was closed. *)
Theorem open_manager stateDir clusterID mkdir tries :
  (5 <= length tries)%nat →
  let dir := manager_dir stateDir clusterID in
  let '(ops, r) := OpenManager stateDir clusterID mkdir tries in
  open_handles ops = (match r with Ok path => [path] | Err _ => [] end)
  ∧ (is_ok r = true ↔ mkdir = None ∧ ∃ i a ctx, (i < 5)%nat ∧ tries !! i = Some (a, ctx)
       ∧ is_ok (Open dir a).2 = true
       ∧ Forall (λ t, is_ok (Open dir t.1).2 = false ∧ t.2 = None) (take i tries)).
Proof.
  intros Hl dir. unfold OpenManager. fold dir. destruct mkdir as [e|].
  { split; [done|]. split; [done|]. by intros [? _]. }
  assert (0 < open_attempts)%nat as H0 by (unfold open_attempts; lia).
  pose proof (open_tries_spec open_attempts dir tries None Hl (or_intror H0)) as Ht.
  destruct (open_tries open_attempts dir None tries) as [ops [[]|e]]; destruct Ht as [H1 H2];
    (split; [|split; [intros Hok; split; [done|by apply H2]|intros [_ Hx]; by apply H2]]); [|done].
  rewrite H1. simpl. unfold sqlite_path.
  rewrite (proj2 (String.eqb_neq dir "")); [done|]. apply Clean_nonempty.
Qed.

Lemma open_manager_witness :
  let none := {| oa_mkdir := None; oa_sql := None; oa_kv := None; oa_logs := None |} in
  let busy := {| oa_mkdir := None; oa_sql := None; oa_kv := None; oa_logs := Some "database is locked" |} in
  OpenManager "/s" "c1" None [(busy, None); (none, None); (none, None); (none, None); (none, None)]
  = ([HOpen "/s/c1/guildnet.sqlite"; HClose "/s/c1/guildnet.sqlite"; HOpen "/s/c1/guildnet.sqlite"],
     Ok "/s/c1/guildnet.sqlite")
  ∧ open_handles [HOpen "/s/c1/guildnet.sqlite"; HClose "/s/c1/guildnet.sqlite";
                  HOpen "/s/c1/guildnet.sqlite"] = ["/s/c1/guildnet.sqlite"].
Proof.
  intros none busy.
  pose proof (open_manager "/s" "c1" None
    [(busy, None); (none, None); (none, None); (none, None); (none, None)] ltac:(simpl; lia)) as Ht.
  assert (OpenManager "/s" "c1" None
    [(busy, None); (none, None); (none, None); (none, None); (none, None)]
    = ([HOpen "/s/c1/guildnet.sqlite"; HClose "/s/c1/guildnet.sqlite"; HOpen "/s/c1/guildnet.sqlite"],
       Ok "/s/c1/guildnet.sqlite")) as E by (vm_compute; reflexivity).
  split; [exact E|]. cbv zeta in Ht. rewrite E in Ht. exact (proj1 Ht).
Defined.

(** ** Kubernetes clients (k8s/k8s.go) *)

Definition kubeconfigDefault (KUBECONFIG : string) (home : option string) : string :=
  if negb (String.eqb KUBECONFIG "") then KUBECONFIG
  else match home with
       | Some h => path_join h ".kube/config"
       | None => ""
       end.

(** A client is its REST configuration and whether it has a dialer of its own;
    [new_client] is the error of client-go for a configuration. *)
Record kclient : Type := { kc_cfg : kconfig; kc_dial : bool }.

Section clients.
Context `{UC : UnicodeCase} `{RE : RouterEnv} (new_client : kconfig → option string).

Definition client_for (cfg : kconfig) (dial : bool) : result kclient :=
  match new_client cfg with
  | Some e => Err e
  | None => Ok {| kc_cfg := cfg; kc_dial := dial |}
  end.

(** The in-cluster configuration, or the file. *)
Definition New (in_cluster : result kconfig) (from_file : string → result kconfig)
    (KUBECONFIG : string) (home : option string) : result kclient :=
  match in_cluster with
  | Ok cfg => client_for cfg false
  | Err _ =>
      let kc := kubeconfigDefault KUBECONFIG home in
      if String.eqb kc "" then Err "no in-cluster config and no kubeconfig"
      else match from_file kc with Ok cfg => client_for cfg false | Err e => Err e end
  end.

Record client_opts : Type := { co_APIProxyURL : string; co_ForceHTTP : bool; co_Dial : bool }.

Definition override (o : client_opts) (cfg : kconfig) : kconfig :=
  let v := TrimSpace (co_APIProxyURL o) in
  let cfg1 :=
    if String.eqb v "" then cfg
    else {| cfg_Host := v;
            cfg_TLS := if HasPrefix (ToLower v) "http://" then false else cfg_TLS cfg |} in
  if co_ForceHTTP o then
    match url_force_http (cfg_Host cfg1) with
    | Some h => {| cfg_Host := h; cfg_TLS := cfg_TLS cfg1 |}
    | None => cfg1
    end
  else cfg1.

Definition NewFromKubeconfig (kubeconfigYAML : string) (o : client_opts) : result kclient :=
  if String.eqb (TrimSpace kubeconfigYAML) "" then Err "empty kubeconfig"
  else match kubeconfigFrom kubeconfigYAML with
       | Err e => Err e
       | Ok cfg => client_for (override o cfg) (co_Dial o)
       end.

(** What the registry passes: its connector, and no overrides. *)
Definition registry_opts (connector : bool) : client_opts :=
  {| co_APIProxyURL := ""; co_ForceHTTP := false; co_Dial := connector |}.

(** The overrides the settings of a cluster ask for. *)
Definition settings_opts (cs : Cluster) (dial : bool) : client_opts :=
  {| co_APIProxyURL := cl_APIProxyURL cs; co_ForceHTTP := cl_APIProxyForceHTTP cs; co_Dial := dial |}.

(** ** Probing a cluster (internal/api/router.go) *)

Definition version_url (host : string) : string :=
  TrimRightByte "/"
    (if HasPrefix host "http://" || HasPrefix host "https://" then host
     else "https://" +:+ TrimPrefix host "//") +:+ "/version".

(** The answers of a probe: whether a transport could be built, whether the URL
    parses, the status of the version request, and the error of listing
    namespaces. *)
Record probe : Type := {
  pb_transport : bool; pb_url_ok : string → bool; pb_version : option Z; pb_list : option string
}.

(** [None] when the cluster answers; a URL that does not parse leaves the
    request nil, and the client panics on it. *)
Inductive health : Type := HealthPanic | Health (err : option string).

Definition healthyCluster (cfg : kconfig) (p : probe) : health :=
  let fallback :=
    match new_client cfg with Some e => Health (Some e) | None => Health (pb_list p) end in
  if pb_transport p then
    if pb_url_ok p (version_url (cfg_Host cfg)) then
      match pb_version p with
      | Some c => if (200 <=? c) && (c <? 300) then Health None else fallback
      | None => fallback
      end
    else HealthPanic
  else fallback.

(** A cluster is healthy exactly when one of the two requests succeeds. *)
Lemma healthyCluster_spec cfg p :
  healthyCluster cfg p = Health None ↔
    (pb_transport p = true → pb_url_ok p (version_url (cfg_Host cfg)) = true)
    ∧ ((pb_transport p = true ∧ ∃ c, pb_version p = Some c ∧ 200 ≤ c < 300)
       ∨ (new_client cfg = None ∧ pb_list p = None)).
Proof.
  unfold healthyCluster.
  assert (∀ o : option string, match o with Some e => Health (Some e) | None => Health (pb_list p) end
            = Health None ↔ o = None ∧ pb_list p = None) as Hf.
  { intros [e|]; split; try intros [= ->]; try (by intros [_ ->]); try (by intros [? _]); done. }
  destruct (pb_transport p); [|rewrite Hf; intuition congruence].
  destruct (pb_url_ok p _); [|intuition congruence].
  destruct (pb_version p) as [c|].
  - destruct ((200 <=? c) && (c <? 300)) eqn:E.
    + split; [|done]. intros _. split; [done|]. left. split; [done|]. exists c. split; [done|]. lia.
    + rewrite Hf. split; [by auto|]. intros [_ [(_ & c' & [= <-] & Hc)|?]]; [lia|done].
  - rewrite Hf. split; [by auto|]. by intros [_ [(_ & c & [=] & _)|?]].
Qed.

(** Two ways to override the address of a cluster.  For settings with an
    explicit proxy address, or in the absence of KUBE_PROXY_ADDR, a client
    built by NewFromKubeconfig with the overrides of the settings has the
    configuration the router derives with applyClusterAPIProxy.  The registry
    however passes no overrides: its clients keep the address of the kubeconfig
    whatever the settings say, so that for a cluster with a proxy address the
    two parts of the host address different servers. *)
Theorem client_overrides kc cfg cs dial :
  TrimSpace kc ≠ "" → kubeconfigFrom kc = Ok cfg → (∀ c, new_client c = None) →
  (TrimSpace (cl_APIProxyURL cs) ≠ "" ∨ TrimSpace kube_proxy_addr = "" →
     NewFromKubeconfig kc (settings_opts cs dial)
     = Ok {| kc_cfg := apply_proxy cs cfg; kc_dial := dial |})
  ∧ NewFromKubeconfig kc (registry_opts dial) = Ok {| kc_cfg := cfg; kc_dial := dial |}
  ∧ (TrimSpace (cl_APIProxyURL cs) ≠ "" → TrimSpace (cl_APIProxyURL cs) ≠ cfg_Host cfg →
     cl_APIProxyForceHTTP cs = false →
     cfg_Host (apply_proxy cs cfg) = TrimSpace (cl_APIProxyURL cs)
     ∧ apply_proxy cs cfg ≠ cfg).
Proof.
  intros Hk Hc Hn. unfold NewFromKubeconfig. rewrite (proj2 (String.eqb_neq _ _) Hk) Hc.
  unfold client_for. rewrite !Hn. split; [|split; [done|]].
  - intros Hu. do 2 f_equal. unfold override, settings_opts, apply_proxy, proxy_host.
    cbn [co_APIProxyURL co_ForceHTTP].
    destruct (String.eqb_spec (TrimSpace (cl_APIProxyURL cs)) "") as [E|E].
    + destruct Hu as [?|Hv]; [done|]. rewrite E Hv.
      by destruct (cl_DisableAPIProxy cs); cbn [String.eqb andb negb].
    + cbn [andb]. by rewrite (proj2 (String.eqb_neq _ _) E).
  - intros Hu Hd Hf. unfold apply_proxy, proxy_host. rewrite Hf (proj2 (String.eqb_neq _ _) Hu).
    cbn [andb]. rewrite (proj2 (String.eqb_neq _ _) Hu). split; [done|].
    intros E. apply Hd. by rewrite -E.
Qed.

End clients.

Definition proxied_Cluster : Cluster :=
  {| cl_Name := "c1"; cl_Namespace := ""; cl_APIProxyURL := "https://proxy:1";
     cl_APIProxyForceHTTP := false; cl_DisableAPIProxy := false;
     cl_PreferPodProxy := false; cl_UsePortForward := false;
     cl_IngressDomain := ""; cl_IngressClassName := "";
     cl_WorkspaceTLSSecret := ""; cl_CertManagerIssuer := "";
     cl_IngressAuthURL := ""; cl_IngressAuthSignin := "";
     cl_ImagePullSecret := ""; cl_WorkspaceLBEnabled := false; cl_OrgID := "";
     cl_TSLoginServer := ""; cl_TSClientAuthKey := ""; cl_TSRoutes := "";
     cl_TSStatePath := ""; cl_HeadscaleNS := "" |}.

Lemma client_overrides_witness :
  let cs := proxied_Cluster in
  @NewFromKubeconfig ascii_case demo_env (λ _, None) "apiVersion: v1" (settings_opts cs true)
  = Ok {| kc_cfg := @apply_proxy ascii_case demo_env cs demo_cfg; kc_dial := true |}
  ∧ @NewFromKubeconfig ascii_case demo_env (λ _, None) "apiVersion: v1" (registry_opts true)
    = Ok {| kc_cfg := demo_cfg; kc_dial := true |}
  ∧ cfg_Host (@apply_proxy ascii_case demo_env cs demo_cfg) = "https://proxy:1"
  ∧ @apply_proxy ascii_case demo_env cs demo_cfg ≠ demo_cfg.
Proof.
  intros cs.
  destruct (@client_overrides ascii_case demo_env (λ _, None) "apiVersion: v1" demo_cfg cs true
              ltac:(vm_compute; discriminate) ltac:(vm_compute; reflexivity) (λ _, eq_refl))
    as (H1 & H2 & H3).
  split; [apply H1; left; vm_compute; discriminate|].
  split; [exact H2|].
  exact (H3 ltac:(vm_compute; discriminate) ltac:(vm_compute; discriminate) eq_refl).
Defined.
