(* ===== verification/Middleware.v ===== *)
(** * The HTTP middleware

    internal/httpx/middleware.go: the response helpers, and the chain of
    middlewares that the host puts around its handlers.  A handler is a
    program over the methods of its [http.ResponseWriter]; [http_do] is the
    writer of package net/http. *)

From S2P Require Import Prelude GoStrings Values Prog.
From S2P Require Import NetAddr Mux LocalDb Settings Jobs Proxy Rbac DbManager DbHandlers.
From S2P Require Import Router HostApp HostMount.

Local Open Scope Z_scope.

(** ** Response writers *)

Inductive wcall : Set → Type :=
  | WGet (k : string) : wcall string            (* w.Header().Get *)
  | WSet (k v : string) : wcall unit            (* w.Header().Set *)
  | WHeader (code : Z) : wcall unit             (* w.WriteHeader *)
  | WWrite (b : string) : wcall unit            (* w.Write, or ReadFrom *)
  | WFlush : wcall unit
  | WHijack : wcall bool.                       (* whether the connection was handed over *)

Abbreviation wprog := (gprog wcall).

(** What the server keeps of a response: the header map, the status and headers
    that went out, the body, and whether the connection was handed over. *)
Record writer : Type := {
  w_header : gmap string string;
  w_sent : option (Z * gmap string string);
  w_body : string;
  w_hijacked : bool;
  w_flusher : bool;
  w_hijacker : bool
}.

Definition new_writer (flusher hijacker : bool) : writer :=
  {| w_header := ∅; w_sent := None; w_body := ""; w_hijacked := false;
     w_flusher := flusher; w_hijacker := hijacker |}.

(** Informational statuses go out at once and leave the response open. *)
Definition informational (code : Z) : bool :=
  (100 <=? code) && (code <=? 199) && negb (code =? 101).
Definition body_allowed (code : Z) : bool :=
  negb ((100 <=? code) && (code <=? 199)) && negb (code =? 204) && negb (code =? 304).

(** The first final status wins; a later one is only reported in the log. *)
Definition commit (code : Z) (w : writer) : writer :=
  match w_sent w with
  | Some _ => w
  | None =>
      if w_hijacked w || informational code then w
      else {| w_header := w_header w; w_sent := Some (code, w_header w); w_body := w_body w;
              w_hijacked := w_hijacked w; w_flusher := w_flusher w; w_hijacker := w_hijacker w |}
  end.

Definition append_body (b : string) (w : writer) : writer :=
  match w_sent w with
  | Some (code, _) =>
      if body_allowed code && negb (w_hijacked w) then
        {| w_header := w_header w; w_sent := w_sent w; w_body := w_body w +:+ b;
           w_hijacked := w_hijacked w; w_flusher := w_flusher w; w_hijacker := w_hijacker w |}
      else w
  | None => w
  end.

Definition set_header (k v : string) (w : writer) : writer :=
  {| w_header := <[k := v]> (w_header w); w_sent := w_sent w; w_body := w_body w;
     w_hijacked := w_hijacked w; w_flusher := w_flusher w; w_hijacker := w_hijacker w |}.

Definition hijack (w : writer) : writer :=
  {| w_header := w_header w; w_sent := w_sent w; w_body := w_body w;
     w_hijacked := true; w_flusher := w_flusher w; w_hijacker := w_hijacker w |}.

(** The writer of net/http; a status outside 100..999 makes it panic, which no
    handler of the host does. *)
Definition http_do : server wcall writer := λ X w c,
  match c in wcall Y return writer * Y with
  | WGet k => (w, default "" (w_header w !! k))
  | WSet k v => (set_header k v w, tt)
  | WHeader code => (commit code w, tt)
  | WWrite b => (append_body b (commit 200 w), tt)
  | WFlush => (if w_flusher w then commit 200 w else w, tt)
  | WHijack =>
      if w_hijacker w && negb (w_hijacked w) then (hijack w, true) else (w, false)
  end.

(** ** JSON answers *)

Record ErrorPayload : Type := {
  ep_Code : string; ep_Message : string; ep_Request : string; ep_Details : option any
}.

(** [http.StatusText]. *)
Definition StatusText (code : Z) : string :=
  match find_first (λ kv : Z * string, kv.1 =? code)
    [(100, "Continue"); (101, "Switching Protocols"); (102, "Processing"); (103, "Early Hints");
     (200, "OK"); (201, "Created"); (202, "Accepted"); (203, "Non-Authoritative Information");
     (204, "No Content"); (205, "Reset Content"); (206, "Partial Content"); (207, "Multi-Status");
     (208, "Already Reported"); (226, "IM Used");
     (300, "Multiple Choices"); (301, "Moved Permanently"); (302, "Found"); (303, "See Other");
     (304, "Not Modified"); (305, "Use Proxy"); (307, "Temporary Redirect");
     (308, "Permanent Redirect");
     (400, "Bad Request"); (401, "Unauthorized"); (402, "Payment Required"); (403, "Forbidden");
     (404, "Not Found"); (405, "Method Not Allowed"); (406, "Not Acceptable");
     (407, "Proxy Authentication Required"); (408, "Request Timeout"); (409, "Conflict");
     (410, "Gone"); (411, "Length Required"); (412, "Precondition Failed");
     (413, "Request Entity Too Large"); (414, "Request URI Too Long");
     (415, "Unsupported Media Type"); (416, "Requested Range Not Satisfiable");
     (417, "Expectation Failed"); (418, "I'm a teapot"); (421, "Misdirected Request");
     (422, "Unprocessable Entity"); (423, "Locked"); (424, "Failed Dependency");
     (425, "Too Early"); (426, "Upgrade Required"); (428, "Precondition Required");
     (429, "Too Many Requests"); (431, "Request Header Fields Too Large");
     (451, "Unavailable For Legal Reasons");
     (500, "Internal Server Error"); (501, "Not Implemented"); (502, "Bad Gateway");
     (503, "Service Unavailable"); (504, "Gateway Timeout"); (505, "HTTP Version Not Supported");
     (506, "Variant Also Negotiates"); (507, "Insufficient Storage"); (508, "Loop Detected");
     (510, "Not Extended"); (511, "Network Authentication Required")] with
  | Some kv => kv.2
  | None => ""
  end.

(** [Encode] of a value: nothing is written when encoding/json refuses it. *)
Definition encode_to (b : option string) : wprog unit :=
  match b with Some s => request (WWrite s) | None => Ret tt end.

(** [JSON]; [enc] is the encoding of the value. *)
Definition JSON (code : Z) (enc : option string) : wprog unit :=
  do _ <- request (WSet "Content-Type" "application/json") ;
  do _ <- request (WHeader code) ;
  encode_to enc.

Section error_answers.
Context (enc_error : ErrorPayload → option string).

(** The machine code: the first extra argument when it is a string that is not
    empty. *)
Definition error_code (status : Z) (extra : list any) : string :=
  match extra with
  | AStr s :: _ => if String.eqb s "" then StatusText status else s
  | _ => StatusText status
  end.
Definition error_details (extra : list any) : option any :=
  match extra with
  | _ :: ANil :: _ => None
  | _ :: d :: _ => Some d
  | _ => None
  end.

Definition JSONError (status : Z) (msg : string) (extra : list any) : wprog unit :=
  do _ <- request (WSet "Content-Type" "application/json") ;
  do _ <- request (WHeader status) ;
  do rid <- request (WGet "X-Request-Id") ;
  encode_to (enc_error {| ep_Code := error_code status extra; ep_Message := msg;
                          ep_Request := rid; ep_Details := error_details extra |}).

End error_answers.

(** ** The middlewares *)

Record hreq : Type := {
  r_Method : string; r_Path : string; r_RawQuery : string; r_RemoteAddr : string;
  r_header : gmap string string;
  r_ctx_id : option string                      (* the value under reqIDKey *)
}.
Definition hget (r : hreq) (k : string) : string := default "" (r_header r !! k).

Definition ReqIDFromCtx (r : hreq) : string := default "" (r_ctx_id r).

(** [genID]: sixteen random bytes in hexadecimal, or the time. *)
Definition hex_digit (n : Z) : string :=
  default "" ((λ c, String c "") <$> String.get (Z.to_nat n) "0123456789abcdef").
Definition hex_byte (b : Z) : string := hex_digit (b / 16) +:+ hex_digit (b mod 16).
Definition hex_encode (bs : list Z) : string := foldr (λ b s, hex_byte b +:+ s) "" bs.
Definition genID (random : option (list Z)) (now : string) : string :=
  match random with Some bs => hex_encode bs | None => now end.

(** The request carries the id in its context and, as the header map is
    shared, in its header. *)
Definition tagged (r : hreq) (rid : string) : hreq :=
  {| r_Method := r_Method r; r_Path := r_Path r; r_RawQuery := r_RawQuery r;
     r_RemoteAddr := r_RemoteAddr r; r_header := <["X-Request-Id" := rid]> (r_header r);
     r_ctx_id := Some rid |}.

Definition RequestID {A} (fresh_id : string) (next : hreq → wprog A) (r : hreq) : wprog A :=
  let rid := request_id (hget r "X-Request-Id") fresh_id in
  do _ <- request (WSet "X-Request-Id" rid) ;
  next (tagged r rid).

(** [respWriter]: every method goes to the wrapped writer; [WriteHeader] also
    keeps its argument. *)
Definition rw_code {X : Set} (code : Z) (c : wcall X) : Z :=
  match c with WHeader n => n | _ => code end.
Fixpoint respWriter {A} (code : Z) (p : wprog A) : wprog (Z * A) :=
  match p with
  | Ret a => Ret (code, a)
  | Vis c k => Vis c (λ x, respWriter (rw_code code c) (k x))
  end.

Record logline : Type := {
  lg_id : string; lg_method : string; lg_path : string; lg_status : Z;
  lg_remote : string; lg_ua : string
}.

Definition Logging (next : hreq → wprog unit) (r : hreq) : wprog logline :=
  do res <- respWriter 200 (next r) ;
  Ret {| lg_id := ReqIDFromCtx r; lg_method := r_Method r;
         lg_path := if String.eqb (r_RawQuery r) "" then r_Path r
                    else r_Path r +:+ "?" +:+ r_RawQuery r;
         lg_status := res.1; lg_remote := r_RemoteAddr r; lg_ua := hget r "User-Agent" |}.

Fixpoint set_all (kvs : list (string * string)) : wprog unit :=
  match kvs with
  | [] => Ret tt
  | (k, v) :: kvs => do _ <- request (WSet k v) ; set_all kvs
  end.

Definition CORS (allowedOrigin : string) (next : hreq → wprog unit) (r : hreq) : wprog unit :=
  do _ <- set_all (cors_headers allowedOrigin (hget r "Origin")) ;
  if String.eqb (r_Method r) "OPTIONS" then request (WHeader 204) else next r.

(** The handler of the host. *)
Definition chain (corsOrigin fresh_id : string) (mux : hreq → wprog unit) (r : hreq) :
    wprog logline :=
  RequestID fresh_id (Logging (CORS corsOrigin mux)) r.

(** ** Lemmas *)

Lemma respWriter_exec {A} (p : wprog A) code w :
  (exec http_do (respWriter code p) w).1 = (exec http_do p w).1
  ∧ (exec http_do (respWriter code p) w).2.2 = (exec http_do p w).2.
Proof.
  revert code w; induction p as [a|X c k IH]; intros code w; [done|].
  cbn [respWriter exec]. destruct (http_do X w c) as [w' x]. apply IH.
Qed.

Lemma respWriter_bind {A B} (p : wprog A) (f : A → wprog B) code w :
  exec http_do (respWriter code (bind p f)) w
  = let '(w', (code', a)) := exec http_do (respWriter code p) w in
    exec http_do (respWriter code' (f a)) w'.
Proof.
  revert code w; induction p as [a|X c k IH]; intros code w; [done|].
  cbn [respWriter bind exec]. destruct (http_do X w c) as [w' x]. apply IH.
Qed.

(** The headers of the middlewares are in place when the handler starts. *)
Definition set_headers (kvs : list (string * string)) (w : writer) : writer :=
  foldl (λ w kv, set_header kv.1 kv.2 w) w kvs.
Definition prepared (corsOrigin rid : string) (r : hreq) (w : writer) : writer :=
  set_headers (cors_headers corsOrigin (hget r "Origin")) (set_header "X-Request-Id" rid w).

Lemma set_all_exec kvs code w :
  exec http_do (respWriter code (set_all kvs)) w = (set_headers kvs w, (code, tt)).
Proof.
  revert w; induction kvs as [|[k v] kvs IH]; intros w; [done|].
  cbn [set_all]. rewrite respWriter_bind. cbn [respWriter exec bind request http_do rw_code]. apply IH.
Qed.

(** What the chain runs once its headers are set. *)
Definition inner (mux : hreq → wprog unit) (r : hreq) (rid : string) : wprog unit :=
  if String.eqb (r_Method r) "OPTIONS" then request (WHeader 204) else mux (tagged r rid).

Lemma chain_exec co fresh_id mux r w0 :
  let rid := request_id (hget r "X-Request-Id") fresh_id in
  let '(w, (code, _)) := exec http_do (respWriter 200 (inner mux r rid)) (prepared co rid r w0) in
  ∃ l, exec http_do (chain co fresh_id mux r) w0 = (w, l)
    ∧ lg_id l = rid ∧ lg_status l = code ∧ lg_method l = r_Method r.
Proof.
  intros rid. destruct (exec http_do (respWriter 200 (inner mux r rid)) _) as [w [code []]] eqn:E.
  unfold chain, RequestID, Logging. cbn [bind request exec http_do].
  fold rid. rewrite exec_bind. unfold CORS. rewrite respWriter_bind set_all_exec.
  assert (hget (tagged r rid) "Origin" = hget r "Origin") as ->
    by (unfold hget, tagged; cbn [r_header]; by rewrite lookup_insert_ne).
  change (r_Method (tagged r rid)) with (r_Method r).
  unfold inner, prepared in E. rewrite E. by eexists.
Qed.

(** *** Headers the handler leaves alone *)

Definition leaves (k : string) (e : gevent wcall) : Prop :=
  match e with @Ev _ _ (WSet k' _) _ => k' ≠ k | _ => True end.

Definition header_is (k : string) (v : option string) (w : writer) : Prop :=
  w_header w !! k = v ∧ (∀ c h, w_sent w = Some (c, h) → h !! k = v).

Lemma commit_header_is k v code w : header_is k v w → header_is k v (commit code w).
Proof.
  intros [H1 H2]. unfold commit. destruct (w_sent w) eqn:E; [split; naive_solver|].
  destruct (_ || _); [split; naive_solver|]. split; [done|]. cbn [w_sent]. naive_solver.
Qed.

Lemma append_header_is k v b w : header_is k v w → header_is k v (append_body b w).
Proof.
  intros Hw. unfold append_body. destruct (w_sent w) as [[c h]|] eqn:E; [|done].
  destruct (_ && _); [|exact Hw]. rewrite -E. exact Hw.
Qed.

Lemma step_header_is {X : Set} k v (c : wcall X) w :
  leaves k (Ev c (http_do X w c).2) → header_is k v w → header_is k v (http_do X w c).1.
Proof.
  intros Hl Hw. destruct c; cbn [http_do fst]; try done.
  - destruct Hw as [H1 H2]. split; [|done]. cbn [set_header w_header].
    by rewrite lookup_insert_ne.
  - by apply commit_header_is.
  - by apply append_header_is, commit_header_is.
  - destruct (w_flusher w); [by apply commit_header_is|done].
  - destruct (_ && _); exact Hw.
Qed.

Lemma exec_header_is {A} k v (p : wprog A) w :
  issues_only (leaves k) p → header_is k v w → header_is k v (exec http_do p w).1.
Proof.
  revert w; induction p as [a|X c k' IH]; intros w Hp Hw; [done|]. cbn [exec].
  pose proof (step_header_is k v c w (proj1 (Hp _)) Hw) as Hs.
  destruct (http_do X w c) as [w' x]. apply IH; [apply Hp|done].
Qed.

(** *** The logged status *)

(** A handler that sets its status at most once, before it writes. *)
Fixpoint orderly (fresh_response : bool) (t : list (gevent wcall)) : Prop :=
  match t with
  | [] => True
  | @Ev _ _ c _ :: t =>
      match c with
      | WHeader n => fresh_response = true ∧ informational n = false ∧ orderly false t
      | WGet _ | WSet _ _ => orderly fresh_response t
      | _ => orderly false t
      end
  end.

Definition status_of (w : writer) : Z := match w_sent w with Some (c, _) => c | None => 200 end.

Lemma commit_200 w : status_of (commit 200 w) = status_of w.
Proof.
  unfold commit, status_of. destruct (w_sent w) as [[c h]|] eqn:E; [by rewrite E|].
  destruct (w_hijacked w || informational 200); [by rewrite E|done].
Qed.

Lemma append_status b w : status_of (append_body b w) = status_of w.
Proof.
  unfold append_body, status_of. destruct (w_sent w) as [[c h]|] eqn:E; [|by rewrite E].
  destruct (_ && _); [done|]. by rewrite E.
Qed.

Lemma orderly_status (p : wprog unit) o w :
  orderly o (exec_trace http_do p w) →
  (o = true → w_sent w = None ∧ w_hijacked w = false) →
  (exec http_do (respWriter (status_of w) p) w).2.1 = status_of (exec http_do p w).1.
Proof.
  revert o w; induction p as [a|X c k IH]; intros o w Ho Hw; [done|].
  cbn [exec exec_trace respWriter] in *.
  destruct c; cbn [http_do rw_code] in *.
  - by apply (IH _ o).
  - apply (IH _ o (set_header _ _ w)); [done|]. intros Ht. by destruct (Hw Ht).
  - destruct Ho as (-> & Hn & Ho). destruct (Hw eq_refl) as [H1 H2].
    assert (status_of (commit code w) = code) as Hc
      by (unfold commit; rewrite H1 H2 Hn; done).
    rewrite -{1}Hc. by apply (IH _ false).
  - rewrite -{1}(commit_200 w) -(append_status b). by apply (IH _ false).
  - destruct (w_flusher w); [rewrite -{1}(commit_200 w)|]; by apply (IH _ false).
  - destruct (w_hijacker w && negb (w_hijacked w)) eqn:E; [|by apply (IH _ false)].
    change (status_of w) with (status_of (hijack w)). by apply (IH _ false).
Qed.

(** *** The prepared response *)

Definition origin_allowed (corsOrigin origin : string) : bool :=
  negb (String.eqb origin "") && (String.eqb corsOrigin "*" || String.eqb origin corsOrigin).

Lemma prepared_sent co rid r w : w_sent (prepared co rid r w) = w_sent w.
Proof. unfold prepared, cors_headers. by destruct (_ && _). Qed.

Lemma prepared_open co rid r w :
  w_hijacked (prepared co rid r w) = w_hijacked w ∧ w_body (prepared co rid r w) = w_body w.
Proof. unfold prepared, cors_headers. by destruct (_ && _). Qed.

Lemma prepared_id co rid r fl hj :
  header_is "X-Request-Id" (Some rid) (prepared co rid r (new_writer fl hj)).
Proof.
  split; [|by rewrite prepared_sent]. unfold prepared, cors_headers.
  destruct (_ && _); cbn; [|by rewrite lookup_insert_eq].
  by simplify_map_eq.
Qed.

Lemma prepared_origin co rid r fl hj :
  header_is "Access-Control-Allow-Origin"
    (if origin_allowed co (hget r "Origin") then Some (hget r "Origin") else None)
    (prepared co rid r (new_writer fl hj)).
Proof.
  split; [|by rewrite prepared_sent]. unfold prepared, cors_headers, origin_allowed.
  destruct (_ && _); cbn; [|by rewrite lookup_insert_ne].
  by simplify_map_eq.
Qed.

(** The two answers of the chain itself leave these headers alone too. *)
Lemma inner_leaves k mux r rid :
  issues_only (leaves k) (mux (tagged r rid)) → issues_only (leaves k) (inner mux r rid).
Proof. intros H. unfold inner. by destruct (String.eqb _ _). Qed.

(** C19: the middleware chain, around any handler.  The handler is run on the
    request tagged with the request id (the client's, or a new one), and
    what it writes reaches the client as it is; a preflight never reaches it
    and is answered 204 without a body.  The answer carries the id, and the
    origin of the request if and only if it is allowed, unless the handler
    overwrites these headers; a configured origin "*" admits every origin, with
    credentials.  The log line has the same id, and its status is the one the
    client got for every handler that sets its status at most once and
    before it writes. *)
Theorem middleware_chain co fresh_id mux r fl hj :
  let rid := request_id (hget r "X-Request-Id") fresh_id in
  let w1 := prepared co rid r (new_writer fl hj) in
  let '(w, l) := exec http_do (chain co fresh_id mux r) (new_writer fl hj) in
  (r_Method r = "OPTIONS" → w_sent w = Some (204, w_header w) ∧ w_body w = "")
  ∧ (r_Method r ≠ "OPTIONS" → w = (exec http_do (mux (tagged r rid)) w1).1)
  ∧ hget (tagged r rid) "X-Request-Id" = rid ∧ lg_id l = rid
  ∧ (orderly true (exec_trace http_do (mux (tagged r rid)) w1) → lg_status l = status_of w)
  ∧ (∀ c h, w_sent w = Some (c, h) →
       (issues_only (leaves "X-Request-Id") (mux (tagged r rid)) → h !! "X-Request-Id" = Some rid)
       ∧ (issues_only (leaves "Access-Control-Allow-Origin") (mux (tagged r rid)) → ∀ o,
          h !! "Access-Control-Allow-Origin" = Some o ↔
            o = hget r "Origin" ∧ o ≠ "" ∧ (co = "*" ∨ o = co))).
Proof.
  intros rid w1. pose proof (chain_exec co fresh_id mux r (new_writer fl hj)) as Hc.
  cbv zeta in Hc. fold rid in Hc. fold w1 in Hc.
  pose proof (respWriter_exec (inner mux r rid) 200 w1) as [Hw _].
  pose proof (prepared_open co rid r (new_writer fl hj)) as [Hh Hb].
  pose proof (prepared_sent co rid r (new_writer fl hj)) as Hs.
  fold w1 in Hs, Hh, Hb.
  assert (orderly true (exec_trace http_do (inner mux r rid) w1) →
          (exec http_do (respWriter 200 (inner mux r rid)) w1).2.1
          = status_of (exec http_do (inner mux r rid) w1).1) as Hst.
  { intros Ho. replace 200 with (status_of w1) by (unfold status_of; by rewrite Hs).
    by apply (orderly_status _ true). }
  assert (∀ k v, header_is k v w1 → issues_only (leaves k) (mux (tagged r rid)) →
          header_is k v (exec http_do (inner mux r rid) w1).1) as Hk.
  { intros k v Hk Hi. apply exec_header_is; [by apply inner_leaves|done]. }
  destruct (exec http_do (respWriter 200 (inner mux r rid)) w1) as [w [code []]].
  destruct Hc as (l & -> & Hid & Hcode & _). cbn [fst snd] in Hw, Hst. rewrite -Hw in Hst, Hk.
  split; [|split; [|split; [|split; [done|split]]]].
  - intros Ho. rewrite Hw. unfold inner. rewrite Ho String.eqb_refl. cbn [request exec http_do fst].
    unfold commit. rewrite Hs Hh. cbn. by rewrite Hb.
  - intros Ho. rewrite Hw. unfold inner. by rewrite (proj2 (String.eqb_neq _ _) Ho).
  - unfold hget, tagged. cbn [r_header]. by rewrite lookup_insert_eq.
  - intros Ho. rewrite Hcode. apply Hst. unfold inner. by destruct (String.eqb _ _).
  - intros c h Hsent. split; intros Hi.
    + exact (proj2 (Hk _ _ (prepared_id co rid r fl hj) Hi) _ _ Hsent).
    + intros o. rewrite (proj2 (Hk _ _ (prepared_origin co rid r fl hj) Hi) _ _ Hsent).
      unfold origin_allowed. destruct (String.eqb_spec (hget r "Origin") ""),
        (String.eqb_spec co "*"), (String.eqb_spec (hget r "Origin") co); naive_solver.
Qed.

(** Running the chain is running the handler on the prepared response. *)
Lemma chain_runs co fresh_id mux r w0 w code :
  r_Method r ≠ "OPTIONS" →
  let rid := request_id (hget r "X-Request-Id") fresh_id in
  exec http_do (respWriter 200 (mux (tagged r rid))) (prepared co rid r w0) = (w, (code, tt)) →
  ∃ l, exec http_do (chain co fresh_id mux r) w0 = (w, l) ∧ lg_status l = code.
Proof.
  intros Hm rid E. pose proof (chain_exec co fresh_id mux r w0) as Hc. cbv zeta in Hc. fold rid in Hc.
  unfold inner in Hc. rewrite (proj2 (String.eqb_neq _ _) Hm) E in Hc. naive_solver.
Qed.

Definition error_payload (status : Z) (msg rid : string) (extra : list any) : ErrorPayload :=
  {| ep_Code := error_code status extra; ep_Message := msg; ep_Request := rid;
     ep_Details := error_details extra |}.

(** [JSONError] on a response in any state. *)
Lemma JSONError_exec enc status msg extra code w :
  exec http_do (respWriter code (JSONError enc status msg extra)) w
  = let w1 := commit status (set_header "Content-Type" "application/json" w) in
    let rid := default "" (w_header w1 !! "X-Request-Id") in
    (match enc (error_payload status msg rid extra) with
     | Some b => append_body b (commit 200 w1)
     | None => w1
     end, (status, tt)).
Proof.
  unfold JSONError. rewrite respWriter_bind. cbn [request respWriter exec http_do rw_code].
  rewrite respWriter_bind. cbn [request respWriter exec http_do rw_code].
  rewrite respWriter_bind. cbn [request respWriter exec http_do rw_code].
  unfold error_payload. by destruct (enc _).
Qed.

Lemma commit_open code w :
  w_sent w = None → w_hijacked w = false → informational code = false →
  commit code w = {| w_header := w_header w; w_sent := Some (code, w_header w); w_body := w_body w;
                     w_hijacked := false; w_flusher := w_flusher w; w_hijacker := w_hijacker w |}.
Proof. intros H1 H2 H3. unfold commit. by rewrite H1 H2 H3. Qed.

Lemma commit_sent code w c h : w_sent w = Some (c, h) → commit code w = w.
Proof. intros H. unfold commit. by rewrite H. Qed.

(** What an error adds to a response that has sent [code]. *)
Lemma JSONError_adds enc status msg extra w c h rid :
  w_sent (commit status (set_header "Content-Type" "application/json" w)) = Some (c, h) →
  w_header (commit status (set_header "Content-Type" "application/json" w))
    = <["Content-Type" := "application/json"]> (w_header w) →
  w_hijacked (commit status (set_header "Content-Type" "application/json" w)) = false →
  w_body (commit status (set_header "Content-Type" "application/json" w)) = w_body w →
  w_header w !! "X-Request-Id" = Some rid → body_allowed c = true →
  ∃ w', exec http_do (respWriter 200 (JSONError enc status msg extra)) w = (w', (status, tt))
    ∧ w_sent w' = Some (c, h)
    ∧ w_body w' = w_body w +:+ default "" (enc (error_payload status msg rid extra)).
Proof.
  intros Hs Hh Hj Hb Hid Hc. rewrite JSONError_exec. cbv zeta.
  rewrite Hh lookup_insert_ne // Hid. cbn [default].
  rewrite (commit_sent 200 _ _ _ Hs). eexists. split; [done|].
  destruct (enc _) as [b|]; cbn [default]; [|by rewrite Hs Hb str_app_nil_r].
  unfold append_body. rewrite Hs Hc Hj Hb. done.
Qed.

(** An error answer of a handler under the chain has the status the
    handler chose, in the response and in the log, and its body is the encoded
    payload with the id of the request, or empty when the details cannot be
    encoded.  A handler that fails after it has written keeps the status 200
    of its first byte, its body goes on with the error, and the log shows the
    status of the error. *)
Theorem error_reply enc co fresh_id r status msg extra fl hj :
  r_Method r ≠ "OPTIONS" → informational status = false → body_allowed status = true →
  let rid := request_id (hget r "X-Request-Id") fresh_id in
  let body := default "" (enc (error_payload status msg rid extra)) in
  let fails : hreq → wprog unit := λ _, JSONError enc status msg extra in
  let fails_late : hreq → wprog unit := λ _,
    do _ <- request (WWrite "partial") ; JSONError enc status msg extra in
  (∃ w l h, exec http_do (chain co fresh_id fails r) (new_writer fl hj) = (w, l)
     ∧ w_sent w = Some (status, h) ∧ h !! "Content-Type" = Some "application/json"
     ∧ w_body w = body ∧ lg_status l = status)
  ∧ (∃ w l h, exec http_do (chain co fresh_id fails_late r) (new_writer fl hj) = (w, l)
     ∧ w_sent w = Some (200, h) ∧ w_body w = "partial" +:+ body ∧ lg_status l = status).
Proof.
  intros Hm Hi Hb rid body fails late.
  set (w1 := prepared co rid r (new_writer fl hj)).
  pose proof (prepared_open co rid r (new_writer fl hj)) as [Hh Hbd].
  pose proof (prepared_sent co rid r (new_writer fl hj)) as Hs.
  pose proof (proj1 (prepared_id co rid r fl hj)) as Hid.
  fold w1 in Hh, Hbd, Hs, Hid. cbn [new_writer w_sent w_hijacked w_body] in Hh, Hbd, Hs.
  split.
  - destruct (JSONError_adds enc status msg extra w1 status
      (<["Content-Type" := "application/json"]> (w_header w1)) rid) as (w & E & Hw & Hbody);
      try rewrite (commit_open status (set_header "Content-Type" "application/json" w1) Hs Hh Hi);
      [done..|].
    destruct (chain_runs co fresh_id fails r (new_writer fl hj) w status Hm E) as (l & Hl & Hc).
    exists w, l, (<["Content-Type" := "application/json"]> (w_header w1)).
    rewrite lookup_insert_eq Hbody Hbd. done.
  - set (w2 := append_body "partial" (commit 200 w1)).
    assert (w_sent w2 = Some (200, w_header w1) ∧ w_header w2 = w_header w1
      ∧ w_hijacked w2 = false ∧ w_body w2 = "partial") as (Hs2 & Hh2 & Hj2 & Hb2)
      by (unfold w2; rewrite (commit_open 200 w1 Hs Hh eq_refl); cbn; by rewrite Hbd).
    destruct (JSONError_adds enc status msg extra w2 200 (w_header w1) rid)
      as (w & E & Hw & Hbody);
      try rewrite (commit_sent status (set_header "Content-Type" "application/json" w2) _ _ Hs2);
      try done; [by rewrite Hh2|].
    destruct (chain_runs co fresh_id late r (new_writer fl hj) w status Hm) as (l & Hl & Hc).
    { unfold late. rewrite respWriter_bind. exact E. }
    exists w, l, (w_header w1). rewrite Hbody Hb2. done.
Qed.

Definition demo_hreq (method : string) : hreq :=
  {| r_Method := method; r_Path := "/api/servers"; r_RawQuery := ""; r_RemoteAddr := "127.0.0.1:9";
     r_header := {["Origin" := "https://evil.example"; "X-Request-Id" := "abc"]};
     r_ctx_id := None |}.

Lemma middleware_chain_witness :
  let run m := exec http_do (chain "*" "id1" (λ _, JSON 201 (Some "{}")) (demo_hreq m))
                 (new_writer true true) in
  w_sent (run "OPTIONS").1 = Some (204, w_header (run "OPTIONS").1)
  ∧ lg_status (run "GET").2 = 201 ∧ lg_id (run "GET").2 = "abc"
  ∧ ∃ h, w_sent (run "GET").1 = Some (201, h)
     ∧ h !! "Access-Control-Allow-Origin" = Some "https://evil.example".
Proof.
  intros run.
  pose proof (middleware_chain "*" "id1" (λ _, JSON 201 (Some "{}")) (demo_hreq "OPTIONS") true true) as Ho.
  pose proof (middleware_chain "*" "id1" (λ _, JSON 201 (Some "{}")) (demo_hreq "GET") true true) as Hg.
  cbv zeta in Ho, Hg. unfold run.
  destruct (exec http_do (chain _ _ _ (demo_hreq "OPTIONS")) _) as [wo lo].
  destruct (exec http_do (chain _ _ _ (demo_hreq "GET")) _) as [wg lg].
  destruct Ho as (Ho & _). destruct Hg as (_ & Hw & _ & Hid & Hst & Hs).
  cbn [fst snd]. split; [exact (proj1 (Ho eq_refl))|].
  specialize (Hw ltac:(discriminate)).
  assert (∃ h, w_sent wg = Some (201, h)) as [h Hh]
    by (rewrite Hw; eexists; reflexivity).
  split; [rewrite Hst; [by unfold status_of; rewrite Hh|by vm_compute]|].
  split; [exact Hid|]. exists h. split; [done|].
  apply (Hs _ _ Hh); [|split; [done|split; [done|by left]]].
  intros ?; split; [discriminate|]. intros ?; split; [done|]. intros ?; by split.
Defined.

Lemma error_reply_witness :
  let enc p := Some (ep_Code p +:+ ":" +:+ ep_Request p) in
  let late : hreq → wprog unit := λ _, do _ <- request (WWrite "partial") ; JSONError enc 500 "boom" [] in
  ∃ w l h, exec http_do (chain "" "id1" late (demo_hreq "GET")) (new_writer true true) = (w, l)
    ∧ w_sent w = Some (200, h) ∧ w_body w = "partialInternal Server Error:abc" ∧ lg_status l = 500.
Proof.
  intros enc late.
  exact (proj2 (error_reply enc "" "id1" (demo_hreq "GET") 500 "boom" [] true true
                  ltac:(discriminate) eq_refl eq_refl)).
Defined.
