(* ===== verification/Forward.v ===== *)
(** * Forwarding over the tailnet

    cmd/tsnet-forward/main.go: the mappings of the command line, the listeners
    and the main loop as a state machine, and one forwarded connection as
    another; internal/ts/tsnet.go: waiting for an address of the node. *)

From S2P Require Import Prelude GoStrings Values.
From S2P Require Import NetAddr LocalDb Settings Jobs Proxy Prog Store HostApp.

Local Open Scope Z_scope.

(** ** The command line *)

Record mapping : Type := { mp_listen : string; mp_dest : string }.

(** What ends the process with an error. *)
Inductive fatal : Type :=
  | NoMap | NoAuthKey | BadMapping (s : string) | UpFailed (e : string)
  | ListenFailed (addr e : string) | AcceptFailed (addr e : string).

(** [strings.SplitN(s, "=", 2)] has two parts when there is a separator. *)
Definition parseMapping (s : string) : fatal + mapping :=
  match Cut "=" s with
  | Some (l, d) => inr {| mp_listen := TrimSpace l; mp_dest := TrimSpace d |}
  | None => inl (BadMapping s)
  end.

Definition def_login (TS_LOGIN_SERVER : string) : string :=
  if String.eqb TS_LOGIN_SERVER "" then "https://login.tailscale.com" else TS_LOGIN_SERVER.
Definition def_host `{UnicodeCase} (TS_HOSTNAME GOOS GOARCH : string) : string :=
  if String.eqb TS_HOSTNAME "" then
    "gn-forward-" +:+ ToLower (default "" (head (Split "-" (GOOS +:+ "-" +:+ GOARCH))))
  else TS_HOSTNAME.

(** The loop over the mappings: a goroutine for each, up to the first that is
    malformed. *)
Fixpoint start_listeners (maps : list string) : list mapping * option fatal :=
  match maps with
  | [] => ([], None)
  | m :: maps =>
      match parseMapping m with
      | inl e => ([], Some e)
      | inr mp => let '(l, e) := start_listeners maps in (mp :: l, e)
      end
  end.

Definition start (maps : list string) (authKey : string) : list mapping * option fatal :=
  if decide (maps = []) then ([], Some NoMap)
  else if String.eqb authKey "" then ([], Some NoAuthKey)
  else start_listeners maps.

(** ** The listeners and the main loop *)

Inductive lstate : Type := LInit | LListening | LEnded.

(** [exit]: 0 after a signal, 1 after an error. *)
Inductive mstate : Type := MUp | MWait | MExit (code : Z) (why : option fatal).

Record fwd : Type := {
  fw_maps : list mapping;
  fw_listeners : list lstate;
  fw_errs : list fatal;                (* the channel errs *)
  fw_conns : list (nat * string);      (* connections: listener and destination *)
  fw_signalled : bool;
  fw_main : mstate
}.

Definition fwd_init (maps : list mapping) : fwd :=
  {| fw_maps := maps; fw_listeners := replicate (length maps) LInit; fw_errs := []; fw_conns := [];
     fw_signalled := false; fw_main := MUp |}.

Inductive fwd_ev : Type :=
  | Bind (i : nat) (err : option string)
  | AcceptOk (i : nat)
  | AcceptErr (i : nat) (timeout : bool) (e : string)
  | Signal
  | UpReturns (err : option string)
  | MainSignal
  | MainErr.

Definition with_listener (s : fwd) (i : nat) (l : lstate) (es : list fatal) : fwd :=
  {| fw_maps := fw_maps s; fw_listeners := <[i := l]> (fw_listeners s); fw_errs := fw_errs s ++ es;
     fw_conns := fw_conns s; fw_signalled := fw_signalled s; fw_main := fw_main s |}.
Definition with_main (s : fwd) (errs : list fatal) (m : mstate) : fwd :=
  {| fw_maps := fw_maps s; fw_listeners := fw_listeners s; fw_errs := errs; fw_conns := fw_conns s;
     fw_signalled := fw_signalled s; fw_main := m |}.

Definition errs_room (s : fwd) : bool := (length (fw_errs s) <? length (fw_maps s))%nat.

(** A step of a process that has not exited.  A send needs a place in errs. *)
Definition fwd_live (e : fwd_ev) (s : fwd) : option fwd :=
  match e with
  | Bind i err =>
      match fw_listeners s !! i, fw_maps s !! i, err with
      | Some LInit, Some mp, None => Some (with_listener s i LListening [])
      | Some LInit, Some mp, Some e =>
          if errs_room s then Some (with_listener s i LEnded [ListenFailed (mp_listen mp) e]) else None
      | _, _, _ => None
      end
  | AcceptOk i =>
      match fw_listeners s !! i, fw_maps s !! i with
      | Some LListening, Some mp =>
          Some {| fw_maps := fw_maps s; fw_listeners := fw_listeners s; fw_errs := fw_errs s;
                  fw_conns := fw_conns s ++ [(i, mp_dest mp)];
                  fw_signalled := fw_signalled s; fw_main := fw_main s |}
      | _, _ => None
      end
  | AcceptErr i timeout e =>
      match fw_listeners s !! i, fw_maps s !! i with
      | Some LListening, Some mp =>
          if timeout then Some s
          else if errs_room s then Some (with_listener s i LEnded [AcceptFailed (mp_listen mp) e])
          else None
      | _, _ => None
      end
  | Signal =>
      Some {| fw_maps := fw_maps s; fw_listeners := fw_listeners s; fw_errs := fw_errs s;
              fw_conns := fw_conns s; fw_signalled := true; fw_main := fw_main s |}
  | UpReturns err =>
      match fw_main s with
      | MUp => Some (with_main s (fw_errs s)
                       (match err with None => MWait | Some e => MExit 1 (Some (UpFailed e)) end))
      | _ => None
      end
  | MainSignal =>
      match fw_main s with
      | MWait => if fw_signalled s then Some (with_main s (fw_errs s) (MExit 0 None)) else None
      | _ => None
      end
  | MainErr =>
      match fw_main s, fw_errs s with
      | MWait, e :: es => Some (with_main s es (MExit 1 (Some e)))
      | _, _ => None
      end
  end.
Definition fwd_do (e : fwd_ev) (s : fwd) : option fwd :=
  match fw_main s with MExit _ _ => None | _ => fwd_live e s end.

Definition fwd_step (s s' : fwd) : Prop := ∃ e, fwd_do e s = Some s'.

(** ** One connection *)

(** The two directions: from the client to the destination and back. *)
Inductive dir : Set := ToDest | ToClient.

Inductive copier : Set := Copying | Sending | Finished.

(** One direction: what its source sent and whether the source ended its
    stream, what reached the other side, and the goroutine that copies. *)
Record half : Set := {
  h_sent : list string; h_eof : bool; h_out : list string; h_copier : copier;
  h_fin : bool                          (* CloseWrite was called on the other side *)
}.

Record conn : Set := {
  cn_half : dir → half;
  cn_done : nat;                        (* the channel done, of two places *)
  cn_returned : bool;                   (* handleConn returned, both sides are closed *)
  cn_crashed : bool
}.

Definition new_half : half :=
  {| h_sent := []; h_eof := false; h_out := []; h_copier := Copying; h_fin := false |}.
Definition dialled : conn :=
  {| cn_half := λ _, new_half; cn_done := 0%nat; cn_returned := false; cn_crashed := false |}.

Inductive conn_ev : Set :=
  | PeerSend (d : dir) (x : string)
  | PeerEof (d : dir)
  | Move (d : dir)                      (* io.Copy reads and writes *)
  | CopyEnds (d : dir) (err : bool)     (* io.Copy returns, then CloseWrite *)
  | DoneSend (d : dir)
  | MainRecv.

#[export] Instance dir_eq_dec : EqDecision dir.
Proof. solve_decision. Defined.

Definition set_half (s : conn) (d : dir) (h : half) (n : nat) : conn :=
  {| cn_half := λ d', if decide (d' = d) then h else cn_half s d'; cn_done := n;
     cn_returned := cn_returned s; cn_crashed := cn_crashed s |}.

Section connection.
(** Whether the connection the tailnet dialled is a [*net.TCPConn]; the
    accepted one is. *)
Variable rc_tcp : bool.

Definition conn_do (e : conn_ev) (s : conn) : option conn :=
  if cn_crashed s then None else
  match e with
  | PeerSend d x =>
      let h := cn_half s d in
      if h_eof h then None
      else Some (set_half s d {| h_sent := h_sent h ++ [x]; h_eof := false; h_out := h_out h;
                                 h_copier := h_copier h; h_fin := h_fin h |} (cn_done s))
  | PeerEof d =>
      let h := cn_half s d in
      Some (set_half s d {| h_sent := h_sent h; h_eof := true; h_out := h_out h;
                            h_copier := h_copier h; h_fin := h_fin h |} (cn_done s))
  | Move d =>
      let h := cn_half s d in
      match h_copier h, cn_returned s, h_sent h !! length (h_out h) with
      | Copying, false, Some x =>
          Some (set_half s d {| h_sent := h_sent h; h_eof := h_eof h; h_out := h_out h ++ [x];
                                h_copier := Copying; h_fin := h_fin h |} (cn_done s))
      | _, _, _ => None
      end
  | CopyEnds d err =>
      let h := cn_half s d in
      match h_copier h with
      | Copying =>
          if err || (h_eof h && bool_decide (h_out h = h_sent h)) then
            if match d with ToDest => negb rc_tcp | ToClient => false end then
              Some {| cn_half := cn_half s; cn_done := cn_done s; cn_returned := cn_returned s;
                      cn_crashed := true |}
            else Some (set_half s d {| h_sent := h_sent h; h_eof := h_eof h; h_out := h_out h;
                                       h_copier := Sending; h_fin := true |} (cn_done s))
          else None
      | _ => None
      end
  | DoneSend d =>
      let h := cn_half s d in
      match h_copier h with
      | Sending =>
          if (cn_done s <? 2)%nat then
            Some (set_half s d {| h_sent := h_sent h; h_eof := h_eof h; h_out := h_out h;
                                  h_copier := Finished; h_fin := h_fin h |} (S (cn_done s)))
          else None
      | _ => None
      end
  | MainRecv =>
      match cn_returned s, cn_done s with
      | false, S n => Some {| cn_half := cn_half s; cn_done := n; cn_returned := true; cn_crashed := false |}
      | _, _ => None
      end
  end.

Definition conn_step (s s' : conn) : Prop := ∃ e, conn_do e s = Some s'.

End connection.

(** ** The listeners *)

Lemma start_listeners_ok maps l :
  start_listeners maps = (l, None) → Forall2 (λ m mp, parseMapping m = inr mp) maps l.
Proof.
  revert l; induction maps as [|m maps IH]; intros l E; cbn [start_listeners] in E; [by simplify_eq|].
  destruct (parseMapping m) as [e|mp] eqn:Em; [done|].
  destruct (start_listeners maps) as [l' e]. simplify_eq. constructor; auto.
Qed.

Lemma start_ok maps key l :
  start maps key = (l, None) →
  l ≠ [] ∧ key ≠ "" ∧ Forall2 (λ m mp, parseMapping m = inr mp) maps l.
Proof.
  unfold start. case_decide as Hm; [done|].
  destruct (String.eqb_spec key ""); [done|]. intros Hl%start_listeners_ok.
  split; [|done]. intros ->. by apply Forall2_nil_inv_r in Hl.
Qed.

Definition ended (ls : list lstate) : nat :=
  length (List.filter (λ l, match l with LEnded => true | _ => false end) ls).

Lemma ended_insert ls i l :
  ls !! i = Some l → l ≠ LEnded →
  (ended (<[i := LEnded]> ls) = S (ended ls) ∧ ended ls < length ls)%nat.
Proof.
  revert i; induction ls as [|x ls IH]; intros [|i] Hi Hl; simplify_eq/=.
  - unfold ended. destruct l; [..|done]; cbn [insert list_insert List.filter length];
      pose proof (List.filter_length_le (λ l, match l with LEnded => true | _ => false end) ls);
      split; lia.
  - destruct (IH i Hi Hl) as [H1 H2]. unfold ended in *.
    destruct x; cbn [List.filter length]; lia.
Qed.

Lemma ended_listening ls i :
  ls !! i = Some LInit → ended (<[i := LListening]> ls) = ended ls.
Proof.
  revert i; induction ls as [|x ls IH]; intros [|i] Hi; simplify_eq/=; [done|].
  specialize (IH i Hi). unfold ended in *. by destruct x; cbn [List.filter length]; rewrite IH.
Qed.

#[local] Arguments ended : simpl never.

Record fwd_inv (maps : list mapping) (s : fwd) : Prop := {
  fi_maps : fw_maps s = maps;
  fi_len : length (fw_listeners s) = length maps;
  fi_errs : (length (fw_errs s) ≤ ended (fw_listeners s))%nat;
  fi_conns : ∀ i d, (i, d) ∈ fw_conns s → ∃ mp, maps !! i = Some mp ∧ d = mp_dest mp;
  fi_exit : ∀ code why, fw_main s = MExit code why →
    (code = 0 ∧ why = None ∧ fw_signalled s = true) ∨ (code = 1 ∧ ∃ e, why = Some e)
}.

Lemma fwd_inv_init maps : fwd_inv maps (fwd_init maps).
Proof.
  split; cbn; [done|by rewrite length_replicate|lia| |done]. by intros i d ?%elem_of_nil.
Qed.

Lemma fwd_inv_end maps s i l e :
  fwd_inv maps s → fw_listeners s !! i = Some l → l ≠ LEnded →
  fwd_inv maps (with_listener s i LEnded [e]).
Proof.
  intros Hs Hi Hl. destruct (ended_insert _ _ _ Hi Hl) as [He _]. destruct Hs.
  split; cbn; [done|by rewrite length_insert| |done|done]. rewrite length_app He /=. lia.
Qed.

Lemma fwd_inv_step maps s s' : fwd_step s s' → fwd_inv maps s → fwd_inv maps s'.
Proof.
  intros [e He] Hs. unfold fwd_do in He. destruct (fw_main s) eqn:Em; [..|done];
    destruct e as [i [err|]|i|i [] err| |[err|]| |]; cbn [fwd_live] in He; repeat case_match;
    simplify_eq; try (by eapply fwd_inv_end); destruct Hs as [Hm Hl He' Hc Hx]; split; cbn; auto;
    try (by rewrite length_insert); try (by rewrite ended_listening);
    try (intros ? ? [= <- <-]; naive_solver).
  all: try (rewrite app_nil_r; by rewrite ended_listening).
  all: try (intros j d [?|[= -> ->]%list_elem_of_singleton]%elem_of_app; [by apply Hc|naive_solver]).
  all: try (rewrite H0 /= in He'; lia).
  all: naive_solver.
Qed.

(** While the tailnet comes up, nothing else moves the main goroutine. *)
Lemma up_stays e x y :
  (∀ r, e ≠ UpReturns r) → fw_main x = MUp → fwd_do e x = Some y → fw_main y = MUp.
Proof.
  intros He Hm Hxy. unfold fwd_do in Hxy. rewrite Hm in Hxy.
  destruct e as [i [err|]|i|i [] err| |r| |]; cbn [fwd_live] in Hxy; repeat case_match;
    simplify_eq; try done. all: by edestruct He.
Qed.

(** The forwarder listens on every mapping of its command line, in
    order, and only with an auth key and well-formed mappings.  In every
    reachable state no listener can block on the error channel, a connection
    goes to the destination of the mapping it arrived on, the process exits
    with 0 only after a signal and otherwise with an error, and once the
    tailnet is up it exits at a signal or at the first error of a listener.
    Until then it does neither, whatever signals and errors arrive. *)
Theorem forwarder maps key l :
  start maps key = (l, None) →
  Forall2 (λ m mp, parseMapping m = inr mp) maps l ∧ l ≠ [] ∧ key ≠ ""
  ∧ ∀ s, rtc fwd_step (fwd_init l) s →
    (∀ i x, fw_listeners s !! i = Some x → x ≠ LEnded → errs_room s = true)
    ∧ (∀ i d, (i, d) ∈ fw_conns s → ∃ mp, l !! i = Some mp ∧ d = mp_dest mp)
    ∧ (∀ code why, fw_main s = MExit code why →
         (code = 0 ∧ why = None ∧ fw_signalled s = true) ∨ (code = 1 ∧ ∃ e, why = Some e))
    ∧ (fw_main s = MWait → fw_signalled s = true ∨ fw_errs s ≠ [] →
         ∃ s' code why, fwd_step s s' ∧ fw_main s' = MExit code why)
    ∧ (fw_main s = MUp →
         ∀ s', rtc (λ x y, ∃ e, (∀ r, e ≠ UpReturns r) ∧ fwd_do e x = Some y) s s' →
         fw_main s' = MUp).
Proof.
  intros Hst%start_ok. destruct Hst as (Hl & Hk & Hf). repeat (split; [done|]).
  intros s Hr. assert (fwd_inv l s) as Hs.
  { revert s Hr. apply (rtc_ind_r (fwd_inv l)); [apply fwd_inv_init|].
    intros y z _ Hyz. by apply fwd_inv_step. }
  split; [|split; [apply Hs|split; [apply Hs|split]]].
  - intros i x Hi Hx. destruct (ended_insert _ _ _ Hi Hx) as [_ Hlt].
    destruct Hs. unfold errs_room. apply Nat.ltb_lt. rewrite fi_maps0. lia.
  - intros Hm [Hsig|Hne].
    + exists (with_main s (fw_errs s) (MExit 0 None)), 0, None. split; [|done].
      exists MainSignal. unfold fwd_do. cbn [fwd_live]. by rewrite Hm Hsig.
    + destruct (fw_errs s) as [|e es] eqn:Ee; [done|].
      exists (with_main s es (MExit 1 (Some e))), 1, (Some e). split; [|done].
      exists MainErr. unfold fwd_do. cbn [fwd_live]. by rewrite Hm Ee.
  - intros Hm s' Hr'. clear Hr Hs. induction Hr' as [|x y z (e & He & Hxy) _ IH]; [done|].
    apply IH. by apply (up_stays e x).
Qed.

Lemma forwarder_witness :
  start ["127.0.0.1:1 = 10.0.0.1:2"; "=x:1"] "k"
    = ([{| mp_listen := "127.0.0.1:1"; mp_dest := "10.0.0.1:2" |};
        {| mp_listen := ""; mp_dest := "x:1" |}], None)
  ∧ ∀ s', rtc (λ x y, ∃ e, (∀ r, e ≠ UpReturns r) ∧ fwd_do e x = Some y)
      (fwd_init [{| mp_listen := "127.0.0.1:1"; mp_dest := "10.0.0.1:2" |};
                 {| mp_listen := ""; mp_dest := "x:1" |}]) s' → fw_main s' = MUp.
Proof.
  assert (start ["127.0.0.1:1 = 10.0.0.1:2"; "=x:1"] "k"
    = ([{| mp_listen := "127.0.0.1:1"; mp_dest := "10.0.0.1:2" |};
        {| mp_listen := ""; mp_dest := "x:1" |}], None)) as E by (vm_compute; reflexivity).
  split; [exact E|].
  destruct (forwarder _ _ _ E) as (_ & _ & _ & Hs).
  exact (proj2 (proj2 (proj2 (proj2 (Hs _ (rtc_refl _ _))))) eq_refl).
Defined.

(** ** One connection *)

Definition finished (h : half) : nat := match h_copier h with Finished => 1 | _ => 0 end.

Record conn_inv (rc_tcp : bool) (s : conn) : Prop := {
  ci_prefix : ∀ d, h_out (cn_half s d) `prefix_of` h_sent (cn_half s d);
  ci_done : (cn_done s + (if cn_returned s then 1 else 0)
             = finished (cn_half s ToDest) + finished (cn_half s ToClient))%nat;
  ci_crash : rc_tcp = true → cn_crashed s = false
}.

Lemma prefix_move (sent out : list string) x :
  out `prefix_of` sent → sent !! length out = Some x → (out ++ [x]) `prefix_of` sent.
Proof.
  intros [k ->] Hx. rewrite lookup_app_r // Nat.sub_diag in Hx.
  destruct k as [|y k]; simplify_eq/=. exists k. by rewrite -app_assoc.
Qed.

(** Replacing one direction keeps the invariant when it stays a prefix and the
    channel counts the goroutines that are done. *)
Lemma conn_inv_set rc_tcp s d h n :
  conn_inv rc_tcp s → h_out h `prefix_of` h_sent h →
  (n + finished (cn_half s d) = cn_done s + finished h)%nat →
  conn_inv rc_tcp (set_half s d h n).
Proof.
  intros [Hp Hd Hc] Hh Hn.
  split; cbn [set_half cn_half cn_done cn_returned cn_crashed]; [intros d'; by case_decide| |done].
  destruct d; repeat case_decide; try done; lia.
Qed.

Lemma conn_inv_step rc_tcp s s' : conn_step rc_tcp s s' → conn_inv rc_tcp s → conn_inv rc_tcp s'.
Proof.
  intros [e He] Hs. unfold conn_do in He. destruct (cn_crashed s) eqn:Ec; [done|].
  destruct e as [d x|d|d|d err|d|]; repeat case_match; simplify_eq;
    try (apply conn_inv_set; [done| |cbn; unfold finished; cbn; repeat case_match; simplify_eq; lia];
         cbn; destruct Hs as [Hp _ _]; by eauto using prefix_app_r, prefix_move).
  - split; [apply Hs|apply Hs|]. cbn. by intros ->.
  - destruct Hs as [Hp Hd Hc]. split; cbn; [done| |done].
    rewrite -Hd H H0. lia.
Qed.

Lemma forwarded_inv rc_tcp s : rtc (conn_step rc_tcp) dialled s → conn_inv rc_tcp s.
Proof.
  revert s. apply (rtc_ind_r (conn_inv rc_tcp)); [by split; cbn|].
  intros y z _ Hyz. by apply conn_inv_step.
Qed.

(** Nothing moves once handleConn has returned. *)
Lemma returned_stays rc_tcp s s' :
  conn_step rc_tcp s s' → cn_returned s = true →
  cn_returned s' = true ∧ ∀ d, h_out (cn_half s' d) = h_out (cn_half s d).
Proof.
  intros [e He] Hr. unfold conn_do in He. destruct (cn_crashed s); [done|].
  destruct e as [d x|d|d|d err|d|]; repeat case_match; simplify_eq; try congruence;
    (split; [done|]); intros d'; cbn [set_half cn_half]; by repeat case_decide; subst.
Qed.

Lemma returned_rtc rc_tcp s s' :
  rtc (conn_step rc_tcp) s s' → cn_returned s = true →
  ∀ d, h_out (cn_half s' d) = h_out (cn_half s d).
Proof.
  induction 1 as [|x y z Hxy _ IH]; [done|]. intros Hr d.
  destruct (returned_stays _ _ _ Hxy Hr) as [Hy <-]. by apply IH.
Qed.

(** The client asks, ends its stream as HTTP and many others do, and the answer
    comes while the connection is closed. *)
Definition half_close_run : list conn_ev :=
  [PeerSend ToDest "request"; Move ToDest; PeerEof ToDest; PeerSend ToClient "answer";
   CopyEnds ToDest false; DoneSend ToDest; MainRecv].

(** C23: a forwarded connection.  In every reachable state what a side has
    received is a prefix of what the other sent, and no goroutine can block
    on the channel.  The first direction that ends closes both sides: after that nothing is
    delivered, so that the answer to a client that ends its stream after its request
    can be lost.  If the connection dialled by the tailnet is not a
    [*net.TCPConn], the end of the client's stream ends the process instead. *)
Theorem forward_conn rc_tcp :
  (∀ s, rtc (conn_step rc_tcp) dialled s →
     (∀ d, h_out (cn_half s d) `prefix_of` h_sent (cn_half s d))
     ∧ (∀ d, cn_crashed s = false → h_copier (cn_half s d) = Sending →
          ∃ s', conn_do rc_tcp (DoneSend d) s = Some s')
     ∧ (cn_returned s = true → ∀ s', rtc (conn_step rc_tcp) s s' →
          ∀ d, h_out (cn_half s' d) = h_out (cn_half s d))
     ∧ (rc_tcp = true → cn_crashed s = false)
     ∧ (rc_tcp = false → ∀ err s', conn_do rc_tcp (CopyEnds ToDest err) s = Some s' →
          cn_crashed s' = true))
  ∧ (rc_tcp = true → ∃ s, rtc (conn_step rc_tcp) dialled s ∧ cn_returned s = true
       ∧ h_out (cn_half s ToDest) = ["request"] ∧ h_sent (cn_half s ToClient) = ["answer"]
       ∧ h_eof (cn_half s ToClient) = false
       ∧ ∀ s', rtc (conn_step rc_tcp) s s' → h_out (cn_half s' ToClient) = []).
Proof.
  split.
  - intros s Hr%forwarded_inv. split; [apply Hr|]. split; [|split; [|split; [apply Hr|]]].
    + intros d Hc Hd. unfold conn_do. rewrite Hc Hd.
      assert (cn_done s < 2)%nat as Hlt%Nat.ltb_lt by
        (destruct Hr as [_ Hn _]; unfold finished in Hn; destruct d; rewrite Hd in Hn;
         repeat case_match; lia).
      rewrite Hlt. eauto.
    + intros Ht s' Hs'. by apply (returned_rtc rc_tcp).
    + intros -> err s' He. unfold conn_do in He. repeat case_match; by simplify_eq.
  - intros ->. destruct (run_events (conn_do true) half_close_run dialled) as [s|] eqn:E; [|done].
    assert (cn_returned s = true ∧ h_out (cn_half s ToDest) = ["request"]
      ∧ h_sent (cn_half s ToClient) = ["answer"] ∧ h_eof (cn_half s ToClient) = false
      ∧ h_out (cn_half s ToClient) = []) as (H1 & H2 & H3 & H4 & H5)
      by (vm_compute in E; injection E as <-; done).
    exists s. split; [|repeat (split; [done|])].
    { apply (run_events_rtc (conn_do true) _ half_close_run); [by intros e x y; exists e|done]. }
    intros s' Hs'. by rewrite (returned_rtc _ _ _ Hs' H1).
Qed.

(** ** Waiting for an address (ts.Info) *)

Record InfoResult : Set := { in_IP : string; in_FQDN : string }.

(** One poll: the addresses and the name in a status, if there was one, and
    whether the deadline had passed afterwards. *)
Record status_poll : Set := { po_status : option (list string * option string); po_late : bool }.

(** The address and the name after a poll. *)
Definition polled (ip fqdn : string) (p : status_poll) : string * string :=
  match po_status p with
  | Some (ips, self) =>
      (match ips with i :: _ => i | [] => ip end,
       match self with Some n => TrimSuffix n "." | None => fqdn end)
  | None => (ip, fqdn)
  end.

(** The loop over the polls; [None] while it is still polling. *)
Fixpoint info_loop (ip fqdn : string) (ps : list status_poll) : option InfoResult :=
  match ps with
  | [] => None
  | p :: ps =>
      let '(ip, fqdn) := polled ip fqdn p in
      if (bool_decide (is_Some (po_status p)) && negb (String.eqb ip "" && String.eqb fqdn ""))
         || po_late p
      then Some {| in_IP := ip; in_FQDN := fqdn |}
      else info_loop ip fqdn ps
  end.

Definition Info (local_client : option string) (ps : list status_poll) : option (result InfoResult) :=
  match local_client with
  | Some e => Some (Err e)
  | None => Ok <$> info_loop "" "" ps
  end.

(** ** The host's own record (cmd/hostapp/main.go) *)

Definition self_record (hostname : string) (info : option InfoResult) (now : string) : AgentRecord :=
  let ip := match info with Some i => in_IP i | None => "" end in
  {| ag_ID := hostname; ag_Org := ""; ag_Hostname := hostname;
     ag_IP := if String.eqb ip "" then "100.64.0.1" else ip;
     ag_Ports := {["ui" := 8090]}; ag_Capabilities := []; ag_Version := "hostapp";
     ag_LastSeen := now |}.

(** The record is stored and refreshed at every tick; the result of a failed
    [Info] is nil. *)
Definition register_self (hostname : string) (info : result InfoResult) (now : string)
    (ticks : list string) (s : Store) : Store :=
  let i := match info with Ok i => Some i | Err _ => None end in
  foldl (λ s t, UpsertAgent t (self_record hostname i t) s) s (now :: ticks).

Lemma info_loop_ends ip fqdn ps :
  Exists (λ p, po_late p = true) ps → ∃ i, info_loop ip fqdn ps = Some i.
Proof.
  intros He. revert ip fqdn. induction He as [p ps Hp|p ps _ IH]; intros ip fqdn; cbn [info_loop].
  - rewrite Hp. destruct (polled ip fqdn p) as [ip' fqdn'].
    rewrite orb_true_r. eauto.
  - destruct (polled ip fqdn p) as [ip' fqdn']. destruct (_ || _); eauto.
Qed.

Lemma last_shift {A} (l : list A) (x y : A) : List.last (x :: l) y = List.last l x.
Proof.
  revert x y; induction l as [|z l IH]; intros x y; [done|].
  change (List.last (x :: z :: l) y) with (List.last (z :: l) y). by rewrite !IH.
Qed.

(** The host registers within the deadline of the status poll, under an
    address that is never empty, and every tick moves the time it was seen. *)
Lemma registered_self hostname lc ps now ticks s :
  Exists (λ p, po_late p = true) ps →
  ∃ info, Info lc ps = Some info
    ∧ ∃ a, GetAgent "" hostname (register_self hostname info now ticks s)
           = Some (seen (List.last ticks now) a)
      ∧ ag_IP a ≠ "" ∧ ag_LastSeen a = List.last ticks now.
Proof.
  intros Hp. destruct (info_loop_ends "" "" ps Hp) as [i Hi].
  assert (∃ info, Info lc ps = Some info) as [info Hinfo]
    by (unfold Info; destruct lc; [|rewrite Hi]; eauto).
  exists info. split; [done|]. unfold register_self.
  set (o := match info with Ok _ => _ | _ => _ end).
  exists (self_record hostname o (List.last ticks now)). split; [|split; [|done]].
  - revert now s. induction ticks as [|t ticks IH]; intros now s; [apply lookup_insert_eq|].
    rewrite last_shift. apply (IH t (UpsertAgent now (self_record hostname o now) s)).
  - unfold self_record. cbn [ag_IP].
    by destruct (String.eqb_spec (match o with Some i => in_IP i | None => "" end) "").
Qed.
