(* ===== verification/Upstream.v ===== *)
(** * What the proxy sends upstream

    The director and the transport of internal/proxy/reverse_proxy.go, composed
    with the options the host gives them in cmd/hostapp/main.go: the dialer
    and the director of the API proxy. *)

From S2P Require Import Prelude GoStrings Values NetAddr Prog.
From S2P Require Import LocalDb Settings Jobs Proxy Rbac DbManager DbHandlers Router HostApp.

Local Open Scope Z_scope.

(** ** The outgoing request *)

(** The incoming request: [url.Values] is the parsed query. *)
Record incoming : Type := {
  ic_host : string; ic_tls : bool; ic_path : string;
  ic_header : header; ic_query : gmap string (list string)
}.

(** [og_given] are the headers when the URL is chosen; for a port forward the
    director of the API proxy then replaces the server id by fallback headers. *)
Record outgoing : Type := {
  og_target : target; og_given : header; og_query : gmap string (list string)
}.

(** The control parameters are taken out of the query. *)
Definition without_control (q : gmap string (list string)) : gmap string (list string) :=
  delete "scheme" (delete "path" (delete "to" q)).

Section upstream.
Context `{UC : UnicodeCase} `{RE : RouterEnv}.

Definition present (h : header) (k : string) : bool := negb (String.eqb (TrimSpace (hGet h k)) "").

(** What the director of the API proxy reads of the headers it is given. *)
Definition director_reads (h : header) (scheme hostport sub : string) : director_in :=
  {| di_sid := TrimSpace (hGet h "X-Guild-Server-ID");
     di_preferPod := present h "X-Guild-Prefer-Pod";
     di_usePF := present h "X-Guild-Use-PortForward";
     di_scheme := scheme; di_hostport := hostport; di_sub := sub |}.

(** [Director]; [api] is the parsed address of the API server when there is an
    API proxy, and [scheme], [to], [sub], [sid] what [ServeHTTP] chose. *)
Definition Director (h : host) (api : option (string * string * string)) (ic : incoming)
    (scheme to sub sid : string) : hprog outgoing :=
  let hdr := director_headers (ic_header ic) (ic_host ic) (ic_tls ic) (ic_path ic) sid
               (bool_decide (is_Some api)) in
  do tg <- match api with
           | Some a => apiDirector h a (director_reads hdr scheme to sub)
           | None => Ret {| tg_Scheme := scheme; tg_Host := to; tg_Path := singleJoiningSlash "" sub |}
           end ;
  Ret {| og_target := tg; og_given := hdr; og_query := without_control (ic_query ic) |}.

(** The connection an outgoing request uses: the transport of the API server, the
    network of the host, or the tailnet. *)
Inductive connection : Type := ViaAPI | ViaHost | ViaTailnet.

(** [Dial]: loopback targets are dialled directly. *)
Definition proxy_dial (address : string) : connection :=
  match SplitHostPort address with
  | Some (host, _) =>
      match ParseIP host with
      | Some ip => if IsLoopback ip then ViaHost
                   else if EqualFold host "localhost" then ViaHost else ViaTailnet
      | None => if EqualFold host "localhost" then ViaHost else ViaTailnet
      end
  | None => ViaTailnet
  end.

Definition route_of (has_api : bool) (tg : target) : connection :=
  if use_api_transport has_api (tg_Path tg) then ViaAPI else proxy_dial (tg_Host tg).

(** A request through the proxy, from its target to its connection. *)
Definition proxy_request_out (h : host) (o : proxy_opts) (api : option (string * string * string))
    (ic : incoming) (r : proxy_request) : hprog (outcome + outgoing) :=
  match ServeHTTP o r with
  | Forward scheme to sub sid => do og <- Director h api ic scheme to sub sid ; Ret (inr og)
  | rej => Ret (inl rej)
  end.

(** ** Lemmas *)

Lemma without_control_lookup q k :
  without_control q !! k
  = if bool_decide (k ∈ ["to"; "path"; "scheme"]) then None else q !! k.
Proof.
  unfold without_control. case_bool_decide as Hk.
  - repeat (apply elem_of_cons in Hk as [->|Hk]); [by simplify_map_eq..|by apply elem_of_nil in Hk].
  - rewrite !lookup_delete_ne; set_solver.
Qed.

Lemma hGet_hSet h k v : hGet (hSet h k v) k = v.
Proof. unfold hGet, hSet. by rewrite lookup_insert_eq. Qed.
Lemma hGet_hSet_ne h k k' v : k ≠ k' → hGet (hSet h k v) k' = hGet h k'.
Proof. intros Hk. unfold hGet, hSet. by rewrite lookup_insert_ne. Qed.

(** The header that names the server: set by the proxy for a server route, and left
    as the client sent it otherwise. *)
Lemma director_headers_sid hd host tls path sid api :
  hGet (director_headers hd host tls path sid api) "X-Guild-Server-ID"
  = if api && negb (String.eqb sid "") then sid else hGet hd "X-Guild-Server-ID".
Proof.
  unfold director_headers. destruct (api && negb (String.eqb sid "")); [apply hGet_hSet|].
  destruct (String.eqb host ""); cbn [negb];
    (destruct (String.eqb (hGet _ "X-Forwarded-Prefix") "");
      [destruct (String.eqb (basePrefixFromPath path) ""); cbn [negb]|]);
    by rewrite ?hGet_hSet_ne.
Qed.

Lemma director_headers_proto hd host tls path sid api :
  hGet (director_headers hd host tls path sid api) "X-Forwarded-Proto"
  = if tls then "https" else "http".
Proof.
  unfold director_headers.
  destruct (api && negb (String.eqb sid ""));
    (destruct (String.eqb (hGet _ "X-Forwarded-Prefix") "");
      [destruct (String.eqb (basePrefixFromPath path) ""); cbn [negb]|]);
    first [apply hGet_hSet | by rewrite hGet_hSet_ne // hGet_hSet
          | by rewrite hGet_hSet_ne // hGet_hSet_ne // hGet_hSet].
Qed.

(** A forwarded request has an absolute path. *)
Lemma ServeHTTP_rooted o r scheme to sub sid :
  ServeHTTP o r = Forward scheme to sub sid → HasPrefix sub "/" = true.
Proof.
  unfold ServeHTTP. destruct (select_target o r) as [[[[s t] p] id]|e]; [|done].
  destruct (HasPrefix p "/") eqn:Ep; [|by rewrite orb_true_r].
  destruct (_ || _); [done|]. destruct (validate_target _ s t) as [rej|x] eqn:EV.
  - intros ->. by eapply validate_rejects in EV.
  - intros Hx. by destruct (String.eqb x "http"), (String.eqb x "https"); simplify_eq/=.
Qed.

(** Unless the headers ask for a pod, the director of the API proxy addresses the
    service they name. *)
Lemma apiDirector_service h scheme0 host0 path0 i t tg :
  di_preferPod i = false → runs (apiDirector h (scheme0, host0, path0) i) t tg →
  tg = to_service h (if String.eqb scheme0 "" then "https" else scheme0) host0 i.
Proof.
  intros Hp. unfold apiDirector. cbv zeta.
  intros (t1 & t2 & fb & -> & _ & Hr)%runs_bind.
  apply runs_bind in Hr as (t3 & t4 & pod & -> & Hpod & Hr).
  rewrite Hp in Hpod. destruct Hpod as [-> ->]. destruct Hr as [-> ->].
  rewrite join_rooted; done.
Qed.

Lemma service_route h scheme0 host0 i : route_of true (to_service h scheme0 host0 i) = ViaAPI.
Proof. done. Qed.


End upstream.

